(* ===== verification/_CoqProject ===== *)
-Q . S2P
Prelude.v
Mem.v
Bytes.v
CString.v
ListH.v
Spinlock.v
Riscv.v
Kalloc.v
Vm.v
VmSpec.v
VmUser.v
VmProc.v
VmCopy.v
VmKernel.v
VmDemo.v
Sleeplock.v
Bio.v
Log.v
LogCrash.v
LogTx.v
LogAdmit.v
Journal.v
Fs.v
FsBlock.v
FsInode.v
FsFile.v
FsWrite.v
FsDir.v
FsProps.v
Pipe.v
Kernel.v
Proc.v
File.v
FileRefs.v
ProcInv.v
ProcSleep.v
FileLog.v
FsCrash.v
Fork.v
ForkSpec.v
Initcode.v
Syscall.v
Exec.v
Sysfile.v
Grep.v
Printf.v
Console.v
Tty.v
Mkfs.v
Asm.v
Trap.v
Virtio.v
VirtioInv.v
Boot.v
BootSpec.v
User.v
Umalloc.v
Sh.v
ShPrint.v
ShRun.v
