(* ===== verification/Prelude.v ===== *)
(** * A verification library for the xv6-riscv (NTU MP2) kernel and tools

    xv6 is a small Unix in C.  This library models its kernel, and parts of its user
    programs, as Rocq functions, and proves what makes the parts correct.

    ** How the code is modelled

    A C integer is a [Z], with the wrap-around of its width written out where the code
    could reach it (see Limits).  A routine
    with effects is a function of the state monad [M S A] of this file: it returns a
    value and a state, panics, or blocks (sleeps, spins, or runs out of fuel).  [wp m
    Q s] says that [m] run in [s] returns and that [Q] holds then: no panic, no block.
    A routine runs as one step where it holds its lock throughout; where the order of
    steps of several processes matters there is a step relation over smaller pieces
    (Spinlock, LogAdmit, Pipe, ProcInv, ProcSleep, Virtio, Boot).  A crash is a cut in the list of
    disk writes made so far, followed by recovery.

    ** The parts

    - Prelude, Mem, Bytes: integers, the monad, memory, the bytes of a disk block.
    - CString: kernel/string.c.  ListH: kernel/list.h.
    - Spinlock: kernel/spinlock.c, instruction by instruction over several CPUs; its
      class [Lock.Locked] is what a routine under one lock uses.
      Sleeplock: kernel/sleeplock.c.
    - Riscv: constants of riscv.h, memlayout.h and param.h.
    - Kalloc: kernel/kalloc.c.  Vm: kernel/vm.c and the page tables of proc.c;
      VmSpec, VmUser, VmProc and VmCopy have the theorems, VmKernel those about the
      kernel's own table, VmDemo the witnesses.
    - Bio: kernel/bio.c, and the class [BlockCache], its contract towards the log.
      Log: kernel/log.c over any [BlockCache]; LogCrash, LogTx and LogAdmit have the
      theorems.  Journal: the class [Journal], the log's contract towards the file
      system, and its instance for the log.
      Fs: kernel/fs.c over any [Journal]; FsBlock, FsInode, FsFile, FsWrite, FsDir
      and FsProps have the theorems, FsCrash those about fs, log and cache together.
    - Pipe: kernel/pipe.c.
    - Kernel: the state of the whole kernel ([kern]) and the lifting of each part's
      routines to it.  Proc and Fork: kernel/proc.c.  File: kernel/file.c.
      Syscall: kernel/syscall.c and sysproc.c.  Exec: kernel/exec.c.
      Sysfile: kernel/sysfile.c and the dispatcher.
      FileRefs, ProcInv, ProcSleep, FileLog and ForkSpec have the theorems.
      Initcode: user/initcode.S and the bytes of it in proc.c.
    - Console: the rings of kernel/console.c and kernel/uart.c.  Tty: the registers of
      the uart and the two drivers together.
    - Virtio: kernel/virtio_disk.c, with the device and the interrupt as steps of
      their own; VirtioInv has the theorems.
    - Asm: a machine with the registers, and on it the instructions of trampoline.S,
      swtch.S and kernelvec.S.  Trap: kernel/trap.c on that machine.
    - Boot: entry.S, start.c, main.c and plic.c, every hart from reset to the scheduler;
      BootSpec has the theorems.
    - Mkfs: mkfs/mkfs.c, over the disk format of Fs.
    - Umalloc: user/umalloc.c.  Sh: the parser of user/sh.c; ShPrint: a printer for
      its commands, for a theorem; ShRun: runcmd and the descriptors it works on.
    - Printf: kernel/printf.c, user/printf.c, atoi.  Grep: user/grep.c.
      User: user/ulib.c, wc.c, cat.c, tee.c, and the generator of grind.c.

    ** What the theorems show

    - Storage.  A transaction is on disk as a whole or not at all, whatever crash
      happens, also during recovery (LogTx).  A file write made by one turn of
      filewrite's loop is atomic in the same sense, down to the dinode and the bytes
      found from the recovered disk alone, and reads back (FsCrash, FsProps).
      The cache refines a disk with locked blocks (Bio).  Block allocation, directory
      lookup and insertion, and path splitting do what they promise (FsProps).
      Admission keeps transactions within the log, and filewrite within its share
      (LogAdmit, FileLog).
    - Memory.  Pages handed out are distinct and intact (Kalloc); growth, fork's copy
      and the release of address spaces are exact, on the error paths too, with no
      leak (VmUser, VmProc); copies to and from user space touch only pages the
      process may use (VmCopy).
    - Boot.  All harts get to the scheduler in any order of their steps, never before
      the kernel is initialised, each on its own stack with paging and interrupts on;
      the first process holds initcode (BootSpec), which calls exec of /init
      (Initcode).
    - Processes.  fork makes an exact copy or leaves everything as it was, and fails
      only for want of a table entry or of pages (ForkSpec).
    - Concurrency.  Mutual exclusion (Spinlock); the invariant of the process table
      under any interleaving (ProcInv); no lost wakeup (ProcSleep, Pipe, where the
      one exception is a writer killed in the middle of its call); reference counts
      of open files (FileRefs).
    - The machine.  A trap from user space, through the trampoline and trap.c, puts the
      program's registers into the trap frame and resumes it with what the handler or
      the system call left there, or ends it; an interrupt of kernel code leaves
      no trace; a thread switched away continues where it was (Trap, Asm).  Requests
      to the disk, in any order of driver, device and interrupt, move the right data
      and do not get stuck, and the rings and descriptors keep their types (VirtioInv).
    - The first file system.  mkfs leaves an image with the layout and the invariants
      that the theorems about Fs start from, and with the files on it (Mkfs).
    - User space.  Blocks from malloc are disjoint and inside the process (Umalloc).
      The shell's parser ends on every line and reads back every command that is
      written out (Sh, ShPrint); running a line does what the command means,
      whichever system calls fail (ShRun).
    - Devices and tools.  The console and the uart together are a line-editing terminal
      that sends what it accepts once and in order (Console, Tty); the matcher of grep
      accepts its language (Grep); wc, cat and tee do not depend on how reads cut their
      input (User); number formatting (Printf); lists and strings (ListH, CString).

    Five theorems show defects: [LogAdmit.log_admission_gap],
    [Pipe.pipe_kill_loses_wakeup], [Printf.kprintint_exact],
    [Umalloc.malloc_overflow] and, in its part about the root directory,
    [Mkfs.mkfs_image].

    ** Parameters

    [swtch] (assembly) is an argument of the scheduler, [Devices] the table of device
    drivers, [KernelImage] and [KernelObjects] addresses that the linker chooses.  The
    registers of the uart and of the disk answer with what an argument says; for boot
    the disk must identify itself and accept the driver, and memory must have 181
    pages after the kernel.  The translation of addresses and what trap.c calls are
    functions: device handlers and the scheduler leave the trap frame, or the stack of
    the interrupted thread, alone; a system call may change the frame, the page table
    and [killed], or not return.  The host's file calls under mkfs may fail.  Whether
    the kernel grants memory to malloc, and whether fork, open and pipe succeed for
    the shell, are arbitrary.

    ** Fuel

    Loops that are not structural take fuel computed from their bound: the number of
    entries of a table, of bytes or blocks to go, of levels of a page table, 64 for
    the digits of a 64-bit number, the units of the heap for the free list, the
    characters of the line for the parser.  A loop of [M] without fuel blocks, and the
    theorems stated with [wp] exclude it, so the fuel is enough.

    ** Limits

    - Exec, Syscall and Sysfile are definitions only, as are exit and wait as wholes;
      the theorems about processes under concurrency are about the field changes those
      routines make (Proc) under the step relations of ProcInv and ProcSleep.
    - ForkSpec is about a fork that no other process interferes with.  In Boot a step
      of a hart is one of the calls main makes, and every hart sees memory as it is.
    - FsCrash is about one process writing to an inode already in memory, with an
      idle log; concurrent transactions are the matter of LogAdmit, which counts
      blocks and does not follow their contents.
    - Asm has memory cells of one register each, at their addresses, and no fences;
      the code of C functions between the assembly routines may change registers as
      the calling convention allows.
    - The shell's processes run one after the other, child first; ShRun is about
      which programs start with which descriptors, not about the bytes in pipes.
    - A signed overflow, which C leaves undefined, wraps.  Counters that cannot come near
      their width are unbounded: the nesting of push_off, the operations outstanding and
      the blocks in the log.  The theorems about pids and about references to
      files and inodes say how many of them may be given out before an int overflows.
    - Virtio is about clients that keep to the buffer cache's rules, one call at a time
      for a buffer and for a block, with block numbers below 2^31.
    - Static variables are 0 at reset; theorems that start there say so (Kalloc, Virtio,
      BootSpec).

    ** Not modelled

    - slab.c has stubs that print a message, debug.c a flag that a system call turns;
      the messages of [debug] appear in Boot only.
    - The other small user programs (sequences of system calls) and the test programs,
      whose effect is what the system calls do; of init, the descriptors it opens; of
      wc, cat, tee and grep, not the part of main that opens the files.
    - The prompt and the cd command of the shell, and procdump.
    - The lock under printf, and panic beyond stopping. *)

From Stdlib Require Export ZArith Lia.
From stdpp Require Export base tactics option gmap strings functions list.
#[global] Open Scope Z_scope.

(** ** Machine integers

    A C integer is a [Z]; an unsigned [w]-bit value is kept in [0, 2^w) by the
    wrap-around written out at each operation that can leave the range. *)

Definition u8 (x : Z) : Z := x mod 2 ^ 8.
Definition u16 (x : Z) : Z := x mod 2 ^ 16.
Definition u32 (x : Z) : Z := x mod 2 ^ 32.
Definition u64 (x : Z) : Z := x mod 2 ^ 64.

(** The value of an [int] (two's complement, 32 bits). *)
Definition s32 (x : Z) : Z :=
  let y := x mod 2 ^ 32 in if y <? 2 ^ 31 then y else y - 2 ^ 32.

(** The value of a [short] (two's complement, 16 bits). *)
Definition s16 (x : Z) : Z :=
  let y := x mod 2 ^ 16 in if y <? 2 ^ 15 then y else y - 2 ^ 16.

(** ** Outcomes and the kernel monad

    A kernel routine runs on a state of its component.  It returns, or it calls
    [panic] (which never returns), or it blocks: it spins on a lock or sleeps on
    a channel until some other thread acts. *)

Inductive outcome (A : Type) : Type :=
  | Ret (a : A)
  | Panic (msg : string)
  | Block.
Arguments Ret {A} a.
Arguments Panic {A} msg.
Arguments Block {A}.

Definition M (S A : Type) : Type := S → outcome (A * S).

#[export] Instance M_ret {S} : MRet (M S) := λ A a s, Ret (a, s).
#[export] Instance M_bind {S} : MBind (M S) := λ A B k m s,
  match m s with
  | Ret (a, s') => k a s'
  | Panic msg => Panic msg
  | Block => Block
  end.

Definition panic {S A} (msg : string) : M S A := λ _, Panic msg.
Definition block {S A} : M S A := λ _, Block.
Definition gets {S A} (f : S → A) : M S A := λ s, Ret (f s, s).
Definition modify {S} (f : S → S) : M S unit := λ s, Ret (tt, f s).

(** [when b m] is the C statement [if(b) m;]. *)
Definition when {S} (b : bool) (m : M S unit) : M S unit :=
  if b then m else mret tt.

(** [for_range i n body] runs [body i], [body (i+1)], ..., [n] iterations. *)
Fixpoint for_range {S} (i : Z) (n : nat) (body : Z → M S unit) : M S unit :=
  match n with
  | O => mret tt
  | Datatypes.S n' => body i;; for_range (i + 1) n' body
  end.
#[global] Arguments for_range : simpl never.

(** ** Total correctness

    [wp m Q s]: from [s], [m] returns (it neither panics nor blocks) and its
    result and final state satisfy [Q]. *)

Definition wp {S A} (m : M S A) (Q : A → S → Prop) (s : S) : Prop :=
  match m s with
  | Ret (a, s') => Q a s'
  | Panic _ => False
  | Block => False
  end.

(** ** Searching an array from its first element *)

Fixpoint find_idx {A} (p : A → bool) (l : list A) : option nat :=
  match l with
  | [] => None
  | x :: l' => if p x then Some O else S <$> find_idx p l'
  end.

(** [l] with every occurrence of [x] taken out. *)
Definition without {A} `{EqDecision A} (x : A) (l : list A) : list A :=
  filter (λ y, y ≠ x) l.

(** ** Tactics *)

(** Linear arithmetic with division and remainder by constants. *)
Ltac zlia := Z.div_mod_to_equations; lia.

(** Turn the boolean tests of the code into propositions. *)
Ltac bsimpl :=
  repeat match goal with
  | H : (_ && _)%bool = true |- _ => apply andb_true_iff in H as [? ?]
  | H : (_ || _)%bool = false |- _ => apply orb_false_iff in H as [? ?]
  | H : negb _ = true |- _ => apply negb_true_iff in H
  | H : negb _ = false |- _ => apply negb_false_iff in H
  | H : (_ =? _) = true |- _ => apply Z.eqb_eq in H
  | H : (_ =? _) = false |- _ => apply Z.eqb_neq in H
  | H : (_ <? _) = true |- _ => apply Z.ltb_lt in H
  | H : (_ <? _) = false |- _ => apply Z.ltb_ge in H
  | H : (_ <=? _) = true |- _ => apply Z.leb_le in H
  | H : (_ <=? _) = false |- _ => apply Z.leb_gt in H
  | H : bool_decide _ = true |- _ => apply bool_decide_eq_true in H
  | H : bool_decide _ = false |- _ => apply bool_decide_eq_false in H
  end.

(** Case analysis on the boolean test at the head of the goal's [if]. *)
Ltac case_if :=
  match goal with
  | |- context [if ?b then _ else _] => destruct b eqn:?; bsimpl
  end.

Ltac case_if_in H :=
  match type of H with
  | context [if ?b then _ else _] => destruct b eqn:?; bsimpl
  end.

Create HintDb xv6.

(** ** Lemmas: weakest preconditions *)

Section wp_lemmas.
Context {S : Type}.

Lemma wp_ret {A} (a : A) (Q : A → S → Prop) s : Q a s → wp (mret a) Q s.
Proof. done. Qed.

Lemma wp_bind {A B} (m : M S A) (k : A → M S B) Q s :
  wp m (λ a s', wp (k a) Q s') s → wp (m ≫= k) Q s.
Proof. unfold wp, mbind, M_bind. by destruct (m s) as [[a s']| |]. Qed.

Lemma wp_mono {A} (m : M S A) (Q Q' : A → S → Prop) s :
  wp m Q s → (∀ a s', Q a s' → Q' a s') → wp m Q' s.
Proof. unfold wp. destruct (m s) as [[a s']| |]; auto. Qed.

Lemma wp_gets {A} (f : S → A) (Q : A → S → Prop) s : Q (f s) s → wp (gets f) Q s.
Proof. done. Qed.

Lemma wp_modify (f : S → S) (Q : unit → S → Prop) s : Q tt (f s) → wp (modify f) Q s.
Proof. done. Qed.

Lemma wp_when b (m : M S unit) (Q : unit → S → Prop) s :
  (b = true → wp m Q s) → (b = false → Q tt s) → wp (when b m) Q s.
Proof. intros H1 H2. destruct b; [by apply H1 | by apply wp_ret, H2]. Qed.

(** The equation a total-correctness triple gives back. *)
Lemma wp_inv {A} (m : M S A) Q s : wp m Q s → ∃ a s', m s = Ret (a, s') ∧ Q a s'.
Proof. unfold wp. destruct (m s) as [[a s']| |]; naive_solver. Qed.

Lemma wp_eq {A} (m : M S A) (Q : A → S → Prop) s a s' :
  m s = Ret (a, s') → Q a s' → wp m Q s.
Proof. unfold wp. by intros ->. Qed.

(** The rule for counted loops: an invariant indexed by the counter. *)
Lemma wp_for_range (I : Z → S → Prop) (body : Z → M S unit) n : ∀ i s,
  I i s →
  (∀ j s, i ≤ j < i + Z.of_nat n → I j s → wp (body j) (λ _, I (j + 1)) s) →
  wp (for_range i n body) (λ _, I (i + Z.of_nat n)) s.
Proof.
  induction n as [|n IH]; intros i s Hi Hbody; cbn [for_range].
  - unfold wp; simpl. by rewrite Z.add_0_r.
  - apply wp_bind. eapply wp_mono; [apply Hbody; [lia|done]|].
    intros [] s' Hs'. replace (i + Z.of_nat (Datatypes.S n)) with (i + 1 + Z.of_nat n) by lia.
    apply IH; [done|]. intros j t Hj. apply Hbody. lia.
Qed.
End wp_lemmas.

Ltac wp_bind := apply wp_bind.
Ltac wp_step :=
  lazymatch goal with
  | |- wp (mret _) _ _ => apply wp_ret
  | |- wp (gets _) _ _ => apply wp_gets
  | |- wp (modify _) _ _ => apply wp_modify
  | |- wp (mbind _ _) _ _ => apply wp_bind
  | |- wp (when _ _) _ _ => apply wp_when; intros ?; bsimpl
  | |- wp (let _ := _ in _) _ _ => cbv zeta
  end.
Ltac wp_steps := repeat wp_step.

(** ** Lemmas: searching *)

Section find_idx_lemmas.
Context {A : Type} (p : A → bool).

Lemma find_idx_Some l i :
  find_idx p l = Some i ↔
  (∃ x, l !! i = Some x ∧ p x = true) ∧
  (∀ j y, (j < i)%nat → l !! j = Some y → p y = false).
Proof.
  revert i. induction l as [|x l IH]; intros i; simpl.
  { split; [done|]. intros [(y & Hy & _) _]. by destruct i. }
  destruct (p x) eqn:Hx.
  - split.
    + intros [= <-]. split; [by exists x|]. intros j y Hj. lia.
    + intros [_ Hlt]. destruct i as [|i]; [done|].
      exfalso. specialize (Hlt O x (Nat.lt_0_succ i) eq_refl). congruence.
  - rewrite fmap_Some. split.
    + intros (k & Hk & ->). apply IH in Hk as [(y & Hy & Hpy) Hlt].
      split; [by exists y|]. intros [|j] z Hj Hz; simpl in Hz; [by simplify_eq|].
      eapply Hlt; [|done]. lia.
    + intros [(y & Hy & Hpy) Hlt]. destruct i as [|i]; simpl in Hy; [congruence|].
      exists i. split; [|done]. apply IH. split; [by exists y|].
      intros j z Hj Hz. apply (Hlt (Datatypes.S j)); [lia|done].
Qed.

Lemma find_idx_None l : find_idx p l = None ↔ ∀ x, x ∈ l → p x = false.
Proof.
  induction l as [|x l IH]; simpl.
  { split; [|done]. intros _ y Hy. by apply not_elem_of_nil in Hy. }
  destruct (p x) eqn:Hx.
  - split; [done|]. intros H. rewrite (H x) in Hx; [done|constructor].
  - rewrite fmap_None, IH. split.
    + intros H y Hy. apply elem_of_cons in Hy as [->|Hy]; auto.
    + intros H y Hy. apply H. by constructor.
Qed.

Lemma find_idx_lt l i : find_idx p l = Some i → (i < length l)%nat.
Proof.
  intros H. apply find_idx_Some in H as [(x & Hx & _) _]. by eapply lookup_lt_Some.
Qed.
End find_idx_lemmas.

(** ** Lemmas: removal from a list *)

Section without_lemmas.
Context {A : Type} `{EqDecision A}.
Implicit Types (x y : A) (l : list A).

Lemma elem_of_without x y l : y ∈ without x l ↔ y ≠ x ∧ y ∈ l.
Proof. unfold without. by rewrite list_elem_of_filter. Qed.

Lemma NoDup_without x l : NoDup l → NoDup (without x l).
Proof. unfold without. by apply NoDup_filter. Qed.

Lemma without_id x l : x ∉ l → without x l = l.
Proof.
  induction l as [|y l IH]; intros Hl; [done|]. apply not_elem_of_cons in Hl as [? ?].
  unfold without. rewrite filter_cons_True by done. f_equal. by apply IH.
Qed.

Lemma without_split x l1 l2 :
  NoDup (l1 ++ x :: l2) → without x (l1 ++ x :: l2) = l1 ++ l2.
Proof.
  intros Hnd. apply NoDup_app in Hnd as (_ & H1 & H2). apply NoDup_cons in H2 as [H2 _].
  unfold without. rewrite filter_app, filter_cons_False by tauto.
  fold (without x l1) (without x l2). rewrite !without_id; [done|done|].
  intros Hin. apply (H1 _ Hin). constructor.
Qed.

Lemma length_without x l : NoDup l → x ∈ l → length l = S (length (without x l)).
Proof.
  intros Hnd Hin. apply list_elem_of_split in Hin as (l1 & l2 & ->).
  rewrite without_split by done. rewrite !length_app. simpl. lia.
Qed.
End without_lemmas.

(** ** Lemmas: machine integers *)

Lemma u8_range x : 0 ≤ u8 x < 256.
Proof. apply Z.mod_pos_bound. lia. Qed.

Lemma u16_range x : 0 ≤ u16 x < 2 ^ 16.
Proof. apply Z.mod_pos_bound. lia. Qed.

Lemma u32_range x : 0 ≤ u32 x < 2 ^ 32.
Proof. apply Z.mod_pos_bound. lia. Qed.

Lemma u64_range x : 0 ≤ u64 x < 2 ^ 64.
Proof. apply Z.mod_pos_bound. lia. Qed.

Lemma u8_small x : 0 ≤ x < 256 → u8 x = x.
Proof. apply Z.mod_small. Qed.

Lemma u32_small x : 0 ≤ x < 2 ^ 32 → u32 x = x.
Proof. apply Z.mod_small. Qed.

Lemma u64_small x : 0 ≤ x < 2 ^ 64 → u64 x = x.
Proof. apply Z.mod_small. Qed.

Lemma u32_u32 x : u32 (u32 x) = u32 x.
Proof. apply Z.mod_mod. lia. Qed.

Lemma s32_range x : - 2 ^ 31 ≤ s32 x < 2 ^ 31.
Proof. unfold s32. case_if; zlia. Qed.

Lemma s32_small x : - 2 ^ 31 ≤ x < 2 ^ 31 → s32 x = x.
Proof. intros H. unfold s32. case_if; zlia. Qed.

#[export] Hint Resolve u8_range u16_range u32_range u64_range s32_range : xv6.
#[export] Hint Rewrite u32_u32 : xv6.
