(* ===== verification/Mem.v ===== *)
(** * Byte-addressed memory and little-endian words

    Physical memory is a finite map from addresses to byte values; an address
    that was never written reads as zero.  RISC-V is little-endian: a [uint32]
    or [uint64] at address [a] occupies the 4 or 8 bytes from [a] on.  The
    kernel's free list, its page tables and every buffer live in this memory. *)

From S2P Require Import Prelude.

Notation mem := (gmap Z Z).

Definition ld8 (m : mem) (a : Z) : Z := u8 (default 0 (m !! a)).
Definition st8 (a v : Z) (m : mem) : mem := <[a := u8 v]> m.

(** [n]-byte little-endian loads and stores. *)
Fixpoint ldn (n : nat) (m : mem) (a : Z) : Z :=
  match n with
  | O => 0
  | S n' => ld8 m a + 256 * ldn n' m (a + 1)
  end.

Fixpoint stn (n : nat) (a v : Z) (m : mem) : mem :=
  match n with
  | O => m
  | S n' => stn n' (a + 1) (v / 256) (st8 a v m)
  end.

Definition ld32 (m : mem) (a : Z) : Z := ldn 4 m a.
Definition st32 (a v : Z) (m : mem) : mem := stn 4 a v m.
Definition ld64 (m : mem) (a : Z) : Z := ldn 8 m a.
Definition st64 (a v : Z) (m : mem) : mem := stn 8 a v m.

(** The [n] bytes from [a] on. *)
Fixpoint ldbytes (m : mem) (a : Z) (n : nat) : list Z :=
  match n with
  | O => []
  | S n' => ld8 m a :: ldbytes m (a + 1) n'
  end.

(** Two memories agree outside the interval [[a, a+n)]. *)
Definition agree_off (a n : Z) (m m' : mem) : Prop :=
  ∀ b, b < a ∨ a + n ≤ b → ld8 m' b = ld8 m b.

(** ** Lemmas *)

Lemma ld8_range m a : 0 ≤ ld8 m a < 256.
Proof. apply u8_range. Qed.

Lemma ld8_st8 m a v b : ld8 (st8 a v m) b = if a =? b then u8 v else ld8 m b.
Proof.
  unfold ld8, st8. case_if; subst.
  - rewrite lookup_insert_eq. simpl. unfold u8. apply Z.mod_mod. lia.
  - by rewrite lookup_insert_ne.
Qed.

Lemma ld8_st8_eq m a v : ld8 (st8 a v m) a = u8 v.
Proof. by rewrite ld8_st8, Z.eqb_refl. Qed.

Lemma ld8_st8_ne m a v b : a ≠ b → ld8 (st8 a v m) b = ld8 m b.
Proof. intros H. rewrite ld8_st8. by case_if. Qed.

Lemma ldn_range n m a : 0 ≤ ldn n m a < 256 ^ Z.of_nat n.
Proof.
  revert a. induction n as [|n IH]; intros a; [simpl; lia|].
  cbn [ldn]. specialize (IH (a + 1)). pose proof (ld8_range m a).
  rewrite Nat2Z.inj_succ, Z.pow_succ_r by lia. lia.
Qed.

Lemma ld64_range m a : 0 ≤ ld64 m a < 2 ^ 64.
Proof. apply (ldn_range 8). Qed.

Lemma ldn_ext n m m' a :
  (∀ b, a ≤ b < a + Z.of_nat n → ld8 m' b = ld8 m b) → ldn n m' a = ldn n m a.
Proof.
  revert a. induction n as [|n IH]; intros a H; [done|]. cbn [ldn].
  rewrite H by lia. rewrite IH; [done|]. intros b Hb. apply H. lia.
Qed.

Lemma ld8_stn n a v m b :
  b < a ∨ a + Z.of_nat n ≤ b → ld8 (stn n a v m) b = ld8 m b.
Proof.
  revert a v m. induction n as [|n IH]; intros a v m H; [done|]. cbn [stn].
  rewrite IH by lia. apply ld8_st8_ne. lia.
Qed.

Lemma ldn_stn_ne n k a v m b :
  b + Z.of_nat n ≤ a ∨ a + Z.of_nat k ≤ b → ldn n (stn k a v m) b = ldn n m b.
Proof. intros H. apply ldn_ext. intros c Hc. apply ld8_stn. lia. Qed.

Lemma ldn_stn_eq n a v m : ldn n (stn n a v m) a = v mod 256 ^ Z.of_nat n.
Proof.
  revert a v m. induction n as [|n IH]; intros a v m; [by rewrite Z.mod_1_r|].
  cbn [ldn stn]. rewrite IH, ld8_stn by lia. rewrite ld8_st8_eq.
  rewrite Nat2Z.inj_succ, Z.pow_succ_r by lia. unfold u8.
  rewrite (Z.rem_mul_r v 256) by lia. done.
Qed.

Lemma ld64_st64_eq a v m : ld64 (st64 a v m) a = u64 v.
Proof. apply (ldn_stn_eq 8). Qed.

Lemma ld64_st64_ne a v m b : b + 8 ≤ a ∨ a + 8 ≤ b → ld64 (st64 a v m) b = ld64 m b.
Proof. intros H. apply (ldn_stn_ne 8 8). lia. Qed.

Lemma ld8_st64_ne a v m b : b < a ∨ a + 8 ≤ b → ld8 (st64 a v m) b = ld8 m b.
Proof. intros H. apply (ld8_stn 8). lia. Qed.

Lemma ld64_ext m m' a :
  (∀ b, a ≤ b < a + 8 → ld8 m' b = ld8 m b) → ld64 m' a = ld64 m a.
Proof. apply (ldn_ext 8). Qed.

Lemma ld64_zero m a : (∀ b, a ≤ b < a + 8 → ld8 m b = 0) → ld64 m a = 0.
Proof.
  intros H. rewrite <- (ld64_ext m ∅ a); [done|].
  intros b Hb. rewrite H by done. done.
Qed.

Lemma length_ldbytes m a n : length (ldbytes m a n) = n.
Proof. revert a. induction n; intros a; simpl; congruence. Qed.

Lemma lookup_ldbytes m a n i :
  (i < n)%nat → ldbytes m a n !! i = Some (ld8 m (a + Z.of_nat i)).
Proof.
  revert a i. induction n as [|n IH]; intros a i Hi; [lia|].
  destruct i as [|i]; simpl; [by rewrite Z.add_0_r|].
  rewrite IH by lia. do 2 f_equal. lia.
Qed.

Lemma ldbytes_ext m m' a n :
  (∀ b, a ≤ b < a + Z.of_nat n → ld8 m' b = ld8 m b) → ldbytes m' a n = ldbytes m a n.
Proof.
  revert a. induction n as [|n IH]; intros a H; [done|]. simpl.
  rewrite H by lia. f_equal. apply IH. intros b Hb. apply H. lia.
Qed.

Lemma agree_off_trans a n m1 m2 m3 :
  agree_off a n m1 m2 → agree_off a n m2 m3 → agree_off a n m1 m3.
Proof. intros H1 H2 b Hb. by rewrite H2, H1. Qed.

#[export] Hint Resolve ld8_range ld64_range agree_off_trans : xv6.
