(* ===== verification/Bytes.v ===== *)
(** * Byte arrays: the contents of disk blocks

    A block, or any array of [uchar] the kernel casts to a struct, is a list of
    byte values.  Fields are read and written little-endian at their offset. *)

From S2P Require Import Prelude.

Module Bytes.

Notation bytes := (list Z).

(** [n] bytes of [v], least significant first, and back. *)
Fixpoint le_bytes (n : nat) (v : Z) : list Z :=
  match n with
  | O => []
  | S n' => v mod 256 :: le_bytes n' (v / 256)
  end.

Fixpoint le_val (l : list Z) : Z :=
  match l with
  | [] => 0
  | b :: l' => b + 256 * le_val l'
  end.

(** [n] bytes at offset [off], and their replacement. *)
Definition sub_bytes (off : Z) (n : nat) (l : bytes) : list Z := take n (drop (Z.to_nat off) l).
Definition put_bytes (off : Z) (bs : list Z) (l : bytes) : bytes :=
  list_inserts (Z.to_nat off) bs l.

Definition get8 (l : bytes) (off : Z) : Z := default 0 (l !! Z.to_nat off).
Definition put8 (off v : Z) (l : bytes) : bytes := <[Z.to_nat off := v mod 256]> l.
Definition get16 (l : bytes) (off : Z) : Z := le_val (sub_bytes off 2 l).
Definition put16 (off v : Z) (l : bytes) : bytes := put_bytes off (le_bytes 2 v) l.
Definition get32 (l : bytes) (off : Z) : Z := le_val (sub_bytes off 4 l).
Definition put32 (off v : Z) (l : bytes) : bytes := put_bytes off (le_bytes 4 v) l.

(** ** Lemmas *)

Lemma length_le_bytes n v : length (le_bytes n v) = n.
Proof. revert v. induction n; intros v; simpl; [done|]. by rewrite IHn. Qed.

Lemma le_val_bytes n v : le_val (le_bytes n v) = v mod 256 ^ Z.of_nat n.
Proof.
  revert v. induction n as [|n IH]; intros v; cbn [le_bytes le_val]; [by rewrite Z.mod_1_r|].
  rewrite IH, Nat2Z.inj_succ, Z.pow_succ_r by lia.
  rewrite (Z.rem_mul_r v 256) by lia. done.
Qed.

Lemma length_put_bytes off bs l : length (put_bytes off bs l) = length l.
Proof. apply length_inserts. Qed.

Lemma length_put8 off v l : length (put8 off v l) = length l.
Proof. apply length_insert. Qed.

Lemma lookup_sub_bytes off n l i :
  0 ≤ off → (i < n)%nat → sub_bytes off n l !! i = l !! (Z.to_nat off + i)%nat.
Proof. intros Ho Hi. unfold sub_bytes. by rewrite lookup_take_lt, lookup_drop. Qed.

Lemma sub_bytes_ge off n l i : (n ≤ i)%nat → sub_bytes off n l !! i = None.
Proof. intros Hi. apply lookup_ge_None_2. unfold sub_bytes. rewrite length_take. lia. Qed.

(** What was put is read back. *)
Lemma sub_put_eq off bs l :
  0 ≤ off → off + Z.of_nat (length bs) ≤ Z.of_nat (length l) →
  sub_bytes off (length bs) (put_bytes off bs l) = bs.
Proof.
  intros Ho Hl. apply list_eq. intros i. destruct (decide (i < length bs)%nat) as [Hi|Hi].
  - rewrite lookup_sub_bytes by lia. unfold put_bytes.
    rewrite list_lookup_inserts by lia. f_equal. lia.
  - rewrite sub_bytes_ge by lia. by rewrite lookup_ge_None_2 by lia.
Qed.

(** Bytes elsewhere are kept. *)
Lemma sub_put_ne off bs l off' n :
  0 ≤ off → 0 ≤ off' →
  off' + Z.of_nat n ≤ off ∨ off + Z.of_nat (length bs) ≤ off' →
  sub_bytes off' n (put_bytes off bs l) = sub_bytes off' n l.
Proof.
  intros Ho Ho' Hd. apply list_eq. intros i. destruct (decide (i < n)%nat) as [Hi|Hi].
  - rewrite !lookup_sub_bytes by lia. unfold put_bytes.
    destruct (decide (Z.to_nat off' + i < Z.to_nat off)%nat).
    + rewrite list_lookup_inserts_lt by lia. done.
    + rewrite list_lookup_inserts_ge by lia. done.
  - by rewrite !sub_bytes_ge by lia.
Qed.

Lemma get32_put32_eq off v l :
  0 ≤ off → off + 4 ≤ Z.of_nat (length l) → get32 (put32 off v l) off = u32 v.
Proof.
  intros Ho Hl. unfold get32, put32. rewrite <- (length_le_bytes 4 v) at 1.
  rewrite sub_put_eq by (rewrite ?length_le_bytes; lia). apply (le_val_bytes 4).
Qed.

Lemma get32_put32_ne off v l off' :
  0 ≤ off → 0 ≤ off' → off' + 4 ≤ off ∨ off + 4 ≤ off' →
  get32 (put32 off v l) off' = get32 l off'.
Proof.
  intros Ho Ho' Hd. unfold get32, put32. rewrite sub_put_ne; [done|done|done|].
  rewrite length_le_bytes. lia.
Qed.

Lemma get16_put16_eq off v l :
  0 ≤ off → off + 2 ≤ Z.of_nat (length l) → get16 (put16 off v l) off = u16 v.
Proof.
  intros Ho Hl. unfold get16, put16. rewrite <- (length_le_bytes 2 v) at 1.
  rewrite sub_put_eq by (rewrite ?length_le_bytes; lia). apply (le_val_bytes 2).
Qed.

Lemma length_put32 off v l : length (put32 off v l) = length l.
Proof. apply length_put_bytes. Qed.

Lemma length_put16 off v l : length (put16 off v l) = length l.
Proof. apply length_put_bytes. Qed.

Lemma get8_put8_eq off v l :
  0 ≤ off < Z.of_nat (length l) → get8 (put8 off v l) off = v mod 256.
Proof. intros Ho. unfold get8, put8. rewrite list_lookup_insert_eq by lia. done. Qed.

Lemma get8_put8_ne off v l off' :
  0 ≤ off → 0 ≤ off' → off ≠ off' → get8 (put8 off v l) off' = get8 l off'.
Proof. intros Ho Ho' Hne. unfold get8, put8. rewrite list_lookup_insert_ne by lia. done. Qed.

Lemma get16_put_ne off bs l off' :
  0 ≤ off → 0 ≤ off' → off' + 2 ≤ off ∨ off + Z.of_nat (length bs) ≤ off' →
  get16 (put_bytes off bs l) off' = get16 l off'.
Proof. intros Ho Ho' Hd. unfold get16. by rewrite sub_put_ne. Qed.

Lemma get32_put_ne off bs l off' :
  0 ≤ off → 0 ≤ off' → off' + 4 ≤ off ∨ off + Z.of_nat (length bs) ≤ off' →
  get32 (put_bytes off bs l) off' = get32 l off'.
Proof. intros Ho Ho' Hd. unfold get32. by rewrite sub_put_ne. Qed.

(** Arrays of 32-bit words at [o]: the words [f i], for the indices [i] of [l]. *)
Definition put32s (o : Z) (f : Z → Z) (l : list Z) (d : bytes) : bytes :=
  foldl (λ d i, put32 (o + 4 * i) (f i) d) d l.

Lemma length_put32s o f l d : length (put32s o f l d) = length d.
Proof.
  unfold put32s. revert d. induction l as [|i l IH]; intros d; [done|]. simpl. by rewrite IH, length_put32.
Qed.

Lemma sub_put32s_out o f l d off n :
  0 ≤ o → 0 ≤ off → (∀ i, i ∈ l → 0 ≤ i ∧ (off + Z.of_nat n ≤ o + 4 * i ∨ o + 4 * i + 4 ≤ off)) →
  sub_bytes off n (put32s o f l d) = sub_bytes off n d.
Proof.
  intros Ho Hoff. unfold put32s. revert d. induction l as [|i l IH]; intros d Hl; [done|]. simpl.
  destruct (Hl i) as [? ?]; [set_solver|]. rewrite IH by set_solver. unfold put32.
  apply sub_put_ne; [lia|lia|]. rewrite length_le_bytes. lia.
Qed.

Lemma get32_put32s_in o f l d i :
  0 ≤ o → NoDup l → i ∈ l → (∀ j, j ∈ l → 0 ≤ j) → o + 4 * i + 4 ≤ Z.of_nat (length d) →
  get32 (put32s o f l d) (o + 4 * i) = u32 (f i).
Proof.
  intros Ho. unfold put32s. revert d. induction l as [|j l IH]; intros d Hnd Hi Hl Hd; [by apply elem_of_nil in Hi|].
  apply NoDup_cons in Hnd as [Hj Hnd]. simpl. destruct (decide (i = j)) as [->|Hne].
  - assert (0 ≤ j) by (apply Hl; set_solver).
    fold (put32s o f l (put32 (o + 4 * j) (f j) d)). unfold get32.
    rewrite (sub_put32s_out o f l); [by apply get32_put32_eq; lia|lia|lia|]. intros k Hk.
    assert (0 ≤ k) by (apply Hl; set_solver). assert (k ≠ j) by set_solver. lia.
  - apply IH; [done|set_solver|set_solver|]. by rewrite length_put32.
Qed.

End Bytes.
