(* ===== verification/CString.v ===== *)
(** * kernel/string.c: byte and string routines

    Pointers are addresses of [Mem]; the loops are the source's loops, with the
    number of iterations left as a [nat].  [strlen] has no bound in C, so it
    carries fuel and returns [None] when the fuel runs out. *)

From S2P Require Import Prelude Mem.

Module CString.

(** [memset]: the loop over [cdst[i] = c]. *)
Fixpoint memset_from (dst c i : Z) (k : nat) (m : mem) : mem :=
  match k with
  | O => m
  | S k' => memset_from dst c (i + 1) k' (st8 (dst + i) c m)
  end.

Definition memset (dst c n : Z) (m : mem) : mem := memset_from dst c 0 (Z.to_nat n) m.

Fixpoint memcmp_loop (s1 s2 : Z) (n : nat) (m : mem) : Z :=
  match n with
  | O => 0
  | S n' =>
      if negb (ld8 m s1 =? ld8 m s2) then ld8 m s1 - ld8 m s2
      else memcmp_loop (s1 + 1) (s2 + 1) n' m
  end.

Definition memcmp (v1 v2 n : Z) (m : mem) : Z := memcmp_loop v1 v2 (Z.to_nat n) m.

(** The two copy loops of [memmove]: [*--d = *--s] and [*d++ = *s++]. *)
Fixpoint copy_down (d s : Z) (n : nat) (m : mem) : mem :=
  match n with
  | O => m
  | S n' => copy_down (d - 1) (s - 1) n' (st8 (d - 1) (ld8 m (s - 1)) m)
  end.

Fixpoint copy_up (d s : Z) (n : nat) (m : mem) : mem :=
  match n with
  | O => m
  | S n' => copy_up (d + 1) (s + 1) n' (st8 d (ld8 m s) m)
  end.

Definition memmove (dst src n : Z) (m : mem) : mem :=
  if n =? 0 then m
  else if (src <? dst) && (dst <? src + n)
  then copy_down (dst + n) (src + n) (Z.to_nat n) m
  else copy_up dst src (Z.to_nat n) m.

Definition memcpy (dst src n : Z) (m : mem) : mem := memmove dst src n m.

Fixpoint strncmp_loop (p q : Z) (n : nat) (m : mem) : Z :=
  match n with
  | O => 0
  | S n' =>
      if negb (ld8 m p =? 0) && (ld8 m p =? ld8 m q)
      then strncmp_loop (p + 1) (q + 1) n' m
      else ld8 m p - ld8 m q
  end.

Definition strncmp (p q n : Z) (m : mem) : Z := strncmp_loop p q (Z.to_nat n) m.

(** [while(n-- > 0) *s++ = 0;] *)
Fixpoint zero_fill (s : Z) (n : nat) (m : mem) : mem :=
  match n with
  | O => m
  | S n' => zero_fill (s + 1) n' (st8 s 0 m)
  end.

(** [while(n-- > 0 && ( *s++ = *t++ ) != 0); while(n-- > 0) *s++ = 0;] *)
Fixpoint strncpy_loop (s t : Z) (n : nat) (m : mem) : mem :=
  match n with
  | O => m
  | S n' =>
      let c := ld8 m t in
      let m' := st8 s c m in
      if c =? 0 then zero_fill (s + 1) n' m' else strncpy_loop (s + 1) (t + 1) n' m'
  end.

Definition strncpy (s t n : Z) (m : mem) : mem := strncpy_loop s t (Z.to_nat n) m.

(** [while(--n > 0 && ( *s++ = *t++ ) != 0); *s = 0;] *)
Fixpoint safestrcpy_loop (s t : Z) (n : nat) (m : mem) : mem :=
  match n with
  | O => st8 s 0 m
  | S n' =>
      let c := ld8 m t in
      let m' := st8 s c m in
      if c =? 0 then st8 (s + 1) 0 m' else safestrcpy_loop (s + 1) (t + 1) n' m'
  end.

Definition safestrcpy (s t n : Z) (m : mem) : mem :=
  if n <=? 0 then m else safestrcpy_loop s t (Z.to_nat (n - 1)) m.

Fixpoint strlen_loop (fuel : nat) (s n : Z) (m : mem) : option Z :=
  match fuel with
  | O => None
  | S fuel' => if ld8 m (s + n) =? 0 then Some n else strlen_loop fuel' s (n + 1) m
  end.

Definition strlen (fuel : nat) (s : Z) (m : mem) : option Z := strlen_loop fuel s 0 m.

(** ** Reference definitions *)

(** The characters of a byte list before its first NUL. *)
Fixpoint strz (l : list Z) : list Z :=
  match l with
  | [] => []
  | c :: l' => if c =? 0 then [] else c :: strz l'
  end.

(** [strncmp] on byte lists, a missing byte being NUL. *)
Fixpoint strncmp_bytes (p q : list Z) (n : nat) : Z :=
  match n with
  | O => 0
  | S n' =>
      let a := hd 0 p in
      let b := hd 0 q in
      if negb (a =? 0) && (a =? b) then strncmp_bytes (tl p) (tl q) n' else a - b
  end.

(** The [n] bytes [strncpy] leaves: the string, cut or padded with NULs. *)
Definition strncpy_bytes (t : list Z) (n : nat) : list Z := resize n 0 (take n (strz t)).

(** ** Lemmas *)

Lemma memset_from_spec k : ∀ dst c i m a,
  ld8 (memset_from dst c i k m) a =
  if (dst + i <=? a) && (a <? dst + i + Z.of_nat k) then u8 c else ld8 m a.
Proof.
  induction k as [|k IH]; intros dst c i m a; cbn [memset_from].
  - destruct (_ && _) eqn:E; [bsimpl; lia|done].
  - rewrite IH, ld8_st8.
    destruct (dst + (i + 1) <=? a) eqn:E1, (a <? dst + (i + 1) + Z.of_nat k) eqn:E2,
      (dst + i =? a) eqn:E3, (dst + i <=? a) eqn:E4,
      (a <? dst + i + Z.of_nat (S k)) eqn:E5; bsimpl; simpl; done || lia.
Qed.

Lemma memset_spec dst c n m a :
  0 ≤ n →
  ld8 (memset dst c n m) a =
  if (dst <=? a) && (a <? dst + n) then u8 c else ld8 m a.
Proof.
  intros Hn. unfold memset. rewrite memset_from_spec, Z2Nat.id, Z.add_0_r by done. done.
Qed.

Lemma memset_in dst c n m a : dst ≤ a < dst + n → ld8 (memset dst c n m) a = u8 c.
Proof.
  intros H. rewrite memset_spec by lia.
  rewrite (proj2 (Z.leb_le _ _)), (proj2 (Z.ltb_lt _ _)) by lia. done.
Qed.

Lemma memset_out dst c n m a :
  0 ≤ n → a < dst ∨ dst + n ≤ a → ld8 (memset dst c n m) a = ld8 m a.
Proof. intros Hn H. rewrite memset_spec by lia. case_if; [lia|done]. Qed.

Lemma copy_up_spec n : ∀ d s m a,
  d ≤ s ∨ s + Z.of_nat n ≤ d →
  ld8 (copy_up d s n m) a =
  if (d <=? a) && (a <? d + Z.of_nat n) then ld8 m (s + (a - d)) else ld8 m a.
Proof.
  induction n as [|n IH]; intros d s m a H; cbn [copy_up].
  - case_if; [lia|done].
  - rewrite IH by lia. rewrite !ld8_st8.
    destruct ((d + 1 <=? a) && (a <? d + 1 + Z.of_nat n)) eqn:E1; bsimpl.
    + rewrite (proj2 (Z.leb_le d a)), (proj2 (Z.ltb_lt a _)) by lia. simpl.
      case_if; [lia|]. f_equal. lia.
    + destruct (d =? a) eqn:E2; bsimpl.
      * subst. rewrite (proj2 (Z.leb_le _ _)), (proj2 (Z.ltb_lt _ _)) by lia. simpl.
        rewrite Z.sub_diag, Z.add_0_r. apply u8_small, ld8_range.
      * case_if; [|done]. apply andb_false_iff in E1 as [E1|E1]; bsimpl; lia.
Qed.

Lemma copy_down_spec n : ∀ d s m a,
  s ≤ d ∨ d ≤ s - Z.of_nat n →
  ld8 (copy_down d s n m) a =
  if (d - Z.of_nat n <=? a) && (a <? d) then ld8 m (s - (d - a)) else ld8 m a.
Proof.
  induction n as [|n IH]; intros d s m a H; cbn [copy_down].
  - case_if; [lia|done].
  - rewrite IH by lia. rewrite !ld8_st8.
    destruct ((d - 1 - Z.of_nat n <=? a) && (a <? d - 1)) eqn:E1; bsimpl.
    + rewrite (proj2 (Z.leb_le _ a)), (proj2 (Z.ltb_lt a _)) by lia. simpl.
      case_if; [lia|]. f_equal. lia.
    + destruct (d - 1 =? a) eqn:E2; bsimpl.
      * subst. rewrite (proj2 (Z.leb_le _ _)), (proj2 (Z.ltb_lt _ _)) by lia. simpl.
        replace (s - (d - (d - 1))) with (s - 1) by lia. apply u8_small, ld8_range.
      * case_if; [|done]. apply andb_false_iff in E1 as [E1|E1]; bsimpl; lia.
Qed.

Lemma memmove_at dst src n m a :
  0 ≤ n →
  ld8 (memmove dst src n m) a =
  if (dst <=? a) && (a <? dst + n) then ld8 m (src + (a - dst)) else ld8 m a.
Proof.
  intros Hn. unfold memmove. case_if.
  - subst. case_if; [lia|done].
  - destruct ((src <? dst) && (dst <? src + n)) eqn:E; bsimpl.
    + rewrite copy_down_spec, !Z2Nat.id by lia.
      replace (dst + n - n) with dst by lia. case_if; f_equal; lia.
    + rewrite copy_up_spec, !Z2Nat.id; [done|lia|].
      rewrite Z2Nat.id by lia. apply andb_false_iff in E as [E|E]; bsimpl; lia.
Qed.

Lemma memmove_in dst src n m a :
  dst ≤ a < dst + n → ld8 (memmove dst src n m) a = ld8 m (src + (a - dst)).
Proof.
  intros H. rewrite memmove_at by lia.
  rewrite (proj2 (Z.leb_le _ _)), (proj2 (Z.ltb_lt _ _)) by lia. done.
Qed.

Lemma memmove_out dst src n m a :
  0 ≤ n → a < dst ∨ dst + n ≤ a → ld8 (memmove dst src n m) a = ld8 m a.
Proof. intros Hn H. rewrite memmove_at by lia. case_if; [lia|done]. Qed.

Lemma strncmp_loop_bytes n : ∀ p q m,
  strncmp_loop p q n m = strncmp_bytes (ldbytes m p n) (ldbytes m q n) n.
Proof. induction n as [|n IH]; intros p q m; simpl; [done|]. by rewrite IH. Qed.

Lemma strncmp_bytes_strz n : ∀ p q,
  length p = n → length q = n → strncmp_bytes p q n = 0 ↔ strz p = strz q.
Proof.
  induction n as [|n IH]; intros [|a p] [|b q] Hp Hq; simplify_eq/=; [done|].
  destruct (a =? 0) eqn:Ea, (b =? 0) eqn:Eb, (a =? b) eqn:Eab; bsimpl; simpl; subst;
    try (rewrite IH by done); split; intros H; try done; simplify_eq; try lia; congruence.
Qed.

Lemma zero_fill_spec n : ∀ s m a,
  ld8 (zero_fill s n m) a = if (s <=? a) && (a <? s + Z.of_nat n) then 0 else ld8 m a.
Proof.
  induction n as [|n IH]; intros s m a; cbn [zero_fill].
  - case_if; [lia|done].
  - rewrite IH, ld8_st8.
    destruct (s + 1 <=? a) eqn:E1, (a <? s + 1 + Z.of_nat n) eqn:E2, (s =? a) eqn:E3,
      (s <=? a) eqn:E4, (a <? s + Z.of_nat (S n)) eqn:E5; bsimpl; simpl; done || lia.
Qed.

Lemma ldbytes_zero_fill n s m : ldbytes (zero_fill s n m) s n = replicate n 0.
Proof.
  apply list_eq_same_length with n; rewrite ?length_ldbytes, ?length_replicate; try done.
  intros i x y Hi Hx Hy. rewrite lookup_ldbytes in Hx by done.
  rewrite lookup_replicate_2 in Hy by done. rewrite zero_fill_spec in Hx.
  rewrite (proj2 (Z.leb_le _ _)), (proj2 (Z.ltb_lt _ _)) in Hx by lia. naive_solver.
Qed.

Lemma strncpy_loop_out n : ∀ s t m a,
  a < s ∨ s + Z.of_nat n ≤ a → ld8 (strncpy_loop s t n m) a = ld8 m a.
Proof.
  induction n as [|n IH]; intros s t m a H; cbn [strncpy_loop]; [done|]. case_if.
  - rewrite zero_fill_spec. case_if; [lia|]. apply ld8_st8_ne. lia.
  - rewrite IH by lia. apply ld8_st8_ne. lia.
Qed.

Lemma strncpy_loop_bytes n : ∀ s t m,
  s + Z.of_nat n ≤ t ∨ t + Z.of_nat n ≤ s →
  ldbytes (strncpy_loop s t n m) s n = strncpy_bytes (ldbytes m t n) n.
Proof.
  unfold strncpy_bytes.
  induction n as [|n IH]; intros s t m H; [done|].
  cbn [strncpy_loop ldbytes strz]. cbv zeta. destruct (ld8 m t =? 0) eqn:E; bsimpl.
  - rewrite zero_fill_spec. case_if; [lia|]. rewrite ld8_st8_eq, E.
    rewrite ldbytes_zero_fill. done.
  - rewrite strncpy_loop_out by lia. rewrite ld8_st8_eq, u8_small by apply ld8_range.
    rewrite IH by lia. cbn [take resize]. f_equal. f_equal. f_equal. f_equal.
    apply ldbytes_ext. intros b Hb. apply ld8_st8_ne. lia.
Qed.

Lemma strlen_loop_enough fuel : ∀ s n k m,
  (∀ i, n ≤ i < k → ld8 m (s + i) ≠ 0) → ld8 m (s + k) = 0 → n ≤ k →
  (Z.to_nat (k - n) < fuel)%nat →
  strlen_loop fuel s n m = Some k.
Proof.
  induction fuel as [|fuel IH]; intros s n k m Hnz Hz Hle Hf; [lia|]. cbn [strlen_loop].
  destruct (decide (n = k)) as [->|Hne]; [by rewrite Hz|].
  case_if; [exfalso; apply (Hnz n); [lia|done]|].
  apply IH; try done; try lia. intros i Hi. apply Hnz. lia.
Qed.

Lemma safestrcpy_loop_spec n : ∀ s t m,
  s + Z.of_nat n < t ∨ t + Z.of_nat n ≤ s →
  strz (ldbytes (safestrcpy_loop s t n m) s (S n)) = strz (ldbytes m t n) ∧
  (∀ a, a < s ∨ s + Z.of_nat n < a → ld8 (safestrcpy_loop s t n m) a = ld8 m a).
Proof.
  induction n as [|n IH]; intros s t m H; cbn [safestrcpy_loop].
  - split; [simpl; by rewrite ld8_st8_eq|]. intros a Ha. apply ld8_st8_ne. lia.
  - cbv zeta. destruct (ld8 m t =? 0) eqn:E; bsimpl.
    + split.
      * cbn [ldbytes strz]. rewrite ld8_st8_ne, ld8_st8_eq, E by lia. done.
      * intros a Ha. rewrite !ld8_st8_ne by lia. done.
    + destruct (IH (s + 1) (t + 1) (st8 s (ld8 m t) m)) as [Hs Ho]; [lia|]. split.
      * change (ldbytes ?m s (S (S n))) with (ld8 m s :: ldbytes m (s + 1) (S n)).
        cbn [strz]. rewrite Hs, Ho, ld8_st8_eq, u8_small by (apply ld8_range || lia).
        cbn [ldbytes strz]. case_if; [lia|]. f_equal. f_equal.
        apply ldbytes_ext. intros b Hb. apply ld8_st8_ne. lia.
      * intros a Ha. rewrite Ho by lia. apply ld8_st8_ne. lia.
Qed.

(** ** Properties *)

(** [memmove] copies as if through a temporary buffer, whatever the
    overlap of source and destination: afterwards each byte of the destination
    is the byte the source held before the call, and no other byte changed. *)
Theorem memmove_spec dst src n m (Hn : 0 ≤ n) :
  (∀ i, 0 ≤ i < n → ld8 (memmove dst src n m) (dst + i) = ld8 m (src + i)) ∧
  agree_off dst n m (memmove dst src n m).
Proof.
  split.
  - intros i Hi. rewrite memmove_in by lia. f_equal. lia.
  - intros b Hb. apply memmove_out; lia.
Qed.

Lemma memmove_spec_witness :
  0 ≤ 3 ∧
  ((∀ i, 0 ≤ i < 3 → ld8 (memmove 11 10 3 (st8 10 7 (st8 12 9 ∅))) (11 + i) =
                     ld8 (st8 10 7 (st8 12 9 ∅)) (10 + i)) ∧
   agree_off 11 3 (st8 10 7 (st8 12 9 ∅)) (memmove 11 10 3 (st8 10 7 (st8 12 9 ∅)))).
Proof. split; [lia | apply (memmove_spec 11 10 3); lia]. Defined.

(** [strncmp] returns 0 exactly when the two strings, cut at their first
    NUL or after [n] characters, are equal. *)
Theorem strncmp_zero_iff p q n m :
  strncmp p q n m = 0 ↔
  strz (ldbytes m p (Z.to_nat n)) = strz (ldbytes m q (Z.to_nat n)).
Proof.
  unfold strncmp. rewrite strncmp_loop_bytes.
  apply strncmp_bytes_strz; apply length_ldbytes.
Qed.

(** [safestrcpy] always leaves a NUL-terminated string within the [n]
    bytes of the destination: the source's string cut to [n-1] characters; it
    writes nothing outside them. *)
Theorem safestrcpy_terminates s t n m (Hn : 0 < n) (Hdisj : s + n ≤ t ∨ t + n ≤ s) :
  strz (ldbytes (safestrcpy s t n m) s (Z.to_nat n)) =
    strz (ldbytes m t (Z.to_nat (n - 1))) ∧
  (length (strz (ldbytes m t (Z.to_nat (n - 1)))) < Z.to_nat n)%nat ∧
  agree_off s n m (safestrcpy s t n m).
Proof.
  unfold safestrcpy. case_if; [lia|].
  destruct (safestrcpy_loop_spec (Z.to_nat (n - 1)) s t m) as [H1 H2]; [lia|].
  replace (Z.to_nat n) with (S (Z.to_nat (n - 1))) at 1 by lia.
  split_and!; [done| |intros b Hb; apply H2; lia].
  assert (∀ l, (length (strz l) ≤ length l)%nat) as Hlen.
  { intros l. induction l as [|c l IH]; simpl; [lia|]. case_if; simpl; lia. }
  specialize (Hlen (ldbytes m t (Z.to_nat (n - 1)))). rewrite length_ldbytes in Hlen. lia.
Qed.

Definition witness_mem : mem := st8 100 65 (st8 101 66 (st8 102 67 ∅)).

Lemma safestrcpy_terminates_witness :
  (0 < 3 ∧ (200 + 3 ≤ 100 ∨ 100 + 3 ≤ 200)) ∧
  strz (ldbytes (safestrcpy 200 100 3 witness_mem) 200 3) = [65; 66].
Proof.
  split; [lia|].
  exact (proj1 (safestrcpy_terminates 200 100 3 witness_mem ltac:(lia) ltac:(lia))).
Defined.

End CString.
