(* ===== verification/ListH.v ===== *)
(** * kernel/list.h: circular doubly-linked lists

    The heap maps a node's address to its [next] and [prev] pointers.  Each
    inline function is the sequence of pointer reads and writes of the source.
    [is_list h head l] says that in heap [h] the circular list headed by [head]
    holds exactly the nodes [l], in order; the theorems show every operation
    implements the list operation its documentation names. *)

From S2P Require Import Prelude.

Module ListH.

(** [struct list_head], one per address. *)
Record heap := mk_heap { hnext : gmap Z Z; hprev : gmap Z Z }.

Definition nx (h : heap) (p : Z) : Z := default 0 (hnext h !! p).
Definition pv (h : heap) (p : Z) : Z := default 0 (hprev h !! p).

Definition set_next (p v : Z) (h : heap) : heap := mk_heap (<[p := v]> (hnext h)) (hprev h).
Definition set_prev (p v : Z) (h : heap) : heap := mk_heap (hnext h) (<[p := v]> (hprev h)).

(** [container_of(ptr, type, member)]: the member lies [off] bytes into the type. *)
Definition container_of (ptr off : Z) : Z := ptr - off.

Definition INIT_LIST_HEAD (head : Z) (h : heap) : heap :=
  let h := set_next head head h in
  set_prev head head h.

Definition list_add (node head : Z) (h : heap) : heap :=
  let next := nx h head in
  let h := set_prev next node h in
  let h := set_next node next h in
  let h := set_prev node head h in
  set_next head node h.

Definition list_add_tail (node head : Z) (h : heap) : heap :=
  let prev := pv h head in
  let h := set_next prev node h in
  let h := set_next node head h in
  let h := set_prev node prev h in
  set_prev head node h.

Definition list_del (node : Z) (h : heap) : heap :=
  let next := nx h node in
  let prev := pv h node in
  let h := set_prev next prev h in
  set_next prev next h.

Definition list_del_init (node : Z) (h : heap) : heap :=
  INIT_LIST_HEAD node (list_del node h).

Definition list_empty (head : Z) (h : heap) : bool := nx h head =? head.

Definition list_is_singular (head : Z) (h : heap) : bool :=
  negb (list_empty head h) && (pv h head =? nx h head).

Definition list_splice (list head : Z) (h : heap) : heap :=
  let head_first := nx h head in
  let list_first := nx h list in
  let list_last := pv h list in
  if list_empty list h then h
  else
    let h := set_next head list_first h in
    let h := set_prev list_first head h in
    let h := set_next list_last head_first h in
    set_prev head_first list_last h.

Definition list_splice_tail (list head : Z) (h : heap) : heap :=
  let head_last := pv h head in
  let list_first := nx h list in
  let list_last := pv h list in
  if list_empty list h then h
  else
    let h := set_prev head list_last h in
    let h := set_next list_last head h in
    let h := set_prev list_first head_last h in
    set_next head_last list_first h.

Definition list_splice_init (list head : Z) (h : heap) : heap :=
  INIT_LIST_HEAD list (list_splice list head h).

Definition list_splice_tail_init (list head : Z) (h : heap) : heap :=
  INIT_LIST_HEAD list (list_splice_tail list head h).

Definition list_cut_position (head_to head_from node : Z) (h : heap) : heap :=
  let head_from_first := nx h head_from in
  if list_empty head_from h then h
  else if head_from =? node then INIT_LIST_HEAD head_to h
  else
    let h := set_next head_from (nx h node) h in
    let h := set_prev (nx h head_from) head_from h in
    let h := set_prev head_to node h in
    let h := set_next node head_to h in
    let h := set_next head_to head_from_first h in
    set_prev (nx h head_to) head_to h.

Definition list_move (node head : Z) (h : heap) : heap :=
  list_add node head (list_del node h).

Definition list_move_tail (node head : Z) (h : heap) : heap :=
  list_add_tail node head (list_del node h).

Definition list_first_entry (head off : Z) (h : heap) : Z := container_of (nx h head) off.
Definition list_last_entry (head off : Z) (h : heap) : Z := container_of (pv h head) off.

(** [list_for_each]: the nodes visited, in order; [None] if the fuel runs out
    before the iterator is back at [head]. *)
Fixpoint for_each_loop (fuel : nat) (node head : Z) (h : heap) : option (list Z) :=
  match fuel with
  | O => None
  | S fuel' =>
      if node =? head then Some []
      else cons node <$> for_each_loop fuel' (nx h node) head h
  end.

Definition list_for_each (fuel : nat) (head : Z) (h : heap) : option (list Z) :=
  for_each_loop fuel (nx h head) head h.

(** [list_for_each_entry]: the same walk over the containing structures. *)
Fixpoint for_each_entry_loop (fuel : nat) (entry head off : Z) (h : heap) : option (list Z) :=
  match fuel with
  | O => None
  | S fuel' =>
      if entry + off =? head then Some []
      else cons entry <$> for_each_entry_loop fuel' (container_of (nx h (entry + off)) off) head off h
  end.

Definition list_for_each_entry (fuel : nat) (head off : Z) (h : heap) : option (list Z) :=
  for_each_entry_loop fuel (container_of (nx h head) off) head off h.

(** [list_for_each_safe] around a [body] that may change the heap. *)
Fixpoint for_each_safe_loop (fuel : nat) (body : Z → heap → heap) (node safe head : Z)
    (h : heap) : option (list Z * heap) :=
  match fuel with
  | O => None
  | S fuel' =>
      if node =? head then Some ([], h)
      else
        let h := body node h in
        '(vs, h') ← for_each_safe_loop fuel' body safe (nx h safe) head h;
        Some (node :: vs, h')
  end.

Definition list_for_each_safe (fuel : nat) (body : Z → heap → heap) (head : Z) (h : heap)
    : option (list Z * heap) :=
  let node := nx h head in
  for_each_safe_loop fuel body node (nx h node) head h.

(** [list_for_each_entry_safe]: the same over the containing structures. *)
Fixpoint for_each_entry_safe_loop (fuel : nat) (body : Z → heap → heap) (entry safe head off : Z)
    (h : heap) : option (list Z * heap) :=
  match fuel with
  | O => None
  | S fuel' =>
      if entry + off =? head then Some ([], h)
      else
        let h := body entry h in
        '(vs, h') ← for_each_entry_safe_loop fuel' body safe
                      (container_of (nx h (safe + off)) off) head off h;
        Some (entry :: vs, h')
  end.

Definition list_for_each_entry_safe (fuel : nat) (body : Z → heap → heap) (head off : Z)
    (h : heap) : option (list Z * heap) :=
  let entry := container_of (nx h head) off in
  let safe := container_of (nx h (entry + off)) off in
  for_each_entry_safe_loop fuel body entry safe head off h.

(** ** The abstract list in a heap *)

(** Consecutive nodes of [l] point at each other. *)
Fixpoint chain (h : heap) (l : list Z) : Prop :=
  match l with
  | x :: ((y :: _) as l') => nx h x = y ∧ pv h y = x ∧ chain h l'
  | _ => True
  end.

Definition is_list (h : heap) (head : Z) (l : list Z) : Prop :=
  NoDup (head :: l) ∧ chain h (head :: l ++ [head]).

(** The operations a client performs on one list, on the heap and on the
    abstract list.  [spec_op] is undefined where list.h says the behaviour is:
    adding a node that is already linked, removing one that is not. *)
Inductive lop :=
  | OAdd (node : Z)
  | OAddTail (node : Z)
  | ODel (node : Z)
  | ODelInit (node : Z)
  | OMove (node : Z)
  | OMoveTail (node : Z).

Definition run_op (hd : Z) (o : lop) (h : heap) : heap :=
  match o with
  | OAdd node => list_add node hd h
  | OAddTail node => list_add_tail node hd h
  | ODel node => list_del node h
  | ODelInit node => list_del_init node h
  | OMove node => list_move node hd h
  | OMoveTail node => list_move_tail node hd h
  end.

Definition spec_op (hd : Z) (o : lop) (l : list Z) : option (list Z) :=
  match o with
  | OAdd node => if decide (node ∈ hd :: l) then None else Some (node :: l)
  | OAddTail node => if decide (node ∈ hd :: l) then None else Some (l ++ [node])
  | ODel node | ODelInit node => if decide (node ∈ l) then Some (without node l) else None
  | OMove node => if decide (node ∈ l) then Some (node :: without node l) else None
  | OMoveTail node => if decide (node ∈ l) then Some (without node l ++ [node]) else None
  end.

Definition run_ops (hd : Z) (os : list lop) (h : heap) : heap :=
  foldl (λ h o, run_op hd o h) h os.

Fixpoint spec_ops (hd : Z) (os : list lop) (l : list Z) : option (list Z) :=
  match os with
  | [] => Some l
  | o :: os' => l' ← spec_op hd o l; spec_ops hd os' l'
  end.

(** ** Lemmas *)

Lemma nx_set_next p v h q : nx (set_next p v h) q = if p =? q then v else nx h q.
Proof.
  unfold nx, set_next; simpl. case_if; subst.
  - by rewrite lookup_insert_eq.
  - by rewrite lookup_insert_ne.
Qed.

Lemma pv_set_prev p v h q : pv (set_prev p v h) q = if p =? q then v else pv h q.
Proof.
  unfold pv, set_prev; simpl. case_if; subst.
  - by rewrite lookup_insert_eq.
  - by rewrite lookup_insert_ne.
Qed.

Lemma nx_set_prev p v h q : nx (set_prev p v h) q = nx h q.
Proof. done. Qed.

Lemma pv_set_next p v h q : pv (set_next p v h) q = pv h q.
Proof. done. Qed.

#[local] Hint Rewrite nx_set_next pv_set_prev nx_set_prev pv_set_next Z.eqb_refl : links.

Lemma chain_app h l1 l2 :
  chain h (l1 ++ l2) ↔
  chain h l1 ∧ chain h l2 ∧
  (∀ x y, last l1 = Some x → head l2 = Some y → nx h x = y ∧ pv h y = x).
Proof.
  induction l1 as [|a l1 IH]; simpl; [naive_solver|].
  destruct l1 as [|b l1]; simpl in *.
  - destruct l2 as [|c l2]; naive_solver.
  - rewrite IH. naive_solver.
Qed.

Lemma chain_cons h a l :
  chain h (a :: l) ↔ chain h l ∧ (∀ y, head l = Some y → nx h a = y ∧ pv h y = a).
Proof. destruct l; simpl; naive_solver. Qed.

Lemma head_elem (l : list Z) x : head l = Some x → x ∈ l.
Proof. destruct l; [done|]. intros [= ->]. constructor. Qed.

Lemma last_elem (l : list Z) x : last l = Some x → x ∈ l.
Proof. intros [l' ->]%last_Some. set_solver. Qed.

(** Writing the [next] of a chain's last node, or the [prev] of its first node,
    or of a node outside it, keeps the chain. *)
Lemma chain_set_next h p v l :
  NoDup l → (p ∈ l → last l = Some p) → chain h l → chain (set_next p v h) l.
Proof.
  induction l as [|x l IH]; intros Hnd Hp; [done|]. rewrite !chain_cons.
  apply NoDup_cons in Hnd as [Hx Hnd]. intros [Hc Hl]. split.
  - apply IH; [done| |done]. intros Hin. assert (p ∈ x :: l) as Hin' by set_solver.
    specialize (Hp Hin'). destruct l; [by apply not_elem_of_nil in Hin|done].
  - intros y Hy. destruct (Hl y Hy) as [H1 H2]. autorewrite with links. case_if; [|done].
    subst p. exfalso. destruct l as [|z l]; [done|].
    assert (last (z :: l) = Some x) as Hlast by (apply Hp; constructor).
    apply Hx. apply last_Some in Hlast as [l' Hl']. rewrite Hl'. set_solver.
Qed.

Lemma chain_set_prev h p v l :
  NoDup l → (p ∈ l → head l = Some p) → chain h l → chain (set_prev p v h) l.
Proof.
  induction l as [|x l IH]; intros Hnd Hp; [done|]. rewrite !chain_cons.
  apply NoDup_cons in Hnd as [Hx Hnd]. intros [Hc Hl]. split.
  - apply IH; [done| |done]. intros Hin.
    assert (Some x = Some p) as Hxp by (apply Hp; set_solver). congruence.
  - intros y Hy. destruct (Hl y Hy) as [H1 H2]. autorewrite with links. case_if; [|done].
    subst y. exfalso. apply head_elem in Hy.
    assert (Some x = Some p) as Hxp by (apply Hp; set_solver). congruence.
Qed.

(** The pointers of a list's head. *)
Lemma is_list_first h hd l : is_list h hd l → head (l ++ [hd]) = Some (nx h hd).
Proof.
  intros [_ Hc]. apply chain_cons in Hc as [_ Hc].
  destruct (l ++ [hd]) as [|y r] eqn:E; [by apply app_nil in E as [_ ?]|].
  destruct (Hc y eq_refl) as [-> _]. done.
Qed.

Lemma is_list_last h hd l : is_list h hd l → last (hd :: l) = Some (pv h hd).
Proof.
  intros [_ Hc]. rewrite app_comm_cons in Hc. apply chain_app in Hc as (_ & _ & Hc).
  destruct (last (hd :: l)) as [x|] eqn:E; [|by apply last_None in E].
  by destruct (Hc x hd eq_refl eq_refl) as [_ ->].
Qed.

Lemma is_list_NoDup_r h hd l : is_list h hd l → NoDup (l ++ [hd]).
Proof. intros [Hnd _]. by rewrite (Permutation_app_comm l [hd]). Qed.

(** Side conditions of the two framing lemmas. *)
Lemma frame_out (p : Z) (l : list Z) (o : option Z) : p ∉ l → p ∈ l → o = Some p.
Proof. done. Qed.

Lemma frame_end (p : Z) (l : list Z) (o : option Z) : o = Some p → p ∈ l → o = Some p.
Proof. done. Qed.

(** Frame a chain through the writes of an operation, the side conditions being
    that a written node is an end of the chain or lies outside it. *)
Ltac chain_frame :=
  repeat first
    [ apply chain_set_next; [done|first [apply frame_end; assumption | apply frame_out; assumption]|]
    | apply chain_set_prev; [done|first [apply frame_end; assumption | apply frame_out; assumption]|] ];
  try done.

(** Membership goals, from the membership hypotheses only. *)
Ltac msolve :=
  repeat match goal with
  | H : chain _ _ |- _ => clear H
  | H : is_list _ _ _ |- _ => clear H
  | H : NoDup _ |- _ => clear H
  | H : head _ = _ |- _ => clear H
  | H : last _ = _ |- _ => clear H
  | H : ∀ x y, _ = _ → _ = _ → _ |- _ => clear H
  | x := _ |- _ => clearbody x
  end;
  set_solver.

(** Read a pointer back through the writes of an operation. *)
Ltac links :=
  autorewrite with links;
  repeat match goal with
  | |- context [?x =? ?y] => destruct (x =? y) eqn:?; bsimpl; subst
  end;
  try done; try congruence.

Lemma init_list_head_ok hd h : is_list (INIT_LIST_HEAD hd h) hd [].
Proof.
  split; [apply NoDup_singleton|]. unfold INIT_LIST_HEAD; simpl. split_and!; links.
Qed.

Lemma list_add_ok h hd l node :
  is_list h hd l → node ∉ hd :: l → is_list (list_add node hd h) hd (node :: l).
Proof.
  intros Hl Hn. pose proof (is_list_first _ _ _ Hl) as Hf.
  pose proof (is_list_NoDup_r _ _ _ Hl) as HndR. destruct Hl as [Hnd Hc].
  apply not_elem_of_cons in Hn as [Hne Hn]. apply NoDup_cons in Hnd as [Hhd Hnd].
  split; [constructor; [set_solver|by constructor]|].
  apply chain_cons in Hc as [Hc _]. unfold list_add. set (next := nx h hd) in *. simpl.
  assert (node ∉ l ++ [hd]) by set_solver.
  assert (last (l ++ [hd]) = Some hd) by apply last_snoc.
  assert (next ≠ node) by (intros ->; by apply head_elem in Hf).
  split_and!; [links..|]. apply chain_cons. split; [chain_frame|].
  intros y Hy. assert (y = next) as -> by congruence. split; links.
Qed.

Lemma list_add_tail_ok h hd l node :
  is_list h hd l → node ∉ hd :: l → is_list (list_add_tail node hd h) hd (l ++ [node]).
Proof.
  intros Hl Hn. pose proof (is_list_last _ _ _ Hl) as Hf. destruct Hl as [Hnd Hc].
  split; [rewrite app_comm_cons, (Permutation_app_comm _ [node]); by constructor|].
  rewrite app_comm_cons in Hc. apply chain_app in Hc as (Hc & _ & _).
  unfold list_add_tail. set (prev := pv h hd) in *. rewrite <- app_assoc.
  change (hd :: l ++ [node] ++ [hd]) with ((hd :: l) ++ [node; hd]).
  assert (head (hd :: l) = Some hd) by done.
  assert (prev ≠ node) by (intros ->; by apply last_elem in Hf).
  assert (hd ≠ node) by set_solver.
  apply chain_app. split_and!; [chain_frame|simpl; split_and!; links|].
  intros x y Hx [= <-]. assert (x = prev) as -> by congruence. split; links.
Qed.

(** Disjointness facts of a ring cut in two at its head. *)
Lemma ring_split hd (l1 l2 : list Z) :
  NoDup (hd :: l1 ++ l2) →
  NoDup (hd :: l1) ∧ NoDup (l2 ++ [hd]) ∧
  (∀ x, x ∈ l2 ++ [hd] → x ∈ hd :: l1 → x = hd).
Proof.
  intros Hnd. apply NoDup_cons in Hnd as [Hhd Hnd].
  apply NoDup_app in Hnd as (H1 & Hd & H2). split_and!.
  - constructor; [set_solver|done].
  - apply NoDup_app. split_and!; [done|set_solver|apply NoDup_singleton].
  - set_solver.
Qed.

(** Linking the end of the chain [hd :: l1] to the start of [l2 ++ [hd]]. *)
Lemma chain_link h hd l1 l2 prev next :
  NoDup (hd :: l1 ++ l2) → chain h (hd :: l1) → chain h (l2 ++ [hd]) →
  last (hd :: l1) = Some prev → head (l2 ++ [hd]) = Some next →
  chain (set_next prev next (set_prev next prev h)) (hd :: (l1 ++ l2) ++ [hd]).
Proof.
  intros Hnd H1 H2 Hprev Hnext. destruct (ring_split _ _ _ Hnd) as (Hnd1 & Hnd2 & Hdisj).
  rewrite <- app_assoc, app_comm_cons. apply chain_app. split_and!.
  - apply chain_set_next; [done|by apply frame_end|]. apply chain_set_prev; [done| |done].
    intros Hin. by rewrite (Hdisj next) by (done || by apply head_elem).
  - apply chain_set_next; [done| |].
    { intros Hin. rewrite (Hdisj prev) by (done || by apply last_elem). apply last_snoc. }
    apply chain_set_prev; [done|by apply frame_end|done].
  - intros x y Hx Hy. simplify_eq. split; links.
Qed.

Lemma list_del_ok h hd l1 node l2 :
  is_list h hd (l1 ++ node :: l2) → is_list (list_del node h) hd (l1 ++ l2).
Proof.
  intros [Hnd Hc]. assert (NoDup (hd :: l1 ++ l2)) as Hnd'.
  { rewrite <- Permutation_middle in Hnd. apply NoDup_cons in Hnd as [Hhd Hnd].
    apply NoDup_cons in Hnd as [_ Hnd]. constructor; [set_solver|done]. }
  split; [done|]. rewrite <- app_assoc, app_comm_cons in Hc.
  apply chain_app in Hc as (H1 & H2 & Hlink).
  rewrite <- app_comm_cons in H2. apply chain_cons in H2 as [H2 Hlink2]. unfold list_del.
  destruct (last (hd :: l1)) as [prev|] eqn:E1; [|by apply last_None in E1].
  destruct (head (l2 ++ [hd])) as [next|] eqn:E2; [|by destruct l2].
  destruct (Hlink prev node eq_refl eq_refl) as [_ ->].
  destruct (Hlink2 next eq_refl) as [-> _]. by eapply chain_link.
Qed.

Lemma list_empty_ok h hd l : is_list h hd l → list_empty hd h = bool_decide (l = []).
Proof.
  intros Hl. pose proof (is_list_first _ _ _ Hl) as Hf. destruct Hl as [Hnd _].
  unfold list_empty. apply NoDup_cons in Hnd as [Hx _].
  destruct l as [|x l]; simplify_eq/=; [by rewrite <- Hf, Z.eqb_refl|].
  apply Z.eqb_neq. set_solver.
Qed.

Lemma list_is_singular_ok h hd l :
  is_list h hd l → list_is_singular hd h = true ↔ ∃ x, l = [x].
Proof.
  intros Hl. unfold list_is_singular. rewrite (list_empty_ok _ _ _ Hl).
  pose proof (is_list_first _ _ _ Hl) as Hf. pose proof (is_list_last _ _ _ Hl) as Hb.
  destruct Hl as [Hnd _]. destruct l as [|x l]; [simpl; naive_solver|].
  simpl in Hf. injection Hf as Hf. rewrite <- Hf.
  apply NoDup_cons in Hnd as [_ Hnd]. apply NoDup_cons in Hnd as [Hx _].
  change (last (hd :: x :: l)) with (last (x :: l)) in Hb. split.
  - intros H. bsimpl. destruct l as [|y l]; [eauto|]. exfalso. apply Hx, last_elem.
    change (last (x :: y :: l)) with (last (y :: l)) in Hb. congruence.
  - intros [z [= -> ->]]. simplify_eq/=. by rewrite <- Hb, Z.eqb_refl.
Qed.


(** A write to a node outside a list keeps the list. *)
Lemma is_list_set_next h hd l p v :
  p ∉ hd :: l → is_list h hd l → is_list (set_next p v h) hd l.
Proof.
  intros Hp [Hnd Hc]. split; [done|]. pose proof (ring_split hd [] l Hnd) as (_ & HndR & _).
  apply chain_cons in Hc as [Hc Hl]. apply chain_cons. split.
  - apply chain_set_next; [done|apply frame_out; set_solver|done].
  - intros y Hy. destruct (Hl y Hy). split; links. set_solver.
Qed.

Lemma is_list_set_prev h hd l p v :
  p ∉ hd :: l → is_list h hd l → is_list (set_prev p v h) hd l.
Proof.
  intros Hp [Hnd Hc]. split; [done|]. pose proof (ring_split hd [] l Hnd) as (_ & HndR & _).
  apply chain_cons in Hc as [Hc Hl]. apply chain_cons. split.
  - apply chain_set_prev; [done|apply frame_out; set_solver|done].
  - intros y Hy. destruct (Hl y Hy). apply head_elem in Hy. split; links. set_solver.
Qed.

Lemma is_list_init_other h hd l p :
  p ∉ hd :: l → is_list h hd l → is_list (INIT_LIST_HEAD p h) hd l.
Proof. intros Hp Hl. by apply is_list_set_prev, is_list_set_next. Qed.

(** The pieces of a non-empty list [l2] headed by [list], and of [l1] headed by
    [hd], disjoint from it. *)
Section splice.
Context (h : heap) (lst hd : Z) (l1 l2 : list Z).
Context (H1 : is_list h hd l1) (H2 : is_list h lst l2).
Context (Hnd : NoDup (hd :: lst :: l1 ++ l2)).

Lemma splice_nodup : NoDup (hd :: l2 ++ l1).
Proof.
  rewrite (Permutation_app_comm l2 l1). apply NoDup_cons in Hnd as [Hhd Hnd'].
  apply NoDup_cons in Hnd' as [_ Hnd']. constructor; [set_solver|done].
Qed.

Lemma splice_sep : hd ∉ l2 ∧ (∀ x, x ∈ l2 → x ∉ l1).
Proof.
  pose proof splice_nodup as Hs. apply NoDup_cons in Hs as [Hhd Hs].
  apply NoDup_app in Hs as (_ & Hd & _). split; [set_solver|done].
Qed.

Lemma splice_ends :
  l2 ≠ [] →
  head l2 = Some (nx h lst) ∧ last l2 = Some (pv h lst) ∧ chain h l2 ∧ NoDup l2.
Proof.
  intros Hne. pose proof (is_list_first _ _ _ H2) as Hf.
  pose proof (is_list_last _ _ _ H2) as Hb. destruct H2 as [Hnd2 Hc].
  apply chain_cons in Hc as [Hc _]. apply chain_app in Hc as (Hc & _ & _).
  apply NoDup_cons in Hnd2 as [_ Hnd2].
  destruct l2 as [|x l2']; [done|]. by simpl in *.
Qed.

Lemma list_splice_ok : is_list (list_splice lst hd h) hd (l2 ++ l1).
Proof.
  unfold list_splice. rewrite (list_empty_ok _ _ _ H2).
  case_bool_decide as He; [by rewrite He|].
  destruct (splice_ends He) as (Hf & Hb & Hc2 & Hnd2), splice_sep as [Hhd Hsep].
  pose proof (is_list_first _ _ _ H1) as Hf1. pose proof (is_list_NoDup_r _ _ _ H1) as HndR.
  destruct H1 as [_ Hc1]. apply chain_cons in Hc1 as [Hc1 _].
  set (hf := nx h hd) in *. set (lf := nx h lst) in *. set (ll := pv h lst) in *.
  pose proof (head_elem _ _ Hf1) as Hhf. pose proof (head_elem _ _ Hf) as Hlf.
  pose proof (last_elem _ _ Hb) as Hll.
  assert (hf ∉ l2) by msolve. assert (ll ∉ l1 ++ [hd]) by msolve.
  assert (lf ∉ l1 ++ [hd]) by msolve. assert (last (l1 ++ [hd]) = Some hd) by apply last_snoc.
  split; [apply splice_nodup|]. rewrite <- app_assoc. apply chain_cons. split.
  - apply chain_app. split_and!; [chain_frame..|].
    intros x y Hx Hy. simplify_eq. assert (hd ≠ ll) by msolve. split; links.
  - intros y Hy. assert (y = lf) as -> by (destruct l2; [done|]; simpl in *; congruence).
    assert (hf ≠ lf) by msolve. assert (hd ≠ ll) by msolve. split; links.
Qed.

Lemma list_splice_tail_ok : is_list (list_splice_tail lst hd h) hd (l1 ++ l2).
Proof.
  assert (NoDup (hd :: l1 ++ l2)) as Hnd'.
  { rewrite (Permutation_app_comm l1 l2). apply splice_nodup. }
  unfold list_splice_tail. rewrite (list_empty_ok _ _ _ H2).
  case_bool_decide as He; [by rewrite He, app_nil_r|].
  destruct (splice_ends He) as (Hf & Hb & Hc2 & Hnd2), splice_sep as [Hhd Hsep].
  pose proof (is_list_last _ _ _ H1) as Hb1. destruct H1 as [Hnd1 Hc1].
  rewrite app_comm_cons in Hc1. apply chain_app in Hc1 as (Hc1 & _ & _).
  set (hl := pv h hd) in *. set (lf := nx h lst) in *. set (ll := pv h lst) in *.
  pose proof (last_elem _ _ Hb1) as Hhl. pose proof (head_elem _ _ Hf) as Hlf.
  pose proof (last_elem _ _ Hb) as Hll.
  assert (hl ∉ l2) by msolve. assert (ll ∉ hd :: l1) by msolve.
  assert (lf ∉ hd :: l1) by msolve. assert (head (hd :: l1) = Some hd) by done.
  assert (hl ≠ ll) by msolve. assert (hd ≠ lf) by msolve.
  split; [done|]. rewrite <- app_assoc, app_comm_cons. apply chain_app. split_and!.
  - chain_frame.
  - apply chain_app. split_and!; [chain_frame|done|].
    intros x y Hx [= <-]. simplify_eq. split; links.
  - intros x y Hx Hy. simplify_eq.
    assert (y = lf) as -> by (destruct l2; [done|]; simpl in *; congruence). split; links.
Qed.
End splice.

Lemma list_cut_position_ok h to from l1 node l2 :
  is_list h from (l1 ++ node :: l2) → to ∉ from :: l1 ++ node :: l2 →
  is_list (list_cut_position to from node h) to (l1 ++ [node]) ∧
  is_list (list_cut_position to from node h) from l2.
Proof.
  intros Hl Hto. unfold list_cut_position. rewrite (list_empty_ok _ _ _ Hl).
  case_bool_decide as He; [by destruct l1|].
  pose proof (is_list_first _ _ _ Hl) as Hf. destruct Hl as [Hnd Hc].
  set (first := nx h from) in *. replace (l1 ++ node :: l2) with ((l1 ++ [node]) ++ l2) in *
    by (by rewrite <- app_assoc).
  apply NoDup_cons in Hnd as [Hfrom Hnd]. apply NoDup_app in Hnd as (Hnd1 & Hsep & Hnd2).
  case_if; [exfalso; msolve|].
  apply chain_cons in Hc as [Hc _]. rewrite <- app_assoc in Hc.
  apply chain_app in Hc as (Hc1 & Hc2 & Hlink).
  destruct (head (l2 ++ [from])) as [nn|] eqn:Hnn; [|by destruct l2].
  destruct (Hlink node nn (last_snoc _ _) eq_refl) as [-> _].
  assert (head (l1 ++ [node]) = Some first) as Hf'.
  { by destruct l1. }
  pose proof (head_elem _ _ Hf') as Hfe. pose proof (head_elem _ _ Hnn) as Hne.
  assert (last (l1 ++ [node]) = Some node) by apply last_snoc.
  assert (last (l2 ++ [from]) = Some from) by apply last_snoc.
  assert (from ∉ l1 ++ [node]) by msolve. assert (nn ∉ l1 ++ [node]) by msolve.
  assert (to ∉ l1 ++ [node]) by msolve. assert (to ∉ l2 ++ [from]) by msolve.
  assert (node ∉ l2 ++ [from]) by msolve. assert (first ∉ l2 ++ [from]) by msolve.
  assert (NoDup (l2 ++ [from])) by (apply NoDup_app; split_and!; [done|msolve|apply NoDup_singleton]).
  autorewrite with links.
  assert (from ∉ l2) by msolve.
  split; (split; [by constructor|]).
  - apply chain_cons. split.
    + apply chain_app. split_and!; [chain_frame|done|].
      intros x y Hx [= <-]. simplify_eq. assert (first ≠ to) by msolve.
      assert (to ≠ node) by msolve. split; links.
    + intros y Hy. assert (y = first) as -> by (destruct l1; simpl in *; congruence).
      assert (first ≠ from) by msolve. split; links.
  - apply chain_cons. split; [chain_frame|].
    intros y Hy. simplify_eq. assert (nn ≠ first) by msolve.
    assert (nn ≠ to) by msolve. assert (node ≠ from) by msolve.
    assert (to ≠ from) by msolve. split; links.
Qed.

Lemma list_del_without h hd l node :
  is_list h hd l → node ∈ l →
  is_list (list_del node h) hd (without node l) ∧ node ∉ hd :: without node l.
Proof.
  intros Hl Hin. pose proof Hl as [Hnd _]. apply list_elem_of_split in Hin as (l1 & l2 & ->).
  apply NoDup_cons in Hnd as [Hhd Hnd]. rewrite without_split by done.
  split; [by apply list_del_ok|]. apply NoDup_app in Hnd as (_ & H1 & H2).
  apply NoDup_cons in H2 as [H2 _]. set_solver.
Qed.

Lemma run_op_ok h hd o l l' :
  is_list h hd l → spec_op hd o l = Some l' → is_list (run_op hd o h) hd l'.
Proof.
  intros Hl Ho. destruct o; simpl in Ho; case_decide as Hd; simplify_eq; simpl.
  - by apply list_add_ok.
  - by apply list_add_tail_ok.
  - by apply list_del_without.
  - destruct (list_del_without _ _ _ _ Hl Hd). by apply is_list_init_other.
  - destruct (list_del_without _ _ _ _ Hl Hd). by apply list_add_ok.
  - destruct (list_del_without _ _ _ _ Hl Hd). by apply list_add_tail_ok.
Qed.

Lemma for_each_loop_ok h hd l : ∀ node fuel,
  NoDup (hd :: l) → chain h (l ++ [hd]) → head (l ++ [hd]) = Some node →
  (length l < fuel)%nat → for_each_loop fuel node hd h = Some l.
Proof.
  induction l as [|x l IH]; intros node [|fuel] Hnd Hc Hn Hf; simpl in *; try lia; simplify_eq.
  { by rewrite Z.eqb_refl. }
  apply NoDup_cons in Hnd as [Hhd Hnd]. apply NoDup_cons in Hnd as [_ Hnd].
  case_if; [set_solver|]. apply chain_cons in Hc as [Hc Hx].
  rewrite (IH (nx h node)); [done|constructor; set_solver|done| |lia].
  destruct (head (l ++ [hd])) as [y|] eqn:E; [|by destruct l].
  by destruct (Hx y eq_refl) as [-> _].
Qed.

Lemma for_each_safe_ok hd l : ∀ h node fuel,
  is_list h hd l → head (l ++ [hd]) = Some node → (length l < fuel)%nat →
  ∃ h', for_each_safe_loop fuel list_del node (nx h node) hd h = Some (l, h') ∧
        is_list h' hd [].
Proof.
  induction l as [|x l IH]; intros h node [|fuel] Hl Hn Hf; simpl in *; try lia; simplify_eq.
  { rewrite Z.eqb_refl. eauto. }
  pose proof Hl as [Hnd Hc]. apply NoDup_cons in Hnd as [Hhd _]. case_if; [set_solver|].
  apply (list_del_ok _ _ []) in Hl. simpl in *. destruct Hc as (_ & _ & Hc).
  apply chain_cons in Hc as [_ Hx].
  destruct (head (l ++ [hd])) as [y|] eqn:E; [|by destruct l].
  destruct (Hx y eq_refl) as [-> _].
  destruct (IH (list_del node h) y fuel Hl eq_refl) as (h' & -> & Hh'); [lia|]. eauto.
Qed.

(** The entry macros are the node macros seen through [container_of]. *)
Lemma member_container_of ptr off : container_of ptr off + off = ptr.
Proof. unfold container_of. lia. Qed.

Lemma for_each_entry_loop_nodes off head h fuel : ∀ node,
  for_each_entry_loop fuel (container_of node off) head off h =
  map (λ n, container_of n off) <$> for_each_loop fuel node head h.
Proof.
  induction fuel as [|fuel IH]; intros node; simpl; [done|].
  rewrite member_container_of. case_if; [done|]. rewrite IH.
  by destruct (for_each_loop fuel (nx h node) head h).
Qed.

Lemma for_each_entry_safe_nodes off head body fuel : ∀ node safe h,
  for_each_entry_safe_loop fuel (λ e, body (e + off)) (container_of node off)
    (container_of safe off) head off h =
  prod_map (map (λ n, container_of n off)) id <$> for_each_safe_loop fuel body node safe head h.
Proof.
  induction fuel as [|fuel IH]; intros node safe h; simpl; [done|].
  rewrite !member_container_of. case_if; [done|]. rewrite IH.
  by destruct (for_each_safe_loop fuel body safe _ head _) as [[vs h']|].
Qed.

(** ** Properties *)

(** A list of two nodes, for the witnesses. *)
Definition demo_heap : heap :=
  list_add_tail 2 100 (list_add_tail 1 100 (INIT_LIST_HEAD 100 (mk_heap ∅ ∅))).

Lemma demo_heap_ok : is_list demo_heap 100 [1; 2].
Proof.
  apply (list_add_tail_ok _ 100 [1] 2); [|set_solver].
  apply (list_add_tail_ok _ 100 [] 1); [apply init_list_head_ok|set_solver].
Qed.

(** [C35] Any sequence of add, add_tail, del, del_init, move and move_tail on a
    circular list does to the nodes what the documentation says: if the abstract
    list operations are defined, the heap afterwards holds the abstract result. *)
Theorem list_ops_refine h hd l os l'
  (Hl : is_list h hd l) (Hs : spec_ops hd os l = Some l') :
  is_list (run_ops hd os h) hd l'.
Proof.
  revert h l Hl Hs. induction os as [|o os IH]; intros h l Hl Hs; simpl in *; [by simplify_eq|].
  destruct (spec_op hd o l) as [l1|] eqn:Ho; [|done]. simpl in Hs.
  apply (IH _ l1); [|done]. by eapply run_op_ok.
Qed.

Lemma list_ops_refine_witness :
  is_list (run_ops 100 [OAdd 3; OMoveTail 1; ODel 2] demo_heap) 100 [3; 1].
Proof.
  apply (list_ops_refine demo_heap 100 [1; 2]); [apply demo_heap_ok|vm_compute; reflexivity].
Defined.

(** [list_splice_init] and [list_splice_tail_init] move all nodes of one
    list, in order, to the front (the end) of another, and leave the source list
    empty. *)
Theorem list_splice_init_spec h lst hd l1 l2
  (H1 : is_list h hd l1) (H2 : is_list h lst l2) (Hnd : NoDup (hd :: lst :: l1 ++ l2)) :
  is_list (list_splice_init lst hd h) hd (l2 ++ l1) ∧
  is_list (list_splice_init lst hd h) lst [] ∧
  is_list (list_splice_tail_init lst hd h) hd (l1 ++ l2) ∧
  is_list (list_splice_tail_init lst hd h) lst [].
Proof.
  assert (lst ∉ hd :: l1 ++ l2) as Hlst.
  { apply NoDup_cons in Hnd as [Hhd Hnd]. apply NoDup_cons in Hnd as [Hn _]. set_solver. }
  split_and!; try apply init_list_head_ok.
  - apply is_list_init_other; [set_solver|by apply list_splice_ok].
  - apply is_list_init_other; [done|by apply list_splice_tail_ok].
Qed.

Definition demo_heap2 : heap := list_add_tail 3 200 (INIT_LIST_HEAD 200 demo_heap).

Lemma list_splice_init_spec_witness :
  is_list (list_splice_init 200 100 demo_heap2) 100 [3; 1; 2] ∧
  is_list (list_splice_init 200 100 demo_heap2) 200 [] ∧
  is_list (list_splice_tail_init 200 100 demo_heap2) 100 [1; 2; 3] ∧
  is_list (list_splice_tail_init 200 100 demo_heap2) 200 [].
Proof.
  apply (list_splice_init_spec demo_heap2 200 100 [1; 2] [3]).
  - split; [apply (bool_decide_unpack _); vm_compute; exact I|vm_compute; tauto].
  - split; [apply (bool_decide_unpack _); vm_compute; exact I|vm_compute; tauto].
  - apply (bool_decide_unpack _). vm_compute. exact I.
Defined.

(** Cutting a list at a node moves the prefix up to that node to the other
    head and keeps the rest; splicing the prefix back restores the list. *)
Theorem list_cut_splice_roundtrip h to from l1 node l2
  (Hl : is_list h from (l1 ++ node :: l2)) (Hto : to ∉ from :: l1 ++ node :: l2) :
  is_list (list_cut_position to from node h) to (l1 ++ [node]) ∧
  is_list (list_cut_position to from node h) from l2 ∧
  is_list (list_splice to from (list_cut_position to from node h)) from (l1 ++ node :: l2).
Proof.
  destruct (list_cut_position_ok h to from l1 node l2 Hl Hto) as [H1 H2].
  split_and!; [done|done|].
  replace (l1 ++ node :: l2) with ((l1 ++ [node]) ++ l2) by (by rewrite <- app_assoc).
  apply list_splice_ok; [done|done|]. destruct Hl as [Hnd _].
  rewrite (Permutation_app_comm l2 (l1 ++ [node])). rewrite <- app_assoc. simpl.
  apply NoDup_cons in Hnd as [Hf Hnd]. constructor; [set_solver|]. constructor; [set_solver|done].
Qed.

Lemma list_cut_splice_roundtrip_witness :
  is_list (list_cut_position 300 100 1 demo_heap) 300 [1] ∧
  is_list (list_cut_position 300 100 1 demo_heap) 100 [2] ∧
  is_list (list_splice 300 100 (list_cut_position 300 100 1 demo_heap)) 100 [1; 2].
Proof.
  apply (list_cut_splice_roundtrip demo_heap 300 100 [] 1 [2]); [apply demo_heap_ok|set_solver].
Defined.

(** The iteration macros terminate and are complete: [list_for_each] visits
    exactly the nodes, in order, and [list_for_each_safe] still does so when the
    body unlinks each visited node, leaving the list empty; the entry macros
    visit the structures that contain those nodes. *)
Theorem list_for_each_complete h hd l off fuel
  (Hl : is_list h hd l) (Hf : (length l < fuel)%nat) :
  list_for_each fuel hd h = Some l ∧
  list_for_each_entry fuel hd off h = Some (map (λ n, container_of n off) l) ∧
  ∃ h', is_list h' hd [] ∧
    list_for_each_safe fuel list_del hd h = Some (l, h') ∧
    list_for_each_entry_safe fuel (λ e, list_del (e + off)) hd off h =
      Some (map (λ n, container_of n off) l, h').
Proof.
  pose proof (is_list_first _ _ _ Hl) as Hn.
  assert (list_for_each fuel hd h = Some l) as Hfor.
  { destruct Hl as [Hnd Hc]. apply chain_cons in Hc as [Hc _]. by apply for_each_loop_ok. }
  split_and!; [done| |].
  - unfold list_for_each_entry, list_for_each in *. by rewrite for_each_entry_loop_nodes, Hfor.
  - destruct (for_each_safe_ok hd l h (nx h hd) fuel Hl Hn Hf) as (h' & Hs & Hh').
    exists h'. split_and!; [done|done|]. unfold list_for_each_entry_safe.
    rewrite member_container_of. by rewrite for_each_entry_safe_nodes, Hs.
Qed.

Lemma list_for_each_complete_witness :
  list_for_each 3 100 demo_heap = Some [1; 2] ∧
  list_for_each_entry 3 100 8 demo_heap = Some [-7; -6] ∧
  ∃ h', is_list h' 100 [] ∧
    list_for_each_safe 3 list_del 100 demo_heap = Some ([1; 2], h') ∧
    list_for_each_entry_safe 3 (λ e, list_del (e + 8)) 100 8 demo_heap = Some ([-7; -6], h').
Proof. apply (list_for_each_complete demo_heap 100 [1; 2] 8 3); [apply demo_heap_ok|simpl; lia]. Defined.

End ListH.
