(* ===== verification/Spinlock.v ===== *)
(** * kernel/spinlock.c: spin locks and interrupt nesting

    The machine has any number of CPUs and locks.  [push_off], [pop_off],
    [holding] are functions on the CPU and lock records; [acquire] and [release]
    are cut into the memory accesses the source performs (the two reads of
    [holding], the atomic swap, the writes of [cpu] and [locked]) and the
    accesses of different CPUs interleave freely.  CPUs may call [acquire] and
    [release] on any lock at any time, so the invariants hold for every client.

    [Module Lock] is the view the other components have of a lock: the code
    between [acquire] and [release] runs without interference. *)

From S2P Require Import Prelude.

Module Spinlock.

(** [struct cpu]'s [noff] and [intena], and the CPU's sstatus.SIE bit. *)
Record cpu := mk_cpu { noff : Z; intena : bool; intr : bool }.

(** [struct spinlock]; [lcpu] is the holder, [None] for the null pointer. *)
Record spinlock := mk_lock { locked : Z; lname : string; lcpu : option nat }.

Definition initlock (name : string) (lk : spinlock) : spinlock :=
  mk_lock 0 name None.

Definition intr_get (c : cpu) : bool := intr c.
Definition intr_on (c : cpu) : cpu := mk_cpu (noff c) (intena c) true.
Definition intr_off (c : cpu) : cpu := mk_cpu (noff c) (intena c) false.

Definition push_off (c : cpu) : cpu :=
  let old := intr_get c in
  let c := intr_off c in
  let c := if noff c =? 0 then mk_cpu (noff c) old (intr c) else c in
  mk_cpu (noff c + 1) (intena c) (intr c).

Definition pop_off (c : cpu) : outcome cpu :=
  if intr_get c then Panic "pop_off - interruptible"
  else if noff c <? 1 then Panic "pop_off"
  else
    let c := mk_cpu (noff c - 1) (intena c) (intr c) in
    Ret (if (noff c =? 0) && intena c then intr_on c else c).

(** [holding(lk)] on CPU [me]. *)
Definition holding (lk : spinlock) (me : nat) : bool :=
  negb (locked lk =? 0) && bool_decide (lcpu lk = Some me).

(** Where a CPU is inside [acquire] or [release]. *)
Inductive pc :=
  | Run                 (* outside acquire and release *)
  | AcqHold (l : nat)   (* acquire: holding() has read lk->locked <> 0 *)
  | AcqSpin (l : nat)   (* acquire: in the test-and-set loop *)
  | AcqGot (l : nat)    (* acquire: swapped in the 1, lk->cpu not yet set *)
  | RelHold (l : nat)   (* release: holding() has read lk->locked <> 0 *)
  | RelOwn (l : nat)    (* release: holding() was true *)
  | RelCpu (l : nat)    (* release: lk->cpu = 0 written *)
  | RelPop              (* release: lk->locked = 0 written, pop_off() left *)
  | Dead (msg : string). (* panicked *)

Record machine := mk_machine {
  cpus : nat → cpu;
  pcs : nat → pc;
  held : nat → list nat;    (* ghost: the locks a CPU has acquired *)
  locks : nat → spinlock }.

Definition set_cpu (me : nat) (c : cpu) (s : machine) : machine :=
  mk_machine (<[me := c]> (cpus s)) (pcs s) (held s) (locks s).
Definition set_pc (me : nat) (p : pc) (s : machine) : machine :=
  mk_machine (cpus s) (<[me := p]> (pcs s)) (held s) (locks s).
Definition set_held (me : nat) (ls : list nat) (s : machine) : machine :=
  mk_machine (cpus s) (pcs s) (<[me := ls]> (held s)) (locks s).
Definition set_lock (l : nat) (lk : spinlock) (s : machine) : machine :=
  mk_machine (cpus s) (pcs s) (held s) (<[l := lk]> (locks s)).

(** acquire(): push_off(), and the first read of [holding]. *)
Definition acquire_enter (me l : nat) (s : machine) : machine :=
  let s := set_cpu me (push_off (cpus s me)) s in
  if locked (locks s l) =? 0 then set_pc me (AcqSpin l) s else set_pc me (AcqHold l) s.

(** acquire(): the second read of [holding], [if(holding(lk)) panic("acquire")]. *)
Definition acquire_hold (me l : nat) (s : machine) : machine :=
  if bool_decide (lcpu (locks s l) = Some me) then set_pc me (Dead "acquire") s
  else set_pc me (AcqSpin l) s.

(** acquire(): one [__sync_lock_test_and_set(&lk->locked, 1)]. *)
Definition acquire_swap (me l : nat) (s : machine) : machine :=
  let lk := locks s l in
  let s := set_lock l (mk_lock 1 (lname lk) (lcpu lk)) s in
  if locked lk =? 0 then set_pc me (AcqGot l) s else s.

(** acquire(): [lk->cpu = mycpu()]. *)
Definition acquire_setcpu (me l : nat) (s : machine) : machine :=
  let lk := locks s l in
  let s := set_lock l (mk_lock (locked lk) (lname lk) (Some me)) s in
  set_pc me Run (set_held me (l :: held s me) s).

(** release(): the first read of [holding]. *)
Definition release_enter (me l : nat) (s : machine) : machine :=
  if locked (locks s l) =? 0 then set_pc me (Dead "release") s else set_pc me (RelHold l) s.

(** release(): the second read, [if(!holding(lk)) panic("release")]. *)
Definition release_hold (me l : nat) (s : machine) : machine :=
  if bool_decide (lcpu (locks s l) = Some me) then set_pc me (RelOwn l) s
  else set_pc me (Dead "release") s.

(** release(): [lk->cpu = 0]. *)
Definition release_clear (me l : nat) (s : machine) : machine :=
  let lk := locks s l in
  set_pc me (RelCpu l) (set_lock l (mk_lock (locked lk) (lname lk) None) s).

(** release(): [__sync_lock_release(&lk->locked)]. *)
Definition release_unlock (me l : nat) (s : machine) : machine :=
  let lk := locks s l in
  let s := set_lock l (mk_lock 0 (lname lk) (lcpu lk)) s in
  set_pc me RelPop (set_held me (without l (held s me)) s).

(** release(): [pop_off()]. *)
Definition release_pop (me : nat) (s : machine) : machine :=
  match pop_off (cpus s me) with
  | Ret c => set_pc me Run (set_cpu me c s)
  | Panic msg => set_pc me (Dead msg) s
  | Block => s
  end.

(** One step of CPU [me]; a CPU with no [push_off] pending may also turn
    interrupts on or off (scheduler(), usertrap(), usertrapret()). *)
Inductive step : machine → machine → Prop :=
  | S_acquire s me l : pcs s me = Run → step s (acquire_enter me l s)
  | S_acq_hold s me l : pcs s me = AcqHold l → step s (acquire_hold me l s)
  | S_swap s me l : pcs s me = AcqSpin l → step s (acquire_swap me l s)
  | S_setcpu s me l : pcs s me = AcqGot l → step s (acquire_setcpu me l s)
  | S_release s me l : pcs s me = Run → step s (release_enter me l s)
  | S_rel_hold s me l : pcs s me = RelHold l → step s (release_hold me l s)
  | S_clear s me l : pcs s me = RelOwn l → step s (release_clear me l s)
  | S_unlock s me l : pcs s me = RelCpu l → step s (release_unlock me l s)
  | S_pop s me : pcs s me = RelPop → step s (release_pop me s)
  | S_intr s me b : pcs s me = Run → noff (cpus s me) = 0 →
      step s (set_cpu me (if b : bool then intr_on (cpus s me) else intr_off (cpus s me)) s).

(** Boot: every lock initialised, no CPU inside spinlock.c. *)
Definition init (s : machine) : Prop :=
  (∀ l, ∃ name, locks s l = initlock name (locks s l)) ∧
  (∀ c, pcs s c = Run ∧ held s c = [] ∧ noff (cpus s c) = 0).

Inductive reachable : machine → Prop :=
  | R_init s : init s → reachable s
  | R_step s s' : reachable s → step s s' → reachable s'.

(** ** The invariant *)

(** [me] has won the test-and-set on [l] and not yet released it. *)
Definition owns (s : machine) (me l : nat) : Prop :=
  l ∈ held s me ∨ pcs s me = AcqGot l.

Definition lock_inv (s : machine) (l : nat) : Prop :=
  (locked (locks s l) = 0 ∨ locked (locks s l) = 1) ∧
  (locked (locks s l) = 0 → ∀ c, ¬ owns s c l) ∧
  (∀ c c', owns s c l → owns s c' l → c = c') ∧
  (∀ c, lcpu (locks s l) = Some c → l ∈ held s c ∧ pcs s c ≠ RelCpu l) ∧
  (∀ c, l ∈ held s c → pcs s c ≠ RelCpu l → lcpu (locks s l) = Some c).

(** The number of [push_off]s the spinlock code has pending on a CPU. *)
Definition pending (s : machine) (c : nat) : Z :=
  Z.of_nat (length (held s c)) +
  match pcs s c with
  | AcqHold _ | AcqSpin _ | AcqGot _ | RelPop => 1
  | _ => 0
  end.

Definition cpu_inv (s : machine) (c : nat) : Prop :=
  NoDup (held s c) ∧
  (∀ l, pcs s c = AcqGot l → l ∉ held s c) ∧
  (∀ l, pcs s c = RelOwn l ∨ pcs s c = RelCpu l → l ∈ held s c) ∧
  match pcs s c with
  | Dead _ => True
  | _ => noff (cpus s c) = pending s c ∧ (noff (cpus s c) > 0 → intr (cpus s c) = false)
  end.

Definition inv (s : machine) : Prop := (∀ l, lock_inv s l) ∧ (∀ c, cpu_inv s c).

(** ** Repeated nesting *)

Fixpoint push_n (n : nat) (c : cpu) : cpu :=
  match n with O => c | S n' => push_n n' (push_off c) end.

Fixpoint pop_n (n : nat) (c : cpu) : outcome cpu :=
  match n with
  | O => Ret c
  | S n' => match pop_off c with Ret c' => pop_n n' c' | o => o end
  end.

(** ** Lemmas *)

Lemma upd_eq {A} (f : nat → A) i x : <[i := x]> f i = x.
Proof. apply fn_lookup_insert. Qed.

Lemma upd_ne {A} (f : nat → A) i j x : j ≠ i → <[i := x]> f j = f j.
Proof. intros H. by apply fn_lookup_insert_ne. Qed.

(** Read the fields of an updated machine at CPU or lock [i], which is the
    updated one or is known to differ from it. *)
Ltac upd := repeat first [rewrite upd_eq | rewrite upd_ne by done].

Lemma push_off_noff c : noff (push_off c) = noff c + 1 ∧ intr (push_off c) = false.
Proof. unfold push_off; simpl. by case_if. Qed.

Lemma pop_off_ok c :
  noff c > 0 → intr c = false →
  ∃ c', pop_off c = Ret c' ∧ noff c' = noff c - 1 ∧ (noff c' > 0 → intr c' = false).
Proof.
  intros Hn Hi. unfold pop_off, intr_get. rewrite Hi. case_if; [lia|].
  eexists. split; [done|]. simpl. destruct (noff c - 1 =? 0) eqn:E; bsimpl; simpl.
  - destruct (intena c); simpl; lia.
  - done.
Qed.

#[local] Opaque push_off pop_off.

(** A lock no step touches keeps its invariant. *)
Lemma lock_inv_ext s s' l :
  locks s' l = locks s l →
  (∀ c, l ∈ held s' c ↔ l ∈ held s c) →
  (∀ c, pcs s' c = AcqGot l ↔ pcs s c = AcqGot l) →
  (∀ c, pcs s' c = RelCpu l ↔ pcs s c = RelCpu l) →
  lock_inv s l → lock_inv s' l.
Proof.
  intros Hlk Hh Hg Hr (H1 & H2 & H3 & H4 & H5). unfold lock_inv, owns in *.
  rewrite Hlk. setoid_rewrite Hh. setoid_rewrite Hg. setoid_rewrite Hr. tauto.
Qed.

(** A CPU that does not move keeps its invariant. *)
Lemma cpu_inv_ext s s' c :
  cpus s' c = cpus s c → pcs s' c = pcs s c → held s' c = held s c →
  cpu_inv s c → cpu_inv s' c.
Proof. unfold cpu_inv, pending. by intros -> -> ->. Qed.

(** Side conditions of [lock_inv_ext] for a step of CPU [me]. *)
Ltac ext_solve me Hpc :=
  intros c; destruct (decide (c = me)) as [->|]; simpl; upd; rewrite ?Hpc;
  first [done | solve [split; congruence] | naive_solver].

(** Steps that change only the stepping CPU's interrupt state and position. *)
Lemma inv_local s me p p' cp :
  inv s → pcs s me = p →
  (∀ l, p ≠ AcqGot l) → (∀ l, p' ≠ AcqGot l) → (∀ l, p ≠ RelCpu l) → (∀ l, p' ≠ RelCpu l) →
  cpu_inv (set_pc me p' (set_cpu me cp s)) me →
  inv (set_pc me p' (set_cpu me cp s)).
Proof.
  intros [Hl Hc] Hpc Hg Hg' Hr Hr' Hme. split.
  - intros l. apply (lock_inv_ext s); [done|done| | |apply Hl]; ext_solve me Hpc.
  - intros c. destruct (decide (c = me)) as [->|Hne]; [done|].
    apply (cpu_inv_ext s); [| | |apply Hc]; simpl; by upd.
Qed.

(** The same when the CPU's interrupt state does not change either. *)
Lemma inv_move s me p p' :
  inv s → pcs s me = p →
  (∀ l, p ≠ AcqGot l) → (∀ l, p' ≠ AcqGot l) → (∀ l, p ≠ RelCpu l) → (∀ l, p' ≠ RelCpu l) →
  cpu_inv (set_pc me p' s) me → inv (set_pc me p' s).
Proof.
  intros [Hl Hc] Hpc Hg Hg' Hr Hr' Hme. split.
  - intros l. apply (lock_inv_ext s); [done|done| | |apply Hl]; ext_solve me Hpc.
  - intros c. destruct (decide (c = me)) as [->|Hne]; [done|].
    apply (cpu_inv_ext s); [| | |apply Hc]; simpl; by upd.
Qed.

(** Unfold the invariant of the stepping CPU before and after. *)
Ltac cpu_me Hc me Hpc :=
  let H := fresh "Hme" in
  pose proof (Hc me) as H; unfold cpu_inv, pending in *; simpl in *; upd;
  rewrite ?Hpc in *.

Lemma inv_acquire_enter s me l : inv s → pcs s me = Run → inv (acquire_enter me l s).
Proof.
  intros Hi Hpc. pose proof (proj2 Hi) as Hc. unfold acquire_enter. simpl.
  destruct (push_off_noff (cpus s me)) as [Hn Hf].
  case_if; (eapply inv_local; [done|done|done|done|done|done|]);
    cpu_me Hc me Hpc; rewrite Hn, Hf; naive_solver lia.
Qed.

Lemma inv_acquire_hold s me l : inv s → pcs s me = AcqHold l → inv (acquire_hold me l s).
Proof.
  intros Hi Hpc. pose proof (proj2 Hi) as Hc. unfold acquire_hold.
  case_if; (eapply inv_move; [done|done|done|done|done|done|]); cpu_me Hc me Hpc; naive_solver.
Qed.

Lemma inv_release_enter s me l : inv s → pcs s me = Run → inv (release_enter me l s).
Proof.
  intros Hi Hpc. pose proof (proj2 Hi) as Hc. unfold release_enter.
  case_if; (eapply inv_move; [done|done|done|done|done|done|]); cpu_me Hc me Hpc; naive_solver.
Qed.

Lemma inv_release_hold s me l : inv s → pcs s me = RelHold l → inv (release_hold me l s).
Proof.
  intros Hi Hpc. pose proof (proj2 Hi) as Hc. unfold release_hold.
  case_if; (eapply inv_move; [done|done|done|done|done|done|]); cpu_me Hc me Hpc; [|naive_solver].
  destruct (proj1 Hi l) as (_ & _ & _ & Hh & _). split_and!; [tauto|done| |tauto|tauto].
  intros l' [[= <-]|?]; [by apply (Hh me)|done].
Qed.

Lemma inv_release_pop s me : inv s → pcs s me = RelPop → inv (release_pop me s).
Proof.
  intros Hi Hpc. pose proof (proj2 Hi) as Hc. pose proof (Hc me) as (_ & _ & _ & Hme).
  unfold pending in Hme. rewrite Hpc in Hme. destruct Hme as [Hn Hf].
  destruct (pop_off_ok (cpus s me)) as (c' & Hp & Hn' & Hf'); [lia|apply Hf; lia|].
  unfold release_pop. rewrite Hp. eapply inv_local; [done|done|done|done|done|done|].
  cpu_me Hc me Hpc. naive_solver lia.
Qed.

Lemma inv_intr s me b :
  inv s → pcs s me = Run → noff (cpus s me) = 0 →
  inv (set_cpu me (if b : bool then intr_on (cpus s me) else intr_off (cpus s me)) s).
Proof.
  intros [Hl Hc] Hpc Hn. split; [intros l; by apply (lock_inv_ext s)|].
  intros c. destruct (decide (c = me)) as [->|Hne].
  - cpu_me Hc me Hpc. destruct b; simpl; naive_solver lia.
  - apply (cpu_inv_ext s); [| | |apply Hc]; simpl; by upd.
Qed.

(** The four steps that write a lock. *)
Lemma inv_acquire_swap s me l : inv s → pcs s me = AcqSpin l → inv (acquire_swap me l s).
Proof.
  intros [Hl Hc] Hpc. destruct (Hl l) as (H01 & H0 & Huniq & Hlc & Hheld).
  unfold acquire_swap. case_if.
  - (* won: nobody owned the lock *)
    specialize (H0 Heqb). split.
    + intros l'. destruct (decide (l' = l)) as [->|Hne].
      * assert (∀ c, owns (set_pc me (AcqGot l) (set_lock l (mk_lock 1 (lname (locks s l))
          (lcpu (locks s l))) s)) c l → c = me) as Hown.
        { intros c. unfold owns. simpl. destruct (decide (c = me)) as [|Hc']; [done|].
          upd. intros Ho. by destruct (H0 c). }
        unfold lock_inv. simpl. upd. simpl. split_and!; [by right|done| | |].
        -- intros c c' ?%Hown ?%Hown. congruence.
        -- intros c Hcc. destruct (H0 c). left. by apply Hlc.
        -- intros c Hin. destruct (H0 c). by left.
      * apply (lock_inv_ext s); [simpl; by upd|done| | |apply Hl]; ext_solve me Hpc.
    + intros c. destruct (decide (c = me)) as [->|Hne'].
      * cpu_me Hc me Hpc. destruct Hme as (Hnd & _ & _ & Hn & Hi).
        split_and!; [done| |intros ? [?|?]; done|lia|done].
        intros l' [= <-] Hin. destruct (H0 me). by left.
      * apply (cpu_inv_ext s); [| | |apply Hc]; simpl; by upd.
  - (* lost: the lock record is unchanged *)
    assert (locked (locks s l) = 1) as H1 by tauto.
    assert (∀ l', <[l := mk_lock 1 (lname (locks s l)) (lcpu (locks s l))]> (locks s) l' = locks s l')
      as Hsame.
    { intros l'. destruct (decide (l' = l)) as [->|]; upd; [|done].
      rewrite <- H1. by destruct (locks s l). }
    split; [|intros c; by apply (cpu_inv_ext s)].
    intros l'. by apply (lock_inv_ext s); [apply Hsame| | | |apply Hl].
Qed.

Lemma inv_acquire_setcpu s me l : inv s → pcs s me = AcqGot l → inv (acquire_setcpu me l s).
Proof.
  intros [Hl Hc] Hpc. destruct (Hl l) as (H01 & H0 & Huniq & Hlc & Hheld).
  assert (owns s me l) as Hme by by right.
  destruct (Hc me) as (_ & Hni & _). specialize (Hni l Hpc).
  unfold acquire_setcpu. split.
  - intros l'. destruct (decide (l' = l)) as [->|Hne].
    + assert (∀ c, owns (set_pc me Run (set_held me (l :: held s me) (set_lock l
        (mk_lock (locked (locks s l)) (lname (locks s l)) (Some me)) s))) c l → c = me) as Hown.
      { intros c. unfold owns. simpl. destruct (decide (c = me)) as [|Hc']; [done|].
        upd. intros Ho. by apply (Huniq c me). }
      unfold lock_inv. simpl. upd. simpl. split_and!; [done| | | |].
      * intros E. by destruct (H0 E me).
      * intros c c' ?%Hown ?%Hown. congruence.
      * intros c [= <-]. upd. split; [constructor|done].
      * intros c Hin _. f_equal. symmetry. apply Hown. by left.
    + apply (lock_inv_ext s); [simpl; by upd| | | |apply Hl].
      * intros c. destruct (decide (c = me)) as [->|]; simpl; upd; [|done].
        rewrite elem_of_cons. naive_solver.
      * ext_solve me Hpc.
      * ext_solve me Hpc.
  - intros c. destruct (decide (c = me)) as [->|Hne].
    + cpu_me Hc me Hpc. destruct Hme0 as (Hnd & _ & _ & Hn & Hi).
      split_and!; [by constructor|done|intros ? [?|?]; done|cbn [length]; lia|done].
    + apply (cpu_inv_ext s); [| | |apply Hc]; simpl; by upd.
Qed.

Lemma inv_release_clear s me l : inv s → pcs s me = RelOwn l → inv (release_clear me l s).
Proof.
  intros [Hl Hc] Hpc. destruct (Hl l) as (H01 & H0 & Huniq & Hlc & Hheld).
  destruct (Hc me) as (_ & _ & Hin & _). specialize (Hin l (or_introl Hpc)).
  assert (owns s me l) as Hme by by left.
  unfold release_clear. split.
  - intros l'. destruct (decide (l' = l)) as [->|Hne].
    + assert (∀ c, owns (set_pc me (RelCpu l) (set_lock l (mk_lock (locked (locks s l))
        (lname (locks s l)) None) s)) c l → c = me) as Hown.
      { intros c. unfold owns. simpl. destruct (decide (c = me)) as [|Hc']; [done|].
        upd. intros Ho. by apply (Huniq c me). }
      unfold lock_inv. simpl. upd. simpl. split_and!; [done| | |done|].
      * intros E. by destruct (H0 E me).
      * intros c c' ?%Hown ?%Hown. congruence.
      * intros c Hinc Hpcc. assert (c = me) as -> by (apply Hown; by left).
        by rewrite upd_eq in Hpcc.
    + apply (lock_inv_ext s); [simpl; by upd|done| | |apply Hl]; ext_solve me Hpc.
  - intros c. destruct (decide (c = me)) as [->|Hne].
    + cpu_me Hc me Hpc. destruct Hme0 as (Hnd & _ & Hin' & Hn & Hi).
      split_and!; [done|done| |done|done]. intros l' [?|[= <-]]; [done|]. apply Hin'. by left.
    + apply (cpu_inv_ext s); [| | |apply Hc]; simpl; by upd.
Qed.

Lemma inv_release_unlock s me l : inv s → pcs s me = RelCpu l → inv (release_unlock me l s).
Proof.
  intros [Hl Hc] Hpc. destruct (Hl l) as (H01 & H0 & Huniq & Hlc & Hheld).
  destruct (Hc me) as (Hnd & _ & Hin & _). specialize (Hin l (or_intror Hpc)).
  assert (owns s me l) as Hme by by left.
  unfold release_unlock. split.
  - intros l'. destruct (decide (l' = l)) as [->|Hne].
    + assert (∀ c, ¬ owns (set_pc me RelPop (set_held me (without l (held s me)) (set_lock l
        (mk_lock 0 (lname (locks s l)) (lcpu (locks s l))) s))) c l) as Hown.
      { intros c. unfold owns. simpl. destruct (decide (c = me)) as [->|Hc']; upd.
        - rewrite elem_of_without. naive_solver.
        - intros Ho. by apply Hc', (Huniq c me). }
      assert (lcpu (locks s l) = None) as Hnone.
      { destruct (lcpu (locks s l)) as [c|] eqn:E; [|done]. exfalso.
        destruct (Hlc c eq_refl) as [Hinc Hrel].
        assert (c = me) as -> by (apply Huniq; [by left|done]). done. }
      unfold lock_inv. simpl. upd. simpl. rewrite Hnone. split_and!; [by left|done| |done|].
      * intros c c' Ho. by destruct (Hown c).
      * intros c Hinc _. destruct (Hown c). by left.
    + apply (lock_inv_ext s); [simpl; by upd| | | |apply Hl].
      * intros c. destruct (decide (c = me)) as [->|]; simpl; upd; [|done].
        rewrite elem_of_without. naive_solver.
      * ext_solve me Hpc.
      * ext_solve me Hpc.
  - intros c. destruct (decide (c = me)) as [->|Hne].
    + cpu_me Hc me Hpc. rewrite (length_without l (held s me)) in Hme0 by done.
      destruct Hme0 as (_ & _ & _ & Hn & Hi).
      split_and!; [by apply NoDup_without|done|intros ? [?|?]; done|lia|done].
    + apply (cpu_inv_ext s); [| | |apply Hc]; simpl; by upd.
Qed.

Lemma inv_step s s' : inv s → step s s' → inv s'.
Proof.
  intros Hi Hs. destruct Hs; auto using inv_acquire_enter, inv_acquire_hold, inv_acquire_swap,
    inv_acquire_setcpu, inv_release_enter, inv_release_hold, inv_release_clear,
    inv_release_unlock, inv_release_pop, inv_intr.
Qed.

Lemma inv_init s : init s → inv s.
Proof.
  intros [Hlk Hc]. split.
  - intros l. destruct (Hlk l) as [name E]. unfold lock_inv, owns. rewrite E. simpl.
    assert (∀ c, ¬ (l ∈ held s c ∨ pcs s c = AcqGot l)) as Hno.
    { intros c. destruct (Hc c) as (-> & -> & _). intros [H|H]; [|done].
      by apply not_elem_of_nil in H. }
    split_and!; [by left|done| |done|].
    + intros c c' H. by destruct (Hno c).
    + intros c H. destruct (Hno c). by left.
  - intros c. destruct (Hc c) as (Hpc & Hh & Hn). unfold cpu_inv, pending.
    rewrite Hpc, Hh, Hn. split_and!; [constructor|done|intros ? [?|?]; done|done|lia].
Qed.

Lemma inv_reachable s : reachable s → inv s.
Proof. induction 1; eauto using inv_init, inv_step. Qed.

#[local] Transparent push_off pop_off.

Lemma pop_n_snoc n d :
  pop_n (S n) d = match pop_n n d with Ret d' => pop_off d' | o => o end.
Proof.
  revert d. induction n as [|n IH]; intros d; simpl; [by destruct (pop_off d)|].
  destruct (pop_off d) as [d'| |]; [|done..]. rewrite <- IH. done.
Qed.

(** Inside a critical section, nesting is the identity. *)
Lemma push_pop_nested c n :
  noff c > 0 → intr c = false → pop_n n (push_n n c) = Ret c.
Proof.
  revert c. induction n as [|n IH]; intros c Hn Hi; [done|].
  change (push_n (S n) c) with (push_n n (push_off c)). rewrite pop_n_snoc.
  destruct (push_off_noff c) as [Hn' Hi']. rewrite IH by (done || lia).
  destruct c as [nf ie it]; simpl in *; subst. unfold push_off, pop_off; simpl.
  replace (nf =? 0) with false by (symmetry; apply Z.eqb_neq; lia). simpl.
  case_if; [lia|]. replace (nf + 1 - 1) with nf by lia.
  replace (nf =? 0) with false by (symmetry; apply Z.eqb_neq; lia). done.
Qed.

(** ** Properties *)

(** [C11] Mutual exclusion, for every interleaving of the memory accesses of any
    number of CPUs calling acquire and release on any locks: at most one CPU has
    acquired a given lock, and while a CPU that has not panicked holds a lock its
    interrupts are off. *)
Theorem mutual_exclusion s l c c'
  (Hr : reachable s) (Hc : l ∈ held s c) (Hc' : l ∈ held s c') :
  c = c' ∧ ((∀ msg, pcs s c ≠ Dead msg) → intr (cpus s c) = false).
Proof.
  destruct (inv_reachable s Hr) as [Hl Hcpu]. destruct (Hl l) as (_ & _ & Hu & _). split.
  - apply Hu; by left.
  - intros Hd. destruct (Hcpu c) as (_ & _ & _ & Hm).
    assert (noff (cpus s c) = pending s c ∧ (noff (cpus s c) > 0 → intr (cpus s c) = false))
      as [Hn Hi] by (destruct (pcs s c) eqn:E; [done..|by destruct (Hd msg)]).
    apply Hi. rewrite Hn. unfold pending. destruct (held s c); [by apply not_elem_of_nil in Hc|].
    cbn [length]. destruct (pcs s c); lia.
Qed.

Definition idle_cpu : cpu := mk_cpu 0 false true.

Definition boot : machine :=
  mk_machine (λ _, idle_cpu) (λ _, Run) (λ _, []) (λ _, mk_lock 0 "kmem" None).

Lemma boot_init : init boot.
Proof. split; [intros l; by exists "kmem"%string|by intros c]. Qed.

(** CPU 3 runs acquire(lock 7) to its end. *)
Definition boot_acquired : machine :=
  acquire_setcpu 3 7 (acquire_swap 3 7 (acquire_enter 3 7 boot)).

Lemma boot_acquired_reachable : reachable boot_acquired.
Proof.
  eapply R_step; [|apply S_setcpu; reflexivity].
  eapply R_step; [|apply S_swap; reflexivity].
  eapply R_step; [|apply S_acquire; reflexivity].
  apply R_init, boot_init.
Qed.

Lemma mutual_exclusion_witness :
  (3 = 3)%nat ∧ ((∀ msg, pcs boot_acquired 3 ≠ Dead msg) → intr (cpus boot_acquired 3) = false).
Proof.
  apply (mutual_exclusion boot_acquired 7 3 3); [apply boot_acquired_reachable| |];
    vm_compute; constructor.
Defined.

(** [holding(lk)], whose two reads race with other CPUs, is exact for the
    CPU that calls it outside acquire and release: it returns true precisely
    when that CPU holds the lock. *)
Theorem holding_exact s l c (Hr : reachable s) (Hrun : pcs s c = Run) :
  holding (locks s l) c = bool_decide (l ∈ held s c).
Proof.
  destruct (inv_reachable s Hr) as [Hl _]. destruct (Hl l) as (H01 & H0 & _ & Hlc & Hh).
  unfold holding. case_bool_decide as Hin; symmetry; case_bool_decide as Hin';
    rewrite ?andb_true_r, ?andb_false_r; try done.
  - symmetry. apply negb_true_iff, Z.eqb_neq. intros E. destruct (H0 E c). by left.
  - destruct Hin'. by apply Hlc.
  - destruct Hin. apply Hh; [done|]. by rewrite Hrun.
Qed.

Lemma holding_exact_witness :
  holding (locks boot_acquired 7) 3 = bool_decide (7%nat ∈ held boot_acquired 3).
Proof. apply holding_exact; [apply boot_acquired_reachable|reflexivity]. Defined.

(** The only panics the spin lock code can raise are a CPU acquiring a lock
    it already holds and releasing a lock it does not hold; the nesting checks of
    pop_off never fire. *)
Theorem spinlock_panics s s' c msg
  (Hr : reachable s) (Hs : step s s')
  (Halive : ∀ m, pcs s c ≠ Dead m) (Hdead : pcs s' c = Dead msg) :
  (msg = "acquire"%string ∧ ∃ l, pcs s c = AcqHold l ∧ l ∈ held s c) ∨
  (msg = "release"%string ∧ ∃ l, l ∉ held s c).
Proof.
  pose proof (inv_reachable s Hr) as Hi. destruct Hi as [Hl Hcpu].
  destruct Hs as [s me l Hpc|s me l Hpc|s me l Hpc|s me l Hpc|s me l Hpc|s me l Hpc|s me l Hpc
    |s me l Hpc|s me Hpc|s me b Hpc Hn];
    (destruct (decide (c = me)) as [->|Hne];
     [|exfalso; apply (Halive msg); revert Hdead;
       unfold acquire_enter, acquire_hold, acquire_swap, acquire_setcpu, release_enter,
         release_hold, release_clear, release_unlock, release_pop; cbv zeta;
       repeat case_match; simpl; by upd]).
  - exfalso. revert Hdead. unfold acquire_enter. cbv zeta. case_match; simpl; by upd.
  - left. revert Hdead. unfold acquire_hold. case_match eqn:E; simpl; upd; [|done].
    intros [= <-]. bsimpl. split; [done|]. exists l. split; [done|].
    destruct (Hl l) as (_ & _ & _ & Hlc & _). by apply Hlc.
  - exfalso. revert Hdead. unfold acquire_swap. cbv zeta. case_match; simpl; upd; [done|].
    by rewrite Hpc.
  - exfalso. revert Hdead. unfold acquire_setcpu. simpl. by upd.
  - right. revert Hdead. unfold release_enter. case_match eqn:E; simpl; upd; [|done].
    intros [= <-]. bsimpl. split; [done|]. exists l. destruct (Hl l) as (_ & H0 & _).
    intros Hin. destruct (H0 E me). by left.
  - right. revert Hdead. unfold release_hold. case_match eqn:E; simpl; upd; [done|].
    intros [= <-]. bsimpl. split; [done|]. exists l. destruct (Hl l) as (_ & _ & _ & _ & Hh).
    intros Hin. apply E, Hh; [done|]. by rewrite Hpc.
  - exfalso. revert Hdead. unfold release_clear. simpl. by upd.
  - exfalso. revert Hdead. unfold release_unlock. simpl. by upd.
  - exfalso. destruct (Hcpu me) as (_ & _ & _ & Hm). unfold pending in Hm. rewrite Hpc in Hm.
    destruct Hm as [Hn Hf]. destruct (pop_off_ok (cpus s me)) as (c' & Hp & _); [lia|apply Hf; lia|].
    revert Hdead. unfold release_pop. rewrite Hp. simpl. by upd.
  - exfalso. simpl in Hdead. by rewrite Hpc in Hdead.
Qed.

Lemma spinlock_panics_witness :
  ("acquire"%string = "acquire"%string ∧
     ∃ l, pcs (acquire_enter 3 7 boot_acquired) 3 = AcqHold l ∧
          l ∈ held (acquire_enter 3 7 boot_acquired) 3) ∨
  ("acquire"%string = "release"%string ∧
     ∃ l, l ∉ held (acquire_enter 3 7 boot_acquired) 3).
Proof.
  apply (spinlock_panics _ (acquire_hold 3 7 (acquire_enter 3 7 boot_acquired))).
  - eapply R_step; [apply boot_acquired_reachable|apply S_acquire; reflexivity].
  - apply S_acq_hold. reflexivity.
  - intros m. vm_compute. discriminate.
  - vm_compute. reflexivity.
Defined.

(** push_off and pop_off are matched: after [n] push_offs, [n] pop_offs
    succeed and give back the nesting depth and the interrupt state there was. *)
Theorem push_pop_restore c n
  (Hn : 0 ≤ noff c) (Hi : noff c > 0 → intr c = false) :
  ∃ c', pop_n n (push_n n c) = Ret c' ∧ noff c' = noff c ∧ intr c' = intr c.
Proof.
  destruct (decide (noff c = 0)) as [E|E].
  2: { exists c. split; [apply push_pop_nested; [lia|apply Hi; lia]|done]. }
  destruct n as [|n]; [by exists c|]. simpl.
  destruct (push_off_noff c) as [Hn' Hi'].
  pose proof (push_pop_nested (push_off c) n ltac:(lia) Hi') as Hnest.
  change (match pop_off (push_n n (push_off c)) with Ret c' => pop_n n c' | o => o end)
    with (pop_n (S n) (push_n n (push_off c))).
  rewrite pop_n_snoc, Hnest. destruct c as [nf ie it]; simpl in *; subst.
  unfold push_off, pop_off; simpl. destruct it; simpl; eexists; split; done.
Qed.

Lemma push_pop_restore_witness :
  ∃ c', pop_n 2 (push_n 2 idle_cpu) = Ret c' ∧ noff c' = 0 ∧ intr c' = true.
Proof. apply (push_pop_restore idle_cpu 2); simpl; lia. Defined.

End Spinlock.

(** ** The lock as the code of a critical section sees it

    By [mutual_exclusion], between its acquire and its release a CPU is the only
    one to touch the data a lock protects.  A component's state carries one bit
    per lock, set while this CPU is in the critical section: [acquire] of a lock
    this CPU holds panics, and so does [release] of one it does not hold. *)

Module Lock.

Class Locked (S : Type) := {
  lk_held : S → bool;
  lk_set : bool → S → S;
  lk_held_set : ∀ b s, lk_held (lk_set b s) = b }.

Definition acquire {S} `{Locked S} : M S unit :=
  λ s, if lk_held s then Panic "acquire" else Ret (tt, lk_set true s).

Definition release {S} `{Locked S} : M S unit :=
  λ s, if lk_held s then Ret (tt, lk_set false s) else Panic "release".

Lemma wp_acquire {S} `{Locked S} (Q : unit → S → Prop) s :
  lk_held s = false → Q tt (lk_set true s) → wp acquire Q s.
Proof. unfold wp, acquire. by intros ->. Qed.

Lemma wp_release {S} `{Locked S} (Q : unit → S → Prop) s :
  lk_held s = true → Q tt (lk_set false s) → wp release Q s.
Proof. unfold wp, release. by intros ->. Qed.

End Lock.
