(* ===== verification/Riscv.v ===== *)
(** * kernel/riscv.h, kernel/memlayout.h, kernel/param.h: machine constants

    Page arithmetic, Sv39 page-table entries and the layout of physical and
    virtual memory, as the macros of the headers compute them on [uint64].
    [KernelImage] stands for the symbols kernel.ld defines (the end of the
    kernel, the end of its text, the trampoline page). *)

From S2P Require Import Prelude.

Module Riscv.

Definition PGSIZE : Z := 4096.
Definition PGSHIFT : Z := 12.

Definition PGROUNDUP (sz : Z) : Z := Z.land (u64 (sz + PGSIZE - 1)) (Z.lnot (PGSIZE - 1)).
Definition PGROUNDDOWN (a : Z) : Z := Z.land a (Z.lnot (PGSIZE - 1)).

Definition PTE_V : Z := Z.shiftl 1 0.
Definition PTE_R : Z := Z.shiftl 1 1.
Definition PTE_W : Z := Z.shiftl 1 2.
Definition PTE_X : Z := Z.shiftl 1 3.
Definition PTE_U : Z := Z.shiftl 1 4.

Definition PA2PTE (pa : Z) : Z := u64 (Z.shiftl (Z.shiftr pa 12) 10).
Definition PTE2PA (pte : Z) : Z := u64 (Z.shiftl (Z.shiftr pte 10) 12).
Definition PTE_FLAGS (pte : Z) : Z := Z.land pte 0x3FF.

Definition PXMASK : Z := 0x1FF.
Definition PXSHIFT (level : Z) : Z := PGSHIFT + 9 * level.
Definition PX (level va : Z) : Z := Z.land (Z.shiftr va (PXSHIFT level)) PXMASK.

Definition MAXVA : Z := Z.shiftl 1 (9 + 9 + 9 + 12 - 1).

(** kernel/memlayout.h *)
Definition UART0 : Z := 0x10000000.
Definition UART0_IRQ : Z := 10.
Definition VIRTIO0 : Z := 0x10001000.
Definition VIRTIO0_IRQ : Z := 1.
Definition PLIC : Z := 0x0c000000.
Definition PLIC_SENABLE (hart : Z) : Z := PLIC + 0x2080 + hart * 0x100.
Definition PLIC_SPRIORITY (hart : Z) : Z := PLIC + 0x201000 + hart * 0x2000.
Definition PLIC_SCLAIM (hart : Z) : Z := PLIC + 0x201004 + hart * 0x2000.
Definition KERNBASE : Z := 0x80000000.
Definition PHYSTOP : Z := KERNBASE + 128 * 1024 * 1024.
Definition TRAMPOLINE : Z := MAXVA - PGSIZE.
Definition KSTACK (p : Z) : Z := TRAMPOLINE - (p + 1) * 2 * PGSIZE.
Definition TRAPFRAME : Z := TRAMPOLINE - PGSIZE.

(** kernel/param.h *)
Definition NPROC : Z := 64.
Definition NCPU : Z := 8.
Definition NOFILE : Z := 200.
Definition NFILE : Z := 100.
Definition NINODE : Z := 200.
Notation NDEV := 10.
Definition ROOTDEV : Z := 1.
Notation MAXARG := 32.
Definition MAXOPBLOCKS : Z := 10.
Definition LOGSIZE : Z := MAXOPBLOCKS * 3.
Definition NBUF : Z := MAXOPBLOCKS * 3.
Definition FSSIZE : Z := 2000.
Notation MAXPATH := 128.
Notation USERSTACK := 1.

(** kernel/fcntl.h *)
Definition O_RDONLY : Z := 0x000.
Definition O_WRONLY : Z := 0x001.
Definition O_RDWR : Z := 0x002.
Definition O_CREATE : Z := 0x200.
Definition O_TRUNC : Z := 0x400.

(** The symbols of kernel.ld: [end], [etext] and [trampoline]. *)
Class KernelImage := {
  kend : Z;
  etext : Z;
  trampoline : Z;
  kend_lo : KERNBASE ≤ kend;
  kend_hi : kend ≤ PHYSTOP;
  etext_lo : KERNBASE < etext;
  etext_hi : etext ≤ kend;
  etext_aligned : etext mod PGSIZE = 0;
  trampoline_lo : KERNBASE ≤ trampoline;
  trampoline_hi : trampoline + PGSIZE ≤ etext;
  trampoline_aligned : trampoline mod PGSIZE = 0 }.

(** ** Lemmas *)

Lemma land_lnot_page a : Z.land a (Z.lnot (PGSIZE - 1)) = a - a mod 4096.
Proof.
  change (PGSIZE - 1) with (Z.ones 12). rewrite <- Z.ldiff_land, Z.ldiff_ones_r by lia.
  rewrite Z.shiftl_mul_pow2, Z.shiftr_div_pow2 by lia. change (2 ^ 12) with 4096. zlia.
Qed.

Lemma PGROUNDDOWN_eq a : PGROUNDDOWN a = a - a mod 4096.
Proof. apply land_lnot_page. Qed.

Lemma PGROUNDUP_eq a :
  0 ≤ a ≤ 2 ^ 64 - 4096 → PGROUNDUP a = (a + 4095) - (a + 4095) mod 4096.
Proof.
  intros Ha. unfold PGROUNDUP. rewrite land_lnot_page.
  rewrite u64_small by (unfold PGSIZE; lia). unfold PGSIZE. by replace (a + 4096 - 1) with (a + 4095) by lia.
Qed.

(** The least page boundary at or above [a]. *)
Lemma PGROUNDUP_spec a :
  0 ≤ a ≤ 2 ^ 64 - 4096 →
  PGROUNDUP a mod 4096 = 0 ∧ a ≤ PGROUNDUP a < a + 4096.
Proof. intros Ha. rewrite PGROUNDUP_eq by done. zlia. Qed.

Lemma PGROUNDDOWN_spec a :
  PGROUNDDOWN a mod 4096 = 0 ∧ PGROUNDDOWN a ≤ a < PGROUNDDOWN a + 4096.
Proof. rewrite PGROUNDDOWN_eq. zlia. Qed.

Lemma PX_eq level va : 0 ≤ level → PX level va = (va / 2 ^ (12 + 9 * level)) mod 512.
Proof.
  intros Hl. unfold PX. change PXMASK with (Z.ones 9).
  rewrite Z.land_ones, Z.shiftr_div_pow2 by (unfold PXSHIFT, PGSHIFT; lia). done.
Qed.

Lemma PX_range level va : 0 ≤ level → 0 ≤ PX level va < 512.
Proof. intros Hl. rewrite PX_eq by done. apply Z.mod_pos_bound. lia. Qed.

Lemma PA2PTE_eq pa : 0 ≤ pa < 2 ^ 64 → PA2PTE pa = pa / 4096 * 1024.
Proof.
  intros Hp. unfold PA2PTE. rewrite Z.shiftl_mul_pow2, Z.shiftr_div_pow2 by lia.
  change (2 ^ 12) with 4096. change (2 ^ 10) with 1024. apply u64_small. zlia.
Qed.

(** Bits that a shifted address and the flag bits share: none. *)
Lemma lor_disjoint_add a f : 0 ≤ f < 1024 → Z.lor (a * 1024) f = a * 1024 + f.
Proof.
  intros Hf. replace (a * 1024) with (Z.shiftl a 10) by (by rewrite Z.shiftl_mul_pow2).
  symmetry. apply Z.add_nocarry_lor.
  apply Z.bits_inj'. intros n Hn. rewrite Z.land_spec, Z.bits_0.
  destruct (decide (n < 10)).
  - by rewrite Z.shiftl_spec_low by lia.
  - destruct (decide (f = 0)) as [->|]; [by rewrite Z.bits_0, andb_false_r|].
    rewrite (Z.bits_above_log2 f n); [by rewrite andb_false_r|lia|].
    apply Z.log2_lt_pow2; [lia|]. apply Z.lt_le_trans with (2 ^ 10); [lia|].
    apply Z.pow_le_mono_r; lia.
Qed.

Lemma PTE_FLAGS_eq pte : PTE_FLAGS pte = pte mod 1024.
Proof. unfold PTE_FLAGS. change 0x3FF with (Z.ones 10). by rewrite Z.land_ones. Qed.

(** A leaf entry made from an aligned address and flag bits decodes to both. *)
Lemma pte_decode pa f :
  0 ≤ pa < 2 ^ 56 → pa mod 4096 = 0 → 0 ≤ f < 1024 →
  PTE2PA (Z.lor (PA2PTE pa) f) = pa ∧ PTE_FLAGS (Z.lor (PA2PTE pa) f) = f ∧
  0 ≤ Z.lor (PA2PTE pa) f < 2 ^ 54.
Proof.
  intros Hpa Hal Hf. rewrite PA2PTE_eq, lor_disjoint_add by lia.
  rewrite PTE_FLAGS_eq. unfold PTE2PA.
  rewrite Z.shiftl_mul_pow2, Z.shiftr_div_pow2 by lia.
  change (2 ^ 12) with 4096. change (2 ^ 10) with 1024.
  split_and!; [|zlia|zlia|zlia].
  rewrite u64_small; zlia.
Qed.

End Riscv.
