(* ===== verification/Kalloc.v ===== *)
(** * kernel/kalloc.c: the physical page allocator

    The free list is threaded through the free pages themselves: the first
    8 bytes of a free page hold the address of the next one.  The state is the
    machine's memory, the head [kmem.freelist] and the bit of [kmem.lock].

    [free_pages s fl]: the list in memory is [fl].  [run] executes a client's
    sequence of allocations and frees; the specification is that pages handed
    out are distinct and never touched while held. *)

From S2P Require Import Prelude Mem CString Spinlock Riscv.
Import Riscv Lock.

Module Kalloc.

(** Physical memory and [kmem]. *)
Record kst := mk_kst { kmem : mem; freelist : Z; klock : bool }.

Definition set_mem (f : mem → mem) (s : kst) : kst := mk_kst (f (kmem s)) (freelist s) (klock s).
Definition set_freelist (p : Z) (s : kst) : kst := mk_kst (kmem s) p (klock s).

#[export] Instance kst_locked : Locked kst := {|
  lk_held := klock;
  lk_set b s := mk_kst (kmem s) (freelist s) b;
  lk_held_set b s := eq_refl |}.

Section code.
Context `{KernelImage}.

Definition kfree (pa : Z) : M kst unit :=
  when (negb (pa mod PGSIZE =? 0) || (pa <? kend) || (PHYSTOP <=? pa)) (panic "kfree");;
  modify (set_mem (CString.memset pa 1 PGSIZE));;
  let r := pa in
  acquire;;
  fl ← gets freelist;
  modify (set_mem (st64 r fl));;
  modify (set_freelist r);;
  release.

Definition kalloc : M kst Z :=
  acquire;;
  r ← gets freelist;
  when (negb (r =? 0)) (m ← gets kmem; modify (set_freelist (ld64 m r)));;
  release;;
  when (negb (r =? 0)) (modify (set_mem (CString.memset r 5 PGSIZE)));;
  mret r.

(** The loop of [freerange]; a run that exhausts the fuel does not return. *)
Fixpoint freerange_loop (fuel : nat) (p pa_end : Z) : M kst unit :=
  match fuel with
  | O => block
  | S fuel' =>
      if p + PGSIZE <=? pa_end then kfree p;; freerange_loop fuel' (p + PGSIZE) pa_end
      else mret tt
  end.

Definition freerange (pa_start pa_end : Z) : M kst unit :=
  let p := PGROUNDUP pa_start in
  freerange_loop (S (Z.to_nat ((pa_end - p) / PGSIZE))) p pa_end.

(** [kmem.freelist] is a static variable: 0 at boot, which [kinit] relies on. *)
Definition kinit : M kst unit := modify (lk_set false);; freerange kend PHYSTOP.

(** ** Specification *)

(** A page the allocator may manage. *)
Definition page_ok (p : Z) : Prop := p mod 4096 = 0 ∧ kend ≤ p ∧ p + 4096 ≤ PHYSTOP.

(** The [struct run] list from [p] on. *)
Fixpoint is_run (m : mem) (p : Z) (l : list Z) : Prop :=
  match l with
  | [] => p = 0
  | q :: l' => p = q ∧ is_run m (ld64 m q) l'
  end.

Definition free_pages (s : kst) (fl : list Z) : Prop :=
  klock s = false ∧ is_run (kmem s) (freelist s) fl ∧ NoDup fl ∧ Forall page_ok fl.

(** Byte [b] lies in page [p]. *)
Definition in_page (p b : Z) : Prop := p ≤ b < p + 4096.

(** Memory is the same outside the pages [ps]. *)
Definition same_off (ps : list Z) (m m' : mem) : Prop :=
  ∀ b, (∀ p, p ∈ ps → ¬ in_page p b) → ld8 m' b = ld8 m b.

(** A client: it allocates, frees a page it names, or writes to a page it holds. *)
Inductive kop :=
  | KAlloc
  | KFree (p : Z)
  | KWrite (a v : Z).

(** One operation of a client that holds the pages [held]; the pages it holds
    after.  A client is well behaved if it frees and writes only what it holds:
    an operation outside that contract is [None]. *)
Definition run_kop (o : kop) (held : list Z) (s : kst) : option (outcome (list Z * kst)) :=
  match o with
  | KAlloc =>
      Some (match kalloc s with
            | Ret (r, s') => Ret (if r =? 0 then held else r :: held, s')
            | Panic msg => Panic msg
            | Block => Block
            end)
  | KFree p =>
      if bool_decide (p ∈ held)
      then Some (match kfree p s with
                 | Ret (_, s') => Ret (without p held, s')
                 | Panic msg => Panic msg
                 | Block => Block
                 end)
      else None
  | KWrite a v =>
      if bool_decide (PGROUNDDOWN a ∈ held)
      then Some (Ret (held, set_mem (st8 a v) s)) else None
  end.

Fixpoint run_kops (os : list kop) (held : list Z) (s : kst)
    : option (outcome (list Z * kst)) :=
  match os with
  | [] => Some (Ret (held, s))
  | o :: os' =>
      match run_kop o held s with
      | Some (Ret (held', s')) => run_kops os' held' s'
      | Some (Panic msg) => Some (Panic msg)
      | Some Block => Some Block
      | None => None
      end
  end.

(** Every page of the allocator, lowest first. *)
Fixpoint pages_from (p : Z) (n : nat) : list Z :=
  match n with
  | O => []
  | S n' => p :: pages_from (p + PGSIZE) n'
  end.

Definition all_pages : list Z :=
  pages_from (PGROUNDUP kend) (Z.to_nat ((PHYSTOP - PGROUNDUP kend) / PGSIZE)).

(** The allocator's invariant against a client holding [held]. *)
Definition kinv (s : kst) (held : list Z) : Prop :=
  ∃ fl, free_pages s fl ∧ held ++ fl ≡ₚ all_pages.

(** ** Lemmas *)

Lemma page_bounds p : page_ok p → 0 < p ∧ p + 4096 ≤ 2 ^ 32.
Proof.
  intros (_ & Hlo & Hhi). pose proof kend_lo.
  unfold PHYSTOP, KERNBASE in *. lia.
Qed.

Lemma page_disjoint p q b : page_ok p → page_ok q → in_page p b → in_page q b → p = q.
Proof. intros (? & _) (? & _). unfold in_page. zlia. Qed.

Lemma kfree_guard p : page_ok p →
  (negb (p mod PGSIZE =? 0) || (p <? kend) || (PHYSTOP <=? p))%bool = false.
Proof.
  intros (Hal & Hlo & Hhi). unfold PGSIZE. rewrite Hal. simpl.
  apply orb_false_iff. split; [apply Z.ltb_ge|apply Z.leb_gt]; lia.
Qed.

Lemma is_run_ext m m' l : ∀ p,
  (∀ q, q ∈ l → ld64 m' q = ld64 m q) → is_run m p l → is_run m' p l.
Proof.
  induction l as [|q l IH]; intros p Hext Hr; [done|]. destruct Hr as [-> Hr]. split; [done|].
  rewrite Hext by constructor. apply IH; [|done]. intros q' Hq'. apply Hext. by constructor.
Qed.

Lemma same_off_refl ps m : same_off ps m m.
Proof. done. Qed.

Lemma same_off_trans ps m1 m2 m3 : same_off ps m1 m2 → same_off ps m2 m3 → same_off ps m1 m3.
Proof. intros H1 H2 b Hb. by rewrite H2, H1. Qed.

Lemma same_off_page p m m' : agree_off p 4096 m m' ↔ same_off [p] m m'.
Proof.
  split; intros Hm b Hb; apply Hm.
  - specialize (Hb p ltac:(constructor)). unfold in_page in Hb. lia.
  - intros q ->%list_elem_of_singleton. unfold in_page. lia.
Qed.

(** The free list survives writes to pages that are not on it. *)
Lemma is_run_same_off m m' p ps l :
  same_off ps m m' → Forall page_ok l → Forall page_ok ps → (∀ q, q ∈ l → q ∉ ps) →
  is_run m p l → is_run m' p l.
Proof.
  intros Hm Hl Hps Hdis. apply is_run_ext. intros q Hq. apply ld64_ext. intros b Hb.
  apply Hm. intros p' Hp' Hin. rewrite Forall_forall in Hl, Hps.
  assert (p' = q) as ->; [|by eapply Hdis].
  eapply page_disjoint; eauto. unfold in_page. lia.
Qed.

Lemma kfree_spec s fl p :
  free_pages s fl → page_ok p → p ∉ fl →
  wp (kfree p) (λ _ s', free_pages s' (p :: fl) ∧ same_off [p] (kmem s) (kmem s')) s.
Proof.
  intros (Hlk & Hrun & Hnd & Hok) Hp Hfl. unfold kfree. rewrite kfree_guard by done.
  wp_steps; [done|]. wp_steps. apply wp_acquire; [done|]. wp_steps. apply wp_release; [done|].
  simpl. set (m' := st64 p (freelist s) (CString.memset p 1 PGSIZE (kmem s))).
  assert (same_off [p] (kmem s) m') as Hoff.
  { apply same_off_page. intros b Hb. unfold m'.
    rewrite ld8_st64_ne by lia. apply CString.memset_out; unfold PGSIZE; lia. }
  split; [|done]. split; [done|]. simpl. split_and!; [done| |by constructor|by constructor].
  assert (ld64 m' p = freelist s) as ->.
  { unfold m'. rewrite ld64_st64_eq. apply u64_small.
    destruct fl as [|q fl]; [simpl in Hrun; lia|]. destruct Hrun as [-> _].
    apply Forall_cons in Hok as [Hq _]. apply page_bounds in Hq. lia. }
  eapply (is_run_same_off _ _ _ [p]); [done|done|by apply Forall_singleton| |done].
  intros q Hq ->%list_elem_of_singleton. done.
Qed.

Lemma kalloc_spec s fl :
  free_pages s fl →
  wp kalloc (λ r s',
    match fl with
    | [] => r = 0 ∧ s' = s
    | p :: fl' => r = p ∧ free_pages s' fl' ∧ same_off [p] (kmem s) (kmem s') ∧
                  ∀ b, in_page p b → ld8 (kmem s') b = 5
    end) s.
Proof.
  intros (Hlk & Hrun & Hnd & Hok). unfold kalloc.
  wp_steps. apply wp_acquire; [done|]. wp_steps; simpl in *.
  - apply wp_release; [done|]. wp_steps; simpl in *; [|congruence].
    destruct fl as [|p fl]; [simpl in Hrun; congruence|]. destruct Hrun as [-> Hrun].
    apply NoDup_cons in Hnd as [Hp Hnd]. apply Forall_cons in Hok as [Hpok Hok].
    assert (same_off [p] (kmem s) (CString.memset p 5 PGSIZE (kmem s))) as Hoff.
    { apply same_off_page. intros b Hb. apply CString.memset_out; unfold PGSIZE; lia. }
    split_and!; [done| |done|].
    + split_and!; [done| |done|done]. simpl.
      eapply (is_run_same_off _ _ _ [p]); [done|done|by apply Forall_singleton| |done].
      intros q Hq ->%list_elem_of_singleton. done.
    + intros b Hb. simpl. rewrite CString.memset_in by (unfold PGSIZE, in_page in *; lia). done.
  - apply wp_release; [done|]. wp_steps; simpl in *; [congruence|].
    destruct fl as [|p fl].
    + split; [congruence|]. by destruct s; simpl in *; subst.
    + destruct Hrun as [Hr _]. apply Forall_cons in Hok as [Hp _].
      apply page_bounds in Hp. lia.
Qed.

Lemma elem_of_pages_from n : ∀ p q,
  q ∈ pages_from p n ↔ ∃ i, 0 ≤ i < Z.of_nat n ∧ q = p + i * 4096.
Proof.
  induction n as [|n IH]; intros p q; cbn [pages_from].
  - rewrite elem_of_nil. split; [done|]. intros (i & ? & _). lia.
  - rewrite elem_of_cons, IH. unfold PGSIZE. split.
    + intros [->|(i & Hi & ->)]; [exists 0; lia|exists (i + 1); lia].
    + intros (i & Hi & ->). destruct (decide (i = 0)); [left; lia|].
      right. exists (i - 1). lia.
Qed.

Lemma NoDup_pages_from n : ∀ p, NoDup (pages_from p n).
Proof.
  induction n as [|n IH]; intros p; cbn [pages_from]; constructor; [|apply IH].
  rewrite elem_of_pages_from. intros (i & Hi & Heq). unfold PGSIZE in Heq. lia.
Qed.

Lemma roundup_kend : PGROUNDUP kend mod 4096 = 0 ∧ kend ≤ PGROUNDUP kend < kend + 4096.
Proof.
  apply PGROUNDUP_spec. pose proof kend_lo. pose proof kend_hi.
  unfold PHYSTOP, KERNBASE in *. lia.
Qed.

(** [kend] may leave no whole page below [PHYSTOP]: the count is then zero. *)
Lemma page_ok_all p : page_ok p ↔ p ∈ all_pages.
Proof.
  unfold all_pages. rewrite elem_of_pages_from. destruct roundup_kend as [Hal [Hlo Hhi]].
  unfold page_ok, PGSIZE. split.
  - intros (Hp & Hk & Hs). exists ((p - PGROUNDUP kend) / 4096). zlia.
  - intros (i & Hi & ->). zlia.
Qed.

Lemma freerange_loop_spec n : ∀ p s fl,
  free_pages s fl → (∀ q, q ∈ pages_from p n → page_ok q ∧ q ∉ fl) →
  p + Z.of_nat n * 4096 ≤ PHYSTOP < p + Z.of_nat n * 4096 + 4096 →
  wp (freerange_loop (S n) p PHYSTOP)
    (λ _ s', free_pages s' (rev (pages_from p n) ++ fl) ∧
             same_off (pages_from p n) (kmem s) (kmem s')) s.
Proof.
  induction n as [|n IH]; intros p s fl Hfl Hpg Hn.
  { cbn [freerange_loop]. unfold PGSIZE. case_if; [lia|]. apply wp_ret. done. }
  unfold freerange_loop; fold freerange_loop. unfold PGSIZE at 1. case_if; [|lia].
  cbn [pages_from] in Hpg. apply wp_bind.
  eapply wp_mono; [apply kfree_spec; [done|apply Hpg; constructor..]|].
  intros [] s' [Hfl' Hm']. eapply wp_mono; [apply (IH _ _ _ Hfl')|].
  - intros q Hq. destruct (Hpg q) as [? ?]; [by constructor|]. split; [done|].
    apply not_elem_of_cons. split; [|done]. intros ->.
    apply elem_of_pages_from in Hq as (i & Hi & Heq). unfold PGSIZE in Heq. lia.
  - unfold PGSIZE. lia.
  - intros [] s2 [Hf2 Hm2]. cbn [pages_from rev]. rewrite <- app_assoc. split; [done|].
    intros b Hb. rewrite Hm2, Hm'; [done|..]; intros q Hq; apply Hb.
    + apply list_elem_of_singleton in Hq as ->. constructor.
    + by constructor.
Qed.

Lemma kinit_spec s : freelist s = 0 →
  wp kinit (λ _ s', free_pages s' (rev all_pages) ∧ same_off all_pages (kmem s) (kmem s')) s.
Proof.
  intros H0. unfold kinit. wp_steps. unfold freerange.
  destruct roundup_kend as [Hal [Hlo Hhi]]. pose proof kend_hi as Hk.
  set (n := Z.to_nat ((PHYSTOP - PGROUNDUP kend) / PGSIZE)).
  destruct (decide (PGROUNDUP kend ≤ PHYSTOP)) as [Hle|Hgt].
  - eapply wp_mono; [apply (freerange_loop_spec n _ _ [])|].
    + split_and!; [done|done|constructor|constructor].
    + intros q Hq. split; [by apply page_ok_all|set_solver].
    + unfold n, PGSIZE. zlia.
    + intros [] s' [Hf Hm]. rewrite app_nil_r in Hf. done.
  - assert (n = O) as Hn0 by (unfold n, PGSIZE; zlia). unfold all_pages. fold n. rewrite Hn0.
    cbn [freerange_loop pages_from rev]. unfold PGSIZE. case_if; [lia|]. apply wp_ret.
    split; [|done]. split_and!; [done|done|constructor|constructor].
Qed.

(** One operation of a well-behaved client. *)
Lemma run_kop_ok o s held out :
  kinv s held → run_kop o held s = Some out →
  ∃ held' s', out = Ret (held', s') ∧ kinv s' held' ∧
    ∀ p b, p ∈ held → p ∈ held' → in_page p b →
      ld8 (kmem s') b = match o with KWrite a v => if a =? b then u8 v else ld8 (kmem s) b
                                   | _ => ld8 (kmem s) b end.
Proof.
  intros (fl & Hfl & Hperm) Hrun.
  assert (∀ p, p ∈ held ++ fl → page_ok p) as Hok by (intros p; rewrite Hperm; apply page_ok_all).
  assert (NoDup (held ++ fl)) as Hnd by (rewrite Hperm; apply NoDup_pages_from).
  destruct o as [|p|a v]; simpl in Hrun.
  - destruct (wp_inv _ _ _ (kalloc_spec _ _ Hfl)) as (r & s' & Heq & HQ). rewrite Heq in Hrun.
    simplify_eq. destruct fl as [|q fl].
    { destruct HQ as [-> ->]. exists held, s. split_and!; [done|by exists []|done]. }
    destruct HQ as (-> & Hfl' & Hm & _).
    assert (q ≠ 0) as Hq0.
    { pose proof (page_bounds q (Hok q ltac:(set_solver))). lia. }
    exists (q :: held), s'. split_and!.
    + by case_if.
    + exists fl. split; [done|]. by rewrite <- Hperm, (Permutation_middle held fl q).
    + intros p b Hp _ Hb. apply Hm. intros q' ->%list_elem_of_singleton Hb'.
      assert (p = q) as -> by (eapply page_disjoint; eauto; apply Hok; set_solver).
      apply NoDup_app in Hnd as (_ & Hdis & _). by apply (Hdis q Hp); constructor.
  - case_bool_decide as Hp; [|done]. apply list_elem_of_split in Hp as (l1 & l2 & ->).
    assert (p ∉ fl) as Hpf.
    { apply NoDup_app in Hnd as (_ & Hdis & _). apply Hdis. set_solver. }
    destruct (wp_inv _ _ _ (kfree_spec _ _ p Hfl (Hok p ltac:(set_solver)) Hpf))
      as ([] & s' & Heq & Hfl' & Hm). rewrite Heq in Hrun. simplify_eq.
    rewrite without_split by (apply NoDup_app in Hnd as (? & _); done).
    eexists _, _. split_and!; [done| |].
    + exists (p :: fl). split; [done|]. rewrite <- Hperm. rewrite <- !app_assoc. simpl.
      apply Permutation_app_head. by rewrite <- Permutation_middle.
    + intros q b Hq Hq' Hb. apply Hm. intros q' ->%list_elem_of_singleton Hb'.
      assert (q = p) as -> by (eapply page_disjoint; eauto; apply Hok; set_solver).
      apply NoDup_app in Hnd as (Hnd & _). rewrite <- Permutation_middle in Hnd.
      apply NoDup_cons in Hnd as [? _]. done.
  - case_bool_decide as Ha; [|done]. simplify_eq. eexists _, _. split_and!; [done| |].
    + exists fl. split; [|done]. destruct Hfl as (Hlk & Hr & Hnf & Hof).
      split_and!; [done| |done|done]. simpl.
      eapply (is_run_same_off _ _ _ [PGROUNDDOWN a]); [|done| | |done].
      * intros b Hb. apply ld8_st8_ne. intros ->. apply (Hb (PGROUNDDOWN b)); [constructor|].
        unfold in_page. pose proof (PGROUNDDOWN_spec b). lia.
      * apply Forall_singleton, Hok. set_solver.
      * intros q Hq ->%list_elem_of_singleton.
        apply NoDup_app in Hnd as (_ & Hdis & _). by apply (Hdis (PGROUNDDOWN a) Ha).
    + intros p b _ _ _. simpl. apply ld8_st8.
Qed.

(** ** Properties *)

(** [C7] From boot (with the static free list empty), whatever sequence of allocations, frees of held pages and
    writes to held pages the clients of the allocator perform, it never panics,
    the pages handed out are pairwise distinct whole pages of RAM above the
    kernel, and each page is either held or on the free list: no page is lost. *)
Theorem kalloc_clients_safe s0 os out (Hzero : freelist s0 = 0)
  (Hrun : run_kops os [] (match kinit s0 with Ret (_, s) => s | _ => s0 end) = Some out) :
  ∃ held s fl, out = Ret (held, s) ∧ free_pages s fl ∧ held ++ fl ≡ₚ all_pages ∧
    NoDup held ∧ Forall page_ok held.
Proof.
  destruct (wp_inv _ _ _ (kinit_spec s0 Hzero)) as ([] & s1 & Hk & Hfl & _). rewrite Hk in Hrun.
  assert (kinv s1 []) as Hinv by (exists (rev all_pages); split; [done|symmetry; apply Permutation_rev]).
  assert (∃ held s, out = Ret (held, s) ∧ kinv s held) as (held & s & -> & fl & Hf & Hperm).
  { clear - Hinv Hrun. revert Hrun Hinv. generalize (@nil Z) as held. revert s1.
    induction os as [|o os IH]; intros s held Hrun Hinv; simpl in Hrun; [naive_solver|].
    destruct (run_kop o held s) as [out1|] eqn:Ho; [|done].
    destruct (run_kop_ok _ _ _ _ Hinv Ho) as (held' & s' & -> & Hinv' & _). eauto. }
  assert (NoDup (held ++ fl)) as Hnd by (rewrite Hperm; apply NoDup_pages_from).
  exists held, s, fl. split_and!; [done..|by apply NoDup_app in Hnd as (? & _)|].
  apply Forall_forall. intros p Hp. apply page_ok_all. rewrite <- Hperm. set_solver.
Qed.

(** A held page belongs to its holder: an operation of any client leaves the
    bytes of the pages held before and after it as they were, except the one byte
    a write names.  In particular kalloc's and kfree's junk fill and the links of
    the free list never reach a held page. *)
Theorem kalloc_held_frame o s held held' s' p b
  (Hinv : kinv s held) (Hrun : run_kop o held s = Some (Ret (held', s')))
  (Hp : p ∈ held) (Hp' : p ∈ held') (Hb : in_page p b) :
  ld8 (kmem s') b = match o with KWrite a v => if a =? b then u8 v else ld8 (kmem s) b
                               | _ => ld8 (kmem s) b end.
Proof.
  destruct (run_kop_ok _ _ _ _ Hinv Hrun) as (h & t & [= -> ->] & _ & Hf). by apply Hf with p.
Qed.

(** kalloc returns the null pointer only when every page is held, and
    otherwise a page that nobody holds. *)
Theorem kalloc_exhaustion s held (Hinv : kinv s held) :
  ∃ r s', kalloc s = Ret (r, s') ∧
    (r = 0 ↔ held ≡ₚ all_pages) ∧ (r ≠ 0 → r ∉ held ∧ page_ok r ∧ kinv s' (r :: held)).
Proof.
  destruct Hinv as (fl & Hfl & Hperm).
  assert (∀ p, p ∈ held ++ fl → page_ok p) as Hok by (intros p; rewrite Hperm; apply page_ok_all).
  destruct (wp_inv _ _ _ (kalloc_spec _ _ Hfl)) as (r & s' & Heq & HQ). exists r, s'.
  split; [done|]. destruct fl as [|q fl].
  { destruct HQ as [-> ->]. rewrite app_nil_r in Hperm. split; [done|done]. }
  destruct HQ as (-> & Hfl' & _). pose proof (Hok q ltac:(set_solver)) as Hq.
  pose proof (page_bounds _ Hq). split.
  - split; [lia|]. intros Hall. exfalso. apply Permutation_length in Hperm.
    apply Permutation_length in Hall. rewrite length_app in Hperm. cbn [length] in Hperm. lia.
  - intros _. split_and!; [|done|].
    + intros Hh. assert (NoDup (held ++ q :: fl)) as Hnd by (rewrite Hperm; apply NoDup_pages_from).
      apply NoDup_app in Hnd as (_ & Hdis & _). apply (Hdis q Hh). constructor.
    + exists fl. split; [done|]. by rewrite <- Hperm, (Permutation_middle held fl q).
Qed.

End code.

(** A kernel image that leaves one page of RAM, for the witnesses. *)
Definition demo_image : KernelImage.
Proof.
  refine (@Build_KernelImage (PHYSTOP - PGSIZE) (KERNBASE + 8192) (KERNBASE + 4096)
    _ _ _ _ _ _ _ _); vm_compute; first [done|reflexivity].
Defined.

Definition demo_page : Z := PHYSTOP - PGSIZE.

Lemma demo_pages : @all_pages demo_image = [demo_page].
Proof. reflexivity. Qed.

Lemma demo_page_ok : @page_ok demo_image demo_page.
Proof. split_and!; [reflexivity|vm_compute; done|vm_compute; done]. Qed.

(** The one page free, and the one page held. *)
Lemma demo_free : @kinv demo_image (mk_kst ∅ demo_page false) [].
Proof.
  exists [demo_page]. split; [|by rewrite demo_pages]. split; [done|]. split; [done|].
  split; [apply NoDup_singleton|by apply Forall_singleton, demo_page_ok].
Qed.

Lemma demo_held : @kinv demo_image (mk_kst ∅ 0 false) [demo_page].
Proof.
  exists []. split; [|by rewrite demo_pages]. split; [done|]. split; [done|].
  split; constructor.
Qed.

Lemma run_kalloc_defined n : ∀ held s,
  @run_kops demo_image (replicate n KAlloc) held s ≠ None.
Proof.
  induction n as [|n IH]; intros held s; simpl; [done|].
  destruct (kalloc s) as [[r s']| |]; [apply IH|done..].
Qed.

Lemma kalloc_clients_safe_witness :
  ∃ out held s fl,
    @run_kops demo_image [KAlloc; KAlloc] []
      (match @kinit demo_image (mk_kst ∅ 0 false) with Ret (_, s) => s | _ => mk_kst ∅ 0 false end)
      = Some out ∧
    out = Ret (held, s) ∧ @free_pages demo_image s fl ∧
    held ++ fl ≡ₚ @all_pages demo_image ∧ NoDup held ∧ Forall (@page_ok demo_image) held.
Proof.
  destruct (@run_kops demo_image [KAlloc; KAlloc] []
    (match @kinit demo_image (mk_kst ∅ 0 false) with Ret (_, s) => s | _ => mk_kst ∅ 0 false end))
    as [out|] eqn:E.
  - exists out. destruct (@kalloc_clients_safe demo_image (mk_kst ∅ 0 false) _ _ eq_refl E) as (held & s & fl & Hs).
    exists held, s, fl. split; [reflexivity|exact Hs].
  - exfalso. exact (run_kalloc_defined 2 _ _ E).
Defined.

Lemma kalloc_held_frame_witness :
  ld8 (kmem (set_mem (st8 demo_page 7) (mk_kst ∅ 0 false))) demo_page = 7 ∧
  ld8 (kmem (set_mem (st8 demo_page 7) (mk_kst ∅ 0 false))) (demo_page + 1) = 0.
Proof.
  split.
  - apply (@kalloc_held_frame demo_image (KWrite demo_page 7) _ [demo_page] [demo_page] _ demo_page
      demo_page demo_held eq_refl); [constructor|constructor|vm_compute; done].
  - apply (@kalloc_held_frame demo_image (KWrite demo_page 7) _ [demo_page] [demo_page] _ demo_page
      (demo_page + 1) demo_held eq_refl); [constructor|constructor|vm_compute; done].
Defined.

Lemma kalloc_exhaustion_witness :
  (∃ r s', kalloc (mk_kst ∅ demo_page false) = Ret (r, s') ∧
    (r = 0 ↔ [] ≡ₚ @all_pages demo_image) ∧
    (r ≠ 0 → r ∉ [] ∧ @page_ok demo_image r ∧ @kinv demo_image s' [r])) ∧
  (∃ r s', kalloc (mk_kst ∅ 0 false) = Ret (r, s') ∧
    (r = 0 ↔ [demo_page] ≡ₚ @all_pages demo_image) ∧
    (r ≠ 0 → r ∉ [demo_page] ∧ @page_ok demo_image r ∧ @kinv demo_image s' [r; demo_page])).
Proof.
  split.
  - apply (@kalloc_exhaustion demo_image _ []), demo_free.
  - apply (@kalloc_exhaustion demo_image _ [demo_page]), demo_held.
Defined.

End Kalloc.
