(* ===== verification/Vm.v ===== *)
(** * kernel/vm.c: page tables and user memory

    The code of vm.c, and of proc_mapstacks, proc_pagetable, proc_freepagetable
    and growproc of proc.c, over the memory and the page allocator of Kalloc.v.
    Page tables are the bytes the hardware walks: a table is the address of a
    page of 512 64-bit entries.  The kernel maps physical memory one to one, so
    a kernel pointer is a physical address.  A loop whose exit is not structural
    takes fuel; a run that exhausts it does not return, so the theorems of
    VmSpec.v and VmUser.v, all of which say that a routine returns, also say that
    the fuel is enough. *)

From S2P Require Import Prelude Mem CString Spinlock Riscv Kalloc.
Import Riscv Kalloc.

Module Vm.

Section code.
Context `{KernelImage}.

(** Bit tests of C: [x & mask] as a condition. *)
Definition has (x mask : Z) : bool := negb (Z.land x mask =? 0).

Definition load64 (a : Z) : M kst Z := gets (λ s, ld64 (kmem s) a).
Definition store64 (a v : Z) : M kst unit := modify (set_mem (st64 a v)).

(** [&pagetable[i]] *)
Definition pte_addr (pagetable i : Z) : Z := pagetable + 8 * i.

Fixpoint walk_loop (level : nat) (pagetable va : Z) (alloc : bool) : M kst Z :=
  match level with
  | O => mret (pte_addr pagetable (PX 0 va))
  | S level' =>
      let pte := pte_addr pagetable (PX (Z.of_nat level) va) in
      v ← load64 pte;
      if has v PTE_V then walk_loop level' (PTE2PA v) va alloc
      else if negb alloc then mret 0
      else
        pagetable ← kalloc;
        if pagetable =? 0 then mret 0
        else
          modify (set_mem (CString.memset pagetable 0 PGSIZE));;
          store64 pte (Z.lor (PA2PTE pagetable) PTE_V);;
          walk_loop level' pagetable va alloc
  end.

Definition walk (pagetable va : Z) (alloc : bool) : M kst Z :=
  if MAXVA <=? va then panic "walk" else walk_loop 2 pagetable va alloc.

Definition walkaddr (pagetable va : Z) : M kst Z :=
  if MAXVA <=? va then mret 0
  else
    pte ← walk pagetable va false;
    if pte =? 0 then mret 0
    else
      v ← load64 pte;
      if negb (has v PTE_V) then mret 0
      else if negb (has v PTE_U) then mret 0
      else mret (PTE2PA v).

Fixpoint mappages_loop (fuel : nat) (pagetable a last pa perm : Z) : M kst Z :=
  match fuel with
  | O => block
  | S fuel' =>
      pte ← walk pagetable a true;
      if pte =? 0 then mret (-1)
      else
        v ← load64 pte;
        if has v PTE_V then panic "mappages: remap"
        else
          store64 pte (Z.lor (Z.lor (PA2PTE pa) perm) PTE_V);;
          if a =? last then mret 0
          else mappages_loop fuel' pagetable (u64 (a + PGSIZE)) last (u64 (pa + PGSIZE)) perm
  end.

Definition mappages (pagetable va size pa perm : Z) : M kst Z :=
  if negb (va mod PGSIZE =? 0) then panic "mappages: va not aligned"
  else if negb (size mod PGSIZE =? 0) then panic "mappages: size not aligned"
  else if size =? 0 then panic "mappages: size"
  else mappages_loop (Z.to_nat (size / PGSIZE)) pagetable va (u64 (va + size - PGSIZE)) pa perm.

Definition kvmmap (kpgtbl va pa sz perm : Z) : M kst unit :=
  r ← mappages kpgtbl va sz pa perm;
  when (negb (r =? 0)) (panic "kvmmap").

(** [proc_mapstacks] of proc.c. *)
Definition proc_mapstacks (kpgtbl : Z) : M kst unit :=
  for_range 0 (Z.to_nat NPROC) (λ p,
    pa ← kalloc;
    when (pa =? 0) (panic "kalloc");;
    let va := KSTACK p in
    kvmmap kpgtbl va pa PGSIZE (Z.lor PTE_R PTE_W)).

Definition kvmmake : M kst Z :=
  kpgtbl ← kalloc;
  modify (set_mem (CString.memset kpgtbl 0 PGSIZE));;
  kvmmap kpgtbl UART0 UART0 PGSIZE (Z.lor PTE_R PTE_W);;
  kvmmap kpgtbl VIRTIO0 VIRTIO0 PGSIZE (Z.lor PTE_R PTE_W);;
  kvmmap kpgtbl PLIC PLIC 0x4000000 (Z.lor PTE_R PTE_W);;
  kvmmap kpgtbl KERNBASE KERNBASE (etext - KERNBASE) (Z.lor PTE_R PTE_X);;
  kvmmap kpgtbl etext etext (PHYSTOP - etext) (Z.lor PTE_R PTE_W);;
  kvmmap kpgtbl TRAMPOLINE trampoline PGSIZE (Z.lor PTE_R PTE_X);;
  proc_mapstacks kpgtbl;;
  mret kpgtbl.

Fixpoint uvmunmap_loop (fuel : nat) (pagetable a end_ : Z) (do_free : bool) : M kst unit :=
  match fuel with
  | O => block
  | S fuel' =>
      if a <? end_ then
        pte ← walk pagetable a false;
        if pte =? 0 then panic "uvmunmap: walk"
        else
          v ← load64 pte;
          if negb (has v PTE_V) then panic "uvmunmap: not mapped"
          else if PTE_FLAGS v =? PTE_V then panic "uvmunmap: not a leaf"
          else
            when do_free (kfree (PTE2PA v));;
            store64 pte 0;;
            uvmunmap_loop fuel' pagetable (u64 (a + PGSIZE)) end_ do_free
      else mret tt
  end.

Definition uvmunmap (pagetable va npages : Z) (do_free : bool) : M kst unit :=
  if negb (va mod PGSIZE =? 0) then panic "uvmunmap: not aligned"
  else uvmunmap_loop (S (Z.to_nat npages)) pagetable va (u64 (va + npages * PGSIZE)) do_free.

Definition uvmcreate : M kst Z :=
  pagetable ← kalloc;
  if pagetable =? 0 then mret 0
  else
    modify (set_mem (CString.memset pagetable 0 PGSIZE));;
    mret pagetable.

Definition uvmfirst (pagetable src sz : Z) : M kst unit :=
  if PGSIZE <=? sz then panic "uvmfirst: more than a page"
  else
    mem ← kalloc;
    modify (set_mem (CString.memset mem 0 PGSIZE));;
    mappages pagetable 0 PGSIZE mem (Z.lor (Z.lor (Z.lor PTE_W PTE_R) PTE_X) PTE_U);;
    modify (set_mem (CString.memmove mem src sz)).

Definition uvmdealloc (pagetable oldsz newsz : Z) : M kst Z :=
  if oldsz <=? newsz then mret oldsz
  else
    when (PGROUNDUP newsz <? PGROUNDUP oldsz)
      (let npages := s32 ((PGROUNDUP oldsz - PGROUNDUP newsz) / PGSIZE) in
       uvmunmap pagetable (PGROUNDUP newsz) (u64 npages) true);;
    mret newsz.

Fixpoint uvmalloc_loop (fuel : nat) (pagetable a oldsz newsz xperm : Z) : M kst Z :=
  match fuel with
  | O => block
  | S fuel' =>
      if a <? newsz then
        mem ← kalloc;
        if mem =? 0 then uvmdealloc pagetable a oldsz;; mret 0
        else
          modify (set_mem (CString.memset mem 0 PGSIZE));;
          r ← mappages pagetable a PGSIZE mem (Z.lor (Z.lor PTE_R PTE_U) xperm);
          if negb (r =? 0) then kfree mem;; uvmdealloc pagetable a oldsz;; mret 0
          else uvmalloc_loop fuel' pagetable (u64 (a + PGSIZE)) oldsz newsz xperm
      else mret newsz
  end.

Definition uvmalloc (pagetable oldsz newsz xperm : Z) : M kst Z :=
  if newsz <? oldsz then mret oldsz
  else
    let oldsz := PGROUNDUP oldsz in
    uvmalloc_loop (S (Z.to_nat ((newsz - oldsz + PGSIZE - 1) / PGSIZE)))
      pagetable oldsz oldsz newsz xperm.

(** [freewalk] recurses once per level of the table. *)
Fixpoint freewalk (fuel : nat) (pagetable : Z) : M kst unit :=
  match fuel with
  | O => block
  | S fuel' =>
      for_range 0 (Z.to_nat 512) (λ i,
        pte ← load64 (pte_addr pagetable i);
        if has pte PTE_V && negb (has pte (Z.lor (Z.lor PTE_R PTE_W) PTE_X)) then
          let child := PTE2PA pte in
          freewalk fuel' child;;
          store64 (pte_addr pagetable i) 0
        else when (has pte PTE_V) (panic "freewalk: leaf"));;
      kfree pagetable
  end.

Definition uvmfree (pagetable sz : Z) : M kst unit :=
  when (0 <? sz) (uvmunmap pagetable 0 (PGROUNDUP sz / PGSIZE) true);;
  freewalk 3 pagetable.

(** [inl i] is the jump to [err] with the loop variable [i]. *)
Fixpoint uvmcopy_loop (fuel : nat) (old new i sz : Z) : M kst (Z + unit) :=
  match fuel with
  | O => block
  | S fuel' =>
      if i <? sz then
        pte ← walk old i false;
        if pte =? 0 then panic "uvmcopy: pte should exist"
        else
          v ← load64 pte;
          if negb (has v PTE_V) then panic "uvmcopy: page not present"
          else
            let pa := PTE2PA v in
            let flags := PTE_FLAGS v in
            mem ← kalloc;
            if mem =? 0 then mret (inl i)
            else
              modify (set_mem (CString.memmove mem pa PGSIZE));;
              r ← mappages new i PGSIZE mem flags;
              if negb (r =? 0) then kfree mem;; mret (inl i)
              else uvmcopy_loop fuel' old new (u64 (i + PGSIZE)) sz
      else mret (inr tt)
  end.

Definition uvmcopy (old new sz : Z) : M kst Z :=
  r ← uvmcopy_loop (S (Z.to_nat ((sz + PGSIZE - 1) / PGSIZE))) old new 0 sz;
  match r with
  | inr _ => mret 0
  | inl i => uvmunmap new 0 (i / PGSIZE) true;; mret (-1)
  end.

Definition uvmclear (pagetable va : Z) : M kst unit :=
  pte ← walk pagetable va false;
  if pte =? 0 then panic "uvmclear"
  else v ← load64 pte; store64 pte (Z.land v (Z.lnot PTE_U)).

Fixpoint copyout_loop (fuel : nat) (pagetable dstva src len : Z) : M kst Z :=
  match fuel with
  | O => block
  | S fuel' =>
      if 0 <? len then
        let va0 := PGROUNDDOWN dstva in
        if MAXVA <=? va0 then mret (-1)
        else
          pte ← walk pagetable va0 false;
          if pte =? 0 then mret (-1)
          else
            v ← load64 pte;
            if negb (has v PTE_V) || negb (has v PTE_U) || negb (has v PTE_W) then mret (-1)
            else
              let pa0 := PTE2PA v in
              let n := PGSIZE - (dstva - va0) in
              let n := if len <? n then len else n in
              modify (set_mem (CString.memmove (pa0 + (dstva - va0)) src n));;
              copyout_loop fuel' pagetable (va0 + PGSIZE) (src + n) (len - n)
      else mret 0
  end.

Definition copyout (pagetable dstva src len : Z) : M kst Z :=
  copyout_loop (Z.to_nat (len / PGSIZE) + 3) pagetable dstva src len.

Fixpoint copyin_loop (fuel : nat) (pagetable dst srcva len : Z) : M kst Z :=
  match fuel with
  | O => block
  | S fuel' =>
      if 0 <? len then
        let va0 := PGROUNDDOWN srcva in
        pa0 ← walkaddr pagetable va0;
        if pa0 =? 0 then mret (-1)
        else
          let n := PGSIZE - (srcva - va0) in
          let n := if len <? n then len else n in
          modify (set_mem (CString.memmove dst (pa0 + (srcva - va0)) n));;
          copyin_loop fuel' pagetable (dst + n) (va0 + PGSIZE) (len - n)
      else mret 0
  end.

Definition copyin (pagetable dst srcva len : Z) : M kst Z :=
  copyin_loop (Z.to_nat (len / PGSIZE) + 3) pagetable dst srcva len.

(** The inner loop of [copyinstr]: [n] bytes from [p] to [dst]; whether the NUL
    was copied, and [dst] and [max] after. *)
Fixpoint copyinstr_page (n : nat) (p dst max : Z) : M kst (bool * Z * Z) :=
  match n with
  | O => mret (false, dst, max)
  | S n' =>
      c ← gets (λ s, ld8 (kmem s) p);
      if c =? 0 then modify (set_mem (st8 dst 0));; mret (true, dst, max)
      else modify (set_mem (st8 dst c));; copyinstr_page n' (p + 1) (dst + 1) (max - 1)
  end.

Fixpoint copyinstr_loop (fuel : nat) (pagetable dst srcva max : Z) (got_null : bool) : M kst Z :=
  match fuel with
  | O => block
  | S fuel' =>
      if negb got_null && (0 <? max) then
        let va0 := PGROUNDDOWN srcva in
        pa0 ← walkaddr pagetable va0;
        if pa0 =? 0 then mret (-1)
        else
          let n := PGSIZE - (srcva - va0) in
          let n := if max <? n then max else n in
          '(got_null, dst, max) ← copyinstr_page (Z.to_nat n) (pa0 + (srcva - va0)) dst max;
          copyinstr_loop fuel' pagetable dst (va0 + PGSIZE) max got_null
      else if got_null then mret 0 else mret (-1)
  end.

Definition copyinstr (pagetable dst srcva max : Z) : M kst Z :=
  copyinstr_loop (Z.to_nat (max / PGSIZE) + 4) pagetable dst srcva max false.

(** [proc_pagetable(p)] of proc.c, for the process's [trapframe] page. *)
Definition proc_pagetable (trapframe : Z) : M kst Z :=
  pagetable ← uvmcreate;
  if pagetable =? 0 then mret 0
  else
    r ← mappages pagetable TRAMPOLINE PGSIZE trampoline (Z.lor PTE_R PTE_X);
    if r <? 0 then uvmfree pagetable 0;; mret 0
    else
      r ← mappages pagetable TRAPFRAME PGSIZE trapframe (Z.lor PTE_R PTE_W);
      if r <? 0 then
        uvmunmap pagetable TRAMPOLINE 1 false;; uvmfree pagetable 0;; mret 0
      else mret pagetable.

Definition proc_freepagetable (pagetable sz : Z) : M kst unit :=
  uvmunmap pagetable TRAMPOLINE 1 false;;
  uvmunmap pagetable TRAPFRAME 1 false;;
  uvmfree pagetable sz.

(** [growproc(n)] for a process of table [pagetable] and size [sz]: the result
    and the new [p->sz]. *)
Definition growproc (pagetable sz n : Z) : M kst (Z * Z) :=
  if 0 <? n then
    sz' ← uvmalloc pagetable sz (u64 (sz + n)) PTE_W;
    if sz' =? 0 then mret (-1, sz) else mret (0, sz')
  else if n <? 0 then
    sz' ← uvmdealloc pagetable sz (u64 (sz + n));
    mret (0, sz')
  else mret (0, sz).

End code.

End Vm.
