(* ===== verification/VmSpec.v ===== *)
(** * Page tables: representation and correctness of walk, mappages, uvmunmap

    [nodes] is the ghost shape of a page table: it maps the path of indices from
    the root to each table page.  [pt_wf] says that memory holds a three-level
    Sv39 table of that shape; [as_rep] adds the abstract address space, a
    function from virtual page numbers to leaf entries (0 where nothing is
    mapped).  The theorems say what the routines of vm.c do to that function,
    that they touch no page but their own, and that no page is lost. *)

From S2P Require Import Prelude Mem CString Spinlock Riscv Kalloc Vm.
Import Riscv Kalloc Vm.

Module VmSpec.

Section spec.
Context `{KernelImage}.

Notation nodes := (gmap (list Z) Z).

(** The table pages, and the leaf entry of virtual address [va] (0 if there is
    no level-0 table for it). *)
Definition pages (nd : nodes) : list Z := (map_to_list nd).*2.

Definition leaf_key (va : Z) : list Z := [PX 2 va; PX 1 va].

Definition pte_at (m : mem) (nd : nodes) (va : Z) : Z :=
  match nd !! leaf_key va with
  | Some q => ld64 m (pte_addr q (PX 0 va))
  | None => 0
  end.

Record pt_wf (m : mem) (nd : nodes) (root : Z) : Prop := {
  wf_root : nd !! [] = Some root;
  wf_page : ∀ k p, nd !! k = Some p → page_ok p;
  wf_depth : ∀ k p, nd !! k = Some p → (length k ≤ 2)%nat;
  wf_low : ∀ i k p, nd !! (i :: k) = Some p → 0 ≤ i < 256;
  wf_inj : ∀ k k' p, nd !! k = Some p → nd !! k' = Some p → k = k';
  wf_parent : ∀ k i p, nd !! (k ++ [i]) = Some p → is_Some (nd !! k) ∧ 0 ≤ i < 512;
  wf_entry : ∀ k p i, nd !! k = Some p → (length k < 2)%nat → 0 ≤ i < 512 →
    match nd !! (k ++ [i]) with
    | Some q => ld64 m (pte_addr p i) = Z.lor (PA2PTE q) PTE_V
    | None => has (ld64 m (pte_addr p i)) PTE_V = false
    end }.

(** A table in memory together with the free list it allocates from. *)
Definition vm_ok (s : kst) (root : Z) (nd : nodes) (fl : list Z) : Prop :=
  free_pages s fl ∧ pt_wf (kmem s) nd root ∧ NoDup (fl ++ pages nd).

(** The number of virtual pages below [MAXVA]. *)
Definition NVPN : Z := 2 ^ 26.

(** The abstract address space [A] of a table. *)
Definition as_rep (s : kst) (root : Z) (nd : nodes) (fl : list Z) (A : Z → Z) : Prop :=
  vm_ok s root nd fl ∧ ∀ n, 0 ≤ n < NVPN → pte_at (kmem s) nd (4096 * n) = A n.

(** What an operation on one table may change: pages move between the free list
    and the table, and only those pages are written. *)
Definition vm_frame (s : kst) (nd : nodes) (fl : list Z) (s' : kst) (nd' : nodes) (fl' : list Z) : Prop :=
  fl' ++ pages nd' ≡ₚ fl ++ pages nd ∧ same_off (fl ++ pages nd) (kmem s) (kmem s').

(** The leaf entry [mappages] writes. *)
Definition leaf (pa perm : Z) : Z := Z.lor (Z.lor (PA2PTE pa) perm) PTE_V.

(** [A] after mapping [n] pages from virtual page [v] on to physical [pa] on. *)
Definition map_range (v n pa perm : Z) (A : Z → Z) : Z → Z :=
  λ x, if (v <=? x) && (x <? v + n) then leaf (pa + 4096 * (x - v)) perm else A x.

Definition unmap_range (v n : Z) (A : Z → Z) : Z → Z :=
  λ x, if (v <=? x) && (x <? v + n) then 0 else A x.

(** ** Lemmas: table pages and entries *)

Lemma elem_of_pages nd p : p ∈ pages nd ↔ ∃ k, nd !! k = Some p.
Proof.
  unfold pages. rewrite list_elem_of_fmap. split.
  - intros ([k q] & -> & Hin). exists k. by apply elem_of_map_to_list.
  - intros (k & Hk). exists (k, p). split; [done|]. by apply elem_of_map_to_list.
Qed.

Lemma length_pages nd : length (pages nd) = size nd.
Proof. unfold pages. by rewrite length_fmap, length_map_to_list. Qed.

Lemma pages_insert nd k p : nd !! k = None → pages (<[k := p]> nd) ≡ₚ p :: pages nd.
Proof. intros Hk. unfold pages. by rewrite map_to_list_insert. Qed.

Lemma entry_in_page p i b :
  0 ≤ i < 512 → pte_addr p i ≤ b < pte_addr p i + 8 → in_page p b.
Proof. unfold pte_addr, in_page. lia. Qed.

Lemma ld64_entry_ext m m' p i :
  (∀ b, in_page p b → ld8 m' b = ld8 m b) → 0 ≤ i < 512 →
  ld64 m' (pte_addr p i) = ld64 m (pte_addr p i).
Proof. intros Hm Hi. apply ld64_ext. intros b Hb. apply Hm. by eapply entry_in_page. Qed.

(** Bytes of another page's entries, or of another entry, are elsewhere. *)
Lemma entry_disjoint p i q j b :
  page_ok p → page_ok q → 0 ≤ i < 512 → 0 ≤ j < 512 → (p, i) ≠ (q, j) →
  pte_addr p i ≤ b < pte_addr p i + 8 → ¬ (pte_addr q j ≤ b < pte_addr q j + 8).
Proof.
  intros Hp Hq Hi Hj Hne Hb Hb'.
  assert (p = q) as ->.
  { eapply page_disjoint; [done|done| |]; eapply entry_in_page; [exact Hi|done|exact Hj|done]. }
  assert (i ≠ j) by congruence. unfold pte_addr in *. lia.
Qed.

Lemma has_lor x m : 0 < m → has (Z.lor x m) m = true.
Proof.
  intros Hm. unfold has. rewrite Z.land_lor_distr_l, Z.land_diag.
  apply negb_true_iff, Z.eqb_neq. intros Hz. apply Z.lor_eq_0_iff in Hz as [_ Hz]. lia.
Qed.

Lemma table_pte p : page_ok p →
  has (Z.lor (PA2PTE p) PTE_V) PTE_V = true ∧ PTE2PA (Z.lor (PA2PTE p) PTE_V) = p ∧
  0 ≤ Z.lor (PA2PTE p) PTE_V < 2 ^ 64.
Proof.
  intros Hp. pose proof (page_bounds p Hp). destruct Hp as (Hal & _).
  destruct (pte_decode p PTE_V) as (H1 & H2 & H3); [lia|done|done|].
  split_and!; [by apply has_lor|done|lia|lia].
Qed.

Lemma vpn_keys n : 0 ≤ n < NVPN →
  PX 2 (4096 * n) = n / 2 ^ 18 ∧ PX 1 (4096 * n) = n / 512 mod 512 ∧ PX 0 (4096 * n) = n mod 512.
Proof.
  intros Hn. unfold NVPN in Hn. rewrite !PX_eq by lia. simpl.
  split_and!; zlia.
Qed.

Lemma vpn_inj n n' : 0 ≤ n < NVPN → 0 ≤ n' < NVPN →
  leaf_key (4096 * n) = leaf_key (4096 * n') → PX 0 (4096 * n) = PX 0 (4096 * n') → n = n'.
Proof.
  intros Hn Hn' Hk H0. unfold leaf_key in Hk.
  destruct (vpn_keys n Hn) as (E2 & E1 & E0). destruct (vpn_keys n' Hn') as (F2 & F1 & F0).
  rewrite E2, E1, F2, F1 in Hk. rewrite E0, F0 in H0. injection Hk as Hk2 Hk1.
  unfold NVPN in *. clear E2 E1 E0 F2 F1 F0. zlia.
Qed.

(** ** Lemmas: the three ways memory changes under a table *)

(** A write elsewhere. *)
Lemma pt_wf_ext m m' nd root :
  (∀ p b, p ∈ pages nd → in_page p b → ld8 m' b = ld8 m b) →
  pt_wf m nd root → pt_wf m' nd root ∧ ∀ va, pte_at m' nd va = pte_at m nd va.
Proof.
  intros Hm Hwf. split.
  - destruct Hwf as [H1 H2 H3 HL H4 H5 H6]. split; [done..|]. intros k p i Hk Hl Hi.
    specialize (H6 k p i Hk Hl Hi). rewrite (ld64_entry_ext m m' p i); [done| |done].
    intros b. apply Hm, elem_of_pages. eauto.
  - intros va. unfold pte_at. destruct (nd !! leaf_key va) as [q|] eqn:Hq; [|done].
    apply ld64_entry_ext; [|by apply PX_range]. intros b. apply Hm, elem_of_pages. eauto.
Qed.

(** A new, zeroed table page [q] hooked into entry [i] of node [k]. *)
Lemma pt_wf_extend m m' nd root k p i q :
  pt_wf m nd root → nd !! k = Some p → (length k < 2)%nat → 0 ≤ i < 512 →
  nd !! (k ++ [i]) = None → hd i k < 256 → page_ok q → q ∉ pages nd →
  (∀ b, in_page q b → ld8 m' b = 0) →
  (∀ b, ¬ in_page q b → ¬ (pte_addr p i ≤ b < pte_addr p i + 8) → ld8 m' b = ld8 m b) →
  ld64 m' (pte_addr p i) = Z.lor (PA2PTE q) PTE_V →
  pt_wf m' (<[k ++ [i] := q]> nd) root ∧
  ∀ va, pte_at m' (<[k ++ [i] := q]> nd) va = pte_at m nd va.
Proof.
  intros Hwf Hk Hlen Hi Hnone Hlow Hq Hqn Hz Hsame Hent.
  pose proof Hwf as [H1 H2 H3 HL H4 H5 H6].
  assert (∀ k' p', nd !! k' = Some p' → p' ≠ q) as Hpq.
  { intros k' p' Hk' ->. apply Hqn, elem_of_pages. eauto. }
  assert (∀ k', nd !! (k ++ [i]) = None → nd !! ((k ++ [i]) ++ k') = None) as Hbelow.
  { intros k' Hn. induction k' as [|j k' IH] using rev_ind; [by rewrite app_nil_r|].
    rewrite app_assoc. destruct (nd !! (((k ++ [i]) ++ k') ++ [j])) eqn:E; [|done].
    apply H5 in E as [[x Hx] _]. congruence. }
  assert (∀ k' p' j, nd !! k' = Some p' → 0 ≤ j < 512 → (k', j) ≠ (k, i) →
    ld64 m' (pte_addr p' j) = ld64 m (pte_addr p' j)) as Hold.
  { intros k' p' j Hk' Hj Hne. apply ld64_ext. intros b Hb. apply Hsame.
    - intros Hb'. apply (Hpq _ _ Hk'). eapply page_disjoint; eauto. by eapply entry_in_page.
    - eapply entry_disjoint; [| | | | |done]; eauto.
      intros [= -> ->]. apply Hne. f_equal. by eapply H4. }
  assert (∀ j, 0 ≤ j < 512 → ld64 m' (pte_addr q j) = 0) as Hnew.
  { intros j Hj. apply ld64_zero. intros b Hb. apply Hz. by eapply entry_in_page. }
  split.
  - split.
    + rewrite lookup_insert_ne; [done|]. by destruct k.
    + intros k' p' [[<- <-]|[_ Hk']]%lookup_insert_Some; eauto.
    + intros k' p' [[<- <-]|[_ Hk']]%lookup_insert_Some; [|eauto].
      rewrite length_app. simpl. lia.
    + intros i' k' p' [[E _]|[_ Hk']]%lookup_insert_Some; [|eauto].
      destruct k as [|i0 k0]; simplify_eq/=; [lia|].
      destruct k0; [|simpl in Hlen; lia]. split; [|done]. by eapply HL.
    + intros k1 k2 p' [[<- <-]|[_ Hk1]]%lookup_insert_Some [[<- E]|[_ Hk2]]%lookup_insert_Some.
      * done.
      * by destruct (Hpq _ _ Hk2).
      * subst. by destruct (Hpq _ _ Hk1).
      * eauto.
    + intros k' j p' [[E <-]|[Hne Hk']]%lookup_insert_Some.
      * apply app_inj_tail in E as [<- <-]. split; [|done].
        rewrite lookup_insert_ne; [eauto|]. intros E.
        apply (f_equal length) in E. rewrite length_app in E. simpl in E. lia.
      * apply H5 in Hk' as [[x Hx] ?]. split; [|done].
        destruct (decide (k ++ [i] = k')) as [<-|]; [by rewrite lookup_insert_eq|].
        rewrite lookup_insert_ne by done. eauto.
    + intros k' p' j [[<- <-]|[Hne Hk']]%lookup_insert_Some Hl Hj.
      * rewrite lookup_insert_ne.
        2:{ intros E. apply (f_equal length) in E. rewrite !length_app in E. simpl in E. lia. }
        rewrite (Hbelow [j] Hnone), Hnew by done. done.
      * destruct (decide ((k', j) = (k, i))) as [[= -> ->]|Hkj].
        { rewrite lookup_insert_eq. rewrite Hk in Hk'. by simplify_eq. }
        rewrite lookup_insert_ne by (intros E%app_inj_tail; naive_solver).
        rewrite (Hold k' p' j) by done. by apply H6.
  - intros va. unfold pte_at. destruct (decide (k ++ [i] = leaf_key va)) as [E|E].
    + rewrite <- E, lookup_insert_eq, Hnone. apply Hnew. by apply PX_range.
    + rewrite lookup_insert_ne by done. destruct (nd !! leaf_key va) as [q'|] eqn:Hq'; [|done].
      apply (Hold (leaf_key va)); [done|by apply PX_range|].
      intros [= E1 _]. subst k. unfold leaf_key in Hlen. simpl in Hlen. lia.
Qed.

(** A write to one leaf entry. *)
Lemma pt_wf_leaf m nd root q n v :
  pt_wf m nd root → 0 ≤ n < NVPN → nd !! leaf_key (4096 * n) = Some q → 0 ≤ v < 2 ^ 64 →
  let m' := st64 (pte_addr q (PX 0 (4096 * n))) v m in
  pt_wf m' nd root ∧
  ∀ n', 0 ≤ n' < NVPN → pte_at m' nd (4096 * n') = <[n := v]> (λ x, pte_at m nd (4096 * x)) n'.
Proof.
  intros Hwf Hn Hq Hv m'. pose proof Hwf as [H1 H2 H3 HL H4 H5 H6].
  assert (∀ k p j, nd !! k = Some p → 0 ≤ j < 512 → (k, j) ≠ (leaf_key (4096 * n), PX 0 (4096 * n)) →
    ld64 m' (pte_addr p j) = ld64 m (pte_addr p j)) as Hold.
  { intros k p j Hk Hj Hne. apply ld64_ext. intros b Hb. apply ld8_st64_ne.
    pose proof (entry_disjoint p j q (PX 0 (4096 * n)) b) as Hd.
    destruct (decide (pte_addr q (PX 0 (4096 * n)) ≤ b < pte_addr q (PX 0 (4096 * n)) + 8)); [|lia].
    exfalso. apply Hd; eauto; [by apply PX_range|].
    intros [= -> ->]. apply Hne. f_equal. by eapply H4. }
  split.
  - split; [done..|]. intros k p i Hk Hl Hi. specialize (H6 k p i Hk Hl Hi).
    rewrite (Hold k p i); [done..|]. intros [= -> _]. unfold leaf_key in Hl. simpl in Hl. lia.
  - intros n' Hn'. destruct (decide (n' = n)) as [->|Hne].
    + rewrite fn_lookup_insert. unfold pte_at. rewrite Hq. unfold m'. rewrite ld64_st64_eq.
      by apply u64_small.
    + rewrite fn_lookup_insert_ne by done. unfold pte_at.
      destruct (nd !! leaf_key (4096 * n')) as [q'|] eqn:Hq'; [|done].
      eapply Hold; [done|by apply PX_range|]. intros [= E1 E2 E3].
      apply Hne. apply vpn_inj; [done..| |done]. unfold leaf_key. by rewrite E1, E2.
Qed.

(** ** Lemmas: walk *)

Lemma vm_frame_refl s nd fl : vm_frame s nd fl s nd fl.
Proof. split; [done|apply same_off_refl]. Qed.

Lemma same_off_perm l l' m m' : l ≡ₚ l' → same_off l m m' → same_off l' m m'.
Proof. intros Hp Hs b Hb. apply Hs. intros p Hin. apply Hb. by rewrite <- Hp. Qed.

Lemma same_off_mono l l' m m' : l ⊆ l' → same_off l m m' → same_off l' m m'.
Proof. intros Hl Hs b Hb. apply Hs. intros p Hin. by apply Hb, Hl. Qed.

Lemma vm_frame_trans s1 nd1 fl1 s2 nd2 fl2 s3 nd3 fl3 :
  vm_frame s1 nd1 fl1 s2 nd2 fl2 → vm_frame s2 nd2 fl2 s3 nd3 fl3 →
  vm_frame s1 nd1 fl1 s3 nd3 fl3.
Proof.
  intros [P1 M1] [P2 M2]. split; [by rewrite P2, P1|].
  eapply same_off_trans; [done|]. by eapply same_off_perm.
Qed.

Lemma vm_page_notin s root nd fl p : vm_ok s root nd fl → p ∈ pages nd → p ∉ fl.
Proof. intros (_ & _ & Hnd) Hp Hf. apply NoDup_app in Hnd as (_ & Hd & _). by apply (Hd p). Qed.

(** A zeroed page hooked into the table keeps it well formed. *)
Lemma install_table s s1 root nd fl k p i q :
  vm_ok s root nd (q :: fl) → nd !! k = Some p → (length k < 2)%nat → 0 ≤ i < 512 →
  nd !! (k ++ [i]) = None → hd i k < 256 → free_pages s1 fl → same_off [q] (kmem s) (kmem s1) →
  let s' := set_mem (st64 (pte_addr p i) (Z.lor (PA2PTE q) PTE_V))
              (set_mem (CString.memset q 0 PGSIZE) s1) in
  let nd' := <[k ++ [i] := q]> nd in
  vm_ok s' root nd' fl ∧ vm_frame s nd (q :: fl) s' nd' fl ∧
  ∀ a, pte_at (kmem s') nd' a = pte_at (kmem s) nd a.
Proof.
  intros Hok Hk Hlen Hi Hq Hlow Hfl1 Hm1 s' nd'. pose proof Hok as (Hfl & Hwf & Hnd).
  pose proof Hfl as (_ & _ & _ & Hokl). apply Forall_cons in Hokl as [Hqok _].
  assert (q ∉ pages nd) as Hqn.
  { intros Hin. apply (vm_page_notin _ _ _ _ _ Hok Hin). constructor. }
  set (m' := st64 (pte_addr p i) (Z.lor (PA2PTE q) PTE_V) (CString.memset q 0 PGSIZE (kmem s1))).
  assert (page_ok p) as Hpok by (by eapply wf_page).
  assert (p ≠ q) as Hpq by (intros ->; apply Hqn, elem_of_pages; eauto).
  assert (∀ b, in_page q b → ld8 m' b = 0) as Hz.
  { intros b Hb. unfold m'. rewrite ld8_st64_ne.
    - rewrite CString.memset_in; [done|]. unfold PGSIZE, in_page in *. lia.
    - destruct (decide (pte_addr p i ≤ b < pte_addr p i + 8)) as [Hb'|]; [|lia].
      exfalso. apply Hpq. eapply page_disjoint; eauto. by eapply entry_in_page. }
  assert (∀ b, ¬ in_page q b → ¬ (pte_addr p i ≤ b < pte_addr p i + 8) →
    ld8 m' b = ld8 (kmem s) b) as Hsame.
  { intros b Hb Hb'. unfold m'. rewrite ld8_st64_ne by lia.
    rewrite CString.memset_out by (unfold PGSIZE, in_page in *; lia).
    apply Hm1. by intros x ->%list_elem_of_singleton. }
  assert (same_off [q; p] (kmem s) m') as Hoff.
  { intros b Hb. apply Hsame; [apply Hb; set_solver|].
    intros Hb'. apply (Hb p); [set_solver|]. by eapply entry_in_page. }
  destruct (pt_wf_extend (kmem s) m' nd root k p i q) as [Hwf' Hpte]; [done..|
    unfold m'; rewrite ld64_st64_eq; apply u64_small; by apply table_pte|].
  assert (fl ++ pages (<[k ++ [i]:=q]> nd) ≡ₚ (q :: fl) ++ pages nd) as Hperm.
  { rewrite pages_insert by done. by rewrite <- Permutation_middle. }
  subst s' nd'. split_and!; [| |done].
  - split_and!.
    + destruct Hfl1 as (? & Hr & ? & Hfo). split_and!; [done| |done|done]. simpl.
      eapply (is_run_same_off (kmem s1) _ _ [q; p]); [|done|by repeat (constructor; [done|]); constructor| |done].
      * intros b Hb. unfold m'. rewrite ld8_st64_ne.
        -- apply CString.memset_out; [unfold PGSIZE; lia|]. specialize (Hb q ltac:(set_solver)).
           unfold PGSIZE, in_page in *. lia.
        -- specialize (Hb p ltac:(set_solver)). unfold in_page, pte_addr in *. lia.
      * intros x Hx Hin. rewrite !elem_of_cons in Hin. apply NoDup_app in Hnd as (Hndq & Hd & _).
        apply NoDup_cons in Hndq as [Hqf _]. destruct Hin as [->|[->|Hin]].
        -- done.
        -- apply (Hd p); [by constructor|]. apply elem_of_pages. eauto.
        -- by apply elem_of_nil in Hin.
    + done.
    + by rewrite Hperm.
  - split; [done|]. eapply same_off_mono; [|exact Hoff].
    intros x. rewrite !elem_of_cons, elem_of_app. intros [->|[->|Hx]].
    + left. constructor.
    + right. apply elem_of_pages. eauto.
    + by apply elem_of_nil in Hx.
Qed.

(** [nd'] has no nodes beyond those of [nd] but ones at keys in [X]. *)
Definition grows (X : list Z → Prop) (nd nd' : nodes) : Prop := ∀ k, is_Some (nd' !! k) → is_Some (nd !! k) ∨ X k.

Lemma grows_refl X nd : grows X nd nd.
Proof. intros k Hk. by left. Qed.

Lemma grows_trans (X Y : list Z → Prop) nd1 nd2 nd3 : (∀ k, X k → Y k) → grows X nd1 nd2 → grows Y nd2 nd3 → grows Y nd1 nd3.
Proof. intros HXY H1 H2 k Hk. destruct (H2 k Hk) as [Hk'|]; [|by right]. destruct (H1 k Hk') as [|]; auto. Qed.

(** So it has at most as many more as there are such keys. *)
Lemma grows_size (l : list (list Z)) (X : list Z → Prop) nd nd' : (∀ k, X k → k ∈ l) → grows X nd nd' → (size nd' ≤ size nd + length l)%nat.
Proof.
  intros HX Hg. assert (Hl : ∀ m : list (list Z), (size (list_to_set (C := gset (list Z)) m) ≤ length m)%nat).
  { intros m. induction m as [|x m IH]; [done|]. cbn [list_to_set length]. rewrite size_union_alt, size_singleton.
    apply le_n_S. etrans; [apply subseteq_size, subseteq_difference_l; done|exact IH]. }
  rewrite <- (size_dom (D := gset (list Z)) nd), <- (size_dom (D := gset (list Z)) nd'). etrans; [apply (subseteq_size _ (dom nd ∪ list_to_set l))|].
  - intros k Hk%elem_of_dom. destruct (Hg k Hk) as [|]; [by apply elem_of_union_l, elem_of_dom|apply elem_of_union_r, elem_of_list_to_set; auto].
  - rewrite size_union_alt. apply Nat.add_le_mono_l. etrans; [|apply Hl]. by apply subseteq_size, subseteq_difference_l.
Qed.

(** The entry of an interior node decides the next step of the walk. *)
Lemma wp_walk_level l va s root nd fl k p (Q : Z → kst → Prop) :
  vm_ok s root nd fl → nd !! k = Some p → (length k < 2)%nat →
  hd (PX (Z.of_nat (S l)) va) k < 256 →
  (∀ s' nd' fl' q, vm_ok s' root nd' fl' → vm_frame s nd fl s' nd' fl' → nd ⊆ nd' →
     (∀ a, pte_at (kmem s') nd' a = pte_at (kmem s) nd a) →
     grows (eq (k ++ [PX (Z.of_nat (S l)) va])) nd nd' → nd' !! (k ++ [PX (Z.of_nat (S l)) va]) = Some q → wp (walk_loop l q va true) Q s') →
  (fl = [] → nd !! (k ++ [PX (Z.of_nat (S l)) va]) = None → Q 0 s) →
  wp (walk_loop (S l) p va true) Q s.
Proof.
  intros Hok Hk Hlen Hlow Hgo Hfail. pose proof Hok as (Hfl & Hwf & Hnd).
  set (i := PX (Z.of_nat (S l)) va) in *.
  assert (0 ≤ i < 512) as Hi by (apply PX_range; lia).
  pose proof (wf_entry _ _ _ Hwf k p i Hk Hlen Hi) as Hent.
  unfold walk_loop; fold walk_loop. fold i. unfold load64. wp_steps.
  destruct (nd !! (k ++ [i])) as [q|] eqn:Hq.
  { rewrite Hent. destruct (table_pte q) as (-> & -> & _); [by eapply wf_page|].
    apply (Hgo s nd fl); [done|apply vm_frame_refl|done|done|apply grows_refl|done]. }
  rewrite Hent. simpl. wp_steps. eapply wp_mono; [by apply kalloc_spec|].
  intros r s1 HQ. destruct fl as [|q fl].
  { destruct HQ as [-> ->]. simpl. apply wp_ret. by apply Hfail. }
  destruct HQ as (-> & Hfl1 & Hm1 & _).
  pose proof Hfl as (_ & _ & _ & Hokl). apply Forall_cons in Hokl as [Hqok _].
  pose proof (page_bounds q Hqok) as Hqb. case_if; [lia|]. unfold store64. wp_steps.
  destruct (install_table s s1 root nd fl k p i q) as (Hok' & Hfr & Hpte); [done..|].
  apply (Hgo _ (<[k ++ [i] := q]> nd) fl q); [done|done|by apply insert_subseteq|done| |by rewrite lookup_insert_eq].
  intros k' Hk'. destruct (decide (k ++ [i] = k')) as [|Hne]; [by right|left]. by rewrite lookup_insert_ne in Hk'.
Qed.

Lemma wf_child_None m nd root k i : pt_wf m nd root → nd !! k = None → nd !! (k ++ [i]) = None.
Proof.
  intros Hwf Hk. destruct (nd !! (k ++ [i])) eqn:E; [|done].
  apply (wf_parent _ _ _ Hwf) in E as [[x Hx] _]. congruence.
Qed.

Lemma leaf_key_levels va : leaf_key va = ([] ++ [PX (Z.of_nat 2) va]) ++ [PX (Z.of_nat 1) va].
Proof. done. Qed.

(** The keys of the nodes on the way to [va]. *)
Definition path_of (va : Z) (k : list Z) : Prop := k = [PX 2 va] ∨ k = leaf_key va.

(** [walk(pagetable, va, 1)]: the address of the leaf entry, after adding the
    missing table pages; the null pointer only when memory is exhausted.  The
    address space is the same. *)
Lemma walk_alloc_spec s root nd fl va :
  vm_ok s root nd fl → 0 ≤ va < MAXVA →
  wp (walk root va true) (λ r s', ∃ nd' fl',
    vm_ok s' root nd' fl' ∧ vm_frame s nd fl s' nd' fl' ∧ nd ⊆ nd' ∧
    (∀ a, pte_at (kmem s') nd' a = pte_at (kmem s) nd a) ∧ grows (path_of va) nd nd' ∧
    match nd' !! leaf_key va with
    | Some q => r = pte_addr q (PX 0 va)
    | None => r = 0 ∧ fl' = []
    end) s.
Proof.
  intros Hok Hva. unfold walk. case_if; [lia|].
  pose proof Hok as (_ & Hwf & _).
  assert (PX (Z.of_nat 2) va < 256) as Hlow.
  { rewrite PX_eq by lia. change MAXVA with (2 ^ 38) in Hva. simpl. zlia. }
  eapply (wp_walk_level _ _ _ _ _ _ []); [done|by eapply wf_root|simpl; lia|done| |].
  - intros s1 nd1 fl1 q1 Hok1 Hfr1 Hsub1 Hpte1 Hg1 Hq1.
    assert (Hg1' : grows (path_of va) nd nd1) by (intros k Hk; destruct (Hg1 k Hk) as [|<-]; [by left|right; by left]).
    eapply (wp_walk_level _ _ _ _ _ _ ([] ++ [PX (Z.of_nat 2) va])); [done|done|simpl; lia|done| |].
    + intros s2 nd2 fl2 q2 Hok2 Hfr2 Hsub2 Hpte2 Hg2 Hq2. apply wp_ret. exists nd2, fl2.
      split_and!; [done|by eapply vm_frame_trans|by etrans|by intros a; rewrite Hpte2, Hpte1| |by rewrite leaf_key_levels, Hq2].
      eapply grows_trans; [|exact Hg1'|intros k Hk; destruct (Hg2 k Hk) as [|<-]; [by left|right; by right]]. done.
    + intros -> Hn. exists nd1, []. rewrite leaf_key_levels, Hn. done.
  - intros -> Hn. exists nd, []. rewrite leaf_key_levels, (wf_child_None _ _ _ _ _ Hwf Hn).
    split_and!; try done. apply grows_refl.
Qed.

(** [walk(pagetable, va, 0)] only reads. *)
Lemma walk_lookup s root nd fl va :
  vm_ok s root nd fl → 0 ≤ va < MAXVA →
  walk root va false s =
    Ret (match nd !! leaf_key va with Some q => pte_addr q (PX 0 va) | None => 0 end, s).
Proof.
  intros (_ & Hwf & _) Hva. unfold walk. case_if; [lia|].
  rewrite leaf_key_levels. cbn [walk_loop].
  assert (∀ j, 0 ≤ j → 0 ≤ PX j va < 512) as HPX by (intros; by apply PX_range).
  pose proof (wf_entry _ _ _ Hwf [] root (PX (Z.of_nat 2) va) (wf_root _ _ _ Hwf)) as H2.
  specialize (H2 ltac:(simpl; lia) ltac:(apply HPX; lia)).
  unfold load64, mbind, M_bind, gets at 1.
  destruct (nd !! ([] ++ [PX (Z.of_nat 2) va])) as [p|] eqn:Hp.
  2:{ rewrite H2, (wf_child_None _ _ _ _ _ Hwf Hp). done. }
  destruct (table_pte p) as (Hv & Hpa & _); [by eapply wf_page|].
  rewrite H2, Hv, Hpa. clear H2 Hv Hpa.
  pose proof (wf_entry _ _ _ Hwf _ p (PX (Z.of_nat 1) va) Hp) as H1.
  specialize (H1 ltac:(simpl; lia) ltac:(apply HPX; lia)). unfold gets.
  destruct (nd !! (([] ++ [PX (Z.of_nat 2) va]) ++ [PX (Z.of_nat 1) va])) as [q|] eqn:Hq.
  2:{ by rewrite H1. }
  destruct (table_pte q) as (Hv & Hpa & _); [by eapply wf_page|].
  by rewrite H1, Hv, Hpa.
Qed.

(** ** Lemmas: leaf entries *)

Lemma vpn_maxva n : 0 ≤ n < NVPN ↔ 0 ≤ 4096 * n < MAXVA.
Proof. unfold NVPN. change MAXVA with (2 ^ 38). lia. Qed.

Lemma as_rep_ext s root nd fl A A' :
  (∀ n, 0 ≤ n < NVPN → A n = A' n) → as_rep s root nd fl A → as_rep s root nd fl A'.
Proof. intros HA [Hok Hrep]. split; [done|]. intros n Hn. by rewrite <- HA, Hrep. Qed.

Lemma as_rep_load s root nd fl A n q :
  as_rep s root nd fl A → 0 ≤ n < NVPN → nd !! leaf_key (4096 * n) = Some q →
  ld64 (kmem s) (pte_addr q (PX 0 (4096 * n))) = A n.
Proof. intros [_ Hrep] Hn Hq. rewrite <- Hrep by done. unfold pte_at. by rewrite Hq. Qed.

Lemma as_rep_unmapped s root nd fl A n :
  as_rep s root nd fl A → 0 ≤ n < NVPN → nd !! leaf_key (4096 * n) = None → A n = 0.
Proof. intros [_ Hrep] Hn Hq. rewrite <- Hrep by done. unfold pte_at. by rewrite Hq. Qed.

(** A change of memory that reaches neither free pages nor table pages. *)
Lemma as_rep_other s root nd fl A f :
  as_rep s root nd fl A →
  (∀ p b, p ∈ fl ++ pages nd → in_page p b → ld8 (f (kmem s)) b = ld8 (kmem s) b) →
  as_rep (set_mem f s) root nd fl A.
Proof.
  intros [(Hfl & Hwf & Hnd) Hrep] Hf.
  destruct (pt_wf_ext (kmem s) (f (kmem s)) nd root) as [Hwf' Hpte]; [|done|].
  { intros p b Hp Hb. apply (Hf p); [|done]. rewrite elem_of_app. by right. }
  split; [split_and!; [|done|done]|].
  - destruct Hfl as (? & Hr & ? & Hfo). split_and!; [done| |done|done].
    eapply is_run_ext; [|done]. intros q Hq. apply ld64_ext. intros b Hb.
    apply (Hf q); [rewrite elem_of_app; by left|unfold in_page; lia].
  - intros n Hn. by rewrite Hpte, Hrep.
Qed.

Lemma as_rep_store s root nd fl A n q v :
  as_rep s root nd fl A → 0 ≤ n < NVPN → nd !! leaf_key (4096 * n) = Some q → 0 ≤ v < 2 ^ 64 →
  let s' := set_mem (st64 (pte_addr q (PX 0 (4096 * n))) v) s in
  as_rep s' root nd fl (<[n := v]> A) ∧ vm_frame s nd fl s' nd fl.
Proof.
  intros [(Hfl & Hwf & Hnd) Hrep] Hn Hq Hv s'.
  destruct (pt_wf_leaf (kmem s) nd root q n v) as [Hwf' Hpte]; [done..|].
  assert (page_ok q) as Hqok by (by eapply wf_page).
  assert (same_off [q] (kmem s) (kmem s')) as Hoff.
  { intros b Hb. apply ld8_st64_ne. specialize (Hb q ltac:(constructor)).
    pose proof (PX_range 0 (4096 * n) ltac:(lia)). unfold in_page, pte_addr in *. lia. }
  assert (q ∈ pages nd) as Hqp by (apply elem_of_pages; eauto).
  split.
  - split; [split_and!; [|done|done]|].
    + destruct Hfl as (? & Hr & ? & Hfo). split_and!; [done| |done|done].
      eapply (is_run_same_off _ _ _ [q]); [done|done|by apply Forall_singleton| |done].
      intros x Hx ->%list_elem_of_singleton. apply NoDup_app in Hnd as (_ & Hd & _).
      by apply (Hd q Hx).
    + intros n' Hn'. unfold s'. simpl. rewrite Hpte by done.
      destruct (decide (n' = n)) as [->|]; [by rewrite !fn_lookup_insert|].
      rewrite !fn_lookup_insert_ne by done. by apply Hrep.
  - split; [done|]. eapply same_off_mono; [|done]. intros x ->%list_elem_of_singleton. set_solver.
Qed.

Lemma lor_flags a b : 0 ≤ a < 1024 → 0 ≤ b < 1024 → 0 ≤ Z.lor a b < 1024.
Proof.
  intros Ha Hb. assert (0 ≤ Z.lor a b) by (apply Z.lor_nonneg; lia). split; [done|].
  destruct (decide (Z.lor a b = 0)) as [->|]; [lia|].
  apply Z.log2_lt_pow2 with (b := 10); [lia|]. rewrite Z.log2_lor by lia.
  assert (∀ x, 0 ≤ x < 1024 → Z.log2 x < 10) as Hlog.
  { intros x Hx. destruct (decide (x = 0)) as [->|]; [done|]. apply Z.log2_lt_pow2; lia. }
  apply Z.max_lub_lt; auto.
Qed.

(** A leaf entry decodes to the page and permissions it was made of. *)
Lemma leaf_decode pa perm :
  0 ≤ pa < 2 ^ 56 → pa mod 4096 = 0 → 0 ≤ perm < 1024 →
  PTE2PA (leaf pa perm) = pa ∧ PTE_FLAGS (leaf pa perm) = Z.lor perm PTE_V ∧
  has (leaf pa perm) PTE_V = true ∧ 0 ≤ leaf pa perm < 2 ^ 64.
Proof.
  intros Hpa Hal Hperm.
  destruct (pte_decode pa (Z.lor perm PTE_V)) as (H1 & H2 & H3); [done|done|by apply lor_flags|].
  unfold leaf. split_and!; [|..|by apply has_lor| |]; rewrite <- ?Z.lor_assoc; [done|done|lia|lia].
Qed.

(** The allocator under a table: pages come from and go to the free list. *)
Lemma as_rep_kalloc s root nd fl A :
  as_rep s root nd fl A →
  wp kalloc (λ r s',
    match fl with
    | [] => r = 0 ∧ s' = s
    | p :: fl' => r = p ∧ as_rep s' root nd fl' A ∧ page_ok p ∧ p ∉ fl' ++ pages nd ∧
                  same_off [p] (kmem s) (kmem s')
    end) s.
Proof.
  intros [(Hfl & Hwf & Hnd) Hrep]. eapply wp_mono; [by apply kalloc_spec|].
  intros r s' HQ. destruct fl as [|p fl]; [done|]. destruct HQ as (-> & Hfl' & Hm & _).
  apply NoDup_cons in Hnd as [Hp Hnd]. fold (fl ++ pages nd) in Hp, Hnd.
  assert (page_ok p) as Hpok by (destruct Hfl as (_ & _ & _ & Hf); by apply Forall_cons in Hf as [? _]).
  destruct (pt_wf_ext (kmem s) (kmem s') nd root) as [Hwf' Hpte]; [|done|].
  { intros q b Hq Hb. apply Hm. intros x ->%list_elem_of_singleton Hb'.
    assert (q = p) as ->; [|apply Hp; set_solver]. eapply page_disjoint; eauto.
    apply elem_of_pages in Hq as (k & Hk). by eapply wf_page. }
  split_and!; [done| |done|done|done]. split; [done|]. intros n Hn. by rewrite Hpte, Hrep.
Qed.

Lemma as_rep_kfree s root nd fl A p :
  as_rep s root nd fl A → page_ok p → p ∉ fl ++ pages nd →
  wp (kfree p) (λ _ s', as_rep s' root nd (p :: fl) A ∧ same_off [p] (kmem s) (kmem s')) s.
Proof.
  intros [(Hfl & Hwf & Hnd) Hrep] Hpok Hp. eapply wp_mono; [apply kfree_spec; [done|done|set_solver]|].
  intros [] s' [Hfl' Hm].
  destruct (pt_wf_ext (kmem s) (kmem s') nd root) as [Hwf' Hpte]; [|done|].
  { intros q b Hq Hb. apply Hm. intros x ->%list_elem_of_singleton Hb'.
    assert (q = p) as ->; [|apply Hp; set_solver]. eapply page_disjoint; eauto.
    apply elem_of_pages in Hq as (k & Hk). by eapply wf_page. }
  split; [|done]. split; [split_and!; [done|done|by constructor]|].
  intros n Hn. by rewrite Hpte, Hrep.
Qed.

(** ** mappages *)

Lemma map_range_0 v n pa perm A x : n ≤ 0 → map_range v n pa perm A x = A x.
Proof. intros Hn. unfold map_range. destruct (v <=? x) eqn:?, (x <? v + n) eqn:?; bsimpl; simpl; [lia|done..]. Qed.

Lemma map_range_S v k pa perm A x :
  0 ≤ k → map_range (v + 1) k (pa + 4096) perm (<[v := leaf pa perm]> A) x = map_range v (k + 1) pa perm A x.
Proof.
  intros Hk. unfold map_range.
  destruct (decide (x = v)) as [->|Hne].
  - rewrite fn_lookup_insert.
    destruct (v + 1 <=? v) eqn:?, (v <=? v) eqn:?, (v <? v + (k + 1)) eqn:?; bsimpl; simpl; try lia.
    f_equal. lia.
  - rewrite fn_lookup_insert_ne by done.
    destruct (v + 1 <=? x) eqn:?, (v <=? x) eqn:?, (x <? v + 1 + k) eqn:?, (x <? v + (k + 1)) eqn:?;
      bsimpl; simpl; try lia; try done. f_equal. lia.
Qed.

(** The same for the pages from [v] on. *)
Definition paths (v n : Z) (k : list Z) : Prop := ∃ x, v ≤ x < v + n ∧ path_of (4096 * x) k.

Lemma mappages_loop_spec n : ∀ s root nd fl A v pa perm,
  as_rep s root nd fl A → (0 < n)%nat → 0 ≤ v → v + Z.of_nat n ≤ NVPN →
  0 ≤ pa → pa + 4096 * Z.of_nat n ≤ 2 ^ 56 → pa mod 4096 = 0 → 0 ≤ perm < 1024 →
  (∀ x, v ≤ x < v + Z.of_nat n → has (A x) PTE_V = false) →
  wp (mappages_loop n root (4096 * v) (4096 * (v + Z.of_nat n - 1)) pa perm) (λ r s',
    ∃ nd' fl' k, as_rep s' root nd' fl' (map_range v k pa perm A) ∧
      vm_frame s nd fl s' nd' fl' ∧ grows (paths v (Z.of_nat n)) nd nd' ∧
      (r = 0 ∧ k = Z.of_nat n ∨ r = -1 ∧ 0 ≤ k < Z.of_nat n ∧ fl' = [])) s.
Proof.
  induction n as [|n IH]; intros s root nd fl A v pa perm Hrep Hn0 Hv Hvn Hpa Hpan Hal Hperm Hfree;
    [lia|].
  assert (0 ≤ v < NVPN) as Hvr by lia. cbn [mappages_loop].
  wp_bind. eapply wp_mono; [apply walk_alloc_spec; [apply Hrep|by apply vpn_maxva]|].
  intros r s1 (nd1 & fl1 & Hok1 & Hfr1 & _ & Hpte1 & Hg1 & Hr).
  assert (Hg1' : grows (paths v (Z.of_nat (S n))) nd nd1) by (intros k Hk; destruct (Hg1 k Hk) as [|]; [by left|right; exists v; split; [lia|done]]).
  assert (as_rep s1 root nd1 fl1 A) as Hrep1.
  { split; [done|]. intros x Hx. rewrite Hpte1. by apply Hrep. }
  destruct (nd1 !! leaf_key (4096 * v)) as [q|] eqn:Hq.
  2:{ destruct Hr as [-> ->]. apply wp_ret. exists nd1, [], 0. split_and!; [|done|done|right; split_and!; [done|lia|lia|done]].
      eapply as_rep_ext; [|done]. intros x _. by rewrite map_range_0. }
  assert (page_ok q) as Hqok by (by eapply wf_page; [apply Hok1|]).
  pose proof (page_bounds q Hqok). pose proof (PX_range 0 (4096 * v) ltac:(lia)).
  rewrite Hr. case_if; [unfold pte_addr in *; lia|]. unfold load64. wp_steps.
  rewrite (as_rep_load _ _ _ _ _ _ _ Hrep1 Hvr Hq), Hfree by lia. unfold store64. wp_steps.
  fold (leaf pa perm).
  destruct (leaf_decode pa perm) as (_ & _ & _ & Hlr); [lia|done|done|].
  destruct (as_rep_store _ _ _ _ _ _ _ _ Hrep1 Hvr Hq Hlr) as [Hrep2 Hfr2].
  set (s2 := set_mem _ s1) in *. case_if.
  - assert (n = O) as -> by lia. apply wp_ret. exists nd1, fl1, 1.
    split_and!; [|by eapply vm_frame_trans|done|left; lia]. eapply as_rep_ext; [|done]. intros x Hx.
    rewrite <- (map_range_S v 0) by lia. by rewrite map_range_0.
  - rewrite !u64_small by (unfold PGSIZE, NVPN in *; lia). unfold PGSIZE.
    replace (4096 * v + 4096) with (4096 * (v + 1)) by lia.
    replace (4096 * (v + Z.of_nat (S n) - 1)) with (4096 * (v + 1 + Z.of_nat n - 1)) by lia.
    eapply wp_mono; [apply (IH s2 root nd1 fl1 (<[v := leaf pa perm]> A)); try done; try lia|].
    + rewrite Z.add_mod, Hal by lia. done.
    + intros x Hx. rewrite fn_lookup_insert_ne by lia. apply Hfree. lia.
    + intros r' s3 (nd3 & fl3 & k & Hrep3 & Hfr3 & Hg3 & Hres). exists nd3, fl3, (k + 1). split_and!.
      * eapply as_rep_ext; [|done]. intros x Hx. apply map_range_S. lia.
      * by eapply vm_frame_trans; [eapply vm_frame_trans|].
      * eapply grows_trans; [|exact Hg1'|intros k' Hk'; destruct (Hg3 k' Hk') as [|(x & Hx & Hk2)]; [by left|right; exists x; split; [lia|done]]]. done.
      * destruct Hres as [[? ?]|(? & ? & ?)]; [left; lia|right; split_and!; [done|lia|lia|done]].
Qed.

Lemma mappages_spec s root nd fl A v n pa perm :
  as_rep s root nd fl A → 0 < n → 0 ≤ v → v + n ≤ NVPN →
  0 ≤ pa → pa + 4096 * n ≤ 2 ^ 56 → pa mod 4096 = 0 → 0 ≤ perm < 1024 →
  (∀ x, v ≤ x < v + n → has (A x) PTE_V = false) →
  wp (mappages root (4096 * v) (4096 * n) pa perm) (λ r s',
    ∃ nd' fl' k, as_rep s' root nd' fl' (map_range v k pa perm A) ∧
      vm_frame s nd fl s' nd' fl' ∧ grows (paths v n) nd nd' ∧
      (r = 0 ∧ k = n ∨ r = -1 ∧ 0 ≤ k < n ∧ fl' = [])) s.
Proof.
  intros Hrep Hn Hv Hvn Hpa Hpan Hal Hperm Hfree. unfold mappages, PGSIZE.
  rewrite !(Z.mul_comm 4096), !Z.mod_mul, Z.div_mul by lia. simpl. case_if; [lia|].
  rewrite u64_small by (unfold NVPN in *; lia). rewrite (Z.mul_comm v).
  replace (4096 * v + n * 4096 - 4096) with (4096 * (v + Z.of_nat (Z.to_nat n) - 1)) by lia.
  eapply wp_mono; [eapply mappages_loop_spec; eauto; try lia|].
  - intros x Hx. apply Hfree. lia.
  - intros r s' (nd' & fl' & k & ? & ? & Hg & Hres). exists nd', fl', k.
    rewrite Z2Nat.id in Hg, Hres by lia. done.
Qed.

(** The common case of one page: mapped, or nothing changed. *)
Lemma mappages_one s root nd fl A v pa perm :
  as_rep s root nd fl A → 0 ≤ v < NVPN → 0 ≤ pa < 2 ^ 56 → pa mod 4096 = 0 → 0 ≤ perm < 1024 →
  has (A v) PTE_V = false →
  wp (mappages root (4096 * v) PGSIZE pa perm) (λ r s', ∃ nd' fl',
    vm_frame s nd fl s' nd' fl' ∧ (size nd' ≤ size nd + 2)%nat ∧
    (r = 0 ∧ as_rep s' root nd' fl' (<[v := leaf pa perm]> A) ∨
     r = -1 ∧ as_rep s' root nd' fl' A ∧ fl' = [])) s.
Proof.
  intros Hrep Hv Hpa Hal Hperm Hfree. change PGSIZE with (4096 * 1).
  eapply wp_mono; [apply (mappages_spec s root nd fl A v 1); try done; try lia|].
  - zlia.
  - intros x Hx. by assert (x = v) as -> by lia.
  - intros r s' (nd' & fl' & k & Hrep' & Hfr & Hg & Hres). exists nd', fl'. split; [done|]. split.
    { eapply (grows_size [[PX 2 (4096 * v)]; leaf_key (4096 * v)]); [|exact Hg]. intros k' (x & Hx & Hk').
      assert (x = v) as -> by lia. rewrite elem_of_cons, list_elem_of_singleton. destruct Hk'; auto. }
    destruct Hres as [[-> ->]|(-> & Hk & ->)]; [left|right]; split_and!; try done.
    + eapply as_rep_ext; [|exact Hrep']. intros x Hx.
      rewrite <- (map_range_S v 0) by lia. by rewrite map_range_0.
    + eapply as_rep_ext; [|exact Hrep']. intros x Hx. apply map_range_0. lia.
Qed.

(** ** uvmunmap *)

(** Entry [e] is a leaf for page [p]. *)
Definition leaf_for (e p : Z) : Prop :=
  has e PTE_V = true ∧ PTE_FLAGS e ≠ PTE_V ∧ PTE2PA e = p.

Lemma unmap_range_0 v n A x : n ≤ 0 → unmap_range v n A x = A x.
Proof.
  intros Hn. unfold unmap_range.
  destruct (v <=? x) eqn:?, (x <? v + n) eqn:?; bsimpl; simpl; [lia|done..].
Qed.

Lemma unmap_range_S v k A x :
  0 ≤ k → unmap_range (v + 1) k (<[v := 0]> A) x = unmap_range v (k + 1) A x.
Proof.
  intros Hk. unfold unmap_range. destruct (decide (x = v)) as [->|Hne].
  - rewrite fn_lookup_insert.
    destruct (v + 1 <=? v) eqn:?, (v <=? v) eqn:?, (v <? v + (k + 1)) eqn:?; bsimpl; simpl; lia.
  - rewrite fn_lookup_insert_ne by done.
    destruct (v + 1 <=? x) eqn:?, (v <=? x) eqn:?, (x <? v + 1 + k) eqn:?, (x <? v + (k + 1)) eqn:?;
      bsimpl; simpl; try lia; done.
Qed.

Lemma leaf_not_zero e p : leaf_for e p → e ≠ 0.
Proof. intros (Hv & _) ->. done. Qed.

Definition freed (do_free : bool) (ps : list Z) : list Z := if do_free then ps else [].

Lemma uvmunmap_loop_spec do_free ps : ∀ s root nd fl A v fuel,
  as_rep s root nd fl A → (length ps < fuel)%nat → 0 ≤ v → v + Z.of_nat (length ps) ≤ NVPN →
  (∀ i p, ps !! i = Some p → leaf_for (A (v + Z.of_nat i)) p) →
  NoDup (freed do_free ps ++ fl ++ pages nd) → Forall page_ok (freed do_free ps) →
  wp (uvmunmap_loop fuel root (4096 * v) (4096 * (v + Z.of_nat (length ps))) do_free) (λ _ s',
    as_rep s' root nd (rev (freed do_free ps) ++ fl) (unmap_range v (Z.of_nat (length ps)) A) ∧
    same_off (freed do_free ps ++ fl ++ pages nd) (kmem s) (kmem s')) s.
Proof.
  induction ps as [|p ps IH]; intros s root nd fl A v [|fuel] Hrep Hf Hv Hvn Hmap Hnd Hok;
    cbn [length] in *; try lia; cbn [uvmunmap_loop].
  { case_if; [lia|]. apply wp_ret. destruct do_free; simpl; (split; [|apply same_off_refl]);
      (eapply as_rep_ext; [|done]); intros x _; by rewrite unmap_range_0. }
  case_if; [|lia]. assert (0 ≤ v < NVPN) as Hvr by lia.
  destruct (Hmap O p eq_refl) as (HV & Hfl & Hpa). rewrite Z.add_0_r in *.
  wp_bind. eapply wp_eq; [apply (walk_lookup s root nd fl); [apply Hrep|by apply vpn_maxva]|].
  destruct (nd !! leaf_key (4096 * v)) as [q|] eqn:Hq.
  2:{ exfalso. rewrite (as_rep_unmapped _ _ _ _ _ _ Hrep Hvr Hq) in HV. done. }
  assert (page_ok q) as Hqok by (by eapply wf_page; [apply Hrep|]).
  pose proof (page_bounds q Hqok). pose proof (PX_range 0 (4096 * v) ltac:(lia)).
  case_if; [unfold pte_addr in *; lia|]. unfold load64. wp_steps.
  rewrite (as_rep_load _ _ _ _ _ _ _ Hrep Hvr Hq), HV. simpl. case_if; [done|]. rewrite Hpa.
  set (fl1 := freed do_free [p] ++ fl).
  assert (wp (when do_free (kfree p)) (λ _ s1, as_rep s1 root nd fl1 A ∧
    same_off (freed do_free [p]) (kmem s) (kmem s1)) s) as Hfree.
  { destruct do_free; simpl in *; [|by apply wp_ret].
    apply NoDup_cons in Hnd as [Hp _]. apply Forall_cons in Hok as [? _].
    apply as_rep_kfree; [done|done|]. intros Hin. apply Hp. rewrite elem_of_app. by right. }
  wp_bind. eapply wp_mono; [exact Hfree|]. intros [] s1 [Hrep1 Hm1]. unfold store64. wp_steps.
  destruct (as_rep_store s1 root nd fl1 A v q 0) as [Hrep2 [_ Hm2]]; [done..|].
  set (s2 := set_mem _ s1) in *. rewrite u64_small by (unfold PGSIZE, NVPN in *; lia).
  unfold PGSIZE. replace (4096 * v + 4096) with (4096 * (v + 1)) by lia.
  replace (4096 * (v + Z.of_nat (S (length ps)))) with (4096 * (v + 1 + Z.of_nat (length ps))) by lia.
  eapply wp_mono; [apply (IH s2 root nd fl1 (<[v := 0]> A)); [done|lia|lia|lia| | |]|].
  - intros i p' Hi. rewrite fn_lookup_insert_ne by lia.
    replace (v + 1 + Z.of_nat i) with (v + Z.of_nat (S i)) by lia. by apply Hmap.
  - unfold fl1. destruct do_free; simpl in *; [|done].
    by rewrite <- Permutation_middle.
  - destruct do_free; simpl in *; [by apply Forall_cons in Hok as [_ ?]|done].
  - intros [] s3 [Hrep3 Hm3]. split.
    + unfold fl1 in Hrep3. destruct do_free; simpl in *.
      * rewrite <- app_assoc. simpl. eapply as_rep_ext; [|done]. intros x _.
        rewrite unmap_range_S by lia. f_equal. lia.
      * eapply as_rep_ext; [|done]. intros x _. rewrite unmap_range_S by lia. f_equal. lia.
    + unfold fl1 in *. destruct do_free; simpl in *.
      * eapply same_off_trans; [|eapply same_off_trans].
        -- eapply same_off_mono; [|exact Hm1]. intros x ->%list_elem_of_singleton. constructor.
        -- eapply same_off_mono; [|exact Hm2]. clear. set_solver.
        -- eapply same_off_mono; [|exact Hm3]. clear. set_solver.
      * eapply same_off_trans; [|eapply same_off_trans]; [|exact Hm2|exact Hm3].
        eapply same_off_mono; [|exact Hm1]. by intros x ?%elem_of_nil.
Qed.

Lemma uvmunmap_spec do_free ps s root nd fl A v :
  as_rep s root nd fl A → 0 ≤ v → v + Z.of_nat (length ps) ≤ NVPN →
  (∀ i p, ps !! i = Some p → leaf_for (A (v + Z.of_nat i)) p) →
  NoDup (freed do_free ps ++ fl ++ pages nd) → Forall page_ok (freed do_free ps) →
  wp (uvmunmap root (4096 * v) (Z.of_nat (length ps)) do_free) (λ _ s',
    as_rep s' root nd (rev (freed do_free ps) ++ fl) (unmap_range v (Z.of_nat (length ps)) A) ∧
    same_off (freed do_free ps ++ fl ++ pages nd) (kmem s) (kmem s')) s.
Proof.
  intros Hrep Hv Hvn Hmap Hnd Hok. unfold uvmunmap, PGSIZE.
  rewrite (Z.mul_comm 4096 v), Z.mod_mul, (Z.mul_comm v) by lia. rewrite Z.eqb_refl. cbn [negb].
  rewrite u64_small by (unfold NVPN in *; lia).
  replace (4096 * v + Z.of_nat (length ps) * 4096) with (4096 * (v + Z.of_nat (length ps))) by lia.
  apply uvmunmap_loop_spec; [done|lia|done..].
Qed.

End spec.

End VmSpec.
