(* ===== verification/VmUser.v ===== *)
(** * User address spaces: allocation, copying and release

    [user_rep] is the invariant of a process's table: user pages from virtual
    address 0 up, each with its own physical page, nothing else below TRAPFRAME.
    The theorems are the contracts proc.c, exec.c and the system calls rely on:
    growing and shrinking, fork's copy, freeing everything, and the copies
    between kernel and user memory. *)

From S2P Require Import Prelude Mem CString Spinlock Riscv Kalloc Vm VmSpec.
Import Riscv Kalloc Vm VmSpec.

Module VmUser.

Section user.
Context `{KernelImage}.

Notation nodes := (gmap (list Z) Z).

#[local] Opaque CString.memset CString.memmove.

(** The first virtual page number above user memory: TRAPFRAME's. *)
Definition TRAPVPN : Z := NVPN - 2.

(** The address space of user pages [us] (physical page and flags, from virtual
    page 0 on) under the fixed entries [hi] of TRAPFRAME and TRAMPOLINE. *)
Definition uas (us : list (Z * Z)) (hi : Z → Z) : Z → Z :=
  λ n, match us !! Z.to_nat n with Some (p, f) => leaf p f | None => hi n end.

(** A user page: a RAM page and flags that mark a leaf. *)
Definition upage_ok (pf : Z * Z) : Prop :=
  page_ok pf.1 ∧ 0 ≤ pf.2 < 1024 ∧ Z.lor pf.2 PTE_V ≠ PTE_V.

Definition user_rep (s : kst) (root : Z) (nd : nodes) (fl : list Z) (us : list (Z * Z))
    (hi : Z → Z) : Prop :=
  as_rep s root nd fl (uas us hi) ∧ NoDup (us.*1 ++ fl ++ pages nd) ∧
  Forall upage_ok us ∧ Z.of_nat (length us) ≤ TRAPVPN ∧ ∀ n, 0 ≤ n < TRAPVPN → hi n = 0.

(** The bytes of a page. *)
Definition page_bytes (s : kst) (p : Z) : list Z := ldbytes (kmem s) p (Z.to_nat PGSIZE).
#[global] Arguments page_bytes : simpl never.

(** ** Lemmas *)

Lemma page_bytes_ext s s' p :
  (∀ b, in_page p b → ld8 (kmem s') b = ld8 (kmem s) b) → page_bytes s' p = page_bytes s p.
Proof. intros Hb. apply ldbytes_ext. intros b Hr. apply Hb. unfold in_page, PGSIZE in *. lia. Qed.

Lemma page_bytes_memset s p c : page_bytes (set_mem (CString.memset p c PGSIZE) s) p = replicate (Z.to_nat PGSIZE) (u8 c).
Proof.
  apply list_eq. intros i. destruct (decide (i < Z.to_nat PGSIZE)%nat) as [Hi|Hi].
  - unfold page_bytes. rewrite lookup_ldbytes by done. rewrite lookup_replicate_2 by done.
    simpl. f_equal. apply CString.memset_in. lia.
  - rewrite !lookup_ge_None_2; [done| |].
    + rewrite length_replicate. lia.
    + unfold page_bytes. rewrite length_ldbytes. lia.
Qed.

Lemma uas_app us1 p f hi n :
  Forall upage_ok us1 → 0 ≤ n →
  uas (us1 ++ [(p, f)]) hi n =
  map_range (Z.of_nat (length us1)) 1 p f (uas us1 hi) n.
Proof.
  intros _ Hn. unfold uas, map_range. destruct (Z.of_nat (length us1) <=? n) eqn:H1,
    (n <? Z.of_nat (length us1) + 1) eqn:H2; bsimpl; simpl.
  - assert (n = Z.of_nat (length us1)) as -> by lia. rewrite Nat2Z.id.
    rewrite lookup_app_r, Nat.sub_diag by lia. simpl. f_equal. lia.
  - rewrite lookup_app_r by lia. rewrite (lookup_ge_None_2 us1) by lia.
    rewrite lookup_ge_None_2; [done|]. simpl. lia.
  - by rewrite lookup_app_l by lia.
  - lia.
Qed.

Lemma uas_take us hi k n :
  (∀ x, 0 ≤ x < Z.of_nat (length us) → hi x = 0) → (k ≤ length us)%nat → 0 ≤ n →
  unmap_range (Z.of_nat k) (Z.of_nat (length us - k)) (uas us hi) n = uas (take k us) hi n.
Proof.
  intros Hhi Hk Hn. unfold uas, unmap_range. destruct (Z.of_nat k <=? n) eqn:H1,
    (n <? Z.of_nat k + Z.of_nat (length us - k)) eqn:H2; bsimpl; simpl.
  - rewrite (lookup_ge_None_2 (take k us)) by (rewrite length_take; lia). symmetry. apply Hhi. lia.
  - rewrite !lookup_ge_None_2; [done| |lia]. rewrite length_take. lia.
  - by rewrite lookup_take_lt by lia.
  - by rewrite lookup_take_lt by lia.
Qed.

Lemma upage_leaf pf : upage_ok pf → leaf_for (leaf pf.1 pf.2) pf.1.
Proof.
  intros (Hp & Hf & Hne). pose proof (page_bounds _ Hp). destruct Hp as (Hal & _).
  destruct (leaf_decode pf.1 pf.2) as (H1 & H2 & H3 & _); [lia|done|done|].
  split_and!; [done|by rewrite H2|done].
Qed.

Lemma user_rep_page s root nd fl us hi i p f :
  user_rep s root nd fl us hi → us !! i = Some (p, f) →
  page_ok p ∧ p ∉ fl ++ pages nd ∧ leaf_for (uas us hi (Z.of_nat i)) p.
Proof.
  intros (_ & Hnd & Hok & _) Hi. rewrite Forall_forall in Hok.
  pose proof (Hok _ (list_elem_of_lookup_2 _ _ _ Hi)) as Hpf. split_and!.
  - apply Hpf.
  - apply NoDup_app in Hnd as (_ & Hd & _). apply Hd.
    apply list_elem_of_fmap. exists (p, f). split; [done|]. by eapply list_elem_of_lookup_2.
  - unfold uas. rewrite Nat2Z.id, Hi. apply (upage_leaf _ Hpf).
Qed.

(** ** uvmunmap and uvmdealloc on the top of user memory *)

(** Unmapping the user pages from [k] on gives them all back. *)
Lemma user_unmap_spec s root nd fl us hi k :
  user_rep s root nd fl us hi → (k ≤ length us)%nat →
  wp (uvmunmap root (4096 * Z.of_nat k) (Z.of_nat (length us - k)) true) (λ _ s',
    user_rep s' root nd (rev (drop k us).*1 ++ fl) (take k us) hi ∧
    same_off ((drop k us).*1 ++ fl ++ pages nd) (kmem s) (kmem s')) s.
Proof.
  intros Hu Hk. pose proof Hu as (Hrep & Hnd & Hok & Hlen & Hhi).
  assert (NoDup ((take k us).*1 ++ (drop k us).*1 ++ fl ++ pages nd)) as Hnd'.
  { rewrite app_assoc, <- fmap_app, take_drop. done. }
  assert (length us - k = length (drop k us).*1)%nat as Hl by (rewrite length_fmap, length_drop; lia).
  rewrite Hl. eapply wp_mono; [apply (uvmunmap_spec true)|].
  - exact Hrep.
  - lia.
  - unfold TRAPVPN in Hlen. lia.
  - intros i p Hi. apply list_lookup_fmap_Some in Hi as ([p' f] & -> & Hi).
    rewrite lookup_drop in Hi. replace (Z.of_nat k + Z.of_nat i) with (Z.of_nat (k + i)) by lia.
    by apply (user_rep_page s root nd fl us hi (k + i) p' f).
  - by apply NoDup_app in Hnd' as (_ & _ & ?).
  - apply Forall_fmap, Forall_drop. eapply Forall_impl; [exact Hok|]. intros x Hx. apply Hx.
  - intros [] s' [Hrep' Hoff]. simpl in Hrep', Hoff. split; [|done]. split_and!.
    + eapply as_rep_ext; [|exact Hrep']. intros n Hn. rewrite <- Hl. apply uas_take; [|done|lia].
      intros x Hx. apply Hhi. lia.
    + rewrite <- !app_assoc. by rewrite <- (Permutation_rev (drop k us).*1).
    + by apply Forall_take.
    + rewrite length_take. lia.
    + done.
Qed.

(** The number of user pages of a process of [sz] bytes. *)
Definition npg (sz : Z) : nat := Z.to_nat (PGROUNDUP sz / PGSIZE).

Lemma npg_eq sz : 0 ≤ sz ≤ TRAPFRAME → Z.of_nat (npg sz) = (sz + 4095) / 4096.
Proof.
  intros Hsz. unfold TRAPFRAME, TRAMPOLINE, PGSIZE in *. change MAXVA with (2 ^ 38) in *.
  unfold npg. rewrite PGROUNDUP_eq by lia. unfold PGSIZE. zlia.
Qed.

Lemma pgroundup_npg sz : 0 ≤ sz ≤ TRAPFRAME → PGROUNDUP sz = 4096 * Z.of_nat (npg sz).
Proof.
  intros Hsz. rewrite npg_eq by done. unfold TRAPFRAME, TRAMPOLINE, PGSIZE in *.
  change MAXVA with (2 ^ 38) in *. rewrite PGROUNDUP_eq by lia. zlia.
Qed.

Lemma uvmdealloc_spec s root nd fl us hi oldsz newsz :
  user_rep s root nd fl us hi → 0 ≤ newsz → oldsz ≤ TRAPFRAME → 0 ≤ oldsz → length us = npg oldsz →
  wp (uvmdealloc root oldsz newsz) (λ r s', ∃ fl',
    r = Z.min oldsz newsz ∧
    user_rep s' root nd fl' (take (npg (Z.min oldsz newsz)) us) hi ∧
    fl' ≡ₚ (drop (npg (Z.min oldsz newsz)) us).*1 ++ fl ∧
    same_off ((drop (npg (Z.min oldsz newsz)) us).*1 ++ fl ++ pages nd) (kmem s) (kmem s')) s.
Proof.
  intros Hu Hn Ho Ho0 Hlen. unfold uvmdealloc. case_if.
  { apply wp_ret. exists fl. rewrite Z.min_l by done. rewrite <- Hlen.
    rewrite take_ge, drop_ge by lia. split_and!; [done|done|done|apply same_off_refl]. }
  rewrite Z.min_r by lia. rewrite !pgroundup_npg by lia.
  assert (npg newsz ≤ npg oldsz)%nat as Hle.
  { assert (Z.of_nat (npg newsz) ≤ Z.of_nat (npg oldsz)); [|lia]. rewrite !npg_eq by lia. zlia. }
  wp_bind. destruct (4096 * Z.of_nat (npg newsz) <? 4096 * Z.of_nat (npg oldsz)) eqn:Hlt; bsimpl; simpl.
  - assert (u64 (s32 ((4096 * Z.of_nat (npg oldsz) - 4096 * Z.of_nat (npg newsz)) / PGSIZE)) =
      Z.of_nat (length us - npg newsz)) as ->.
    { assert (Z.of_nat (npg oldsz) < 2 ^ 26) as Hb.
      { rewrite npg_eq by lia. unfold TRAPFRAME, TRAMPOLINE, PGSIZE in *.
        change MAXVA with (2 ^ 38) in *. zlia. }
      replace ((4096 * Z.of_nat (npg oldsz) - 4096 * Z.of_nat (npg newsz)) / PGSIZE)
        with (Z.of_nat (npg oldsz) - Z.of_nat (npg newsz)) by (unfold PGSIZE; zlia).
      rewrite s32_small, u64_small by lia. lia. }
    eapply wp_mono; [apply user_unmap_spec; [done|lia]|].
    intros [] s' [Hu' Hoff]. apply wp_ret. eexists. split_and!; [done|done| |done].
    by rewrite <- Permutation_rev.
  - assert (npg newsz = length us) as -> by lia. apply wp_ret. apply wp_ret. exists fl.
    rewrite take_ge, drop_ge by lia. split_and!; [done|done|done|apply same_off_refl].
Qed.

(** ** uvmalloc *)

(** A page uvmalloc added: the permissions asked for, and all zero bytes. *)
Definition fresh (s : kst) (xperm : Z) (pf : Z * Z) : Prop :=
  pf.2 = Z.lor (Z.lor PTE_R PTE_U) xperm ∧ page_bytes s pf.1 = replicate (Z.to_nat PGSIZE) 0.

Lemma xperm_ok xperm :
  0 ≤ xperm < 1024 → let f := Z.lor (Z.lor PTE_R PTE_U) xperm in
  0 ≤ f < 1024 ∧ Z.lor f PTE_V ≠ PTE_V.
Proof.
  intros Hx f. split; [by apply lor_flags|]. intros E.
  apply (f_equal (λ z, Z.testbit z 1)) in E. unfold f in E. rewrite !Z.lor_spec in E. done.
Qed.

(** Memory changed only in pages that belong to neither [us] nor the kernel. *)
Lemma page_bytes_same_off s s' ps p :
  same_off ps (kmem s) (kmem s') → page_ok p → Forall page_ok ps → p ∉ ps →
  page_bytes s' p = page_bytes s p.
Proof.
  intros Hoff Hp Hps Hnin. apply page_bytes_ext. intros b Hb. apply Hoff. intros q Hq Hb'.
  rewrite Forall_forall in Hps. assert (p = q) as <-; [|done].
  eapply page_disjoint; eauto.
Qed.

Lemma vm_pages_ok s root nd fl : vm_ok s root nd fl → Forall page_ok (fl ++ pages nd).
Proof.
  intros ((_ & _ & _ & Hf) & Hwf & _). apply Forall_app. split; [done|].
  apply Forall_forall. intros p (k & Hk)%elem_of_pages. by eapply wf_page.
Qed.

(** kalloc under a user table, the page then filled with [f]. *)
Lemma user_kalloc s root nd fl us hi :
  user_rep s root nd fl us hi →
  wp kalloc (λ r s',
    match fl with
    | [] => r = 0 ∧ s' = s
    | p :: fl' => r = p ∧ user_rep s' root nd fl' us hi ∧ page_ok p ∧
                  p ∉ us.*1 ++ fl' ++ pages nd ∧ same_off [p] (kmem s) (kmem s')
    end) s.
Proof.
  intros (Hrep & Hnd & Hok & Hlen & Hhi). eapply wp_mono; [by apply as_rep_kalloc|].
  intros r s' HQ. destruct fl as [|p fl]; [done|].
  destruct HQ as (-> & Hrep' & Hp & Hpn & Hoff). split_and!; [done| |done| |done].
  - split_and!; [done| |done|done|done]. simpl in Hnd. rewrite <- Permutation_middle in Hnd.
    by apply NoDup_cons in Hnd as [_ ?].
  - simpl in Hnd. rewrite <- Permutation_middle in Hnd. by apply NoDup_cons in Hnd as [? _].
Qed.

(** A change of memory confined to one page that is none of the table's, the
    user's or the free ones. *)
Lemma user_rep_other s root nd fl us hi f p :
  user_rep s root nd fl us hi → page_ok p → p ∉ fl ++ pages nd →
  same_off [p] (kmem s) (f (kmem s)) → user_rep (set_mem f s) root nd fl us hi.
Proof.
  intros (Hrep & Hrest) Hp Hpn Hoff. split; [|done]. apply as_rep_other; [done|].
  intros q b Hq Hb. apply Hoff. intros x ->%list_elem_of_singleton Hb'.
  assert (p = q) as <-; [|done]. eapply page_disjoint; eauto.
  destruct Hrep as [Hok _]. apply vm_pages_ok in Hok. rewrite Forall_forall in Hok. by apply Hok.
Qed.

Lemma same_off_memset p c m : same_off [p] m (CString.memset p c PGSIZE m).
Proof. apply same_off_page. intros b Hb. apply CString.memset_out; unfold PGSIZE; lia. Qed.

(** One page mapped at the top: on failure nothing is mapped and memory is
    exhausted. *)
Lemma user_mappages s root nd fl us hi p f :
  user_rep s root nd fl us hi → upage_ok (p, f) → Z.of_nat (length us) < TRAPVPN →
  p ∉ us.*1 ++ fl ++ pages nd →
  wp (mappages root (4096 * Z.of_nat (length us)) PGSIZE p f) (λ r s', ∃ nd' fl',
    vm_frame s nd fl s' nd' fl' ∧ (size nd' ≤ size nd + 2)%nat ∧
    (r = 0 ∧ user_rep s' root nd' fl' (us ++ [(p, f)]) hi ∨
     r = -1 ∧ user_rep s' root nd' fl' us hi ∧ fl' = [])) s.
Proof.
  intros Hu Hpf Hlt Hpn. pose proof Hu as (Hrep & Hnd & Hok & Hlen & Hhi).
  pose proof Hpf as (Hp & Hf & _). simpl in Hp, Hf. pose proof (page_bounds _ Hp).
  eapply wp_mono; [apply (mappages_one s root nd fl (uas us hi)); try done; try lia|].
  - unfold TRAPVPN in *. lia.
  - apply Hp.
  - unfold uas. rewrite Nat2Z.id, lookup_ge_None_2 by lia. rewrite Hhi; [done|lia].
  - intros r s' (nd' & fl' & [Hperm Hoff] & Hsz & Hres). exists nd', fl'. split; [done|]. split; [exact Hsz|].
    destruct Hres as [[-> Hrep']|(-> & Hrep' & ->)]; [left; split; [done|]|right; split_and!; [done| |done]].
    + split_and!; [|rewrite fmap_app, <- app_assoc; simpl| |rewrite length_app; simpl; lia|done].
      * eapply as_rep_ext; [|exact Hrep']. intros n Hn. rewrite uas_app by (done || lia).
        rewrite <- (map_range_S _ 0) by lia. by rewrite map_range_0.
      * rewrite Hperm. rewrite <- Permutation_middle. by constructor.
      * apply Forall_app. split; [done|]. by apply Forall_singleton.
    + split_and!; [done|by rewrite Hperm|done|done|done].
Qed.

Lemma user_kfree s root nd fl us hi p :
  user_rep s root nd fl us hi → page_ok p → p ∉ us.*1 ++ fl ++ pages nd →
  wp (kfree p) (λ _ s', user_rep s' root nd (p :: fl) us hi ∧ same_off [p] (kmem s) (kmem s')) s.
Proof.
  intros (Hrep & Hnd & Hok & Hlen & Hhi) Hp Hpn. rewrite elem_of_app in Hpn.
  eapply wp_mono; [apply as_rep_kfree; [done|done|tauto]|].
  intros [] s' [Hrep' Hoff]. split; [|done]. split_and!; [done| |done|done|done].
  simpl. rewrite <- Permutation_middle. constructor; [|done]. by rewrite elem_of_app.
Qed.

Lemma fresh_same_off s s' xperm ps us :
  same_off ps (kmem s) (kmem s') → Forall page_ok ps → (∀ p, p ∈ us.*1 → p ∉ ps ∧ page_ok p) →
  Forall (fresh s xperm) us → Forall (fresh s' xperm) us.
Proof.
  intros Hoff Hps Hus Hf. rewrite Forall_forall in Hf |- *. intros pf Hin.
  destruct (Hf pf Hin) as [? Hz]. split; [done|]. rewrite <- Hz.
  destruct (Hus pf.1) as [? ?]; [by apply list_elem_of_fmap_2|].
  eapply page_bytes_same_off; [done|done|done|done].
Qed.

(** The effect of [uvmalloc] on the pages in play: whatever happens they are
    conserved, and only the pages added, free or of the table are written. *)
Definition alloc_post (s : kst) (nd : nodes) (fl : list Z) (root : Z) (us : list (Z * Z))
    (hi : Z → Z) (xperm newsz : Z) (r : Z) (s' : kst) : Prop :=
  ∃ nd' fl' new, user_rep s' root nd' fl' (us ++ new) hi ∧
    new.*1 ++ fl' ++ pages nd' ≡ₚ fl ++ pages nd ∧
    same_off (fl ++ pages nd) (kmem s) (kmem s') ∧
    (r = newsz ∧ Forall (fresh s' xperm) new ∧
       length (us ++ new) = Nat.max (length us) (npg newsz) ∨
     r = 0 ∧ new = []).

Lemma npg_page k : 0 ≤ k ≤ TRAPVPN → npg (4096 * k) = Z.to_nat k.
Proof.
  intros Hk. unfold TRAPVPN, NVPN in Hk. unfold npg. rewrite PGROUNDUP_eq by lia.
  unfold PGSIZE. f_equal. zlia.
Qed.

(** Giving the pages added so far back after a failure. *)
Lemma uvmalloc_undo s0 nd0 fl0 s root nd fl us hi new xperm newsz :
  user_rep s root nd fl (us ++ new) hi →
  new.*1 ++ fl ++ pages nd ≡ₚ fl0 ++ pages nd0 →
  same_off (fl0 ++ pages nd0) (kmem s0) (kmem s) →
  wp (uvmdealloc root (4096 * Z.of_nat (length (us ++ new))) (4096 * Z.of_nat (length us)))
    (λ _ s', alloc_post s0 nd0 fl0 root us hi xperm newsz 0 s') s.
Proof.
  intros Hu Hperm Hoff. pose proof Hu as (_ & _ & _ & Hlen & _).
  pose proof Hlen as Hlen'. rewrite length_app in Hlen'.
  assert (4096 * TRAPVPN ≤ TRAPFRAME) as HT by (vm_compute; done).
  eapply wp_mono; [apply (uvmdealloc_spec s root nd fl (us ++ new) hi); [done|lia|lia|lia|]|].
  { rewrite npg_page by lia. lia. }
  intros r s' (fl' & -> & Hu' & Hfl' & Hoff'). rewrite length_app in *.
  rewrite Z.min_r, npg_page, Nat2Z.id in * by lia.
  rewrite take_app_length in Hu'. rewrite drop_app_length in Hfl', Hoff'.
  exists nd, fl', []. rewrite app_nil_r. split_and!; [done| | |by right].
  - simpl. rewrite Hfl', <- app_assoc. done.
  - eapply same_off_trans; [exact Hoff|]. by eapply same_off_perm.
Qed.

(** The step uvmalloc and uvmcopy share: take a page, fill it, map it on top of
    user memory. *)
Lemma wp_user_grow {B} (fill : Z → mem → mem) (perm : Z) (K1 : M kst B) (K2 K3 : Z → M kst B) Q
    s root nd fl us hi :
  user_rep s root nd fl us hi → 0 ≤ perm < 1024 → Z.lor perm PTE_V ≠ PTE_V →
  Z.of_nat (length us) < TRAPVPN → (∀ p m, same_off [p] m (fill p m)) →
  (fl = [] → wp K1 Q s) →
  (∀ p s' nd', user_rep s' root nd' [] us hi → (size nd' ≤ size nd + 2)%nat → p :: pages nd' ≡ₚ fl ++ pages nd →
     same_off (fl ++ pages nd) (kmem s) (kmem s') → page_ok p → wp (K2 p) Q s') →
  (∀ p s' nd' fl' s1, user_rep s' root nd' fl' (us ++ [(p, perm)]) hi → (size nd' ≤ size nd + 2)%nat →
     p :: fl' ++ pages nd' ≡ₚ fl ++ pages nd →
     same_off (fl ++ pages nd) (kmem s) (kmem s') → page_ok p → same_off [p] (kmem s) (kmem s1) →
     (∀ b, in_page p b → ld8 (kmem s') b = ld8 (fill p (kmem s1)) b) → wp (K3 p) Q s') →
  wp (mem ← kalloc;
      if mem =? 0 then K1
      else
        modify (set_mem (fill mem));;
        r ← mappages root (4096 * Z.of_nat (length us)) PGSIZE mem perm;
        if negb (r =? 0) then K2 mem else K3 mem) Q s.
Proof.
  intros Hu Hperm Hleaf Hlt Hfill Hk1 Hk2 Hk3.
  wp_bind. eapply wp_mono; [by apply user_kalloc|]. intros r s1 HQ. destruct fl as [|p fl].
  { destruct HQ as [-> ->]. by apply Hk1. }
  destruct HQ as (-> & Hu1 & Hp & Hpn & Hoff1). pose proof (page_bounds _ Hp).
  case_if; [lia|]. wp_steps. pose proof Hpn as Hpn'. rewrite elem_of_app in Hpn'.
  set (s2 := set_mem (fill p) s1).
  assert (user_rep s2 root nd fl us hi) as Hu2.
  { apply (user_rep_other s1 root nd fl _ hi _ p); [done|done|tauto|apply Hfill]. }
  eapply wp_mono; [apply (user_mappages s2 root nd fl us hi p perm); done|].
  intros r s3 (nd3 & fl3 & [Hperm3 Hoff3] & Hsz3 & Hres).
  assert (same_off ((p :: fl) ++ pages nd) (kmem s) (kmem s3)) as Hoff03.
  { eapply same_off_trans; [eapply (same_off_mono [p]); [|exact Hoff1]|
      eapply same_off_trans; [eapply (same_off_mono [p]); [|apply Hfill]|
        eapply same_off_mono; [|exact Hoff3]]]; clear; set_solver. }
  destruct Hres as [[-> Hu3]|(-> & Hu3 & ->)]; simpl.
  - apply (Hk3 p s3 nd3 fl3 s1); [done|done|by constructor|done|done|done|].
    intros b Hb. apply Hoff3. intros q Hq Hqb.
    assert (p = q) as <-; [|tauto]. eapply page_disjoint; eauto.
    pose proof (vm_pages_ok s root nd (p :: fl) ltac:(apply Hu)) as Hok.
    rewrite Forall_forall in Hok. apply Hok. by right.
  - apply (Hk2 p s3 nd3); [done|done|by constructor|done|done].
Qed.

(** Pages of user memory are neither free nor table pages. *)
Lemma user_pages_notin s root nd fl us hi us1 us2 :
  user_rep s root nd fl us hi → us = us1 ++ us2 →
  ∀ q, q ∈ us2.*1 → q ∉ fl ++ pages nd ∧ page_ok q.
Proof.
  intros (_ & Hnd & Hok & _) -> q Hq. split.
  - apply NoDup_app in Hnd as (_ & Hd & _). apply Hd. rewrite fmap_app, elem_of_app. by right.
  - apply list_elem_of_fmap in Hq as (pf & -> & Hin). rewrite Forall_forall in Hok.
    apply Hok. rewrite elem_of_app. by right.
Qed.

Lemma uvmalloc_loop_spec s0 nd0 fl0 root us hi xperm newsz m : ∀ s nd fl new,
  user_rep s root nd fl (us ++ new) hi → 0 ≤ newsz ≤ TRAPFRAME → 0 ≤ xperm < 1024 →
  Forall (fresh s xperm) new →
  new.*1 ++ fl ++ pages nd ≡ₚ fl0 ++ pages nd0 →
  same_off (fl0 ++ pages nd0) (kmem s0) (kmem s) →
  Nat.max (length us) (npg newsz) = (length (us ++ new) + m)%nat →
  wp (uvmalloc_loop (S m) root (4096 * Z.of_nat (length (us ++ new)))
        (4096 * Z.of_nat (length us)) newsz xperm)
    (alloc_post s0 nd0 fl0 root us hi xperm newsz) s.
Proof.
  induction m as [|m IH]; intros s nd fl new Hu Hsz Hx Hfresh Hperm Hoff Hm.
  { cbn [uvmalloc_loop]. pose proof (npg_eq newsz Hsz). rewrite length_app in *.
    case_if; [zlia|]. apply wp_ret. exists nd, fl, new.
    split_and!; [done..|]. left. rewrite length_app. split_and!; [done|done|lia]. }
  unfold uvmalloc_loop; fold (uvmalloc_loop (S m)).
  pose proof (npg_eq newsz Hsz) as Hnpg. pose proof (xperm_ok xperm Hx) as [Hf Hleaf].
  assert (Z.of_nat (length (us ++ new)) < TRAPVPN) as Hlt.
  { rewrite length_app in *. unfold TRAPVPN, NVPN. unfold TRAPFRAME, TRAMPOLINE, PGSIZE in Hsz.
    change MAXVA with (2 ^ 38) in Hsz. destruct Hu as (_ & _ & _ & Hl & _).
    rewrite length_app in Hl. zlia. }
  case_if. 2:{ exfalso. rewrite length_app in *. zlia. }
  assert (∀ s', same_off (fl ++ pages nd) (kmem s) (kmem s') →
    same_off (fl0 ++ pages nd0) (kmem s0) (kmem s')) as Htrans.
  { intros s' Hs'. eapply same_off_trans; [exact Hoff|]. eapply same_off_perm; [exact Hperm|].
    eapply same_off_mono; [|exact Hs']. clear. set_solver. }
  apply (wp_user_grow (λ p, CString.memset p 0 PGSIZE) _ _ _ _ _ s root nd fl (us ++ new) hi);
    [done|done|done|done|intros; apply same_off_memset|..].
  - intros ->. wp_bind. eapply wp_mono; [by eapply (uvmalloc_undo s0 nd0 fl0 _ _ _ _ _ _ _ xperm newsz)|].
    intros ? s' Hs'. by apply wp_ret.
  - intros p s3 nd3 Hu3 _ Hperm3 Hoff3 Hp.
    assert (p ∈ fl ++ pages nd) as Hpin by (rewrite <- Hperm3; constructor).
    wp_bind. eapply wp_mono; [apply (user_kfree s3 root nd3 [] (us ++ new) hi p); [done|done|]|].
    + destruct Hu as (_ & Hnd & _). apply NoDup_app in Hnd as (_ & Hd & Hnd).
      rewrite elem_of_app. intros [Hin|Hin]; [by apply (Hd p)|].
      rewrite <- Hperm3 in Hnd. by apply NoDup_cons in Hnd as [? _].
    + intros [] s4 [Hu4 Hoff4]. wp_bind.
      eapply wp_mono; [eapply (uvmalloc_undo s0 nd0 fl0 _ _ _ _ _ _ _ xperm newsz); [exact Hu4| |]|].
      * simpl. rewrite Hperm3. done.
      * apply Htrans. eapply same_off_trans; [exact Hoff3|]. eapply same_off_mono; [|exact Hoff4].
        by intros x ->%list_elem_of_singleton.
      * intros ? s' Hs'. by apply wp_ret.
  - intros p s3 nd3 fl3 s1 Hu3 _ Hperm3 Hoff3 Hp _ Hbytes.
    rewrite u64_small by (unfold PGSIZE, TRAPVPN, NVPN in *; lia). rewrite <- app_assoc in Hu3.
    replace (4096 * Z.of_nat (length (us ++ new)) + PGSIZE)
      with (4096 * Z.of_nat (length (us ++ new ++ [(p, Z.lor (Z.lor PTE_R PTE_U) xperm)])))
      by (rewrite !length_app; unfold PGSIZE; simpl; lia).
    apply (IH s3 nd3 fl3); [done|done|done| | |by apply Htrans|].
    + apply Forall_app. split.
      * eapply fresh_same_off; [exact Hoff3|eapply vm_pages_ok; apply Hu| |done].
        by eapply user_pages_notin.
      * apply Forall_singleton. split; [done|]. change 0 with (u8 0).
        rewrite <- (page_bytes_memset s1 p 0). by apply page_bytes_ext.
    + rewrite fmap_app, <- app_assoc. simpl. by rewrite Hperm3.
    + rewrite !length_app in *. simpl. lia.
Qed.

Lemma uvmalloc_spec s root nd fl us hi oldsz newsz xperm :
  user_rep s root nd fl us hi → length us = npg oldsz → 0 ≤ oldsz ≤ newsz → newsz ≤ TRAPFRAME →
  0 ≤ xperm < 1024 →
  wp (uvmalloc root oldsz newsz xperm) (alloc_post s nd fl root us hi xperm newsz) s.
Proof.
  intros Hu Hlen Ho Hn Hx. unfold uvmalloc. case_if; [lia|]. cbv zeta.
  rewrite pgroundup_npg by lia. rewrite <- Hlen. pose proof (npg_eq oldsz ltac:(lia)) as Ho'.
  pose proof (npg_eq newsz ltac:(lia)) as Hn'. rewrite <- Hlen in Ho'.
  pose proof (uvmalloc_loop_spec s nd fl root us hi xperm newsz
    (Nat.max (length us) (npg newsz) - length us) s nd fl []) as Hloop.
  rewrite app_nil_r in Hloop.
  replace (Z.to_nat ((newsz - 4096 * Z.of_nat (length us) + PGSIZE - 1) / PGSIZE))
    with (Nat.max (length us) (npg newsz) - length us)%nat.
  2:{ unfold PGSIZE. zlia. }
  apply Hloop; [done|lia|done|constructor|done|apply same_off_refl|lia].
Qed.

Lemma user_bytes_kept s s' root nd fl us hi ps i pf :
  user_rep s root nd fl us hi → same_off ps (kmem s) (kmem s') → Forall page_ok ps →
  us !! i = Some pf → pf.1 ∉ ps → page_bytes s' pf.1 = page_bytes s pf.1.
Proof.
  intros (_ & _ & Hok & _) Hoff Hps Hi Hn. eapply page_bytes_same_off; [done| |done|done].
  rewrite Forall_forall in Hok. apply (Hok pf). by eapply list_elem_of_lookup_2.
Qed.

(** ** Properties *)

(** [C13] growproc (sbrk) is correct for every size and increment within user
    space.  It succeeds with the size changed by [n] exactly, or fails only when
    growing, with size and user pages as they were.  The address space stays
    well formed, pages that remain keep their contents, pages added are zeroed,
    readable, writable user pages, and no physical page is lost or duplicated:
    user, table and free pages are a permutation of what they were. *)
Theorem growproc_correct s root nd fl us hi sz n
  (Hu : user_rep s root nd fl us hi) (Hlen : length us = npg sz)
  (Hsz : 0 ≤ sz ≤ TRAPFRAME) (Hn : 0 ≤ sz + n ≤ TRAPFRAME) :
  wp (growproc root sz n) (λ '(r, sz') s', ∃ nd' fl' us',
    user_rep s' root nd' fl' us' hi ∧ length us' = npg sz' ∧
    us'.*1 ++ fl' ++ pages nd' ≡ₚ us.*1 ++ fl ++ pages nd ∧
    (∀ i pf, us !! i = Some pf → us' !! i = Some pf → page_bytes s' pf.1 = page_bytes s pf.1) ∧
    (r = 0 ∧ sz' = sz + n ∧
       (us' = take (npg (sz + n)) us ∨
        ∃ new, us' = us ++ new ∧ Forall (fresh s' PTE_W) new) ∨
     r = -1 ∧ 0 < n ∧ sz' = sz ∧ us' = us)) s.
Proof.
  pose proof Hu as (_ & Hnd & _). unfold growproc.
  assert (TRAPFRAME < 2 ^ 64) as HT by (vm_compute; done). rewrite u64_small by lia.
  assert (∀ i pf, us !! i = Some pf → pf.1 ∈ us.*1) as Hin.
  { intros i pf Hi. apply list_elem_of_fmap_2. by eapply list_elem_of_lookup_2. }
  pose proof (vm_pages_ok s root nd fl ltac:(apply Hu)) as Hvok.
  assert (Forall page_ok us.*1) as Huok.
  { apply Forall_fmap. destruct Hu as (_ & _ & Hok & _). eapply Forall_impl; [exact Hok|]. by intros x [? _]. }
  case_if; [|case_if].
  - wp_bind. eapply wp_mono; [apply uvmalloc_spec; [done|done|lia|lia|done]|].
    intros r s' (nd' & fl' & new & Hu' & Hperm & Hoff & Hres).
    assert (∀ i pf, us !! i = Some pf → page_bytes s' pf.1 = page_bytes s pf.1) as Hkeep.
    { intros i pf Hi. eapply user_bytes_kept; [done|done|done|done|].
      apply NoDup_app in Hnd as (_ & Hd & _). apply Hd. by eapply Hin. }
    assert ((us ++ new).*1 ++ fl' ++ pages nd' ≡ₚ us.*1 ++ fl ++ pages nd) as Hperm'.
    { by rewrite fmap_app, <- app_assoc, Hperm. }
    destruct Hres as [(-> & Hf & Hl)|(-> & ->)].
    + case_if; [lia|]. apply wp_ret. exists nd', fl', (us ++ new). split_and!; [done| |done|eauto|].
      * rewrite Hl. pose proof (npg_eq sz Hsz). pose proof (npg_eq (sz + n) Hn). zlia.
      * left. split_and!; [done|done|]. right. by exists new.
    + simpl. apply wp_ret. rewrite app_nil_r in *. exists nd', fl', us.
      split_and!; [done|done|done|eauto|]. right. done.
  - wp_bind. eapply wp_mono; [by apply uvmdealloc_spec with (us := us) (fl := fl) (hi := hi) (nd := nd); try lia|].
    intros r s' (fl' & -> & Hu' & Hfl' & Hoff). apply wp_ret. rewrite Z.min_r in * by lia.
    exists nd, fl', (take (npg (sz + n)) us). split_and!; [done| | | |].
    + rewrite length_take. pose proof (npg_eq sz Hsz). pose proof (npg_eq (sz + n) Hn). zlia.
    + rewrite Hfl', !app_assoc, <- fmap_app, take_drop. done.
    + intros i pf Hi Hi'. eapply user_bytes_kept; [done|done| |done|].
      * apply Forall_app. split; [by rewrite <- (take_drop (npg (sz + n)) us), fmap_app, Forall_app in Huok; apply Huok|done].
      * rewrite <- (take_drop (npg (sz + n)) us), fmap_app, <- app_assoc in Hnd.
        apply NoDup_app in Hnd as (_ & Hd & _). apply Hd. apply list_elem_of_fmap_2.
        by eapply list_elem_of_lookup_2.
    + left. split_and!; [done|done|by left].
  - apply wp_ret. assert (n = 0) as -> by lia. rewrite Z.add_0_r in *. exists nd, fl, us.
    split_and!; [done|done|done|done|]. left. split_and!; [done|done|]. left. rewrite take_ge; [done|lia].
Qed.

End user.

End VmUser.
