(* ===== verification/VmProc.v ===== *)
(** * Process address spaces: fork's copy and the release of a whole table

    freewalk and uvmfree give every page of a table back; uvmcopy duplicates
    user memory page by page or undoes what it did; proc_pagetable and
    proc_freepagetable bracket the life of a process's table. *)

From S2P Require Import Prelude Mem CString Spinlock Riscv Kalloc Vm VmSpec VmUser.
Import Riscv Kalloc Vm VmSpec VmUser.

Module VmProc.

Section proc.
Context `{KernelImage}.

Notation nodes := (gmap (list Z) Z).

#[local] Opaque CString.memset CString.memmove.

(** ** freewalk *)

(** The table pages at and below node [k], [l] levels deep, in freewalk's order
    of discovery. *)
Fixpoint sub (nd : nodes) (l : nat) (k : list Z) : list Z :=
  match nd !! k with
  | None => []
  | Some p =>
      match l with
      | O => []
      | S l' => concat (map (λ i, sub nd l' (k ++ [i])) (seqZ 0 512))
      end ++ [p]
  end.

Definition kids (nd : nodes) (l : nat) (k : list Z) (n : Z) : list Z :=
  concat (map (λ i, sub nd l (k ++ [i])) (seqZ 0 n)).

Lemma sub_S nd l k p : nd !! k = Some p → sub nd (S l) k = kids nd l k 512 ++ [p].
Proof. intros Hk. cbn [sub]. by rewrite Hk. Qed.

Lemma kids_S nd l k n : 0 ≤ n → kids nd l k (n + 1) = kids nd l k n ++ sub nd l (k ++ [n]).
Proof.
  intros Hn. unfold kids. rewrite seqZ_app by lia. rewrite map_app, concat_app. f_equal.
  rewrite seqZ_cons, seqZ_nil by lia. simpl. by rewrite app_nil_r.
Qed.

Lemma kids_prefix nd l k n m : 0 ≤ n ≤ m → ∃ r, kids nd l k m = kids nd l k n ++ r.
Proof.
  intros Hn. exists (concat (map (λ i, sub nd l (k ++ [i])) (seqZ n (m - n)))).
  unfold kids. rewrite <- concat_app, <- map_app. do 2 f_equal.
  rewrite <- (Z.add_0_l n) at 2. rewrite <- seqZ_app by lia. f_equal. lia.
Qed.

(** A page of the subtree is a table page whose path extends [k]. *)
Lemma elem_of_sub nd l : ∀ k q,
  q ∈ sub nd l k → ∃ k', nd !! (k ++ k') = Some q ∧ (length k' ≤ l)%nat.
Proof.
  induction l as [|l IH]; intros k q Hq; cbn [sub] in Hq; destruct (nd !! k) as [p|] eqn:Hk;
    try by apply elem_of_nil in Hq.
  - apply list_elem_of_singleton in Hq as ->. exists []. by rewrite app_nil_r.
  - apply elem_of_app in Hq as [Hq|Hq].
    + apply list_elem_of_In, in_concat in Hq as (x & Hx & Hq). apply in_map_iff in Hx as (i & <- & _).
      apply list_elem_of_In, IH in Hq as (k' & Hk' & Hl). exists (i :: k').
      rewrite <- app_assoc in Hk'. split; [done|]. cbn [length]. lia.
    + apply list_elem_of_singleton in Hq as ->. exists []. rewrite app_nil_r.
      split; [done|]. cbn [length]. lia.
Qed.

Lemma NoDup_concat_map {A B} (f : A → list B) (l : list A) :
  NoDup l → (∀ x, x ∈ l → NoDup (f x)) →
  (∀ x y b, x ∈ l → y ∈ l → b ∈ f x → b ∈ f y → x = y) → NoDup (concat (map f l)).
Proof.
  induction l as [|x l IH]; intros Hl Hf Hd; simpl; [constructor|].
  apply NoDup_cons in Hl as [Hx Hl]. apply NoDup_app. split_and!.
  - apply Hf. constructor.
  - intros b Hb Hin. apply list_elem_of_In, in_concat in Hin as (y & Hy & Hin).
    apply in_map_iff in Hy as (z & <- & Hz). apply list_elem_of_In in Hz, Hin.
    apply Hx. rewrite (Hd x z b); [done|constructor|by constructor|done|done].
  - apply IH; [done| |].
    + intros y Hy. apply Hf. by constructor.
    + intros y z b Hy Hz. apply Hd; by constructor.
Qed.

Section freewalk.
Context (m0 : mem) (nd : nodes) (root : Z) (Hwf : pt_wf m0 nd root).

Lemma NoDup_sub l : ∀ k, NoDup (sub nd l k).
Proof.
  induction l as [|l IH]; intros k; cbn [sub]; destruct (nd !! k) as [p|] eqn:Hk;
    [apply NoDup_singleton|apply NoDup_nil_2| |apply NoDup_nil_2].
  apply NoDup_app. split_and!; [|intros q Hq ->%list_elem_of_singleton|apply NoDup_singleton].
  - apply NoDup_concat_map; [apply NoDup_seqZ|intros i _; apply IH|].
    intros i j q _ _ Hi Hj. apply elem_of_sub in Hi as (k1 & Hk1 & _), Hj as (k2 & Hk2 & _).
    pose proof (wf_inj _ _ _ Hwf _ _ _ Hk1 Hk2) as E. rewrite <- !app_assoc in E.
    apply app_inv_head in E. by injection E.
  - apply list_elem_of_In, in_concat in Hq as (x & Hx & Hq). apply in_map_iff in Hx as (i & <- & _).
    apply list_elem_of_In, elem_of_sub in Hq as (k' & Hk' & _).
    pose proof (wf_inj _ _ _ Hwf _ _ _ Hk Hk') as E. apply (f_equal length) in E.
    rewrite !length_app in E. simpl in E. lia.
Qed.

Lemma node_above k1 i k2 q : nd !! (k1 ++ i :: k2) = Some q → is_Some (nd !! (k1 ++ [i])).
Proof.
  revert q. induction k2 as [|j k2 IH] using rev_ind; intros q H2; [eauto|].
  rewrite app_comm_cons, app_assoc in H2. apply (wf_parent _ _ _ Hwf) in H2 as [[x Hx] _]. eauto.
Qed.

Lemma elem_of_sub_2 l : ∀ k1 k2 q,
  nd !! (k1 ++ k2) = Some q → (length k2 ≤ l)%nat → is_Some (nd !! k1) → q ∈ sub nd l k1.
Proof.
  induction l as [|l IH]; intros k1 k2 q H2 Hl [p' H1]; cbn [sub]; rewrite H1.
  - destruct k2; [|simpl in Hl; lia]. rewrite app_nil_r in H2. simplify_eq. constructor.
  - apply elem_of_app. destruct k2 as [|i k2].
    { rewrite app_nil_r in H2. simplify_eq. right. constructor. }
    left. apply list_elem_of_In, in_concat. exists (sub nd l (k1 ++ [i])).
    pose proof (node_above _ _ _ _ H2) as [p'' Hp'']. split.
    + apply in_map_iff. exists i. split; [done|]. apply list_elem_of_In, elem_of_seqZ.
      apply (wf_parent _ _ _ Hwf) in Hp'' as [_ ?]. lia.
    + apply list_elem_of_In. eapply (IH _ k2); [|simpl in Hl; lia|eauto]. by rewrite <- app_assoc.
Qed.

(** The subtree of the root is the table. *)
Lemma sub_pages : sub nd 2 [] ≡ₚ pages nd.
Proof.
  assert (NoDup (pages nd)) as Hnd.
  { unfold pages. apply NoDup_fmap_2_strong; [|apply NoDup_map_to_list].
    intros [k p] [k' p'] Hin Hin' Heq. simpl in Heq. subst p'.
    apply elem_of_map_to_list in Hin, Hin'. by rewrite (wf_inj _ _ _ Hwf k k' p). }
  apply NoDup_Permutation; [apply NoDup_sub|done|]. intros q. rewrite elem_of_pages. split.
  - intros (k & Hk & _)%elem_of_sub. eauto.
  - intros (k & Hk). apply (elem_of_sub_2 2 [] k); [done|by eapply wf_depth|].
    rewrite (wf_root _ _ _ Hwf). eauto.
Qed.

Lemma sub_page_ok l k q : q ∈ sub nd l k → page_ok q.
Proof. intros (k' & Hk' & _)%elem_of_sub. by eapply wf_page. Qed.

Lemma table_not_leaf q : page_ok q →
  has (Z.lor (PA2PTE q) PTE_V) (Z.lor (Z.lor PTE_R PTE_W) PTE_X) = false.
Proof.
  intros Hq. pose proof (page_bounds _ Hq). destruct Hq as (Hal & _).
  destruct (pte_decode q PTE_V) as (_ & Hf & _); [lia|done|done|].
  unfold has. change (Z.lor (Z.lor PTE_R PTE_W) PTE_X) with (Z.land 0x3FF 14).
  rewrite Z.land_assoc. fold (PTE_FLAGS (Z.lor (PA2PTE q) PTE_V)). by rewrite Hf.
Qed.

Lemma free_pages_store s fl p a v :
  free_pages s fl → page_ok p → p ∉ fl → p ≤ a → a + 8 ≤ p + 4096 →
  free_pages (set_mem (st64 a v) s) fl ∧ same_off [p] (kmem s) (st64 a v (kmem s)).
Proof.
  intros (Hlk & Hr & Hnd & Hok) Hp Hn Ha Ha'.
  assert (same_off [p] (kmem s) (st64 a v (kmem s))) as Hoff.
  { intros b Hb. apply ld8_st64_ne. specialize (Hb p ltac:(constructor)). unfold in_page in Hb. lia. }
  split; [|done]. split_and!; [done| |done|done].
  eapply (is_run_same_off _ _ _ [p]); [done|done|by apply Forall_singleton| |done].
  by intros q Hq ->%list_elem_of_singleton.
Qed.

(** The invariant of freewalk's loop over table [p]: the subtrees of entries
    below [i] are free, and nothing else has changed but those entries. *)
Definition fw_inv (s : kst) (fl ks : list Z) (p i : Z) (s' : kst) : Prop :=
  ∃ fl', free_pages s' fl' ∧ fl' ≡ₚ fl ++ ks ∧
    ∀ b, (∀ x, x ∈ fl ++ ks → ¬ in_page x b) → ¬ (p ≤ b < p + 8 * i) →
      ld8 (kmem s') b = ld8 (kmem s) b.

(** Freeing the table itself, after its subtrees. *)
Lemma freewalk_end s fl ks p s' :
  fw_inv s fl ks p 512 s' → page_ok p → NoDup (fl ++ ks ++ [p]) →
  wp (kfree p) (λ _ s'', ∃ fl', free_pages s'' fl' ∧ fl' ≡ₚ fl ++ ks ++ [p] ∧
    same_off (fl ++ ks ++ [p]) (kmem s) (kmem s'')) s'.
Proof.
  intros (fl' & Hfl' & Hperm & Hsame) Hp Hnd.
  rewrite app_assoc in Hnd. apply NoDup_app in Hnd as (_ & Hd & _).
  eapply wp_mono; [apply kfree_spec; [exact Hfl'|done|]|].
  { intros Hin. rewrite Hperm in Hin. apply (Hd p Hin). constructor. }
  intros [] s'' [Hf Hoff]. exists (p :: fl'). split_and!; [done| |].
  - rewrite Hperm, app_assoc. by rewrite <- Permutation_cons_append.
  - intros b Hb. rewrite Hoff; [apply Hsame|].
    + intros x Hx. apply Hb. rewrite app_assoc, elem_of_app. by left.
    + specialize (Hb p). unfold in_page in Hb. intros Hb'. apply Hb; [|lia].
      rewrite app_assoc, elem_of_app. right. constructor.
    + intros x ->%list_elem_of_singleton. apply Hb. rewrite app_assoc, elem_of_app. right. constructor.
Qed.

Context (Hleaf : ∀ k q i, nd !! k = Some q → length k = 2%nat → 0 ≤ i < 512 →
  has (ld64 m0 (pte_addr q i)) PTE_V = false).

(** Entry [i] still holds what it held at the start. *)
Lemma fw_entry s fl ks p i s' :
  fw_inv s fl ks p i s' → page_ok p → Forall page_ok (fl ++ ks) → p ∉ fl ++ ks → 0 ≤ i < 512 →
  (∀ b, in_page p b → ld8 (kmem s) b = ld8 m0 b) →
  ld64 (kmem s') (pte_addr p i) = ld64 m0 (pte_addr p i).
Proof.
  intros (fl' & _ & _ & Hsame) Hp Hok Hn Hi Hm. apply ld64_ext. intros b Hb.
  assert (in_page p b) as Hpb by (by eapply entry_in_page).
  rewrite Hsame; [by apply Hm| |unfold pte_addr in Hb; lia].
  intros x Hx Hxb. rewrite Forall_forall in Hok. apply Hn.
  assert (x = p) as <-; [|done]. eapply page_disjoint; eauto.
Qed.

(** freewalk's contract on the subtree of depth [l] at node [k]. *)
Definition fw_spec (l : nat) : Prop := ∀ k p s fl,
  (length k + l = 2)%nat → nd !! k = Some p → free_pages s fl → NoDup (fl ++ sub nd l k) →
  (∀ q b, q ∈ sub nd l k → in_page q b → ld8 (kmem s) b = ld8 m0 b) →
  wp (freewalk (S l) p) (λ _ s', ∃ fl', free_pages s' fl' ∧ fl' ≡ₚ fl ++ sub nd l k ∧
    same_off (fl ++ sub nd l k) (kmem s) (kmem s')) s.

(** One iteration, given the contract one level down. *)
Lemma fw_step l k p s fl i s' :
  fw_spec l → (length k + S l = 2)%nat → nd !! k = Some p → Forall page_ok fl →
  NoDup (fl ++ kids nd l k 512 ++ [p]) →
  (∀ q b, q ∈ kids nd l k 512 ++ [p] → in_page q b → ld8 (kmem s) b = ld8 m0 b) →
  0 ≤ i < 512 → fw_inv s fl (kids nd l k i) p i s' →
  wp (pte ← load64 (pte_addr p i);
      if has pte PTE_V && negb (has pte (Z.lor (Z.lor PTE_R PTE_W) PTE_X)) then
        let child := PTE2PA pte in
        freewalk (S l) child;;
        store64 (pte_addr p i) 0
      else when (has pte PTE_V) (panic "freewalk: leaf"))
    (λ _, fw_inv s fl (kids nd l k (i + 1)) p (i + 1)) s'.
Proof.
  intros IH Hlen Hk Hflok Hnd Hsame Hi Hinv.
  assert (page_ok p) as Hpok by (by eapply wf_page).
  destruct (kids_prefix nd l k (i + 1) 512 ltac:(lia)) as (rest & Hrest).
  rewrite kids_S in Hrest by lia.
  assert (∀ q, q ∈ kids nd l k 512 → page_ok q) as Hkok.
  { intros q Hq. apply (sub_page_ok (S l) k). rewrite (sub_S _ _ _ _ Hk), elem_of_app. by left. }
  assert (Forall page_ok (fl ++ kids nd l k i)) as Hok.
  { apply Forall_app. split; [done|]. apply Forall_forall. intros q Hq. apply Hkok.
    rewrite Hrest, !elem_of_app. tauto. }
  assert (p ∉ fl ++ kids nd l k i ++ sub nd l (k ++ [i])) as Hpn.
  { rewrite app_assoc in Hnd. apply NoDup_app in Hnd as (_ & Hd & _). intros Hin.
    apply (Hd p); [|constructor]. rewrite Hrest. rewrite !elem_of_app in *. tauto. }
  assert (NoDup (fl ++ kids nd l k i ++ sub nd l (k ++ [i]))) as Hnd'.
  { rewrite Hrest, <- !app_assoc in Hnd. rewrite !app_assoc in Hnd. rewrite <- app_assoc in Hnd.
    apply NoDup_app in Hnd as (Hnd & _). by rewrite <- app_assoc in Hnd. }
  unfold load64. wp_steps.
  rewrite (fw_entry s fl (kids nd l k i) p i s'); [|done|done|done| |done|].
  2:{ rewrite !elem_of_app in *. tauto. }
  2:{ intros b. apply Hsame. apply elem_of_app. right. constructor. }
  pose proof (wf_entry _ _ _ Hwf k p i Hk ltac:(lia) Hi) as Hent.
  rewrite kids_S by lia. destruct Hinv as (fl' & Hfl' & Hperm & Hmem).
  destruct (nd !! (k ++ [i])) as [q|] eqn:Hq.
  - assert (page_ok q) as Hqok by (by eapply wf_page).
    destruct (table_pte q Hqok) as (HV & Hpa & _). rewrite Hent, HV, Hpa, (table_not_leaf q Hqok). simpl.
    wp_bind. eapply wp_mono; [apply (IH (k ++ [i]) q s' fl')|].
    + rewrite length_app. simpl. lia.
    + done.
    + done.
    + by rewrite Hperm, <- app_assoc.
    + intros x b Hx Hb. rewrite Hmem.
      * apply (Hsame x); [|done]. rewrite Hrest, !elem_of_app. tauto.
      * intros y Hy Hyb. rewrite Forall_forall in Hok.
        assert (y = x) as -> by (eapply page_disjoint; eauto; by eapply sub_page_ok).
        rewrite app_assoc in Hnd'. apply NoDup_app in Hnd' as (_ & Hd & _). by apply (Hd x).
      * intros Hb'. apply Hpn. assert (x = p) as <-; [|rewrite !elem_of_app; tauto].
        eapply page_disjoint; eauto; [by eapply sub_page_ok|]. unfold in_page. lia.
    + intros [] s2 (fl2 & Hfl2 & Hperm2 & Hoff2). apply wp_modify.
      rewrite Hperm, <- app_assoc in Hperm2.
      destruct (free_pages_store s2 fl2 p (pte_addr p i) 0) as [Hfl3 Hoff3];
        [done|done|by rewrite Hperm2|unfold pte_addr; lia|unfold pte_addr; lia|].
      exists fl2. split_and!; [done|done|]. intros b Hb Hb'. simpl.
      rewrite ld8_st64_ne by (unfold pte_addr; lia). rewrite Hoff2, Hmem; [done| |lia|].
      * intros x Hx. apply Hb. rewrite app_assoc, elem_of_app. by left.
      * intros x Hx. apply Hb. by rewrite app_assoc, elem_of_app, <- Hperm, <- elem_of_app.
  - rewrite Hent. simpl. apply wp_ret.
    assert (sub nd l (k ++ [i]) = []) as -> by (destruct l; cbn [sub]; by rewrite Hq).
    rewrite app_nil_r. exists fl'. split_and!; [done|done|]. intros b Hb Hb'. apply Hmem; [done|lia].
Qed.

Lemma freewalk_spec l : fw_spec l.
Proof.
  induction l as [|l IH]; intros k p s fl Hlen Hk Hfl Hnd Hsame;
    (assert (page_ok p) as Hpok by (by eapply wf_page));
    (assert (Forall page_ok fl) as Hflok by apply Hfl).
  - assert (sub nd 0 k = [p]) as Hs0 by (cbn [sub]; by rewrite Hk). rewrite Hs0 in *. clear Hs0.
    unfold freewalk. wp_bind.
    assert (∀ b, in_page p b → ld8 (kmem s) b = ld8 m0 b) as Hp by (intros b; apply Hsame; constructor).
    eapply wp_mono; [apply (wp_for_range (λ i s', fw_inv s fl [] p i s' ∧ s' = s))|].
    + split; [|done]. exists fl. split_and!; [done|by rewrite app_nil_r|done].
    + intros i s' Hi [Hinv ->]. unfold load64. wp_steps.
      rewrite (ld64_entry_ext m0 (kmem s) p i), Hleaf with (k := k); [|done|lia|lia|done|lia].
      simpl. apply wp_ret. split; [|done]. destruct Hinv as (fl' & ? & ? & ?).
      exists fl'. split_and!; [done|done|done].
    + intros [] s' [Hinv ->]. by apply (freewalk_end s fl []).
  - rewrite (sub_S _ _ _ _ Hk) in *. unfold freewalk; fold freewalk. wp_bind.
    assert (∀ b, in_page p b → ld8 (kmem s) b = ld8 m0 b) as Hp.
    { intros b. apply Hsame. apply elem_of_app. right. constructor. }
    eapply wp_mono; [apply (wp_for_range (λ i, fw_inv s fl (kids nd l k i) p i))|].
    + exists fl. split_and!; [done| |done]. change (kids nd l k 0) with (@nil Z). by rewrite app_nil_r.
    + intros i s' Hi Hinv. rewrite Z2Nat.id in Hi by lia.
      by eapply fw_step.
    + intros [] s' Hinv. by apply (freewalk_end s fl (kids nd l k 512)).
Qed.

End freewalk.

(** ** uvmfree, proc_freepagetable *)

(** A table with no leaf: freewalk gives all its pages back. *)
Lemma freewalk_table s root nd fl A :
  as_rep s root nd fl A → (∀ n, 0 ≤ n < NVPN → A n = 0) →
  wp (freewalk 3 root) (λ _ s', ∃ fl', free_pages s' fl' ∧ fl' ≡ₚ fl ++ pages nd ∧
    same_off (fl ++ pages nd) (kmem s) (kmem s')) s.
Proof.
  intros [(Hfl & Hwf & Hnd) Hrep] HA. pose proof (sub_pages _ _ _ Hwf) as Hperm.
  eapply wp_mono; [apply (freewalk_spec (kmem s) nd root Hwf) with (k := []) (fl := fl)|].
  - intros k q i Hk Hl Hi. destruct k as [|a [|b [|]]]; [done|done| |done].
    pose proof (wf_low _ _ _ Hwf _ _ _ Hk) as Ha.
    destruct (wf_parent _ _ _ Hwf [a] b q Hk) as [_ Hb].
    set (n := a * 2 ^ 18 + b * 512 + i). assert (0 ≤ n < NVPN) as Hn by (unfold n, NVPN; lia).
    destruct (vpn_keys n Hn) as (E2 & E1 & E0).
    assert (leaf_key (4096 * n) = [a; b]) as Hkey.
    { unfold leaf_key. rewrite E2, E1. unfold n. repeat f_equal; zlia. }
    assert (PX 0 (4096 * n) = i) as Hpx by (rewrite E0; unfold n; zlia).
    specialize (Hrep n Hn). unfold pte_at in Hrep. rewrite Hkey, Hk, Hpx, HA in Hrep by done.
    by rewrite Hrep.
  - done.
  - apply Hwf.
  - done.
  - by rewrite Hperm.
  - done.
  - intros [] s' (fl' & Hfl' & Hp & Hoff). exists fl'. rewrite Hperm in Hp. split_and!; [done|done|].
    eapply same_off_perm; [|exact Hoff]. by rewrite Hperm.
Qed.

Lemma uvmfree_spec s root nd fl us sz :
  user_rep s root nd fl us (λ _, 0) → length us = npg sz → 0 ≤ sz ≤ TRAPFRAME →
  wp (uvmfree root sz) (λ _ s', ∃ fl', free_pages s' fl' ∧ fl' ≡ₚ us.*1 ++ fl ++ pages nd ∧
    same_off (us.*1 ++ fl ++ pages nd) (kmem s) (kmem s')) s.
Proof.
  intros Hu Hlen Hsz. unfold uvmfree. wp_bind.
  assert (wp (when (0 <? sz) (uvmunmap root 0 (PGROUNDUP sz / PGSIZE) true)) (λ _ s',
    user_rep s' root nd (rev us.*1 ++ fl) [] (λ _, 0) ∧
    same_off (us.*1 ++ fl ++ pages nd) (kmem s) (kmem s')) s) as Hun.
  { destruct (0 <? sz) eqn:Hz; bsimpl; simpl.
    - pose proof (user_unmap_spec s root nd fl us _ 0 Hu ltac:(lia)) as Hs.
      rewrite Nat.sub_0_r, drop_0, take_0 in Hs.
      assert (PGROUNDUP sz / PGSIZE = Z.of_nat (length us)) as ->; [|exact Hs].
      rewrite pgroundup_npg by done. unfold PGSIZE. rewrite Hlen. zlia.
    - assert (us = []) as ->.
      { apply length_zero_iff_nil. pose proof (npg_eq sz Hsz). zlia. }
      apply wp_ret. split; [done|apply same_off_refl]. }
  eapply wp_mono; [exact Hun|]. intros [] s1 [[Hrep _] Hoff1].
  eapply wp_mono; [apply (freewalk_table s1 root nd _ _ Hrep)|].
  - intros n Hn. unfold uas. by rewrite lookup_nil.
  - intros [] s2 (fl2 & Hfl2 & Hp2 & Hoff2).
    assert ((rev us.*1 ++ fl) ++ pages nd ≡ₚ us.*1 ++ fl ++ pages nd) as Hp.
    { by rewrite <- Permutation_rev, app_assoc. }
    exists fl2. split_and!; [done|by rewrite Hp2|].
    eapply same_off_trans; [done|]. by eapply same_off_perm.
Qed.

(** The entries above user memory: TRAPFRAME and TRAMPOLINE. *)
Definition proc_hi (trapframe : Z) : Z → Z := λ n,
  if n =? NVPN - 1 then leaf trampoline (Z.lor PTE_R PTE_X)
  else if n =? NVPN - 2 then leaf trapframe (Z.lor PTE_R PTE_W)
  else 0.

Lemma leaf_for_leaf pa f :
  0 ≤ pa < 2 ^ 56 → pa mod 4096 = 0 → 0 ≤ f < 1024 → Z.lor f PTE_V ≠ PTE_V → leaf_for (leaf pa f) pa.
Proof.
  intros Hpa Hal Hf Hne. destruct (leaf_decode pa f) as (H1 & H2 & H3 & _); [done..|].
  split_and!; [done|by rewrite H2|done].
Qed.

Lemma trampoline_ok : 0 ≤ trampoline < 2 ^ 56 ∧ trampoline mod 4096 = 0.
Proof.
  pose proof trampoline_lo. pose proof trampoline_hi. pose proof etext_hi. pose proof kend_hi.
  pose proof trampoline_aligned. unfold PHYSTOP, KERNBASE, PGSIZE in *. split; [lia|done].
Qed.

(** Removing one entry without freeing the page it maps. *)
Lemma unmap_one s root nd fl A n p :
  as_rep s root nd fl A → 0 ≤ n < NVPN → leaf_for (A n) p →
  wp (uvmunmap root (4096 * n) 1 false) (λ _ s',
    as_rep s' root nd fl (<[n := 0]> A) ∧ same_off (fl ++ pages nd) (kmem s) (kmem s')) s.
Proof.
  intros Hrep Hn Hl. change 1 with (Z.of_nat (length [p])).
  eapply wp_mono; [apply (uvmunmap_spec false [p] s root nd fl A n)|].
  - done.
  - lia.
  - simpl. lia.
  - intros [|i] q Hi; simpl in Hi; [|done]. simplify_eq. by rewrite Z.add_0_r.
  - destruct Hrep as [(_ & _ & ?) _]. done.
  - constructor.
  - simpl. intros [] s' [Hr Hoff]. split; [|done]. eapply as_rep_ext; [|exact Hr].
    intros x Hx. rewrite <- (unmap_range_S n 0) by lia. by rewrite unmap_range_0.
Qed.

Lemma proc_freepagetable_spec s root nd fl us tf sz
  (Hu : user_rep s root nd fl us (proc_hi tf)) (Hlen : length us = npg sz)
  (Hsz : 0 ≤ sz ≤ TRAPFRAME) (Htf : page_ok tf) :
  wp (proc_freepagetable root sz) (λ _ s', ∃ fl',
    free_pages s' fl' ∧ fl' ≡ₚ us.*1 ++ fl ++ pages nd ∧
    same_off (us.*1 ++ fl ++ pages nd) (kmem s) (kmem s')) s.
Proof.
  destruct Hu as (Hrep & Hnd & Hok & Hul & Hhi). unfold proc_freepagetable.
  pose proof (page_bounds _ Htf). pose proof trampoline_ok as [Htr Htra].
  assert (∀ n, Z.of_nat (length us) ≤ n → uas us (proc_hi tf) n = proc_hi tf n) as Hup.
  { intros n Hn. unfold uas. rewrite lookup_ge_None_2; [done|lia]. }
  change TRAMPOLINE with (4096 * (NVPN - 1)). change TRAPFRAME with (4096 * (NVPN - 2)).
  unfold TRAPVPN in Hul. wp_bind.
  eapply wp_mono; [apply (unmap_one s root nd fl _ (NVPN - 1) trampoline Hrep)|].
  { unfold NVPN; lia. }
  { rewrite Hup by lia. by apply leaf_for_leaf. }
  intros [] s1 [Hrep1 Hoff1]. wp_bind.
  eapply wp_mono; [apply (unmap_one s1 root nd fl _ (NVPN - 2) tf Hrep1)|].
  { unfold NVPN; lia. }
  { rewrite fn_lookup_insert_ne, Hup by lia. apply leaf_for_leaf; [lia|apply Htf|done|done]. }
  intros [] s2 [Hrep2 Hoff2].
  assert (user_rep s2 root nd fl us (λ _, 0)) as Hu2.
  { split_and!; [|done|done|done|done]. eapply as_rep_ext; [|exact Hrep2]. intros n Hn.
    destruct (decide (n = NVPN - 2)) as [->|H2]; [rewrite fn_lookup_insert|rewrite fn_lookup_insert_ne by done].
    { unfold uas. rewrite lookup_ge_None_2; [done|lia]. }
    destruct (decide (n = NVPN - 1)) as [->|H1]; [rewrite fn_lookup_insert|rewrite fn_lookup_insert_ne by done].
    { unfold uas. rewrite lookup_ge_None_2; [done|lia]. }
    unfold uas. destruct (us !! Z.to_nat n); [done|]. unfold proc_hi. by do 2 (case_if; [lia|]). }
  eapply wp_mono; [apply (uvmfree_spec s2 root nd fl us sz Hu2 Hlen Hsz)|].
  intros [] s3 (fl' & Hfl' & Hp & Hoff3). exists fl'. split_and!; [done|done|].
  eapply same_off_trans; [|exact Hoff3]. eapply same_off_mono; [|eapply same_off_trans; [exact Hoff1|exact Hoff2]].
  intros x Hx. apply elem_of_app. by right.
Qed.

(** [C14] Tearing down a process's table (exit, and exec's old image) leaks
    nothing: proc_freepagetable returns, and every physical page the table owned,
    user pages and table pages alike, is on the free list exactly once; the
    trampoline and trapframe pages it maps are not freed. *)
Theorem proc_freepagetable_no_leak s root nd fl us tf sz
  (Hu : user_rep s root nd fl us (proc_hi tf)) (Hlen : length us = npg sz)
  (Hsz : 0 ≤ sz ≤ TRAPFRAME) (Htf : page_ok tf) :
  wp (proc_freepagetable root sz) (λ _ s', ∃ fl',
    free_pages s' fl' ∧ fl' ≡ₚ us.*1 ++ fl ++ pages nd ∧
    same_off (us.*1 ++ fl ++ pages nd) (kmem s) (kmem s')) s.
Proof. exact (proc_freepagetable_spec s root nd fl us tf sz Hu Hlen Hsz Htf). Qed.

(** ** proc_pagetable *)

(** A zeroed page is an empty address space. *)
Lemma empty_table s p fl :
  free_pages s fl → page_ok p → p ∉ fl →
  (∀ i, 0 ≤ i < 512 → ld64 (kmem s) (pte_addr p i) = 0) →
  user_rep s p {[ [] := p ]} fl [] (λ _, 0).
Proof.
  intros Hfl Hp Hn Hz.
  assert (NoDup (fl ++ pages {[ [] := p ]})) as Hnd.
  { unfold pages. rewrite map_to_list_singleton. simpl. rewrite <- Permutation_cons_append.
    constructor; [done|]. apply Hfl. }
  split_and!; [|done|constructor|by vm_compute|done].
  split; [split_and!; [done| |done]|].
  - split.
    + by rewrite lookup_singleton_eq.
    + by intros k q [<- <-]%lookup_singleton_Some.
    + intros k q [<- <-]%lookup_singleton_Some. simpl. lia.
    + by intros i k q [E _]%lookup_singleton_Some.
    + intros k k' q [<- <-]%lookup_singleton_Some [<- _]%lookup_singleton_Some. done.
    + intros k i q [E _]%lookup_singleton_Some. by destruct k.
    + intros k q i [<- <-]%lookup_singleton_Some _ Hi. rewrite lookup_singleton_ne by done.
      by rewrite Hz.
  - intros n Hn'. unfold pte_at. rewrite lookup_singleton_ne by done. unfold uas. by rewrite lookup_nil.
Qed.

(** uvmcreate: an empty address space. *)
Lemma uvmcreate_spec s fl :
  free_pages s fl →
  wp uvmcreate (λ r s',
    match fl with
    | [] => r = 0 ∧ s' = s
    | p :: fl' => r = p ∧ page_ok p ∧ user_rep s' p {[ [] := p ]} fl' [] (λ _, 0) ∧
                  same_off fl (kmem s) (kmem s')
    end) s.
Proof.
  intros Hfl. unfold uvmcreate. wp_bind. eapply wp_mono; [by apply kalloc_spec|].
  intros r s1 HQ. destruct fl as [|p fl].
  { destruct HQ as [-> ->]. by apply wp_ret. }
  destruct HQ as (-> & Hfl1 & Hoff1 & _). pose proof Hfl as (_ & _ & Hnd & Hok).
  apply NoDup_cons in Hnd as [Hp Hnd]. apply Forall_cons in Hok as [Hpok Hok].
  pose proof (page_bounds _ Hpok). case_if; [lia|]. wp_steps. split_and!; [done|done| |].
  - apply empty_table; [|done|done|].
    + destruct Hfl1 as (? & Hr & ? & ?). split_and!; [done| |done|done].
      eapply (is_run_same_off _ _ _ [p]); [apply same_off_memset|done|by apply Forall_singleton| |done].
      by intros q Hq ->%list_elem_of_singleton.
    + intros i Hi. apply ld64_zero. intros b Hb. simpl. rewrite CString.memset_in; [done|].
      unfold pte_addr, PGSIZE in *. lia.
  - eapply same_off_trans; [eapply same_off_mono; [|exact Hoff1]|eapply same_off_mono; [|apply same_off_memset]];
      intros x ->%list_elem_of_singleton; constructor.
Qed.

(** Freeing a table that maps nothing. *)
Lemma uvmfree_empty s root nd fl A :
  as_rep s root nd fl A → (∀ n, 0 ≤ n < NVPN → A n = 0) →
  wp (uvmfree root 0) (λ _ s', ∃ fl', free_pages s' fl' ∧ fl' ≡ₚ fl ++ pages nd ∧
    same_off (fl ++ pages nd) (kmem s) (kmem s')) s.
Proof. intros Hrep HA. unfold uvmfree. wp_bind. simpl. apply wp_ret. by eapply freewalk_table. Qed.

(** proc_pagetable is all or nothing: it returns a fresh table that maps the
    trampoline and the given trapframe page and nothing else, or the null pointer
    with every page it took given back. *)
Theorem proc_pagetable_all_or_nothing s fl tf
  (Hfl : free_pages s fl) (Htf : page_ok tf) :
  wp (proc_pagetable tf) (λ r s',
    ((r = 0 ∧ (length fl ≤ 5)%nat ∧ ∃ fl', free_pages s' fl' ∧ fl' ≡ₚ fl) ∨
     (r ≠ 0 ∧ ∃ nd fl', user_rep s' r nd fl' [] (proc_hi tf) ∧ fl' ++ pages nd ≡ₚ fl ∧ (size nd ≤ 5)%nat)) ∧
    same_off fl (kmem s) (kmem s')) s.
Proof.
  pose proof (page_bounds _ Htf). pose proof trampoline_ok as [Htr Htra].
  unfold proc_pagetable. wp_bind. eapply wp_mono; [by apply uvmcreate_spec|].
  intros r s1 HQ. destruct fl as [|p fl].
  { destruct HQ as [-> ->]. apply wp_ret. split; [left; simpl; eauto with lia|apply same_off_refl]. }
  destruct HQ as (-> & Hp & Hu1 & Hoff1). pose proof (page_bounds _ Hp).
  case_if; [lia|]. destruct Hu1 as (Hrep1 & _).
  assert (fl ++ pages {[ [] := p ]} ≡ₚ p :: fl) as Hpf.
  { unfold pages. rewrite map_to_list_singleton. simpl. by rewrite <- Permutation_cons_append. }
  change TRAMPOLINE with (4096 * (NVPN - 1)). change TRAPFRAME with (4096 * (NVPN - 2)).
  wp_bind. eapply wp_mono; [apply (mappages_one s1 p _ fl _ (NVPN - 1) trampoline _ Hrep1)|];
    [unfold NVPN; lia|done|done|done|done|].
  intros r s2 (nd2 & fl2 & [Hperm2 Hoff2] & Hs2 & Hres). rewrite map_size_singleton in Hs2.
  rewrite Hpf in Hperm2. eapply same_off_perm in Hoff2; [|exact Hpf].
  pose proof (same_off_trans _ _ _ _ Hoff1 Hoff2) as Hoff02.
  destruct Hres as [[-> Hrep2]|(-> & Hrep2 & ->)]; simpl.
  2:{ wp_bind. eapply wp_mono; [apply (uvmfree_empty s2 p nd2 [] _ Hrep2); by intros|].
      intros [] s3 (fl3 & Hfl3 & Hp3 & Hoff3). apply wp_ret. rewrite Hperm2 in Hp3.
      apply Permutation_length in Hperm2 as Hl2. simpl in Hl2. rewrite length_pages in Hl2. split; [left; simpl; eauto with lia|]. eapply same_off_trans; [exact Hoff02|].
      eapply same_off_perm; [exact Hperm2|exact Hoff3]. }
  wp_bind. eapply wp_mono; [apply (mappages_one s2 p nd2 fl2 _ (NVPN - 2) tf _ Hrep2)|];
    [unfold NVPN; lia|lia|apply Htf|done|by rewrite fn_lookup_insert_ne by lia|].
  intros r s3 (nd3 & fl3 & [Hperm3 Hoff3] & Hs3 & Hres). rewrite Hperm2 in Hperm3.
  eapply same_off_perm in Hoff3; [|exact Hperm2].
  pose proof (same_off_trans _ _ _ _ Hoff02 Hoff3) as Hoff03.
  destruct Hres as [[-> Hrep3]|(-> & Hrep3 & ->)]; simpl.
  - apply wp_ret. split; [|done]. right. split; [lia|]. exists nd3, fl3. split; [|split; [done|lia]].
    split_and!; [|simpl; by destruct Hrep3 as [(_ & _ & ?) _]|constructor|by vm_compute|].
    + eapply as_rep_ext; [|exact Hrep3]. intros n Hn. unfold uas, proc_hi. rewrite lookup_nil.
      destruct (decide (n = NVPN - 2)) as [->|Hn2]; [by rewrite fn_lookup_insert|].
      rewrite fn_lookup_insert_ne by done.
      destruct (decide (n = NVPN - 1)) as [->|Hn1]; [by rewrite fn_lookup_insert|].
      rewrite fn_lookup_insert_ne by done. by do 2 (case_if; [lia|]).
    + intros n Hn. unfold proc_hi, TRAPVPN in *. by do 2 (case_if; [lia|]).
  - wp_bind. eapply wp_mono; [apply (unmap_one s3 p nd3 [] _ (NVPN - 1) trampoline Hrep3)|].
    { unfold NVPN; lia. }
    { rewrite fn_lookup_insert. by apply leaf_for_leaf. }
    intros [] s4 [Hrep4 Hoff4]. wp_bind.
    eapply wp_mono; [apply (uvmfree_empty s4 p nd3 [] _ Hrep4)|].
    { intros n Hn. destruct (decide (n = NVPN - 1)) as [->|]; [by rewrite fn_lookup_insert|].
      by rewrite !fn_lookup_insert_ne. }
    intros [] s5 (fl5 & Hfl5 & Hp5 & Hoff5). apply wp_ret. rewrite Hperm3 in Hp5.
    apply Permutation_length in Hperm3 as Hl3. simpl in Hl3. rewrite length_pages in Hl3. split; [left; simpl; eauto with lia|]. eapply same_off_trans; [exact Hoff03|].
    eapply same_off_perm; [exact Hperm3|]. eapply same_off_trans; [exact Hoff4|exact Hoff5].
Qed.

(** ** uvmcopy *)

(** A table that is not operated on, while the free list changes. *)
Lemma as_rep_frame s s' root nd fl fl' A :
  as_rep s root nd fl A → free_pages s' fl' → NoDup (fl' ++ pages nd) →
  (∀ p b, p ∈ pages nd → in_page p b → ld8 (kmem s') b = ld8 (kmem s) b) →
  as_rep s' root nd fl' A.
Proof.
  intros [(Hfl & Hwf & Hnd) Hrep] Hfl' Hnd' Hm.
  destruct (pt_wf_ext (kmem s) (kmem s') nd root) as [Hwf' Hpte]; [done|done|].
  split; [done|]. intros n Hn. by rewrite Hpte, Hrep.
Qed.

(** The child's pages so far hold the parent's bytes and flags, page by page. *)
Definition copied (s0 s : kst) (us usn : list (Z * Z)) : Prop :=
  ∀ j q f, usn !! j = Some (q, f) → ∃ p g, us !! j = Some (p, g) ∧ f = Z.lor g PTE_V ∧
    page_bytes s q = page_bytes s0 p.

Lemma page_bytes_memmove s p q :
  page_bytes (set_mem (CString.memmove p q PGSIZE) s) p = page_bytes s q.
Proof.
  apply list_eq. intros i. destruct (decide (i < Z.to_nat PGSIZE)%nat) as [Hi|Hi].
  - unfold page_bytes. rewrite !lookup_ldbytes by done. simpl. f_equal.
    rewrite CString.memmove_in by lia. f_equal. lia.
  - rewrite !lookup_ge_None_2; [done|..]; unfold page_bytes; rewrite length_ldbytes; lia.
Qed.

Lemma copied_snoc s0 s s' us usn x p g :
  copied s0 s us usn → us !! length usn = Some (p, g) →
  (∀ q, q ∈ usn.*1 → page_bytes s' q = page_bytes s q) → page_bytes s' x = page_bytes s0 p →
  copied s0 s' us (usn ++ [(x, Z.lor g PTE_V)]).
Proof.
  intros Hcp Hpg Hkeep Hx j q f Hj. apply lookup_app_Some in Hj as [Hj|[Hl Hj]].
  - rewrite Hkeep; [by apply Hcp|]. apply list_elem_of_fmap. exists (q, f).
    split; [done|]. by eapply list_elem_of_lookup_2.
  - apply list_lookup_singleton_Some in Hj as [E [= <- <-]]. exists p, g.
    replace j with (length usn) by lia. split_and!; [exact Hpg|reflexivity|exact Hx].
Qed.

Section uvmcopy.
Context (s0 : kst) (ro rn : Z) (ndo ndn0 : nodes) (fl0 : list Z) (us : list (Z * Z))
  (hio hin : Z → Z) (sz : Z).
Context (Hold : user_rep s0 ro ndo fl0 us hio) (Hlen : length us = npg sz)
  (Hsz : 0 ≤ sz ≤ TRAPFRAME) (Hnd0 : NoDup (fl0 ++ pages ndn0))
  (Hok0 : Forall page_ok (fl0 ++ pages ndn0))
  (Hdis : ∀ p, p ∈ us.*1 ++ pages ndo → p ∉ fl0 ++ pages ndn0).

(** The child's table in the middle of the copy. *)
Definition copy_inv (s : kst) (ndn : nodes) (fl : list Z) (usn : list (Z * Z)) : Prop :=
  user_rep s rn ndn fl usn hin ∧ usn.*1 ++ fl ++ pages ndn ≡ₚ fl0 ++ pages ndn0 ∧
  same_off (fl0 ++ pages ndn0) (kmem s0) (kmem s).

(** Everything of the parent is as it was. *)
Lemma copy_old s ndn fl usn :
  copy_inv s ndn fl usn →
  as_rep s ro ndo fl (uas us hio) ∧
  ∀ p g i, us !! i = Some (p, g) → ∀ b, in_page p b → ld8 (kmem s) b = ld8 (kmem s0) b.
Proof.
  intros ((Hrepn & _) & Hperm & Hoff). pose proof Hold as (Hrep & _ & Huok & _).
  assert (∀ p b, page_ok p → p ∉ fl0 ++ pages ndn0 → in_page p b → ld8 (kmem s) b = ld8 (kmem s0) b) as Hsame.
  { intros p b Hp Hn Hb. apply Hoff. intros q Hq Hqb. rewrite Forall_forall in Hok0.
    assert (p = q) as <-; [|done]. eapply page_disjoint; eauto. }
  assert (∀ p, p ∈ pages ndo → page_ok p) as Hpo.
  { intros p (k & Hk)%elem_of_pages. eapply wf_page; [apply Hrep|done]. }
  split.
  - eapply as_rep_frame; [exact Hrep|apply Hrepn| |].
    + apply NoDup_app. split_and!.
      * rewrite <- Hperm in Hnd0. apply NoDup_app in Hnd0 as (_ & _ & Hn). by apply NoDup_app in Hn as (? & _).
      * intros p Hp Hin. apply (Hdis p); [rewrite elem_of_app; by right|].
        rewrite <- Hperm, !elem_of_app. tauto.
      * destruct Hrep as [(_ & _ & Hn) _]. by apply NoDup_app in Hn as (_ & _ & ?).
    + intros p b Hp Hb. apply (Hsame p); [by apply Hpo| |done]. apply Hdis. rewrite elem_of_app. by right.
  - intros p g i Hi b Hb. rewrite Forall_forall in Huok.
    pose proof (list_elem_of_lookup_2 _ _ _ Hi) as Hin. apply (Hsame p); [apply (Huok _ Hin)| |done].
    apply Hdis. rewrite elem_of_app. left. apply list_elem_of_fmap. by exists (p, g).
Qed.

Lemma uvmcopy_loop_spec m : ∀ s ndn fl usn,
  copy_inv s ndn fl usn → copied s0 s us usn → length us = (length usn + m)%nat → (size ndn ≤ size ndn0 + 2 * length usn)%nat →
  wp (uvmcopy_loop (S m) ro rn (4096 * Z.of_nat (length usn)) sz) (λ r s', ∃ ndn' fl' usn',
    copy_inv s' ndn' fl' usn' ∧
    (r = inr tt ∧ length usn' = length us ∧ copied s0 s' us usn' ∨
     r = inl (4096 * Z.of_nat (length usn')) ∧ (length fl0 ≤ 3 * length us)%nat)) s.
Proof.
  induction m as [|m IH]; intros s ndn fl usn Hinv Hcp Hm Hsn; pose proof (npg_eq sz Hsz) as Hnpg.
  { cbn [uvmcopy_loop]. case_if; [zlia|]. apply wp_ret. exists ndn, fl, usn.
    split; [done|]. left. split_and!; [done|lia|done]. }
  unfold uvmcopy_loop; fold (uvmcopy_loop (S m)). case_if; [|zlia].
  destruct (copy_old _ _ _ _ Hinv) as [Hrepo Hbytes]. pose proof Hinv as (Hu & Hperm & Hoff).
  pose proof (Permutation_length Hperm) as Hcount. rewrite !length_app, length_fmap, !length_pages in Hcount.
  destruct (lookup_lt_is_Some_2 us (length usn)) as [[p g] Hpg]; [lia|].
  destruct (user_rep_page _ _ _ _ _ _ _ _ _ Hold Hpg) as (Hp & _ & HV & _ & Hpa).
  assert (upage_ok (p, g)) as (_ & Hg & Hgl).
  { destruct Hold as (_ & _ & Hok & _). rewrite Forall_forall in Hok. apply Hok.
    by eapply list_elem_of_lookup_2. }
  simpl in Hg, Hgl. set (A := uas us hio) in *. set (v := Z.of_nat (length usn)) in *.
  assert (Z.of_nat (length us) ≤ TRAPVPN) as Hul by apply Hold.
  assert (0 ≤ v < NVPN) as Hv by (unfold TRAPVPN in Hul; unfold v; lia).
  wp_bind. eapply wp_eq; [apply (walk_lookup s ro ndo fl); [apply Hrepo|by apply vpn_maxva]|].
  destruct (ndo !! leaf_key (4096 * v)) as [q|] eqn:Hq.
  2:{ exfalso. rewrite (as_rep_unmapped _ _ _ _ _ _ Hrepo Hv Hq) in HV. done. }
  assert (page_ok q) as Hqok by (eapply wf_page; [apply Hrepo|done]).
  pose proof (page_bounds q Hqok). pose proof (PX_range 0 (4096 * v) ltac:(lia)).
  case_if; [unfold pte_addr in *; lia|]. unfold load64. wp_steps.
  rewrite (as_rep_load _ _ _ _ _ _ _ Hrepo Hv Hq), HV. simpl. cbv zeta. rewrite Hpa.
  assert (PTE_FLAGS (A v) = Z.lor g PTE_V) as ->.
  { unfold A, uas, v. rewrite Nat2Z.id, Hpg. pose proof (page_bounds p Hp).
    destruct (leaf_decode p g) as (_ & ? & _); [lia|apply Hp|done|done]. }
  assert (∀ s', same_off (fl ++ pages ndn) (kmem s) (kmem s') →
    same_off (fl0 ++ pages ndn0) (kmem s0) (kmem s')) as Htrans.
  { intros s' Hs'. eapply same_off_trans; [exact Hoff|]. eapply same_off_perm; [exact Hperm|].
    eapply same_off_mono; [|exact Hs']. clear. set_solver. }
  apply (wp_user_grow (λ mem, CString.memmove mem p PGSIZE) (Z.lor g PTE_V) _ _ _ _ s rn ndn fl usn hin);
    [done|by apply lor_flags|by rewrite <- Z.lor_assoc|unfold v in *; lia| |..].
  - intros x m'. apply same_off_page. intros b Hb. apply CString.memmove_out; unfold PGSIZE; lia.
  - intros ->. apply wp_ret. exists ndn, [], usn. split; [done|]. right. split; [done|]. simpl in Hcount. lia.
  - intros x s3 nd3 Hu3 Hs3 Hperm3 Hoff3 Hx.
    assert (x ∈ fl ++ pages ndn) as Hxin by (rewrite <- Hperm3; constructor).
    wp_bind. eapply wp_mono; [apply (user_kfree s3 rn nd3 [] usn hin x); [done|done|]|].
    + destruct Hu as (_ & Hnd & _). apply NoDup_app in Hnd as (_ & Hd & Hnd).
      rewrite elem_of_app. intros [Hin|Hin]; [by apply (Hd x)|].
      rewrite <- Hperm3 in Hnd. by apply NoDup_cons in Hnd as [? _].
    + intros [] s4 [Hu4 Hoff4]. apply wp_ret. exists nd3, [x], usn. split.
      2:{ right. split; [done|]. apply Permutation_length in Hperm3. simpl in Hperm3. rewrite length_app, !length_pages in Hperm3. lia. }
      split_and!; [done|simpl; by rewrite Hperm3|]. apply Htrans.
      eapply same_off_trans; [exact Hoff3|]. eapply same_off_mono; [|exact Hoff4].
      by intros y ->%list_elem_of_singleton.
  - intros x s3 nd3 fl3 s1 Hu3 Hs3 Hperm3 Hoff3 Hx Hoff1 Hb3.
    rewrite u64_small by (unfold PGSIZE, NVPN, v in *; lia).
    replace (4096 * v + PGSIZE) with (4096 * Z.of_nat (length (usn ++ [(x, Z.lor g PTE_V)])))
      by (rewrite length_app; unfold PGSIZE, v; simpl; lia).
    apply (IH s3 nd3 fl3).
    + split_and!; [done| |by apply Htrans]. rewrite fmap_app, <- app_assoc. simpl. by rewrite Hperm3.
    + assert (x ∈ fl0 ++ pages ndn0) as Hxin.
      { rewrite <- Hperm, elem_of_app. right. rewrite <- Hperm3. constructor. }
      eapply copied_snoc; [exact Hcp|exact Hpg| |].
      * intros y Hy. destruct (user_pages_notin _ _ _ _ _ _ [] usn Hu eq_refl y Hy) as [Hn Hyok].
        eapply page_bytes_same_off; [exact Hoff3|done| |done]. eapply vm_pages_ok. apply Hu.
      * rewrite <- (page_bytes_ext s0 s p) by (intros b; by eapply Hbytes).
        rewrite <- (page_bytes_same_off s s1 [x] p); [|done|done|by apply Forall_singleton|].
        -- rewrite <- (page_bytes_memmove s1 x p). by apply page_bytes_ext.
        -- intros ->%list_elem_of_singleton. apply (Hdis x); [|done]. rewrite elem_of_app. left.
           apply list_elem_of_fmap. exists (x, g). split; [done|]. by eapply list_elem_of_lookup_2.
    + rewrite length_app. simpl. lia.
    + rewrite length_app. simpl. lia.
Qed.

End uvmcopy.

Lemma uvmcopy_spec s ro rn ndo ndn fl us hio hin sz
  (Hold : user_rep s ro ndo fl us hio) (Hnew : user_rep s rn ndn fl [] hin)
  (Hlen : length us = npg sz) (Hsz : 0 ≤ sz ≤ TRAPFRAME)
  (Hdis : ∀ p, p ∈ us.*1 ++ pages ndo → p ∉ fl ++ pages ndn) :
  wp (uvmcopy ro rn sz) (λ r s', ∃ ndn' fl' usn,
    user_rep s' rn ndn' fl' usn hin ∧ as_rep s' ro ndo fl' (uas us hio) ∧
    usn.*1 ++ fl' ++ pages ndn' ≡ₚ fl ++ pages ndn ∧ same_off (fl ++ pages ndn) (kmem s) (kmem s') ∧
    (∀ p g i, us !! i = Some (p, g) → page_bytes s' p = page_bytes s p) ∧
    (r = 0 ∧ length usn = length us ∧ copied s s' us usn ∨ r = -1 ∧ usn = [] ∧ (length fl ≤ 3 * length us)%nat)) s.
Proof.
  assert (NoDup (fl ++ pages ndn)) as Hnd0 by apply Hnew.
  assert (Forall page_ok (fl ++ pages ndn)) as Hok0 by (eapply vm_pages_ok; apply Hnew).
  pose proof (copy_old s ro rn ndo ndn fl us hio hin sz Hold Hsz Hnd0 Hok0 Hdis) as Hkeep.
  unfold uvmcopy. wp_bind. pose proof (npg_eq sz Hsz) as Hnpg.
  assert (Z.to_nat ((sz + PGSIZE - 1) / PGSIZE) = length us) as ->.
  { rewrite Hlen. unfold PGSIZE. replace (sz + 4096 - 1) with (sz + 4095) by lia. lia. }
  eapply wp_mono; [apply (uvmcopy_loop_spec s ro rn ndo ndn fl us hio hin sz Hold Hlen Hsz Hnd0 Hok0 Hdis
    (length us) s ndn fl [])|].
  - split_and!; [done|done|apply same_off_refl].
  - by intros j q f Hj.
  - done.
  - simpl. lia.
  - intros r s1 (nd1 & fl1 & us1 & Hinv & Hres). destruct Hres as [(-> & Hl1 & Hcp)|[-> Hshort]].
    + apply wp_ret. destruct (Hkeep _ _ _ _ Hinv) as [Hro Hb]. destruct Hinv as (Hu1 & Hp1 & Hoff1).
      exists nd1, fl1, us1. split_and!; [done|done|done|done| |by left].
      intros p g i Hi. apply page_bytes_ext. by eapply Hb.
    + wp_bind. replace (4096 * Z.of_nat (length us1) / PGSIZE) with (Z.of_nat (length us1 - 0))
        by (unfold PGSIZE; zlia).
      destruct Hinv as (Hu1 & Hp1 & Hoff1).
      eapply wp_mono; [apply (user_unmap_spec s1 rn nd1 fl1 us1 hin 0 Hu1); lia|].
      intros [] s2 [Hu2 Hoff2]. rewrite drop_0, take_0 in *. apply wp_ret.
      assert (copy_inv s rn ndn fl hin s2 nd1 (rev us1.*1 ++ fl1) []) as Hinv2.
      { split_and!; [done| |].
        - simpl. rewrite <- app_assoc, <- Hp1. by rewrite <- Permutation_rev.
        - eapply same_off_trans; [exact Hoff1|]. by eapply same_off_perm. }
      destruct (Hkeep _ _ _ _ Hinv2) as [Hro Hb]. destruct Hinv2 as (_ & Hp2 & Hoff3).
      exists nd1, (rev us1.*1 ++ fl1), []. split_and!; [done|done|done|done| |right; by split_and!].
      intros p g i Hi. apply page_bytes_ext. by eapply Hb.
Qed.

(** fork's copy of user memory is exact or undone.  From a parent of [sz]
    bytes and a child table with no user pages, uvmcopy either returns 0 with the
    child holding as many pages, each its own physical page with the parent's
    bytes and flags; or it returns -1 with the child's table empty again.  The
    parent's memory and table are untouched and no page is lost either way. *)
Theorem uvmcopy_correct s ro rn ndo ndn fl us hio hin sz
  (Hold : user_rep s ro ndo fl us hio) (Hnew : user_rep s rn ndn fl [] hin)
  (Hlen : length us = npg sz) (Hsz : 0 ≤ sz ≤ TRAPFRAME)
  (Hdis : ∀ p, p ∈ us.*1 ++ pages ndo → p ∉ fl ++ pages ndn) :
  wp (uvmcopy ro rn sz) (λ r s', ∃ ndn' fl' usn,
    user_rep s' rn ndn' fl' usn hin ∧ as_rep s' ro ndo fl' (uas us hio) ∧
    usn.*1 ++ fl' ++ pages ndn' ≡ₚ fl ++ pages ndn ∧
    (∀ p g i, us !! i = Some (p, g) → page_bytes s' p = page_bytes s p) ∧
    (r = 0 ∧ length usn = length us ∧ copied s s' us usn ∨ r = -1 ∧ usn = [])) s.
Proof.
  eapply wp_mono; [by apply uvmcopy_spec|]. intros r s' (ndn' & fl' & usn & ? & ? & ? & _ & ? & Hr). exists ndn', fl', usn.
  split_and!; try done. destruct Hr as [?|(? & ? & _)]; auto.
Qed.

End proc.

End VmProc.
