(* ===== verification/VmCopy.v ===== *)
(** * Copies between kernel and user memory

    copyout, copyin and copyinstr against the abstract address space: the bytes
    moved are those at the user addresses as the page table translates them, a
    page that is not mapped for the user makes the copy fail, and nothing outside
    the destination is written. *)

From S2P Require Import Prelude Mem CString Spinlock Riscv Kalloc Vm VmSpec VmUser.
Import Riscv Kalloc Vm VmSpec VmUser.

Module VmCopy.

Section copy.
Context `{KernelImage}.

Notation nodes := (gmap (list Z) Z).

#[local] Opaque CString.memset CString.memmove.

(** The user may read, may write, virtual page [n]. *)
Definition uread (A : Z → Z) (n : Z) : bool := has (A n) PTE_V && has (A n) PTE_U.
Definition uwrite (A : Z → Z) (n : Z) : bool := uread A n && has (A n) PTE_W.

(** The same of an address; [xlate] is the byte it stands for. *)
Definition readable (A : Z → Z) (va : Z) : Prop := 0 ≤ va < MAXVA ∧ uread A (va / 4096) = true.
Definition writable (A : Z → Z) (va : Z) : Prop := 0 ≤ va < MAXVA ∧ uwrite A (va / 4096) = true.
Definition xlate (A : Z → Z) (va : Z) : Z := PTE2PA (A (va / 4096)) + va mod 4096.

(** User pages are pages of RAM, distinct from one another, from the free pages
    and from the table. *)
Definition user_sep (nd : nodes) (fl : list Z) (A : Z → Z) : Prop :=
  ∀ n, 0 ≤ n < NVPN → uread A n = true →
    page_ok (PTE2PA (A n)) ∧ PTE2PA (A n) ∉ fl ++ pages nd ∧
    ∀ n', 0 ≤ n' < NVPN → uread A n' = true → PTE2PA (A n') = PTE2PA (A n) → n' = n.

(** ** Lemmas *)

Lemma writable_readable A va : writable A va → readable A va.
Proof. intros [Hr Hw]. split; [done|]. unfold uwrite in Hw. by bsimpl. Qed.

Lemma va_vpn va : 0 ≤ va < MAXVA → 0 ≤ va / 4096 < NVPN.
Proof. change MAXVA with (2 ^ 38). unfold NVPN. zlia. Qed.

(** Two user addresses with the same physical byte are the same address. *)
Lemma xlate_inj nd fl A va va' :
  user_sep nd fl A → readable A va → readable A va' → xlate A va = xlate A va' → va = va'.
Proof.
  intros Hsep [Hv Hr] [Hv' Hr'] Heq.
  destruct (Hsep _ (va_vpn _ Hv) Hr) as (Hp & _ & Hinj).
  destruct (Hsep _ (va_vpn _ Hv') Hr') as (Hp' & _).
  assert (PTE2PA (A (va' / 4096)) = PTE2PA (A (va / 4096))) as E.
  { eapply (page_disjoint _ _ (xlate A va)); [done|done| |]; unfold xlate, in_page in *; zlia. }
  pose proof (Hinj _ (va_vpn _ Hv') Hr' E) as E'. unfold xlate in Heq. rewrite E' in Heq. zlia.
Qed.

(** Within one page, addresses translate with their offset. *)
Lemma xlate_add A va i :
  0 ≤ i → va mod 4096 + i < 4096 →
  (va + i) / 4096 = va / 4096 ∧ xlate A (va + i) = xlate A va + i.
Proof.
  intros Hi Hlt. assert ((va + i) / 4096 = va / 4096) as E by zlia.
  split; [done|]. unfold xlate. rewrite E. zlia.
Qed.

Lemma in_user_page A va : in_page (PTE2PA (A (va / 4096))) (xlate A va).
Proof. unfold in_page, xlate. zlia. Qed.

Lemma xlate_sep nd fl A va p :
  user_sep nd fl A → Forall page_ok (fl ++ pages nd) → readable A va → p ∈ fl ++ pages nd →
  ¬ in_page p (xlate A va).
Proof.
  intros Hsep Hok [Hv Hr] Hp Hin. destruct (Hsep _ (va_vpn _ Hv) Hr) as (Hpok & Hn & _).
  rewrite Forall_forall in Hok. apply Hn.
  assert (PTE2PA (A (va / 4096)) = p) as ->; [|done].
  eapply page_disjoint; [done|by apply Hok|apply in_user_page|done].
Qed.

Lemma PGROUNDDOWN_vpn va : PGROUNDDOWN va = 4096 * (va / 4096).
Proof. rewrite PGROUNDDOWN_eq. zlia. Qed.

(** walkaddr: the page of a user-readable address, 0 for any other. *)
Lemma walkaddr_spec s root nd fl A n :
  as_rep s root nd fl A → 0 ≤ n →
  walkaddr root (4096 * n) s =
    Ret (if (n <? NVPN) && uread A n then PTE2PA (A n) else 0, s).
Proof.
  intros Hrep Hn. unfold walkaddr. destruct (n <? NVPN) eqn:Hlt; bsimpl.
  2:{ case_if; [done|]. change MAXVA with (2 ^ 38) in *. unfold NVPN in *. lia. }
  pose proof (proj1 (vpn_maxva n) (conj Hn Hlt)) as Hva. case_if; [lia|].
  unfold mbind, M_bind. rewrite (walk_lookup s root nd fl) by (apply Hrep || done).
  destruct (nd !! leaf_key (4096 * n)) as [q|] eqn:Hq.
  - assert (page_ok q) as Hqok by (eapply wf_page; [apply Hrep|done]).
    pose proof (page_bounds q Hqok). pose proof (PX_range 0 (4096 * n) ltac:(lia)).
    case_if; [unfold pte_addr in *; lia|]. unfold load64, gets.
    rewrite (as_rep_load _ _ _ _ _ n _ Hrep (conj Hn Hlt) Hq). unfold uread.
    by destruct (has (A n) PTE_V), (has (A n) PTE_U).
  - simpl. unfold uread. by rewrite (as_rep_unmapped _ _ _ _ _ n Hrep (conj Hn Hlt) Hq).
Qed.

(** ** copyout *)

(** The effect of copying [len] bytes from kernel [src] to user [dstva]. *)
Definition copyout_post (s : kst) (root : Z) (nd : nodes) (fl : list Z) (A : Z → Z)
    (dstva src len r : Z) (s' : kst) : Prop :=
  as_rep s' root nd fl A ∧
  (∀ b, (∀ i, 0 ≤ i < len → writable A (dstva + i) → b ≠ xlate A (dstva + i)) →
     ld8 (kmem s') b = ld8 (kmem s) b) ∧
  (r = 0 ∧ (∀ i, 0 ≤ i < len → writable A (dstva + i) ∧
      ld8 (kmem s') (xlate A (dstva + i)) = ld8 (kmem s) (src + i)) ∨
   r = -1 ∧ ∃ i, 0 ≤ i < len ∧ ¬ writable A (dstva + i)).

(** Kernel memory [[a, a+len)] is not user memory. *)
Definition kernel_buf (A : Z → Z) (a len : Z) : Prop :=
  ∀ i va, 0 ≤ i < len → readable A va → a + i ≠ xlate A va.

(** One chunk: [n] bytes within the page of [dstva]. *)
Lemma copyout_chunk s root nd fl A dstva src n :
  as_rep s root nd fl A → user_sep nd fl A → writable A dstva →
  0 < n → dstva mod 4096 + n ≤ 4096 → kernel_buf A src n →
  copyout_post s root nd fl A dstva src n 0 (set_mem (CString.memmove (xlate A dstva) src n) s).
Proof.
  intros Hrep Hsep Hw Hn Hpg Hbuf.
  assert (∀ i, 0 ≤ i < n → writable A (dstva + i) ∧ xlate A (dstva + i) = xlate A dstva + i) as Hin.
  { intros i Hi. destruct (xlate_add A dstva i) as [E1 E2]; [lia|lia|]. split; [|done].
    destruct Hw as [Hr Hw]. split; [|by rewrite E1]. change MAXVA with (2 ^ 38) in *. zlia. }
  assert (∀ b, (∀ i, 0 ≤ i < n → writable A (dstva + i) → b ≠ xlate A (dstva + i)) →
    b < xlate A dstva ∨ xlate A dstva + n ≤ b) as Hout.
  { intros b Hb. destruct (decide (xlate A dstva ≤ b < xlate A dstva + n)) as [Hr|]; [|lia].
    exfalso. destruct (Hin (b - xlate A dstva)) as [Hw' E]; [lia|].
    apply (Hb (b - xlate A dstva)); [lia|done|lia]. }
  split_and!.
  - apply as_rep_other; [done|]. intros p b Hp Hb. apply CString.memmove_out; [lia|]. apply Hout.
    intros i Hi Hwi ->. eapply xlate_sep; [done| |by apply writable_readable|done|done].
    eapply vm_pages_ok. apply Hrep.
  - intros b Hb. simpl. apply CString.memmove_out; [lia|]. by apply Hout.
  - left. split; [done|]. intros i Hi. destruct (Hin i Hi) as [Hwi ->]. split; [done|]. simpl.
    rewrite CString.memmove_in by lia. f_equal. lia.
Qed.

(** Chunks compose. *)
Lemma copyout_post_app s s1 s2 root nd fl A dstva src n len r :
  copyout_post s root nd fl A dstva src n 0 s1 →
  copyout_post s1 root nd fl A (dstva + n) (src + n) (len - n) r s2 →
  0 < n ≤ len → user_sep nd fl A → kernel_buf A src len →
  copyout_post s root nd fl A dstva src len r s2.
Proof.
  intros (_ & Hf1 & Hr1) (Hrep2 & Hf2 & Hr2) Hn Hsep Hbuf.
  destruct Hr1 as [[_ Hr1]|[? _]]; [|done]. split_and!; [done| |].
  - intros b Hb. rewrite Hf2, Hf1; [done| |].
    + intros i Hi. apply Hb. lia.
    + intros i Hi. replace (dstva + n + i) with (dstva + (n + i)) by lia. apply Hb. lia.
  - destruct Hr2 as [[-> Hr2]|[-> (i & Hi & Hnw)]]; [left|right]; (split; [done|]).
    + intros i Hi. destruct (decide (i < n)) as [Hlt|Hge].
      * destruct (Hr1 i ltac:(lia)) as [Hw E]. split; [done|]. rewrite Hf2; [done|].
        intros j Hj Hwj Hx. eapply xlate_inj in Hx; [lia|done|by apply writable_readable..].
      * destruct (Hr2 (i - n) ltac:(lia)) as [Hw E].
        replace (dstva + n + (i - n)) with (dstva + i) in * by lia.
        replace (src + n + (i - n)) with (src + i) in * by lia. split; [done|]. rewrite E.
        apply Hf1. intros j Hj Hwj. apply Hbuf; [lia|]. by apply writable_readable.
    + exists (n + i). split; [lia|]. by replace (dstva + (n + i)) with (dstva + n + i) by lia.
Qed.

Lemma copyout_loop_spec fuel : ∀ s root nd fl A dstva src len,
  as_rep s root nd fl A → user_sep nd fl A → 0 ≤ dstva → 0 ≤ len → kernel_buf A src len →
  (dstva mod 4096 + len + 4095) / 4096 < Z.of_nat fuel →
  wp (copyout_loop fuel root dstva src len) (copyout_post s root nd fl A dstva src len) s.
Proof.
  induction fuel as [|fuel IH]; intros s root nd fl A dstva src len Hrep Hsep Hd Hl Hbuf Hfuel; [zlia|].
  cbn [copyout_loop]. case_if.
  2:{ apply wp_ret. assert (len = 0) as -> by lia. split_and!; [done|done|]. left.
      split; [done|]. intros i Hi. lia. }
  cbv zeta. rewrite PGROUNDDOWN_vpn. set (n := dstva / 4096).
  assert (∀ r, ¬ writable A dstva → r = -1 → copyout_post s root nd fl A dstva src len r s) as Hfail.
  { intros r Hnw ->. split_and!; [done|done|]. right. split; [done|]. exists 0. rewrite Z.add_0_r.
    split; [lia|done]. }
  case_if.
  { apply wp_ret. apply Hfail; [|done]. intros [Hr _]. unfold n in *. change MAXVA with (2 ^ 38) in *. zlia. }
  assert (0 ≤ n < NVPN) as Hn by (apply vpn_maxva; unfold n in *; zlia).
  wp_bind. eapply wp_eq; [apply (walk_lookup s root nd fl); [apply Hrep|by apply vpn_maxva]|].
  destruct (nd !! leaf_key (4096 * n)) as [q|] eqn:Hq.
  2:{ rewrite Z.eqb_refl. apply wp_ret, Hfail; [|done]. intros [_ Hw].
      unfold uwrite, uread in Hw. fold n in Hw.
      by rewrite (as_rep_unmapped _ _ _ _ _ _ Hrep Hn Hq) in Hw. }
  assert (page_ok q) as Hqok by (eapply wf_page; [apply Hrep|done]).
  pose proof (page_bounds q Hqok). pose proof (PX_range 0 (4096 * n) ltac:(lia)).
  case_if; [unfold pte_addr in *; lia|]. unfold load64. wp_steps.
  rewrite (as_rep_load _ _ _ _ _ _ _ Hrep Hn Hq). case_if.
  { apply wp_ret, Hfail; [|done]. intros [_ Hw]. unfold uwrite, uread in Hw. fold n in Hw.
    destruct (has (A n) PTE_V), (has (A n) PTE_U), (has (A n) PTE_W); done. }
  assert (writable A dstva) as Hw.
  { split; [unfold n in *; change MAXVA with (2 ^ 38) in *; zlia|]. unfold uwrite, uread. fold n.
    destruct (has (A n) PTE_V), (has (A n) PTE_U), (has (A n) PTE_W); done. }
  wp_steps. replace (PTE2PA (A n) + (dstva - 4096 * n)) with (xlate A dstva) by (unfold xlate, n; zlia).
  set (k := if len <? PGSIZE - (dstva - 4096 * n) then len else PGSIZE - (dstva - 4096 * n)).
  assert (0 < k ≤ len ∧ dstva mod 4096 + k ≤ 4096 ∧ (k = len ∨ dstva + k = 4096 * n + 4096)) as (Hk & Hkp & Hend).
  { unfold k, PGSIZE, n. case_if; zlia. }
  assert (kernel_buf A src k) as Hbk by (intros i va Hi; apply Hbuf; lia).
  pose proof (copyout_chunk s root nd fl A dstva src k Hrep Hsep Hw ltac:(lia) Hkp Hbk) as Hc.
  destruct Hend as [->|Hend].
  - rewrite Z.sub_diag. destruct fuel as [|fuel]; [zlia|]. cbn [copyout_loop]. apply wp_ret. exact Hc.
  - eapply wp_mono; [apply (IH _ root nd fl A (4096 * n + PGSIZE) (src + k) (len - k))|].
    + apply Hc.
    + done.
    + unfold PGSIZE. lia.
    + lia.
    + intros i va Hi Hr. replace (src + k + i) with (src + (k + i)) by lia. apply Hbuf; [lia|done].
    + unfold PGSIZE. rewrite <- Hend. zlia.
    + unfold PGSIZE. rewrite <- Hend. intros r s2 Hp. by eapply copyout_post_app.
Qed.

(** ** copyin *)

(** A kernel buffer: not user memory, not a table page, not a free page. *)
Definition kernel_dst (nd : nodes) (fl : list Z) (A : Z → Z) (a len : Z) : Prop :=
  kernel_buf A a len ∧ ∀ i p, 0 ≤ i < len → p ∈ fl ++ pages nd → ¬ in_page p (a + i).

Lemma kernel_dst_sub nd fl A a len n k :
  kernel_dst nd fl A a len → 0 ≤ n → n + k ≤ len → kernel_dst nd fl A (a + n) k.
Proof.
  intros [H1 H2] Hn Hk. split.
  - intros i va Hi Hr. replace (a + n + i) with (a + (n + i)) by lia. apply H1; [lia|done].
  - intros i p Hi Hp. replace (a + n + i) with (a + (n + i)) by lia. apply H2; [lia|done].
Qed.

(** A write confined to a kernel buffer. *)
Lemma as_rep_buf s root nd fl A a len f :
  as_rep s root nd fl A → kernel_dst nd fl A a len →
  (∀ b, b < a ∨ a + len ≤ b → ld8 (f (kmem s)) b = ld8 (kmem s) b) → as_rep (set_mem f s) root nd fl A.
Proof.
  intros Hrep [_ Hbuf] Hf. apply as_rep_other; [done|]. intros p b Hp Hb. apply Hf.
  destruct (decide (a ≤ b < a + len)); [|lia]. exfalso. apply (Hbuf (b - a) p); [lia|done|].
  by replace (a + (b - a)) with b by lia.
Qed.

Definition copyin_post (s : kst) (root : Z) (nd : nodes) (fl : list Z) (A : Z → Z)
    (dst srcva len r : Z) (s' : kst) : Prop :=
  as_rep s' root nd fl A ∧
  (∀ b, b < dst ∨ dst + len ≤ b → ld8 (kmem s') b = ld8 (kmem s) b) ∧
  (r = 0 ∧ (∀ i, 0 ≤ i < len → readable A (srcva + i) ∧
      ld8 (kmem s') (dst + i) = ld8 (kmem s) (xlate A (srcva + i))) ∨
   r = -1 ∧ ∃ i, 0 ≤ i < len ∧ ¬ readable A (srcva + i)).

Lemma copyin_chunk s root nd fl A dst srcva n :
  as_rep s root nd fl A → readable A srcva → 0 < n → srcva mod 4096 + n ≤ 4096 →
  kernel_dst nd fl A dst n →
  copyin_post s root nd fl A dst srcva n 0 (set_mem (CString.memmove dst (xlate A srcva) n) s).
Proof.
  intros Hrep Hr Hn Hpg Hbuf. split_and!.
  - eapply as_rep_buf; [done|done|]. intros b Hb. by apply CString.memmove_out; [lia|].
  - intros b Hb. simpl. by apply CString.memmove_out; [lia|].
  - left. split; [done|]. intros i Hi. destruct (xlate_add A srcva i) as [E1 E2]; [lia|lia|].
    split.
    + destruct Hr as [Hv Hr]. split; [|by rewrite E1]. change MAXVA with (2 ^ 38) in *. zlia.
    + simpl. rewrite CString.memmove_in, E2 by lia. f_equal. lia.
Qed.

Lemma copyin_post_app s s1 s2 root nd fl A dst srcva n len r :
  copyin_post s root nd fl A dst srcva n 0 s1 →
  copyin_post s1 root nd fl A (dst + n) (srcva + n) (len - n) r s2 →
  0 < n ≤ len → kernel_dst nd fl A dst len →
  copyin_post s root nd fl A dst srcva len r s2.
Proof.
  intros (_ & Hf1 & Hr1) (Hrep2 & Hf2 & Hr2) Hn [Hbuf _].
  destruct Hr1 as [[_ Hr1]|[? _]]; [|done]. split_and!; [done| |].
  - intros b Hb. rewrite Hf2, Hf1; [done|lia|lia].
  - destruct Hr2 as [[-> Hr2]|[-> (i & Hi & Hnw)]]; [left|right]; (split; [done|]).
    + intros i Hi. destruct (decide (i < n)) as [Hlt|Hge].
      * destruct (Hr1 i ltac:(lia)) as [Hw E]. split; [done|]. by rewrite Hf2 by lia.
      * destruct (Hr2 (i - n) ltac:(lia)) as [Hw E].
        replace (srcva + n + (i - n)) with (srcva + i) in * by lia.
        replace (dst + n + (i - n)) with (dst + i) in * by lia. split; [done|]. rewrite E.
        apply Hf1. destruct (decide (dst ≤ xlate A (srcva + i) < dst + n)); [|lia]. exfalso.
        apply (Hbuf (xlate A (srcva + i) - dst) (srcva + i)); [lia|done|lia].
    + exists (n + i). split; [lia|]. by replace (srcva + (n + i)) with (srcva + n + i) by lia.
Qed.

(** The page copyin and copyinstr find for an address. *)
Lemma walkaddr_page s root nd fl A va :
  as_rep s root nd fl A → user_sep nd fl A → 0 ≤ va →
  ∃ pa0, walkaddr root (PGROUNDDOWN va) s = Ret (pa0, s) ∧
    (pa0 = 0 ∧ ¬ readable A va ∨ pa0 ≠ 0 ∧ readable A va ∧ pa0 + (va - PGROUNDDOWN va) = xlate A va).
Proof.
  intros Hrep Hsep Hva. rewrite PGROUNDDOWN_vpn. set (n := va / 4096).
  eexists. split; [apply (walkaddr_spec s root nd fl A n Hrep); unfold n; zlia|].
  destruct ((n <? NVPN) && uread A n) eqn:E; bsimpl.
  - right. assert (0 ≤ n < NVPN) as Hn by (split; [unfold n; zlia|done]).
    destruct (Hsep n Hn ltac:(done)) as (Hp & _). pose proof (page_bounds _ Hp).
    split_and!; [lia| |unfold xlate; fold n; unfold n; zlia].
    split; [|done]. apply vpn_maxva in Hn. change MAXVA with (2 ^ 38) in *. unfold n in *. zlia.
  - left. split; [done|]. intros [Hv Hr]. fold n in Hr. rewrite Hr in E.
    pose proof (va_vpn _ Hv). fold n in H0. destruct (n <? NVPN) eqn:?; bsimpl; [done|lia].
Qed.

(** The bytes a page still holds from [va] on, at most [len]. *)
Lemma chunk_size va len :
  0 < len → let va0 := PGROUNDDOWN va in
  let n := PGSIZE - (va - va0) in let k := if len <? n then len else n in
  0 < k ≤ len ∧ va mod 4096 + k ≤ 4096 ∧ (k = len ∨ va + k = va0 + PGSIZE).
Proof. intros Hl. rewrite PGROUNDDOWN_vpn. unfold PGSIZE. cbv zeta. case_if; zlia. Qed.

Lemma copyin_loop_spec fuel : ∀ s root nd fl A dst srcva len,
  as_rep s root nd fl A → user_sep nd fl A → 0 ≤ srcva → 0 ≤ len → kernel_dst nd fl A dst len →
  (srcva mod 4096 + len + 4095) / 4096 < Z.of_nat fuel →
  wp (copyin_loop fuel root dst srcva len) (copyin_post s root nd fl A dst srcva len) s.
Proof.
  induction fuel as [|fuel IH]; intros s root nd fl A dst srcva len Hrep Hsep Hd Hl Hbuf Hfuel; [zlia|].
  cbn [copyin_loop]. case_if.
  2:{ apply wp_ret. assert (len = 0) as -> by lia. split_and!; [done|done|]. left.
      split; [done|]. intros i Hi. lia. }
  destruct (walkaddr_page s root nd fl A srcva Hrep Hsep Hd) as (pa0 & Hwalk & Hpa).
  wp_bind. eapply wp_eq; [exact Hwalk|]. destruct Hpa as [[-> Hnr]|(Hpa & Hr & Hx)].
  { apply wp_ret. split_and!; [done|done|]. right. split; [done|]. exists 0.
    rewrite Z.add_0_r. split; [lia|done]. }
  case_if; [lia|]. cbv zeta. rewrite Hx.
  destruct (chunk_size srcva len ltac:(lia)) as (Hk & Hkp & Hend). 
  match goal with |- context [CString.memmove _ _ ?x] => set (k := x) in * end.
  wp_bind. apply wp_modify.
  pose proof (kernel_dst_sub _ _ _ _ _ 0 k Hbuf ltac:(lia) ltac:(lia)) as Hbk. rewrite Z.add_0_r in Hbk.
  pose proof (copyin_chunk s root nd fl A dst srcva k Hrep Hr ltac:(lia) Hkp Hbk) as Hc.
  destruct Hend as [Hend|Hend].
  - rewrite Hend, Z.sub_diag in *. destruct fuel as [|fuel]; [zlia|]. cbn [copyin_loop].
    apply wp_ret. exact Hc.
  - rewrite <- Hend. eapply wp_mono; [apply (IH _ root nd fl A (dst + k) (srcva + k) (len - k))|].
    + apply Hc.
    + done.
    + lia.
    + lia.
    + apply kernel_dst_sub with (len := len); [done|lia|lia].
    + clearbody k. rewrite PGROUNDDOWN_vpn in Hend. unfold PGSIZE in Hend. zlia.
    + intros r s2 Hp. by eapply copyin_post_app.
Qed.

(** ** copyinstr *)

(** [k] bytes of the user string from [srcva] on are readable and not NUL. *)
Definition ustr (s : kst) (A : Z → Z) (srcva k : Z) : Prop :=
  ∀ i, 0 ≤ i < k → readable A (srcva + i) ∧ ld8 (kmem s) (xlate A (srcva + i)) ≠ 0.

(** [k] bytes of it are in the kernel buffer, and nothing else has changed. *)
Definition copied_str (s : kst) (A : Z → Z) (dst srcva k : Z) (s' : kst) : Prop :=
  (∀ i, 0 ≤ i < k → ld8 (kmem s') (dst + i) = ld8 (kmem s) (xlate A (srcva + i))) ∧
  (∀ b, b < dst ∨ dst + k ≤ b → ld8 (kmem s') b = ld8 (kmem s) b).

(** The string ends at byte [k], and is copied with its NUL. *)
Definition got_str (s : kst) (A : Z → Z) (dst srcva max : Z) (s' : kst) : Prop :=
  ∃ k, 0 ≤ k < max ∧ ustr s A srcva k ∧ readable A (srcva + k) ∧
    ld8 (kmem s) (xlate A (srcva + k)) = 0 ∧ copied_str s A dst srcva (k + 1) s'.

Definition copyinstr_post (s : kst) (root : Z) (nd : nodes) (fl : list Z) (A : Z → Z)
    (dst srcva max r : Z) (s' : kst) : Prop :=
  as_rep s' root nd fl A ∧
  (r = 0 ∧ got_str s A dst srcva max s' ∨
   r = -1 ∧ ∃ k, 0 ≤ k ≤ max ∧ ustr s A srcva k ∧ (k = max ∨ ¬ readable A (srcva + k)) ∧
     copied_str s A dst srcva k s').

(** One byte more. *)
Lemma copied_str_snoc s A dst srcva k s' c :
  copied_str s A dst srcva k s' → 0 ≤ k → c = ld8 (kmem s) (xlate A (srcva + k)) →
  copied_str s A dst srcva (k + 1) (set_mem (st8 (dst + k) c) s').
Proof.
  intros [H1 H2] Hk ->. split; simpl.
  - intros i Hi. rewrite ld8_st8. case_if.
    + assert (i = k) as -> by lia. apply u8_small, ld8_range.
    + apply H1. lia.
  - intros b Hb. rewrite ld8_st8_ne by lia. apply H2. lia.
Qed.

(** The user's bytes are not changed by what has been copied. *)
Lemma copied_str_user nd fl s A dst srcva k s' va len :
  copied_str s A dst srcva k s' → kernel_dst nd fl A dst len → k ≤ len → readable A va →
  ld8 (kmem s') (xlate A va) = ld8 (kmem s) (xlate A va).
Proof.
  intros [_ H2] [Hbuf _] Hk Hr. apply H2.
  destruct (decide (dst ≤ xlate A va < dst + k)); [|lia]. exfalso.
  apply (Hbuf (xlate A va - dst) va); [lia|done|lia].
Qed.

(** The bytes of one page, after [k] bytes have been copied. *)
Lemma copyinstr_page_spec n : ∀ s0 s root nd fl A p dst srcva k len,
  as_rep s root nd fl A → kernel_dst nd fl A dst len → 0 ≤ k → k + Z.of_nat n ≤ len →
  (∀ i, 0 ≤ i < Z.of_nat n → readable A (srcva + k + i) ∧ xlate A (srcva + k + i) = p + i) →
  ustr s0 A srcva k → copied_str s0 A dst srcva k s →
  wp (copyinstr_page n p (dst + k) (len - k)) (λ '(got, dst', max') s',
    as_rep s' root nd fl A ∧
    if (got : bool) then got_str s0 A dst srcva len s'
    else dst' = dst + (k + Z.of_nat n) ∧ max' = len - (k + Z.of_nat n) ∧
         ustr s0 A srcva (k + Z.of_nat n) ∧ copied_str s0 A dst srcva (k + Z.of_nat n) s') s.
Proof.
  induction n as [|n IH]; intros s0 s root nd fl A p dst srcva k len Hrep Hbuf Hk Hlen Hpg Hu Hc.
  { cbn [copyinstr_page]. apply wp_ret. change (Z.of_nat 0) with 0. rewrite Z.add_0_r. done. }
  cbn [copyinstr_page]. wp_steps.
  destruct (Hpg 0 ltac:(lia)) as [Hr Hx]. rewrite Z.add_0_r in Hr. rewrite !Z.add_0_r in Hx.
  assert (ld8 (kmem s) p = ld8 (kmem s0) (xlate A (srcva + k))) as ->.
  { rewrite <- Hx. by apply (copied_str_user nd fl s0 A dst srcva k s _ len); [..|lia|]. }
  set (c := ld8 (kmem s0) (xlate A (srcva + k))) in *.
  assert (∀ v, as_rep (set_mem (st8 (dst + k) v) s) root nd fl A) as Hrep'.
  { intros v. eapply as_rep_buf; [done|exact Hbuf|]. intros b Hb'. apply ld8_st8_ne. lia. }
  case_if; wp_steps.
  - split; [apply Hrep'|]. exists k. split_and!; [lia|lia|done|done|done|].
    by apply copied_str_snoc.
  - replace (k + Z.of_nat (S n)) with (k + 1 + Z.of_nat n) by lia.
    replace (dst + k + 1) with (dst + (k + 1)) by lia.
    replace (len - k - 1) with (len - (k + 1)) by lia.
    apply IH; [apply Hrep'|done|lia|lia| | |].
    + intros i Hi. replace (srcva + (k + 1) + i) with (srcva + k + (i + 1)) by lia.
      destruct (Hpg (i + 1) ltac:(lia)) as [? ->]. split; [done|lia].
    + intros i Hi. destruct (decide (i = k)) as [->|]; [done|]. apply Hu. lia.
    + by apply copied_str_snoc.
Qed.

Lemma copyinstr_loop_spec fuel : ∀ s0 s root nd fl A dst srcva k len,
  as_rep s root nd fl A → user_sep nd fl A → 0 ≤ srcva → 0 ≤ k ≤ len → kernel_dst nd fl A dst len →
  ustr s0 A srcva k → copied_str s0 A dst srcva k s →
  ((srcva + k) mod 4096 + (len - k) + 4095) / 4096 + 1 < Z.of_nat fuel →
  wp (copyinstr_loop fuel root (dst + k) (srcva + k) (len - k) false)
    (copyinstr_post s0 root nd fl A dst srcva len) s.
Proof.
  induction fuel as [|fuel IH]; intros s0 s root nd fl A dst srcva k len Hrep Hsep Hd Hk Hbuf Hu Hc Hfuel;
    [zlia|].
  cbn [copyinstr_loop negb andb]. case_if.
  2:{ apply wp_ret. split; [done|]. right. split; [done|]. exists k.
      split_and!; [lia|lia|done|left; lia|done]. }
  destruct (walkaddr_page s root nd fl A (srcva + k) Hrep Hsep ltac:(lia)) as (pa0 & Hwalk & Hpa).
  wp_bind. eapply wp_eq; [exact Hwalk|]. destruct Hpa as [[-> Hnr]|(Hpa & Hr & Hx)].
  { apply wp_ret. split; [done|]. right. split; [done|]. exists k.
    split_and!; [lia|lia|done|by right|done]. }
  case_if; [lia|]. cbv zeta. rewrite Hx.
  destruct (chunk_size (srcva + k) (len - k) ltac:(lia)) as (Hn & Hnp & Hend).
  match goal with |- context [Z.to_nat ?x] => set (n := x) in * end.
  assert (∀ i, 0 ≤ i < Z.of_nat (Z.to_nat n) → readable A (srcva + k + i) ∧
    xlate A (srcva + k + i) = xlate A (srcva + k) + i) as Hpg.
  { intros i Hi. destruct (xlate_add A (srcva + k) i) as [E1 E2]; [lia|lia|]. split; [|done].
    destruct Hr as [Hv Hr]. split; [|by rewrite E1]. change MAXVA with (2 ^ 38) in *.
    clear - Hv Hnp Hi. zlia. }
  wp_bind. eapply wp_mono; [apply (copyinstr_page_spec (Z.to_nat n) s0 s root nd fl A
    (xlate A (srcva + k)) dst srcva k len); try done; lia|].
  intros [[got dst'] max'] s' [Hrep' Hgot]. destruct fuel as [|fuel']; [zlia|]. destruct got.
  - cbn [copyinstr_loop negb andb]. apply wp_ret. split; [done|]. by left.
  - destruct Hgot as (-> & -> & Hu' & Hc'). rewrite Z2Nat.id in * by lia.
    destruct Hend as [Hend|Hend].
    + replace (k + n) with len in * by lia. rewrite Z.sub_diag. cbn [copyinstr_loop negb andb].
      apply wp_ret. split; [done|]. right. split; [done|]. exists len.
      split_and!; [lia|lia|done|by left|done].
    + replace (PGROUNDDOWN (srcva + k) + PGSIZE) with (srcva + (k + n)) by lia.
      apply IH; [done|done|lia|lia|done|done|done|].
      clearbody n. rewrite PGROUNDDOWN_vpn in Hend. unfold PGSIZE in Hend.
      clear - Hfuel Hend Hn Hd Hk. zlia.
Qed.

(** ** Properties *)

(** User memory of a process is separate in the sense of [user_sep]. *)
Lemma user_rep_sep s root nd fl us hi :
  user_rep s root nd fl us hi → (∀ n, has (hi n) PTE_U = false) → user_sep nd fl (uas us hi).
Proof.
  intros Hu Hhi n Hn Hr. unfold uread in Hr. bsimpl.
  assert (∀ m, 0 ≤ m → has (uas us hi m) PTE_U = true → ∃ p f, us !! Z.to_nat m = Some (p, f)) as Hin.
  { intros m Hm HU. unfold uas in HU. destruct (us !! Z.to_nat m) as [[p f]|]; [eauto|].
    by rewrite Hhi in HU. }
  destruct (Hin n) as (p & f & Hp); [lia|done|].
  destruct (user_rep_page _ _ _ _ _ _ _ _ _ Hu Hp) as (Hpok & Hpn & (_ & _ & Hpa)).
  rewrite Z2Nat.id in Hpa by lia. rewrite Hpa. split_and!; [done|done|].
  intros n' Hn' Hr' E. unfold uread in Hr'. bsimpl.
  destruct (Hin n') as (p' & f' & Hp'); [lia|done|].
  destruct (user_rep_page _ _ _ _ _ _ _ _ _ Hu Hp') as (_ & _ & (_ & _ & Hpa')).
  rewrite Z2Nat.id in Hpa' by lia. rewrite Hpa' in E. subst p'.
  destruct Hu as (_ & Hnd & _). apply NoDup_app in Hnd as (Hnd & _).
  assert (Z.to_nat n' = Z.to_nat n); [|lia].
  eapply (NoDup_lookup us.*1 _ _ p); [done|..]; apply list_lookup_fmap_Some; [by exists (p, f')|by exists (p, f)].
Qed.

(** Memory of the kernel image is neither user memory nor allocated pages. *)
Lemma kernel_image_buf nd fl A a len :
  user_sep nd fl A → Forall page_ok (fl ++ pages nd) → a + len ≤ kend → kernel_dst nd fl A a len.
Proof.
  intros Hsep Hok Ha. split.
  - intros i va Hi [Hv Hr] E. destruct (Hsep _ (va_vpn _ Hv) Hr) as ((_ & Hlo & _) & _).
    pose proof (in_user_page A va) as Hin. unfold in_page in Hin. lia.
  - intros i p Hi Hp Hin. rewrite Forall_forall in Hok. destruct (Hok p Hp) as (_ & Hlo & _).
    unfold in_page in Hin. lia.
Qed.

(** [C17] copyout writes exactly the user's bytes.  It returns 0 with every byte
    of the kernel buffer at its translated user address, when every page of the
    destination is mapped writable for the user, and -1 when some byte is not;
    in either case it changes nothing but user-writable bytes of the
    destination range, and the address space stays as it was. *)
Theorem copyout_correct s root nd fl us hi dstva src len
  (Hu : user_rep s root nd fl us hi) (Hhi : ∀ n, has (hi n) PTE_U = false)
  (Hva : 0 ≤ dstva) (Hlen : 0 ≤ len) (Hbuf : kernel_buf (uas us hi) src len) :
  wp (copyout root dstva src len) (copyout_post s root nd fl (uas us hi) dstva src len) s.
Proof.
  apply copyout_loop_spec; [apply Hu|by eapply user_rep_sep|done|done|done|]. unfold PGSIZE. zlia.
Qed.

(** copyin reads exactly the user's bytes: 0 with the kernel buffer holding
    the bytes at the translated addresses, or -1 when some byte of the source is
    not mapped for the user; nothing outside the buffer changes. *)
Theorem copyin_correct s root nd fl us hi dst srcva len
  (Hu : user_rep s root nd fl us hi) (Hhi : ∀ n, has (hi n) PTE_U = false)
  (Hva : 0 ≤ srcva) (Hlen : 0 ≤ len) (Hbuf : kernel_dst nd fl (uas us hi) dst len) :
  wp (copyin root dst srcva len) (copyin_post s root nd fl (uas us hi) dst srcva len) s.
Proof.
  apply copyin_loop_spec; [apply Hu|by eapply user_rep_sep|done|done|done|]. unfold PGSIZE. zlia.
Qed.

(** copyinstr fetches a user string: 0 exactly when a NUL is found within
    [max] readable bytes, with the string and its NUL in the buffer; -1 when no
    NUL comes before [max] bytes or before an unreadable byte.  It never writes
    past the NUL or past [max] bytes. *)
Theorem copyinstr_correct s root nd fl us hi dst srcva max
  (Hu : user_rep s root nd fl us hi) (Hhi : ∀ n, has (hi n) PTE_U = false)
  (Hva : 0 ≤ srcva) (Hmax : 0 ≤ max) (Hbuf : kernel_dst nd fl (uas us hi) dst max) :
  wp (copyinstr root dst srcva max) (copyinstr_post s root nd fl (uas us hi) dst srcva max) s.
Proof.
  pose proof (copyinstr_loop_spec (Z.to_nat (max / PGSIZE) + 4) s s root nd fl (uas us hi) dst srcva 0 max) as Hl.
  rewrite !Z.add_0_r, Z.sub_0_r in Hl. apply Hl; [apply Hu|by eapply user_rep_sep|done|lia|done|..].
  - intros i Hi. lia.
  - split; [intros i Hi; lia|done].
  - unfold PGSIZE. zlia.
Qed.

End copy.

End VmCopy.
