(* ===== verification/VmKernel.v ===== *)
(** * kernel/vm.c: the kernel's page table

    kvmmake, with the stacks of proc_mapstacks: which addresses the kernel's own table
    maps, and that a hundred and sixty-seven free pages are enough to make it. *)

From S2P Require Import Prelude Mem CString Spinlock Riscv Kalloc Vm VmSpec VmUser VmProc.
Import Riscv Kalloc Vm VmSpec VmUser VmProc.

Module VmKernel.
Section kernel.
Notation nodes := (gmap (list Z) Z).
Context `{KernelImage}.

Definition RW : Z := Z.lor PTE_R PTE_W.
Definition RX : Z := Z.lor PTE_R PTE_X.
Definition vpn (a : Z) : Z := a / PGSIZE.

(** The page of the stack at virtual page [n]: every other page below the trampoline. *)
Definition stack_at (st : list Z) (n : Z) : option Z :=
  let d := vpn TRAMPOLINE - n in
  if (2 <=? d) && (d mod 2 =? 0) then st !! Z.to_nat (d / 2 - 1) else None.

(** What the kernel's table maps: the devices and all of RAM at their own addresses,
    the text without write permission, the trampoline at the top, the stacks below it. *)
Definition kernel_map (st : list Z) (n : Z) : Z :=
  if n =? vpn TRAMPOLINE then leaf trampoline RX
  else match stack_at st n with
  | Some p => leaf p RW
  | None =>
      if (vpn KERNBASE <=? n) && (n <? vpn etext) then leaf (4096 * n) RX
      else if (vpn etext <=? n) && (n <? vpn PHYSTOP) then leaf (4096 * n) RW
      else if (n =? vpn UART0) || (n =? vpn VIRTIO0) || ((vpn PLIC <=? n) && (n <? vpn PLIC + 0x4000)) then leaf (4096 * n) RW
      else 0
  end.

(** ** The nodes of the table *)

Definition KEYS : list (list Z) :=
  [[]; [0]; [2]; [255]; [0; 128]; [255; 511]] ++ map (λ i, [0; i]) (seqZ 96 32) ++ map (λ i, [2; i]) (seqZ 0 64).

Definition within (nd : nodes) : Prop := ∀ k, is_Some (nd !! k) → k ∈ KEYS.

Lemma within_size nd : within nd → (size nd ≤ 102)%nat.
Proof.
  intros Hw. change 102%nat with (size (∅ : nodes) + length KEYS)%nat. apply (grows_size KEYS (λ k, k ∈ KEYS)); [done|]. intros k Hk. right. by apply Hw.
Qed.

Lemma key0 i : 96 ≤ i < 128 → [0; i] ∈ KEYS.
Proof. intros Hi. unfold KEYS. rewrite !elem_of_app. right. left. apply list_elem_of_fmap. exists i. split; [done|]. apply elem_of_seqZ. lia. Qed.
Lemma key2 i : 0 ≤ i < 64 → [2; i] ∈ KEYS.
Proof. intros Hi. unfold KEYS. rewrite !elem_of_app. right. right. apply list_elem_of_fmap. exists i. split; [done|]. apply elem_of_seqZ. lia. Qed.

Lemma paths_keys v n : 0 ≤ v → v + n ≤ NVPN →
  (∀ x, v ≤ x < v + n → [x / 2 ^ 18] ∈ KEYS ∧ [x / 2 ^ 18; x / 512 mod 512] ∈ KEYS) → ∀ k, paths v n k → k ∈ KEYS.
Proof.
  intros Hv Hn Hx k (x & Hr & Hk). destruct (vpn_keys x ltac:(lia)) as (E2 & E1 & _). unfold path_of, leaf_key in Hk. rewrite E2, E1 in Hk.
  destruct (Hx x Hr) as [H1 H2]. by destruct Hk as [-> | ->].
Qed.

(** ** kvmmap *)

Lemma kvmmap_ok s root nd fl A v n pa perm :
  as_rep s root nd fl A → 0 < n → 0 ≤ v → v + n ≤ NVPN → 0 ≤ pa → pa + 4096 * n ≤ 2 ^ 56 → pa mod 4096 = 0 → 0 ≤ perm < 1024 →
  (∀ x, v ≤ x < v + n → has (A x) PTE_V = false) → within nd → (∀ k, paths v n k → k ∈ KEYS) → (102 < length fl + size nd)%nat →
  wp (kvmmap root (4096 * v) pa (4096 * n) perm) (λ _ s', ∃ nd' fl', as_rep s' root nd' fl' (map_range v n pa perm A) ∧
    vm_frame s nd fl s' nd' fl' ∧ within nd') s.
Proof.
  intros Hrep Hn Hv Hvn Hpa Hpan Hal Hperm Hfree Hw Hk Hlen. unfold kvmmap. wp_bind. eapply wp_mono; [by apply mappages_spec|].
  intros r s' (nd' & fl' & k & Hrep' & Hfr & Hg & Hres).
  assert (Hw' : within nd') by (intros k' Hk'; destruct (Hg k' Hk'); auto). destruct Hres as [[-> ->]|(-> & _ & ->)].
  - apply wp_ret. by exists nd', fl'.
  - exfalso. destruct Hfr as [Hp%Permutation_length _]. simpl in Hp. rewrite length_app, !length_pages in Hp. pose proof (within_size _ Hw'). lia.
Qed.

(** The six fixed ranges, one after the other. *)
Definition fixed_ranges : list (Z * Z * Z * Z) :=
  [(vpn UART0, 1, UART0, RW); (vpn VIRTIO0, 1, VIRTIO0, RW); (vpn PLIC, 0x4000, PLIC, RW);
   (vpn KERNBASE, vpn etext - vpn KERNBASE, KERNBASE, RX); (vpn etext, vpn PHYSTOP - vpn etext, etext, RW);
   (vpn TRAMPOLINE, 1, trampoline, RX)].

Definition ranges (l : list (Z * Z * Z * Z)) (A : Z → Z) : Z → Z := foldl (λ A '(v, n, pa, perm), map_range v n pa perm A) A l.

Context (Hram : etext < PHYSTOP).

Lemma etext_vpn : ∃ e, etext = 4096 * e ∧ 0x80000 < e < 0x88000 ∧ vpn etext = e.
Proof.
  pose proof etext_lo. pose proof etext_aligned as Ha. unfold vpn, PHYSTOP, KERNBASE, PGSIZE in *. exists (etext / 4096).
  split_and!; try done; zlia.
Qed.

Lemma fixed_map n : 0 ≤ n < NVPN → ranges fixed_ranges (λ _, 0) n = kernel_map [] n.
Proof.
  destruct etext_vpn as (e & Ee & He & Ev). intros Hn. unfold ranges, fixed_ranges, kernel_map, stack_at. cbn [foldl]. rewrite Ev, lookup_nil. rewrite Ee.
  change (vpn UART0) with 0x10000. change (vpn VIRTIO0) with 0x10001. change (vpn PLIC) with 0xc000. change (vpn KERNBASE) with 0x80000.
  change (vpn PHYSTOP) with 0x88000. change (vpn TRAMPOLINE) with (NVPN - 1). unfold map_range, NVPN, UART0, VIRTIO0, PLIC, KERNBASE in *.
  replace (if _ : bool then None else None) with (@None Z) by (by destruct (_ && _)).
  repeat case_if; try lia; try done; f_equal; lia.
Qed.

Lemma stack_map st p n : (length st < 64)%nat → 0 ≤ n < NVPN →
  map_range (vpn (KSTACK (Z.of_nat (length st)))) 1 p RW (kernel_map st) n = kernel_map (st ++ [p]) n.
Proof.
  intros Hl Hn. unfold kernel_map, map_range, stack_at.
  assert (E : vpn (KSTACK (Z.of_nat (length st))) = vpn TRAMPOLINE - 2 * (Z.of_nat (length st) + 1)).
  { unfold vpn, KSTACK, PGSIZE. change TRAMPOLINE with (2 ^ 38 - 4096). zlia. }
  rewrite E. set (d := vpn TRAMPOLINE - n). set (j := Z.of_nat (length st)) in *.
  assert (Hd : n = vpn TRAMPOLINE - d) by lia. clearbody d. subst n.
  destruct (decide (d = 2 * (j + 1))) as [->|Hne].
  - replace (2 * (j + 1) mod 2) with 0 by zlia. replace (2 * (j + 1) / 2 - 1) with j by zlia. rewrite (proj2 (Z.leb_le 2 _)) by lia. simpl andb.
    rewrite lookup_app_r by (unfold j; lia). replace (Z.to_nat j - length st)%nat with O by (unfold j; lia). simpl.
    repeat case_if; try lia. f_equal. lia.
  - case_if; [lia|]. destruct ((2 <=? d) && (d mod 2 =? 0)) eqn:Ed; [|done].
    assert (Hs : st !! Z.to_nat (d / 2 - 1) = (st ++ [p]) !! Z.to_nat (d / 2 - 1)); [|by rewrite Hs].
    destruct (decide (Z.to_nat (d / 2 - 1) < length st)%nat); [by rewrite lookup_app_l|]. bsimpl.
    rewrite !lookup_ge_None_2; [done| |lia]. rewrite length_app. simpl. unfold j in *. zlia.
Qed.

(** ** kvmmake *)

(** The table at [root] maps [A]; its pages, those in [st] and the free ones are the
    pages [fl0]. *)
Definition kmade (s0 : kst) (fl0 : list Z) (st : list Z) (root : Z) (A : Z → Z) (s : kst) : Prop :=
  ∃ nd fl, as_rep s root nd fl A ∧ within nd ∧ st ++ fl ++ pages nd ≡ₚ fl0 ∧ same_off fl0 (kmem s0) (kmem s).

Lemma kmade_map s0 fl0 st root A v n pa perm va size s : (102 + length st < length fl0)%nat → kmade s0 fl0 st root A s →
  va = 4096 * v → size = 4096 * n → 0 < n → 0 ≤ v → v + n ≤ NVPN → 0 ≤ pa → pa + 4096 * n ≤ 2 ^ 56 → pa mod 4096 = 0 → 0 ≤ perm < 1024 →
  (∀ x, v ≤ x < v + n → A x = 0) → (∀ x, v ≤ x < v + n → [x / 2 ^ 18] ∈ KEYS ∧ [x / 2 ^ 18; x / 512 mod 512] ∈ KEYS) →
  wp (kvmmap root va pa size perm) (λ _, kmade s0 fl0 st root (map_range v n pa perm A)) s.
Proof.
  intros Hl (nd & fl & Hrep & Hw & Hp & Hoff) -> -> Hn Hv Hvn Hpa Hpan Hal Hperm Hfree Hkeys. pose proof (Permutation_length Hp) as Hc. rewrite !length_app, length_pages in Hc.
  eapply wp_mono; [eapply kvmmap_ok; try done; [|by apply paths_keys|lia]|].
  - intros x Hx. by rewrite Hfree.
  - intros [] s' (nd' & fl' & Hrep' & [Hp' Hoff'] & Hw'). exists nd', fl'. split_and!; [done|done|by rewrite Hp'|].
    eapply same_off_trans; [exact Hoff|]. eapply same_off_mono; [|exact Hoff']. intros q Hq. rewrite <- Hp, elem_of_app. by right.
Qed.

(** Whether an address that no range so far maps. *)
Ltac not_mapped := intros x Hx; unfold map_range; repeat case_if; lia || done.

Lemma fixed_made {B} (K : M kst B) Q s0 p fl s : (102 < S (length fl))%nat → kmade s0 (p :: fl) [] p (λ _, 0) s →
  (∀ s', kmade s0 (p :: fl) [] p (ranges fixed_ranges (λ _, 0)) s' → wp K Q s') →
  wp (kvmmap p UART0 UART0 PGSIZE RW;; kvmmap p VIRTIO0 VIRTIO0 PGSIZE RW;; kvmmap p PLIC PLIC 0x4000000 RW;;
      kvmmap p KERNBASE KERNBASE (etext - KERNBASE) RX;; kvmmap p etext etext (PHYSTOP - etext) RW;;
      kvmmap p TRAMPOLINE trampoline PGSIZE RX;; K) Q s.
Proof.
  intros Hl Hz HK. destruct etext_vpn as (e & Ee & He & Ev). pose proof trampoline_ok as [Ht Hta]. unfold ranges, fixed_ranges in HK. cbn [foldl] in HK. rewrite Ev in HK.
  change (vpn UART0) with 0x10000 in HK. change (vpn VIRTIO0) with 0x10001 in HK. change (vpn PLIC) with 0xc000 in HK. change (vpn KERNBASE) with 0x80000 in HK.
  change (vpn PHYSTOP) with 0x88000 in HK. change (vpn TRAMPOLINE) with (NVPN - 1) in HK.
  assert (Hk : ∀ x, 0x80000 ≤ x < 0x88000 → [x / 2 ^ 18] ∈ KEYS ∧ [x / 2 ^ 18; x / 512 mod 512] ∈ KEYS).
  { intros x Hx. replace (x / 2 ^ 18) with 2 by zlia. split; [by do 2 right; left|]. apply key2. zlia. }
  wp_bind. eapply wp_mono; [eapply (kmade_map _ _ [] _ _ 0x10000 1); try exact Hz; try done|].
  { intros x Hx. assert (x = 0x10000) as -> by lia. split; [by right; left|by do 4 right; left]. }
  intros [] s1 H1. wp_bind. eapply wp_mono; [eapply (kmade_map _ _ [] _ _ 0x10001 1); try exact H1; try done; [not_mapped|]|].
  { intros x Hx. assert (x = 0x10001) as -> by lia. split; [by right; left|by do 4 right; left]. }
  intros [] s2 H2. wp_bind. eapply wp_mono; [eapply (kmade_map _ _ [] _ _ 0xc000 0x4000); try exact H2; try done; [not_mapped|]|].
  { intros x Hx. replace (x / 2 ^ 18) with 0 by zlia. split; [by right; left|]. apply key0. zlia. }
  intros [] s3 H3. wp_bind. eapply wp_mono; [eapply (kmade_map _ _ [] _ _ 0x80000 (e - 0x80000)); try exact H3; try done; try (unfold KERNBASE, NVPN; lia); [not_mapped|]|].
  { intros x Hx. apply Hk. lia. }
  intros [] s4 H4. wp_bind. eapply wp_mono; [eapply (kmade_map _ _ [] _ _ e (0x88000 - e)); try exact H4; try done; try (unfold PHYSTOP, KERNBASE, NVPN; lia); [rewrite Ee; zlia|not_mapped|]|].
  { intros x Hx. apply Hk. lia. }
  intros [] s5 H5. wp_bind. eapply wp_mono; [eapply (kmade_map _ _ [] _ _ (NVPN - 1) 1); try exact H5; try done; try lia; [zlia|unfold NVPN; not_mapped|]|].
  { intros x Hx. assert (x = NVPN - 1) as -> by lia. vm_compute. split; [by do 3 right; left|by do 5 right; left]. }
  intros [] s6 H6. by apply HK.
Qed.

Lemma kmade_ext s0 fl0 st root A A' s : (∀ n, 0 ≤ n < NVPN → A n = A' n) → kmade s0 fl0 st root A s → kmade s0 fl0 st root A' s.
Proof. intros HA (nd & fl & Hr & Hs). exists nd, fl. split; [|exact Hs]. by eapply as_rep_ext. Qed.

Lemma stack_free st : (length st < 64)%nat → kernel_map st (vpn (KSTACK (Z.of_nat (length st)))) = 0.
Proof.
  intros Hl. destruct etext_vpn as (e & Ee & He & Ev). unfold kernel_map, stack_at. rewrite Ev. change (vpn UART0) with 0x10000. change (vpn VIRTIO0) with 0x10001.
  change (vpn PLIC) with 0xc000. change (vpn KERNBASE) with 0x80000. change (vpn PHYSTOP) with 0x88000.
  assert (E : vpn (KSTACK (Z.of_nat (length st))) = vpn TRAMPOLINE - 2 * (Z.of_nat (length st) + 1)).
  { unfold vpn, KSTACK, PGSIZE. change TRAMPOLINE with (2 ^ 38 - 4096). zlia. }
  rewrite E. change (vpn TRAMPOLINE) with (NVPN - 1). rewrite lookup_ge_None_2 by zlia. unfold NVPN. destruct (_ && _); repeat case_if; lia || done.
Qed.

Lemma stacks_made s0 fl0 root s : (167 ≤ length fl0)%nat → kmade s0 fl0 [] root (kernel_map []) s →
  wp (proc_mapstacks root) (λ _ s', ∃ st, length st = 64%nat ∧ kmade s0 fl0 st root (kernel_map st) s') s.
Proof.
  intros Hl H0. unfold proc_mapstacks.
  eapply wp_mono; [apply (wp_for_range (λ j s', ∃ st, Z.of_nat (length st) = j ∧ kmade s0 fl0 st root (kernel_map st) s')); [by exists []|]|].
  - intros j s1 Hj (st & Hst & nd & fl & Hrep & Hw & Hp & Hoff). change (0 + Z.of_nat (Z.to_nat NPROC)) with 64 in Hj.
    pose proof (Permutation_length Hp) as Hc. rewrite !length_app, length_pages in Hc. pose proof (within_size _ Hw).
    wp_bind. eapply wp_mono; [by apply as_rep_kalloc|]. intros pa s2 HQ. destruct fl as [|x fl]; [simpl in Hc; lia|].
    destruct HQ as (-> & Hrep2 & Hx & Hxn & Hoff2). pose proof (page_bounds _ Hx). wp_bind. rewrite (proj2 (Z.eqb_neq x 0)) by lia. apply wp_ret. cbv zeta. rewrite <- Hst.
    eapply wp_mono; [eapply (kmade_map s0 fl0 (st ++ [x]) root (kernel_map st) (vpn (KSTACK (Z.of_nat (length st)))) 1)|].
    all: assert (Hk : vpn (KSTACK (Z.of_nat (length st))) = NVPN - 1 - 2 * (Z.of_nat (length st) + 1)) by (unfold vpn, KSTACK, PGSIZE, NVPN; change TRAMPOLINE with (2 ^ 38 - 4096); zlia).
    + rewrite length_app. simpl. lia.
    + exists nd, fl. split_and!; [done|done| |].
      * rewrite <- Hp, <- !app_assoc. done.
      * eapply same_off_trans; [exact Hoff|]. eapply same_off_mono; [|exact Hoff2]. intros q ->%list_elem_of_singleton. rewrite <- Hp, elem_of_app. right. by left.
    + rewrite Hk. unfold KSTACK, PGSIZE, NVPN. change TRAMPOLINE with (2 ^ 38 - 4096). lia.
    + done.
    + done.
    + rewrite Hk. unfold NVPN. lia.
    + rewrite Hk. lia.
    + lia.
    + lia.
    + apply Hx.
    + done.
    + intros y Hy. assert (y = vpn (KSTACK (Z.of_nat (length st)))) as -> by lia. apply stack_free. lia.
    + intros y Hy. rewrite Hk in Hy. unfold NVPN in Hy. replace (y / 2 ^ 18) with 255 by zlia. replace (y / 512 mod 512) with 511 by zlia. split; [by do 3 right; left|by do 5 right; left].
    + intros [] s3 H3. exists (st ++ [x]). split; [rewrite length_app; simpl; lia|]. eapply kmade_ext; [|exact H3]. intros n Hn. apply stack_map; [lia|done].
  - intros [] s' (st & Hst & Hk). exists st. split; [change (0 + Z.of_nat (Z.to_nat NPROC)) with 64 in Hst; lia|done].
Qed.

(** kvmmake makes that table, from 167 free pages or more, of which it takes at most 166: the
    root, three tables below it, ninety-eight of leaves, and sixty-four stacks. *)
Lemma kvmmake_spec s fl : free_pages s fl → (167 ≤ length fl)%nat →
  wp kvmmake (λ r s', ∃ st nd fl', length st = 64%nat ∧ as_rep s' r nd fl' (kernel_map st) ∧ st ++ fl' ++ pages nd ≡ₚ fl ∧
    (length fl ≤ length fl' + 166)%nat ∧ same_off fl (kmem s) (kmem s')) s.
Proof.
  intros Hf Hl. destruct (wp_inv _ _ _ (kalloc_spec s fl Hf)) as (r & s1 & Ek & Hk). destruct (wp_inv _ _ _ (uvmcreate_spec s fl Hf)) as (r2 & s2 & Eu & Hu).
  destruct fl as [|p fl]; [simpl in Hl; lia|]. destruct Hk as (-> & _), Hu as (-> & Hp & (Hrep & _) & Hoff). pose proof (page_bounds _ Hp).
  unfold uvmcreate, mbind, M_bind in Eu. rewrite Ek in Eu. rewrite (proj2 (Z.eqb_neq p 0)) in Eu by lia. injection Eu as <-.
  unfold kvmmake. wp_bind. eapply wp_eq; [exact Ek|]. wp_bind. apply wp_modify.
  assert (Hz : kmade s (p :: fl) [] p (λ _, 0) (set_mem (CString.memset p 0 PGSIZE) s1)).
  { exists {[ [] := p ]}, fl. split_and!; [exact Hrep| | |exact Hoff].
    - intros k [q [<- _]%lookup_singleton_Some]. by left.
    - unfold pages. rewrite map_to_list_singleton. simpl. by rewrite <- Permutation_cons_append. }
  apply (fixed_made _ _ s p fl); [simpl in Hl; lia|exact Hz|]. intros s3 H3. wp_bind. eapply wp_mono; [apply (stacks_made s (p :: fl)); [done|]|].
  { eapply kmade_ext; [|exact H3]. apply fixed_map. }
  intros [] s4 (st & Hst & nd & fl' & Hrep4 & Hw & Hp4 & Hoff4). apply wp_ret. exists st, nd, fl'. split_and!; try done.
  apply Permutation_length in Hp4. rewrite !length_app, length_pages in Hp4. pose proof (within_size _ Hw). lia.
Qed.

End kernel.
End VmKernel.
