(* ===== verification/VmDemo.v ===== *)
(** * A small machine with a process's page table

    Ten pages of RAM: a table (pages 0, 1, 2, 6, 7) that maps one user page
    (page 3) at address 0 and the trampoline and trapframe (page 8) at the top,
    two free pages (4 and 5), and an empty table (page 9).  The machine is
    written out in memory and shown to satisfy the invariants of VmSpec.v and
    VmUser.v; the theorems about address spaces are applied to it. *)

From S2P Require Import Prelude Mem CString Spinlock Riscv Kalloc Vm VmSpec VmUser VmProc VmCopy.
Import Riscv Kalloc Vm VmSpec VmUser VmProc VmCopy.

Module VmDemo.

Definition image : KernelImage.
Proof.
  refine (@Build_KernelImage (PHYSTOP - 10 * PGSIZE) (KERNBASE + 8192) (KERNBASE + 4096)
    _ _ _ _ _ _ _ _); vm_compute; first [done|reflexivity].
Defined.
#[local] Existing Instance image.

(** Page [i] of the ten. *)
Definition P (i : Z) : Z := PHYSTOP - 10 * PGSIZE + i * PGSIZE.

Definition uflags : Z := Z.lor (Z.lor PTE_R PTE_W) PTE_U.

(** The words of memory that are not zero. *)
Definition words : list (Z * Z) :=
  [(P 0, Z.lor (PA2PTE (P 1)) PTE_V); (P 1, Z.lor (PA2PTE (P 2)) PTE_V);
   (P 2, leaf (P 3) uflags); (P 4, P 5);
   (P 0 + 8 * 255, Z.lor (PA2PTE (P 6)) PTE_V); (P 6 + 8 * 511, Z.lor (PA2PTE (P 7)) PTE_V);
   (P 7 + 8 * 511, leaf trampoline (Z.lor PTE_R PTE_X));
   (P 7 + 8 * 510, leaf (P 8) (Z.lor PTE_R PTE_W))].

Fixpoint word (l : list (Z * Z)) (a : Z) : Z :=
  match l with
  | [] => 0
  | (b, v) :: l' => if b =? a then v else word l' a
  end.

Definition m : mem := foldr (λ '(a, v) m, st64 a v m) ∅ words.

Definition st : kst := mk_kst m (P 4) false.

Definition nd : gmap (list Z) Z :=
  {[ [] := P 0; [0] := P 1; [0; 0] := P 2; [255] := P 6; [255; 511] := P 7 ]}.

Lemma ld64_foldr l a :
  Forall (λ '(b, v), b mod 8 = 0 ∧ 0 ≤ v < 2 ^ 64) l → a mod 8 = 0 →
  ld64 (foldr (λ '(a, v) m, st64 a v m) ∅ l) a = word l a.
Proof.
  intros Hl Ha. induction l as [|[b v] l IH]; simpl.
  { by apply ld64_zero. }
  apply Forall_cons in Hl as [[Hb Hv] Hl]. case_if.
  - subst. rewrite ld64_st64_eq. by apply u64_small.
  - rewrite ld64_st64_ne by zlia. by apply IH.
Qed.

Lemma ld64_m a : a mod 8 = 0 → ld64 m a = word words a.
Proof.
  apply ld64_foldr. unfold words. repeat apply Forall_cons_2; try apply Forall_nil_2;
    (split; [reflexivity|vm_compute; split; [discriminate|reflexivity]]).
Qed.

(** The entry [i] of page [j], computed. *)
Lemma entry_m j i : ld64 m (pte_addr (P j) i) = word words (P j + 8 * i).
Proof. unfold pte_addr. apply ld64_m. unfold P, PHYSTOP, KERNBASE, PGSIZE. zlia. Qed.

Ltac unpack_words :=
  unfold words, word, P, PHYSTOP, KERNBASE, PGSIZE in *;
  repeat (case_if; [first [lia|reflexivity]|]); try reflexivity.

Lemma page_P j : 0 ≤ j < 10 → page_ok (P j).
Proof.
  intros Hj. unfold page_ok, P, kend, image, PHYSTOP, KERNBASE, PGSIZE. split_and!; zlia.
Qed.

Lemma nd_cases k p : nd !! k = Some p →
  (k, p) ∈ [([], P 0); ([0], P 1); ([0; 0], P 2); ([255], P 6); ([255; 511], P 7)].
Proof.
  intros Hk. unfold nd in Hk.
  repeat (apply lookup_insert_Some in Hk as [[<- <-]|[_ Hk]]; [set_solver|]).
  apply lookup_singleton_Some in Hk as [<- <-]. set_solver.
Qed.

Lemma nd_pages : pages nd ≡ₚ [P 0; P 1; P 2; P 6; P 7].
Proof. apply (bool_decide_unpack _). vm_compute. exact I. Qed.

(** Split on which of the five nodes a lookup found. *)
Ltac nd_split H :=
  apply nd_cases in H; rewrite !elem_of_cons, elem_of_nil in H;
  destruct H as [H|[H|[H|[H|[H|[]]]]]]; simplify_eq.

Lemma nd_child_None k i : (∀ p, (k ++ [i], p) ∉ [([], P 0); ([0], P 1); ([0; 0], P 2); ([255], P 6); ([255; 511], P 7)]) →
  nd !! (k ++ [i]) = None.
Proof.
  intros Hn. destruct (nd !! (k ++ [i])) as [p|] eqn:E; [|done]. apply nd_cases in E. by destruct (Hn p).
Qed.

(** An interior node with one child at [c]. *)
Lemma one_child k j c q :
  nd !! (k ++ [c]) = Some (P q) → ld64 m (pte_addr (P j) c) = Z.lor (PA2PTE (P q)) PTE_V →
  (∀ i, 0 ≤ i < 512 → i ≠ c → nd !! (k ++ [i]) = None ∧ word words (P j + 8 * i) = 0) →
  ∀ i, 0 ≤ i < 512 →
    match nd !! (k ++ [i]) with
    | Some q => ld64 m (pte_addr (P j) i) = Z.lor (PA2PTE q) PTE_V
    | None => has (ld64 m (pte_addr (P j) i)) PTE_V = false
    end.
Proof.
  intros Hc Hm Hn i Hi. destruct (decide (i = c)) as [->|Hne]; [by rewrite Hc|].
  destruct (Hn i Hi Hne) as [-> Hw]. by rewrite entry_m, Hw.
Qed.

Lemma nd_wf : pt_wf m nd (P 0).
Proof.
  split.
  - reflexivity.
  - intros k p Hk. nd_split Hk; by apply page_P.
  - intros k p Hk. nd_split Hk; simpl; lia.
  - intros i k p Hk. nd_split Hk; lia.
  - intros k k' p Hk Hk'. nd_split Hk; nd_split Hk'; done.
  - intros k i p Hk. nd_split Hk;
      match goal with
      | H : k ++ [i] = [] |- _ => by destruct k
      | H : k ++ [i] = [?x] |- _ => apply (app_inj_tail k [] i x) in H as [-> ->]
      | H : k ++ [i] = [?y; ?x] |- _ => apply (app_inj_tail k [y] i x) in H as [-> ->]
      end; (split; [eexists; reflexivity|lia]).
  - intros k p i Hk Hl Hi. nd_split Hk; try (simpl in Hl; lia).
    + destruct (decide (i = 0)) as [->|H0]; [reflexivity|].
      destruct (decide (i = 255)) as [->|H255]; [reflexivity|].
      rewrite nd_child_None, entry_m by (intros p Hp; set_solver). unpack_words.
    + revert i Hi. apply (one_child [0] 1 0 2); [reflexivity|reflexivity|]. intros i Hi Hne.
      split; [apply nd_child_None; intros p Hp; set_solver|]. unpack_words.
    + revert i Hi. apply (one_child [255] 6 511 7); [reflexivity|reflexivity|]. intros i Hi Hne.
      split; [apply nd_child_None; intros p Hp; set_solver|]. unpack_words.
Qed.

Lemma st_free : free_pages st [P 4; P 5].
Proof.
  split_and!; [done|vm_compute; done| |].
  - apply (bool_decide_unpack _). vm_compute. exact I.
  - repeat apply Forall_cons_2; try apply Forall_nil_2; by apply page_P.
Qed.

Definition us : list (Z * Z) := [(P 3, uflags)].

Lemma st_as : as_rep st (P 0) nd [P 4; P 5] (uas us (proc_hi (P 8))).
Proof.
  split; [split_and!; [apply st_free|apply nd_wf|]|].
  - rewrite nd_pages. apply (bool_decide_unpack _). vm_compute. exact I.
  - intros n Hn. simpl kmem. unfold uas, proc_hi.
    destruct (decide (n = 0)) as [->|H0]; [reflexivity|].
    rewrite lookup_ge_None_2 by (simpl; lia).
    destruct (decide (n = NVPN - 1)) as [->|H1]; [reflexivity|].
    destruct (decide (n = NVPN - 2)) as [->|H2]; [reflexivity|].
    do 2 (case_if; [lia|]). unfold pte_at.
    destruct (nd !! leaf_key (4096 * n)) as [q|] eqn:Hq; [|done].
    destruct (vpn_keys n Hn) as (E2 & E1 & E0). unfold leaf_key in Hq.
    rewrite E2, E1 in Hq. rewrite E0. unfold NVPN in *. clear E2 E1 E0. nd_split Hq; rewrite entry_m.
    + assert (0 < n mod 512 < 512) as Hx by zlia. revert Hx. generalize (n mod 512). intros x Hx.
      unpack_words.
    + assert (0 ≤ n mod 512 < 510) as Hx by zlia. revert Hx. generalize (n mod 512). intros x Hx.
      unpack_words.
Qed.

Lemma st_user : user_rep st (P 0) nd [P 4; P 5] us (proc_hi (P 8)).
Proof.
  split_and!; [apply st_as| | |by vm_compute|].
  - rewrite nd_pages. apply (bool_decide_unpack _). vm_compute. exact I.
  - apply Forall_singleton. split_and!; [by apply page_P|done|done|done].
  - intros n Hn. unfold proc_hi, TRAPVPN in *. by do 2 (case_if; [lia|]).
Qed.

Definition nd9 : gmap (list Z) Z := {[ [] := P 9 ]}.

Lemma st_empty : user_rep st (P 9) nd9 [P 4; P 5] [] (λ _, 0).
Proof.
  apply empty_table; [apply st_free|by apply page_P|apply (bool_decide_unpack _); vm_compute; exact I|].
  intros i Hi. simpl kmem. rewrite entry_m. unpack_words.
Qed.

Lemma hi_not_user n : has (proc_hi (P 8) n) PTE_U = false.
Proof. unfold proc_hi. by do 2 (case_if; [reflexivity|]). Qed.

Lemma st_kernel_dst len : len ≤ 4096 → kernel_dst nd [P 4; P 5] (uas us (proc_hi (P 8))) KERNBASE len.
Proof.
  intros Hl. apply kernel_image_buf.
  - eapply user_rep_sep; [apply st_user|apply hi_not_user].
  - eapply vm_pages_ok. apply st_user.
  - unfold kend, image, PHYSTOP, KERNBASE, PGSIZE. lia.
Qed.

(** ** Witnesses *)

Lemma growproc_correct_witness :
  wp (growproc (P 0) 4096 5000) (λ '(r, sz') s', ∃ nd' fl' us',
    user_rep s' (P 0) nd' fl' us' (proc_hi (P 8)) ∧ length us' = npg sz' ∧
    us'.*1 ++ fl' ++ pages nd' ≡ₚ us.*1 ++ [P 4; P 5] ++ pages nd ∧
    (∀ i pf, us !! i = Some pf → us' !! i = Some pf → page_bytes s' pf.1 = page_bytes st pf.1) ∧
    (r = 0 ∧ sz' = 4096 + 5000 ∧
       (us' = take (npg (4096 + 5000)) us ∨
        ∃ new, us' = us ++ new ∧ Forall (fresh s' PTE_W) new) ∨
     r = -1 ∧ 0 < 5000 ∧ sz' = 4096 ∧ us' = us)) st.
Proof.
  apply (growproc_correct st (P 0) nd [P 4; P 5] us (proc_hi (P 8)) 4096 5000);
    [apply st_user|reflexivity|vm_compute; split; discriminate|vm_compute; split; discriminate].
Defined.

Lemma proc_freepagetable_no_leak_witness :
  wp (proc_freepagetable (P 0) 4096) (λ _ s', ∃ fl',
    free_pages s' fl' ∧ fl' ≡ₚ us.*1 ++ [P 4; P 5] ++ pages nd ∧
    same_off (us.*1 ++ [P 4; P 5] ++ pages nd) (kmem st) (kmem s')) st.
Proof.
  apply (proc_freepagetable_no_leak st (P 0) nd [P 4; P 5] us (P 8) 4096);
    [apply st_user|reflexivity|vm_compute; split; discriminate|by apply page_P].
Defined.

Lemma proc_pagetable_all_or_nothing_witness :
  wp (proc_pagetable (P 8)) (λ r s',
    ((r = 0 ∧ (2 ≤ 5)%nat ∧ ∃ fl', free_pages s' fl' ∧ fl' ≡ₚ [P 4; P 5]) ∨
     (r ≠ 0 ∧ ∃ nd fl', user_rep s' r nd fl' [] (proc_hi (P 8)) ∧ fl' ++ pages nd ≡ₚ [P 4; P 5] ∧ (size nd ≤ 5)%nat)) ∧
    same_off [P 4; P 5] (kmem st) (kmem s')) st.
Proof. apply (proc_pagetable_all_or_nothing st [P 4; P 5] (P 8)); [apply st_free|by apply page_P]. Defined.

Lemma uvmcopy_correct_witness :
  wp (uvmcopy (P 0) (P 9) 4096) (λ r s', ∃ ndn' fl' usn,
    user_rep s' (P 9) ndn' fl' usn (λ _, 0) ∧ as_rep s' (P 0) nd fl' (uas us (proc_hi (P 8))) ∧
    usn.*1 ++ fl' ++ pages ndn' ≡ₚ [P 4; P 5] ++ pages nd9 ∧
    (∀ p g i, us !! i = Some (p, g) → page_bytes s' p = page_bytes st p) ∧
    (r = 0 ∧ length usn = length us ∧ copied st s' us usn ∨ r = -1 ∧ usn = [])) st.
Proof.
  apply (uvmcopy_correct st (P 0) (P 9) nd nd9 [P 4; P 5] us (proc_hi (P 8)) (λ _, 0) 4096);
    [apply st_user|apply st_empty|reflexivity|vm_compute; split; discriminate|].
  intros p Hp. rewrite nd_pages in Hp. revert p Hp.
  apply (proj1 (Forall_forall _ _)). apply (bool_decide_unpack _). vm_compute. exact I.
Defined.

Lemma copyout_correct_witness :
  wp (copyout (P 0) 100 KERNBASE 10)
    (copyout_post st (P 0) nd [P 4; P 5] (uas us (proc_hi (P 8))) 100 KERNBASE 10) st.
Proof.
  apply (copyout_correct st (P 0) nd [P 4; P 5] us (proc_hi (P 8)) 100 KERNBASE 10);
    [apply st_user|apply hi_not_user|lia|lia|by apply st_kernel_dst].
Defined.

Lemma copyin_correct_witness :
  wp (copyin (P 0) KERNBASE 4090 10)
    (copyin_post st (P 0) nd [P 4; P 5] (uas us (proc_hi (P 8))) KERNBASE 4090 10) st.
Proof.
  apply (copyin_correct st (P 0) nd [P 4; P 5] us (proc_hi (P 8)) KERNBASE 4090 10);
    [apply st_user|apply hi_not_user|lia|lia|by apply st_kernel_dst].
Defined.

Lemma copyinstr_correct_witness :
  wp (copyinstr (P 0) KERNBASE 4090 128)
    (copyinstr_post st (P 0) nd [P 4; P 5] (uas us (proc_hi (P 8))) KERNBASE 4090 128) st.
Proof.
  apply (copyinstr_correct st (P 0) nd [P 4; P 5] us (proc_hi (P 8)) KERNBASE 4090 128);
    [apply st_user|apply hi_not_user|lia|lia|by apply st_kernel_dst].
Defined.

End VmDemo.
