(* ===== verification/Sleeplock.v ===== *)
(** * kernel/sleeplock.c: long-term locks

    A sleep lock as the process that uses it sees it.  [acquiresleep] on a lock
    that is taken sleeps; the process's run stops there ([Block]) until the
    holder's [releasesleep] wakes it up (Proc.v models sleep and wakeup
    themselves). *)

From S2P Require Import Prelude.

Module Sleeplock.

Record sleeplock := mk_sleeplock { locked : Z; pid : Z }.

Definition initsleeplock (lk : sleeplock) : sleeplock := mk_sleeplock 0 0.

(** [me] is [myproc()->pid]. *)
Definition acquiresleep (me : Z) (lk : sleeplock) : outcome sleeplock :=
  if negb (locked lk =? 0) then Block else Ret (mk_sleeplock 1 me).

Definition releasesleep (lk : sleeplock) : sleeplock := mk_sleeplock 0 0.

Definition holdingsleep (me : Z) (lk : sleeplock) : bool :=
  negb (locked lk =? 0) && (pid lk =? me).

Lemma holding_acquired me lk lk' : acquiresleep me lk = Ret lk' → holdingsleep me lk' = true.
Proof. unfold acquiresleep. case_if; [done|]. intros [= <-]. unfold holdingsleep. simpl. apply Z.eqb_refl. Qed.

End Sleeplock.
