(* ===== verification/Bio.v ===== *)
(** * kernel/bio.c: the buffer cache

    The buffers with their reference counts, sleep locks and data; the LRU list
    as the prev/next pointers the code manipulates (over the pointer heap of
    ListH.v); the disk as a map from block numbers to contents, with the history
    of writes that reached it.  The state is seen by one process, [curpid].

    [BlockCache] is the contract of the cache towards its clients: a write-back
    cache of a disk whose view [bview] has the current contents, the disk's
    contents, the blocks locked and the blocks pinned.  [bio_cache] shows that
    the code of bio.c keeps it. *)

From S2P Require Import Prelude Bytes Spinlock Riscv ListH Sleeplock.
Import Riscv Bytes Lock.

Module Bio.

Definition BSIZE : Z := 1024.

(** [struct buf], without the links (in [links] below) and without [disk], which belongs
    to the driver and is the field [bdisk] of Virtio.v. *)
Record buf := mk_buf {
  valid : bool; dev : Z; blockno : Z; lock : Sleeplock.sleeplock; refcnt : Z; data : bytes }.

(** [bcache], the disk, and the running process.  Buffers are 0 .. NBUF-1;
    [HEAD] is [bcache.head].  [trace] is the sequence of disk writes so far. *)
Record bst := mk_bst {
  bufs : Z → buf; links : ListH.heap; disk : Z → bytes; trace : list (Z * bytes);
  bclock : bool; curpid : Z }.

Definition HEAD : Z := NBUF.

Definition set_bufs (f : (Z → buf) → Z → buf) (s : bst) : bst :=
  mk_bst (f (bufs s)) (links s) (disk s) (trace s) (bclock s) (curpid s).
Definition set_links (f : ListH.heap → ListH.heap) (s : bst) : bst :=
  mk_bst (bufs s) (f (links s)) (disk s) (trace s) (bclock s) (curpid s).
Definition set_disk (b : Z) (d : bytes) (s : bst) : bst :=
  mk_bst (bufs s) (links s) (<[b := d]> (disk s)) (trace s ++ [(b, d)]) (bclock s) (curpid s).

Definition upd_buf (i : Z) (f : buf → buf) (s : bst) : bst :=
  set_bufs (λ bs, <[i := f (bs i)]> bs) s.

Definition set_valid (v : bool) (b : buf) : buf :=
  mk_buf v (dev b) (blockno b) (lock b) (refcnt b) (data b).
Definition set_lock (l : Sleeplock.sleeplock) (b : buf) : buf :=
  mk_buf (valid b) (dev b) (blockno b) l (refcnt b) (data b).
Definition set_refcnt (r : Z) (b : buf) : buf :=
  mk_buf (valid b) (dev b) (blockno b) (lock b) r (data b).
Definition set_data (d : bytes) (b : buf) : buf :=
  mk_buf (valid b) (dev b) (blockno b) (lock b) (refcnt b) d.

#[export] Instance bst_locked : Locked bst := {|
  lk_held := bclock;
  lk_set b s := mk_bst (bufs s) (links s) (disk s) (trace s) b (curpid s);
  lk_held_set b s := eq_refl |}.

(** One round of [binit]'s loop. *)
Definition binit_buf (b : Z) : M bst unit :=
  modify (λ s, set_links (ListH.set_next b (ListH.nx (links s) HEAD)) s);;
  modify (set_links (ListH.set_prev b HEAD));;
  modify (upd_buf b (λ x, set_lock (Sleeplock.initsleeplock (lock x)) x));;
  modify (λ s, set_links (ListH.set_prev (ListH.nx (links s) HEAD) b) s);;
  modify (set_links (ListH.set_next HEAD b)).

Definition binit : M bst unit :=
  modify (lk_set false);;
  modify (set_links (ListH.set_prev HEAD HEAD));;
  modify (set_links (ListH.set_next HEAD HEAD));;
  for_range 0 (Z.to_nat NBUF) binit_buf.

(** [bget]'s two scans, from [b] on; fuel for one round of the list. *)
Fixpoint find_cached (fuel : nat) (b d blk : Z) : M bst (option Z) :=
  match fuel with
  | O => block
  | S fuel' =>
      if b =? HEAD then mret None
      else
        x ← gets (λ s, bufs s b);
        if (dev x =? d) && (blockno x =? blk) then mret (Some b)
        else nb ← gets (λ s, ListH.nx (links s) b); find_cached fuel' nb d blk
  end.

Fixpoint find_unused (fuel : nat) (b : Z) : M bst (option Z) :=
  match fuel with
  | O => block
  | S fuel' =>
      if b =? HEAD then mret None
      else
        x ← gets (λ s, bufs s b);
        if refcnt x =? 0 then mret (Some b)
        else pb ← gets (λ s, ListH.pv (links s) b); find_unused fuel' pb
  end.

#[global] Arguments find_cached : simpl never.
#[global] Arguments find_unused : simpl never.

Definition acquiresleep (b : Z) : M bst unit := λ s,
  match Sleeplock.acquiresleep (curpid s) (lock (bufs s b)) with
  | Ret l => Ret (tt, upd_buf b (set_lock l) s)
  | Panic msg => Panic msg
  | Block => Block
  end.

Definition holdingsleep (b : Z) : M bst bool :=
  gets (λ s, Sleeplock.holdingsleep (curpid s) (lock (bufs s b))).

Definition bget (d blk : Z) : M bst Z :=
  acquire;;
  first ← gets (λ s, ListH.nx (links s) HEAD);
  r ← find_cached (S (Z.to_nat NBUF)) first d blk;
  match r with
  | Some b =>
      modify (upd_buf b (λ x, set_refcnt (u32 (refcnt x + 1)) x));;
      release;;
      acquiresleep b;;
      mret b
  | None =>
      last ← gets (λ s, ListH.pv (links s) HEAD);
      r ← find_unused (S (Z.to_nat NBUF)) last;
      match r with
      | Some b =>
          modify (upd_buf b (λ x, mk_buf false d blk (lock x) 1 (data x)));;
          release;;
          acquiresleep b;;
          mret b
      | None => panic "bget: no buffers"
      end
  end.

(** What virtio_disk_rw does to the buffer and the disk (Virtio.v). *)
Definition disk_rw (b : Z) (write : bool) : M bst unit :=
  x ← gets (λ s, bufs s b);
  if write then modify (set_disk (blockno x) (data x))
  else modify (λ s, upd_buf b (set_data (disk s (blockno x))) s).

Definition bread (d blk : Z) : M bst Z :=
  b ← bget d blk;
  x ← gets (λ s, bufs s b);
  when (negb (valid x)) (disk_rw b false;; modify (upd_buf b (set_valid true)));;
  mret b.

Definition bwrite (b : Z) : M bst unit :=
  h ← holdingsleep b;
  if negb h then panic "bwrite" else disk_rw b true.

Definition brelse (b : Z) : M bst unit :=
  h ← holdingsleep b;
  if negb h then panic "brelse"
  else
    modify (upd_buf b (λ x, set_lock (Sleeplock.releasesleep (lock x)) x));;
    acquire;;
    modify (upd_buf b (λ x, set_refcnt (u32 (refcnt x - 1)) x));;
    r ← gets (λ s, refcnt (bufs s b));
    when (r =? 0)
      (modify (λ s, set_links (ListH.set_prev (ListH.nx (links s) b) (ListH.pv (links s) b)) s);;
       modify (λ s, set_links (ListH.set_next (ListH.pv (links s) b) (ListH.nx (links s) b)) s);;
       modify (λ s, set_links (ListH.set_next b (ListH.nx (links s) HEAD)) s);;
       modify (set_links (ListH.set_prev b HEAD));;
       modify (λ s, set_links (ListH.set_prev (ListH.nx (links s) HEAD) b) s);;
       modify (set_links (ListH.set_next HEAD b)));;
    release.

Definition bpin (b : Z) : M bst unit :=
  acquire;;
  modify (upd_buf b (λ x, set_refcnt (u32 (refcnt x + 1)) x));;
  release.

Definition bunpin (b : Z) : M bst unit :=
  acquire;;
  modify (upd_buf b (λ x, set_refcnt (u32 (refcnt x - 1)) x));;
  release.

(** ** The contract *)

(** What a client sees: the disk, the current contents (of a cached block, the
    buffer's), the blocks it has locked with their buffers, the pinned blocks,
    and the disk writes so far. *)
Record bview := mk_view {
  v_disk : Z → bytes; v_cur : Z → bytes; v_held : gmap Z Z; v_pin : gset Z;
  v_trace : list (Z * bytes) }.

Definition v_hold (b i : Z) (v : bview) : bview :=
  mk_view (v_disk v) (v_cur v) (<[b := i]> (v_held v)) (v_pin v) (v_trace v).
Definition v_release (b : Z) (v : bview) : bview :=
  mk_view (v_disk v) (v_cur v) (delete b (v_held v)) (v_pin v) (v_trace v).
Definition v_write (b : Z) (v : bview) : bview :=
  mk_view (<[b := v_cur v b]> (v_disk v)) (v_cur v) (v_held v) (v_pin v)
    (v_trace v ++ [(b, v_cur v b)]).
Definition v_set (b : Z) (d : bytes) (v : bview) : bview :=
  mk_view (v_disk v) (<[b := d]> (v_cur v)) (v_held v) (v_pin v) (v_trace v).
Definition v_pinned (b : Z) (v : bview) : bview :=
  mk_view (v_disk v) (v_cur v) (v_held v) ({[b]} ∪ v_pin v) (v_trace v).
Definition v_unpinned (b : Z) (v : bview) : bview :=
  mk_view (v_disk v) (v_cur v) (v_held v) (v_pin v ∖ {[b]}) (v_trace v).

(** The blocks in use: they keep a buffer each. *)
Definition v_used (v : bview) : gset Z := dom (v_held v) ∪ v_pin v.

(** A block cache for one device.  Clients may keep at most [NBUF] blocks in use,
    and may let go of a block that differs from the disk only if it is pinned. *)
Class BlockCache (S : Type) := {
  bc_bread : Z → Z → M S Z;
  bc_bwrite : Z → M S unit;
  bc_brelse : Z → M S unit;
  bc_bpin : Z → M S unit;
  bc_bunpin : Z → M S unit;
  bc_data : S → Z → bytes;
  bc_blockno : S → Z → Z;
  bc_set : Z → bytes → S → S;
  bc_rep : Z → S → bview → Prop;
  bc_clean d s v b : bc_rep d s v → b ∉ v_used v → v_cur v b = v_disk v b;
  bc_lookup d s v b i : bc_rep d s v → v_held v !! b = Some i →
    bc_data s i = v_cur v b ∧ bc_blockno s i = b;
  bc_bread_ok d s v b : bc_rep d s v → v_held v !! b = None →
    Z.of_nat (size ({[b]} ∪ v_used v)) ≤ NBUF →
    wp (bc_bread d b) (λ i s', bc_rep d s' (v_hold b i v)) s;
  bc_set_ok d s v b i x : bc_rep d s v → v_held v !! b = Some i →
    bc_rep d (bc_set i x s) (v_set b x v);
  bc_bwrite_ok d s v b i : bc_rep d s v → v_held v !! b = Some i →
    wp (bc_bwrite i) (λ _ s', bc_rep d s' (v_write b v)) s;
  bc_brelse_ok d s v b i : bc_rep d s v → v_held v !! b = Some i →
    b ∈ v_pin v ∨ v_cur v b = v_disk v b →
    wp (bc_brelse i) (λ _ s', bc_rep d s' (v_release b v)) s;
  bc_bpin_ok d s v b i : bc_rep d s v → v_held v !! b = Some i → b ∉ v_pin v →
    wp (bc_bpin i) (λ _ s', bc_rep d s' (v_pinned b v)) s;
  bc_bunpin_ok d s v b i : bc_rep d s v → v_held v !! b = Some i → b ∈ v_pin v →
    wp (bc_bunpin i) (λ _ s', bc_rep d s' (v_unpinned b v)) s }.

(** ** The representation of the view *)

Definition cnt (v : bview) (b : Z) : Z :=
  (if bool_decide (b ∈ dom (v_held v)) then 1 else 0) + (if bool_decide (b ∈ v_pin v) then 1 else 0).

(** Buffer [i] in use for device [d], or never used for it. *)
Definition buf_rep (d : Z) (s : bst) (v : bview) (i : Z) : Prop :=
  let x := bufs s i in
  if dev x =? d then
    valid x = true ∧ data x = v_cur v (blockno x) ∧ refcnt x = cnt v (blockno x) ∧
    lock x = (if bool_decide (blockno x ∈ dom (v_held v))
              then Sleeplock.mk_sleeplock 1 (curpid s) else Sleeplock.mk_sleeplock 0 0)
  else refcnt x = 0 ∧ lock x = Sleeplock.mk_sleeplock 0 0.

Definition caches (d : Z) (s : bst) (i b : Z) : Prop :=
  0 ≤ i < NBUF ∧ dev (bufs s i) = d ∧ blockno (bufs s i) = b.

Record rep (d : Z) (s : bst) (v : bview) : Prop := {
  rep_list : ∃ l, ListH.is_list (links s) HEAD l ∧ l ≡ₚ seqZ 0 NBUF;
  rep_lock : bclock s = false;
  rep_disk : ∀ b, disk s b = v_disk v b;
  rep_trace : trace s = v_trace v;
  rep_buf : ∀ i, 0 ≤ i < NBUF → buf_rep d s v i;
  rep_uniq : ∀ i j b, caches d s i b → caches d s j b → i = j;
  rep_held : ∀ b i, v_held v !! b = Some i → caches d s i b;
  rep_pin : ∀ b, b ∈ v_pin v → ∃ i, caches d s i b;
  rep_clean : ∀ b, b ∉ v_used v → v_cur v b = v_disk v b }.

(** ** Lemmas: scanning the list *)

(** [find_cached] walks the list forward: it finds the first buffer for the
    block, or none is there. *)
Lemma find_cached_spec d blk s l : ∀ fuel b,
  NoDup (HEAD :: l) → ListH.chain (links s) (l ++ [HEAD]) → head (l ++ [HEAD]) = Some b →
  (length l < fuel)%nat →
  find_cached fuel b d blk s =
    Ret (list_find (λ i, dev (bufs s i) = d ∧ blockno (bufs s i) = blk) l ≫= λ p, Some (p.2), s).
Proof.
  induction l as [|x l IH]; intros [|fuel] b Hnd Hc Hb Hf; simpl in Hb, Hf; try lia; simplify_eq.
  { unfold find_cached. by rewrite Z.eqb_refl. }
  apply NoDup_cons in Hnd as [Hh Hnd]. apply NoDup_cons in Hnd as [_ Hnd].
  unfold find_cached; fold find_cached. cbn [list_find]. case_if; [subst; set_solver|].
  unfold mbind, M_bind, gets. simpl.
  destruct (decide (dev (bufs s b) = d ∧ blockno (bufs s b) = blk)) as [[-> ->]|Hne].
  - rewrite !Z.eqb_refl. done.
  - assert ((dev (bufs s b) =? d) && (blockno (bufs s b) =? blk) = false) as ->.
    { apply andb_false_iff. destruct (decide (dev (bufs s b) = d)); [right|left]; apply Z.eqb_neq; tauto. }
    rewrite <- app_comm_cons in Hc. apply ListH.chain_cons in Hc as [Hc Hx].
    destruct (head (l ++ [HEAD])) as [y|] eqn:E; [|by destruct l].
    destruct (Hx y eq_refl) as [-> _].
    rewrite (IH fuel y); [|constructor; [set_solver|done]|done|done|lia].
    by destruct (list_find _ l) as [[]|].
Qed.

(** [find_unused] walks it backward: the least recently released buffer that
    nobody refers to. *)
Lemma find_unused_spec s l : ∀ fuel b,
  NoDup (HEAD :: l) → ListH.chain (links s) (HEAD :: l) → last (HEAD :: l) = Some b →
  (length l < fuel)%nat →
  find_unused fuel b s =
    Ret (list_find (λ i, refcnt (bufs s i) = 0) (reverse l) ≫= λ p, Some (p.2), s).
Proof.
  induction l as [|x l IH] using rev_ind; intros [|fuel] b Hnd Hc Hb Hf;
    rewrite ?length_app in Hf; simpl in Hf; try lia.
  { simpl in Hb. simplify_eq. unfold find_unused. by rewrite Z.eqb_refl. }
  rewrite app_comm_cons, last_snoc in Hb. simplify_eq. rewrite reverse_snoc.
  rewrite app_comm_cons in Hnd. apply NoDup_app in Hnd as (Hnd & Hd & _).
  unfold find_unused; fold find_unused. cbn [list_find]. case_if; [subst; exfalso; apply (Hd HEAD); constructor|].
  unfold mbind, M_bind, gets. simpl.
  destruct (decide (refcnt (bufs s b) = 0)) as [E|E]; [by rewrite E|]. case_if; [done|].
  rewrite app_comm_cons in Hc. apply ListH.chain_app in Hc as (Hc & _ & Hx).
  destruct (last (HEAD :: l)) as [y|] eqn:El; [|by apply last_None in El].
  destruct (Hx y b eq_refl eq_refl) as [_ ->].
  rewrite (IH fuel y); [|done|done|done|lia]. by destruct (list_find _ (reverse l)) as [[]|].
Qed.

(** Moving a buffer to the front of the list, as [brelse] writes it. *)
Definition move_front (b : Z) (h : ListH.heap) : ListH.heap :=
  let h := ListH.set_prev (ListH.nx h b) (ListH.pv h b) h in
  let h := ListH.set_next (ListH.pv h b) (ListH.nx h b) h in
  let h := ListH.set_next b (ListH.nx h HEAD) h in
  let h := ListH.set_prev b HEAD h in
  let h := ListH.set_prev (ListH.nx h HEAD) b h in
  ListH.set_next HEAD b h.

(** Linking a node in at the front, as [binit] and [brelse] write it. *)
Definition link_front (b : Z) (h : ListH.heap) : ListH.heap :=
  let h := ListH.set_next b (ListH.nx h HEAD) h in
  let h := ListH.set_prev b HEAD h in
  let h := ListH.set_prev (ListH.nx h HEAD) b h in
  ListH.set_next HEAD b h.

Lemma link_front_ok b h l :
  ListH.is_list h HEAD l → b ∉ HEAD :: l → ListH.is_list (link_front b h) HEAD (b :: l).
Proof.
  intros Hl Hb. assert (link_front b h = ListH.list_add b HEAD h) as ->; [|by apply ListH.list_add_ok].
  apply not_elem_of_cons in Hb as [Hne Hb]. pose proof (ListH.is_list_first _ _ _ Hl) as Hf.
  assert (ListH.nx h HEAD ≠ b) as Hn.
  { intros E. rewrite E in Hf. apply ListH.head_elem in Hf. set_solver. }
  unfold link_front, ListH.list_add. simpl.
  rewrite !ListH.nx_set_prev, !ListH.nx_set_next. case_if; [congruence|].
  unfold ListH.set_next, ListH.set_prev. simpl. f_equal. by rewrite insert_insert_ne.
Qed.

Lemma move_front_ok b h l :
  ListH.is_list h HEAD l → b ∈ l → ListH.is_list (move_front b h) HEAD (b :: without b l).
Proof.
  intros Hl Hb. pose proof Hl as [Hnd _].
  assert (b ≠ HEAD) as Hne by (intros ->; by apply NoDup_cons in Hnd as [? _]).
  destruct (ListH.list_del_without _ _ _ b Hl Hb) as [Hdel Hout].
  assert (ListH.nx h b ≠ b) as Hnb.
  { apply list_elem_of_split in Hb as (l1 & l2 & ->). destruct Hl as [Hn Hc].
    rewrite <- app_assoc, app_comm_cons in Hc. apply ListH.chain_app in Hc as (_ & Hc & _).
    rewrite <- app_comm_cons in Hc. apply ListH.chain_cons in Hc as [_ Hc].
    destruct (l2 ++ [HEAD]) as [|y r] eqn:E; [by destruct l2|].
    destruct (Hc y eq_refl) as [-> _]. intros ->.
    apply NoDup_cons in Hn as [Hh Hn]. apply NoDup_app in Hn as (_ & _ & Hn).
    apply NoDup_cons in Hn as [Hb2 _]. destruct l2; simplify_eq/=; set_solver. }
  assert (move_front b h = link_front b (ListH.list_del b h)) as ->.
  { unfold move_front, link_front, ListH.list_del. simpl.
    rewrite ListH.pv_set_prev, ListH.nx_set_prev. by case_if. }
  by apply link_front_ok.
Qed.

(** ** Lemmas: the representation *)

Lemma cnt_ext v v' b :
  v_held v' !! b = v_held v !! b → (b ∈ v_pin v' ↔ b ∈ v_pin v) → cnt v' b = cnt v b.
Proof.
  intros Hh Hp. unfold cnt.
  rewrite (bool_decide_ext (b ∈ dom (v_held v')) (b ∈ dom (v_held v))) by (by rewrite !elem_of_dom, Hh).
  by rewrite (bool_decide_ext _ _ Hp).
Qed.

Lemma cnt_zero v b : cnt v b = 0 ↔ b ∉ v_used v.
Proof.
  unfold cnt, v_used. rewrite elem_of_union.
  case_bool_decide; case_bool_decide; split; intros; try tauto; try lia.
Qed.

(** All operations but the scan change one buffer, of one block [b]: the
    buffer that holds [b] already, or an unused one when no buffer does. *)
Lemma rep_update d s s' v v' i b x :
  rep d s v → 0 ≤ i < NBUF →
  (∀ j, bufs s' j = <[i := x]> (bufs s) j) → curpid s' = curpid s → bclock s' = false →
  (∃ l, ListH.is_list (links s') HEAD l ∧ l ≡ₚ seqZ 0 NBUF) →
  (∀ b', disk s' b' = v_disk v' b') → trace s' = v_trace v' →
  x = mk_buf true d b (if bool_decide (b ∈ dom (v_held v')) then Sleeplock.mk_sleeplock 1 (curpid s)
                       else Sleeplock.mk_sleeplock 0 0) (cnt v' b) (v_cur v' b) →
  (∀ b', b' ≠ b → v_cur v' b' = v_cur v b' ∧ v_disk v' b' = v_disk v b' ∧
     v_held v' !! b' = v_held v !! b' ∧ (b' ∈ v_pin v' ↔ b' ∈ v_pin v)) →
  caches d s i b ∨ refcnt (bufs s i) = 0 ∧ (∀ j, ¬ caches d s j b) →
  (∀ j, v_held v' !! b = Some j → j = i) →
  (b ∉ v_used v' → v_cur v' b = v_disk v' b) →
  rep d s' v'.
Proof.
  intros Hrep Hi Hb Hpid Hlk Hl Hd Ht Hx Hother Hwas Hheld Hclean.
  assert (∀ j, j ≠ i → bufs s' j = bufs s j) as Hne by (intros; by rewrite Hb, fn_lookup_insert_ne).
  assert (bufs s' i = x) as Hxi by (by rewrite Hb, fn_lookup_insert).
  assert (∀ j b', j ≠ i → caches d s' j b' ↔ caches d s j b') as Hcj.
  { intros j b' Hj. unfold caches. by rewrite Hne. }
  assert (∀ b', caches d s' i b' ↔ b' = b) as Hci.
  { intros b'. unfold caches. rewrite Hxi, Hx. simpl. naive_solver. }
  assert (∀ j b', caches d s j b' → b' ≠ b → b' ∈ v_used v → j ≠ i) as Huse.
  { intros j b' Hc Hbb Hu ->. destruct Hwas as [Hw|[Hr _]].
    - destruct Hc as (_ & _ & E1), Hw as (_ & _ & E2). congruence.
    - pose proof (rep_buf _ _ _ Hrep i Hi) as Hbr. unfold buf_rep in Hbr.
      destruct Hc as (_ & E1 & E2). rewrite E1, Z.eqb_refl in Hbr. destruct Hbr as (_ & _ & Hc & _).
      rewrite Hr, E2 in Hc. symmetry in Hc. by apply cnt_zero in Hc. }
  assert (∀ j b', j ≠ i → caches d s j b' → b' ≠ b) as Hnb.
  { intros j b' Hj Hc ->. destruct Hwas as [Hw|[_ Hno]]; [|by apply (Hno j)].
    apply Hj. by eapply (rep_uniq _ _ _ Hrep). }
  split; [done|done|done|done|..].
  - intros j Hj. destruct (decide (j = i)) as [->|Hji].
    + unfold buf_rep. rewrite Hxi, Hx. simpl. rewrite Z.eqb_refl, Hpid. done.
    + pose proof (rep_buf _ _ _ Hrep j Hj) as Hbr. unfold buf_rep in *. rewrite Hne by done.
      destruct (dev (bufs s j) =? d) eqn:E; bsimpl; [|done].
      assert (blockno (bufs s j) ≠ b) as Hbj by (apply (Hnb j); done).
      destruct (Hother _ Hbj) as (Hc & _ & Hh & Hp). rewrite Hc, (cnt_ext v v'), Hpid by done.
      by rewrite (bool_decide_ext _ (blockno (bufs s j) ∈ dom (v_held v))) by (by rewrite !elem_of_dom, Hh).
  - intros j k b' Hj Hk. destruct (decide (j = i)) as [->|Hji], (decide (k = i)) as [->|Hki]; [done|..].
    + apply Hci in Hj as ->. apply Hcj in Hk; [|done]. by destruct (Hnb k b Hki Hk).
    + apply Hci in Hk as ->. apply Hcj in Hj; [|done]. by destruct (Hnb j b Hji Hj).
    + apply Hcj in Hj; [|done]. apply Hcj in Hk; [|done]. by eapply (rep_uniq _ _ _ Hrep).
  - intros b' j Hj. destruct (decide (b' = b)) as [->|Hbb].
    + rewrite (Hheld j Hj). by apply Hci.
    + destruct (Hother b' Hbb) as (_ & _ & Hh & _). rewrite Hh in Hj.
      pose proof (rep_held _ _ _ Hrep _ _ Hj) as Hc. apply Hcj; [|done].
      apply (Huse j b'); [done|done|]. apply elem_of_union. left. apply elem_of_dom. eauto.
  - intros b' Hp. destruct (decide (b' = b)) as [->|Hbb]; [exists i; by apply Hci|].
    destruct (Hother b' Hbb) as (_ & _ & _ & Hpp). apply Hpp in Hp as Hp'.
    destruct (rep_pin _ _ _ Hrep b' Hp') as (j & Hc). exists j. apply Hcj; [|done].
    apply (Huse j b'); [done|done|]. apply elem_of_union. by right.
  - intros b' Hn. destruct (decide (b' = b)) as [->|Hbb]; [by apply Hclean|].
    destruct (Hother b' Hbb) as (-> & -> & Hh & Hp). apply (rep_clean _ _ _ Hrep).
    unfold v_used in *. rewrite elem_of_union, elem_of_dom, Hh, Hp, <- elem_of_dom, <- elem_of_union in Hn. done.
Qed.

(** The buffer of a cached block, field by field. *)
Lemma rep_buffer d s v i b :
  rep d s v → caches d s i b →
  bufs s i = mk_buf true d b (if bool_decide (b ∈ dom (v_held v)) then Sleeplock.mk_sleeplock 1 (curpid s)
                              else Sleeplock.mk_sleeplock 0 0) (cnt v b) (v_cur v b).
Proof.
  intros Hrep (Hi & Hd & Hb). pose proof (rep_buf _ _ _ Hrep i Hi) as Hbr. unfold buf_rep in Hbr.
  rewrite Hd, Z.eqb_refl, Hb in Hbr. destruct Hbr as (Hv & Hda & Hr & Hl).
  destruct (bufs s i); simpl in *; by subst.
Qed.

Lemma held_dom v b i : v_held v !! b = Some i → bool_decide (b ∈ dom (v_held v)) = true.
Proof. intros Hh. apply bool_decide_eq_true. apply elem_of_dom. eauto. Qed.

Lemma rep_held_buffer d s v b i :
  rep d s v → v_held v !! b = Some i →
  caches d s i b ∧ bufs s i = mk_buf true d b (Sleeplock.mk_sleeplock 1 (curpid s)) (cnt v b) (v_cur v b).
Proof.
  intros Hrep Hh. pose proof (rep_held _ _ _ Hrep _ _ Hh) as Hc. split; [done|].
  by rewrite (rep_buffer _ _ _ _ _ Hrep Hc), (held_dom _ _ _ Hh).
Qed.

Lemma cnt_range v b : 0 ≤ cnt v b ≤ 2.
Proof. unfold cnt. case_bool_decide; case_bool_decide; lia. Qed.

(** Writes through a locked buffer. *)
Lemma set_rep d s v b i x :
  rep d s v → v_held v !! b = Some i → rep d (upd_buf i (set_data x) s) (v_set b x v).
Proof.
  intros Hrep Hh. destruct (rep_held_buffer _ _ _ _ _ Hrep Hh) as [Hc Hbuf].
  eapply (rep_update d s _ v _ i b (set_data x (bufs s i))); try done; try apply Hrep; try apply Hc.
  - rewrite Hbuf. simpl. rewrite (held_dom _ _ _ Hh), fn_lookup_insert. done.
  - intros b' Hne. simpl. by rewrite fn_lookup_insert_ne.
  - by left.
  - intros j Hj. simpl in Hj. congruence.
  - intros Hn. destruct Hn. apply elem_of_union. left. apply elem_of_dom. simpl. eauto.
Qed.

Lemma bwrite_rep d s v b i :
  rep d s v → v_held v !! b = Some i → wp (bwrite i) (λ _ s', rep d s' (v_write b v)) s.
Proof.
  intros Hrep Hh. destruct (rep_held_buffer _ _ _ _ _ Hrep Hh) as [Hc Hbuf].
  unfold bwrite, holdingsleep. wp_steps. rewrite Hbuf. unfold Sleeplock.holdingsleep. simpl.
  rewrite Z.eqb_refl. simpl. unfold disk_rw. wp_steps. rewrite Hbuf. simpl.
  eapply (rep_update d s _ v _ i b (bufs s i)); try done; try apply Hrep; try apply Hc.
  - intros j. simpl. destruct (decide (j = i)) as [->|]; [by rewrite fn_lookup_insert|by rewrite fn_lookup_insert_ne].
  - intros b'. simpl. destruct (decide (b' = b)) as [->|];
      [by rewrite !fn_lookup_insert|rewrite !fn_lookup_insert_ne by done; apply Hrep].
  - simpl. by rewrite (rep_trace _ _ _ Hrep).
  - rewrite Hbuf. simpl. by rewrite (held_dom _ _ _ Hh).
  - intros b' Hne. simpl. by rewrite fn_lookup_insert_ne.
  - by left.
  - intros j Hj. simpl in Hj. congruence.
  - intros _. simpl. by rewrite fn_lookup_insert.
Qed.

(** bpin and bunpin: the reference count follows the pin. *)
Lemma refcnt_rep d s v v' b i r :
  rep d s v → v_held v !! b = Some i → v_held v' = v_held v → v_cur v' = v_cur v → v_disk v' = v_disk v →
  v_trace v' = v_trace v → (∀ b', b' ≠ b → b' ∈ v_pin v' ↔ b' ∈ v_pin v) → r = cnt v' b →
  rep d (upd_buf i (set_refcnt r) s) v'.
Proof.
  intros Hrep Hh Eh Ec Ed Et Hp ->. destruct (rep_held_buffer _ _ _ _ _ Hrep Hh) as [Hc Hbuf].
  eapply (rep_update d s _ v _ i b (set_refcnt (cnt v' b) (bufs s i))); try done; try apply Hrep; try apply Hc.
  - intros b'. simpl. rewrite Ed. apply Hrep.
  - simpl. rewrite Et. apply Hrep.
  - rewrite Hbuf. unfold set_refcnt. simpl. by rewrite Eh, (held_dom _ _ _ Hh), Ec.
  - intros b' Hne. rewrite Ec, Ed, Eh. eauto.
  - by left.
  - intros j Hj. rewrite Eh in Hj. congruence.
  - intros Hn. destruct Hn. apply elem_of_union. left. apply elem_of_dom. rewrite Eh. eauto.
Qed.

Lemma bpin_rep d s v b i :
  rep d s v → v_held v !! b = Some i → b ∉ v_pin v → wp (bpin i) (λ _ s', rep d s' (v_pinned b v)) s.
Proof.
  intros Hrep Hh Hp. destruct (rep_held_buffer _ _ _ _ _ Hrep Hh) as [Hc Hbuf].
  unfold bpin. wp_steps. apply wp_acquire; [apply Hrep|]. wp_steps. apply wp_release; [done|].
  assert (rep d (upd_buf i (set_refcnt (cnt (v_pinned b v) b)) s) (v_pinned b v)) as Hr.
  { eapply refcnt_rep; try done. intros b' Hne. simpl. set_solver. }
  assert (u32 (refcnt (bufs s i) + 1) = cnt (v_pinned b v) b) as E.
  { rewrite Hbuf. simpl. pose proof (cnt_range v b). rewrite u32_small by lia. unfold cnt. simpl.
    rewrite (held_dom _ _ _ Hh), (bool_decide_eq_false_2 (b ∈ v_pin v)) by done.
    rewrite bool_decide_eq_true_2 by set_solver. done. }
  pose proof (rep_lock _ _ _ Hrep) as Hlk. destruct s; simpl in *; subst. by rewrite <- E in Hr.
Qed.

Lemma bunpin_rep d s v b i :
  rep d s v → v_held v !! b = Some i → b ∈ v_pin v → wp (bunpin i) (λ _ s', rep d s' (v_unpinned b v)) s.
Proof.
  intros Hrep Hh Hp. destruct (rep_held_buffer _ _ _ _ _ Hrep Hh) as [Hc Hbuf].
  unfold bunpin. wp_steps. apply wp_acquire; [apply Hrep|]. wp_steps. apply wp_release; [done|].
  assert (rep d (upd_buf i (set_refcnt (cnt (v_unpinned b v) b)) s) (v_unpinned b v)) as Hr.
  { eapply refcnt_rep; try done. intros b' Hne. simpl. set_solver. }
  assert (u32 (refcnt (bufs s i) - 1) = cnt (v_unpinned b v) b) as E.
  { rewrite Hbuf. simpl. unfold cnt. simpl.
    rewrite (held_dom _ _ _ Hh), (bool_decide_eq_true_2 (b ∈ v_pin v)) by done.
    rewrite bool_decide_eq_false_2 by set_solver. done. }
  pose proof (rep_lock _ _ _ Hrep) as Hlk. destruct s; simpl in *; subst. by rewrite <- E in Hr.
Qed.

Lemma brelse_rep d s v b i :
  rep d s v → v_held v !! b = Some i → b ∈ v_pin v ∨ v_cur v b = v_disk v b →
  wp (brelse i) (λ _ s', rep d s' (v_release b v)) s.
Proof.
  intros Hrep Hh Hdirty. destruct (rep_held_buffer _ _ _ _ _ Hrep Hh) as [Hc Hbuf].
  assert (cnt (v_release b v) b = cnt v b - 1) as Hcnt.
  { unfold cnt. simpl. rewrite (held_dom _ _ _ Hh). rewrite bool_decide_eq_false_2 by set_solver. lia. }
  assert (u32 (cnt v b - 1) = cnt (v_release b v) b) as Hu.
  { rewrite Hcnt. apply u32_small. pose proof (cnt_range (v_release b v) b). pose proof (cnt_range v b). lia. }
  set (x := mk_buf true d b (Sleeplock.mk_sleeplock 0 0) (cnt (v_release b v) b) (v_cur v b)).
  assert (∀ s', (∀ j, bufs s' j = <[i := x]> (bufs s) j) → curpid s' = curpid s → bclock s' = false →
    (∃ l, ListH.is_list (links s') HEAD l ∧ l ≡ₚ seqZ 0 NBUF) → disk s' = disk s → trace s' = trace s →
    rep d s' (v_release b v)) as Hfin.
  { intros s' Hb Hp Hlk Hl Hd Ht. eapply (rep_update d s s' v _ i b x); try done; try apply Hc.
    - intros b'. rewrite Hd. apply Hrep.
    - rewrite Ht. apply Hrep.
    - unfold x. rewrite bool_decide_eq_false_2; [done|]. simpl. set_solver.
    - intros b' Hne. simpl. by rewrite lookup_delete_ne.
    - by left.
    - intros j Hj. simpl in Hj. by rewrite lookup_delete_eq in Hj.
    - intros Hn. simpl. destruct Hdirty as [Hp'|]; [|done]. destruct Hn. apply elem_of_union. by right. }
  assert (∀ h j, bufs (upd_buf i h (upd_buf i (λ y, set_lock (Sleeplock.releasesleep (lock y)) y) s)) j =
    <[i := h (mk_buf true d b (Sleeplock.mk_sleeplock 0 0) (cnt v b) (v_cur v b))]> (bufs s) j) as Hupd.
  { intros h j. simpl. rewrite fn_lookup_insert, Hbuf. unfold set_lock, Sleeplock.releasesleep. simpl.
    destruct (decide (j = i)) as [->|]; [by rewrite !fn_lookup_insert|by rewrite !fn_lookup_insert_ne]. }
  unfold brelse, holdingsleep. wp_steps. rewrite Hbuf. unfold Sleeplock.holdingsleep. simpl.
  rewrite Z.eqb_refl. simpl. wp_steps. apply wp_acquire; [apply Hrep|].
  set (s1 := upd_buf i (λ y, set_lock (Sleeplock.releasesleep (lock y)) y) s).
  wp_step. wp_step. wp_step. wp_step. wp_step.
  destruct (rep_list _ _ _ Hrep) as (l & Hl & Hperm).
  assert (i ∈ l) as Hil by (rewrite Hperm; apply elem_of_seqZ; destruct Hc; lia).
  apply wp_when; intros Hz.
  - wp_steps. apply wp_release; [done|]. apply Hfin; try done.
    + intros j. unfold x. rewrite <- Hu. apply (Hupd (λ y, set_refcnt (u32 (refcnt y - 1)) y)).
    + exists (i :: without i l). split; [by apply (move_front_ok i)|].
      apply list_elem_of_split in Hil as (l1 & l2 & ->). rewrite without_split.
      * rewrite <- Hperm. by rewrite Permutation_middle.
      * by destruct Hl as [Hnd _]; apply NoDup_cons in Hnd as [_ ?].
  - apply wp_release; [done|]. apply Hfin; try done.
    + intros j. unfold x. rewrite <- Hu. apply (Hupd (λ y, set_refcnt (u32 (refcnt y - 1)) y)).
    + by exists l.
Qed.

(** When a block is not cached and few enough blocks are in use, some buffer is
    not referred to. *)
Lemma unused_exists d s v b :
  rep d s v → (∀ i, ¬ caches d s i b) → Z.of_nat (size ({[b]} ∪ v_used v)) ≤ NBUF →
  ∃ i, 0 ≤ i < NBUF ∧ refcnt (bufs s i) = 0.
Proof.
  intros Hrep Hno Hsz.
  destruct (decide (Exists (λ i, refcnt (bufs s i) = 0) (seqZ 0 NBUF))) as [He|Hne].
  { apply Exists_exists in He as (i & Hi & Hr). exists i. apply elem_of_seqZ in Hi. split; [lia|done]. }
  exfalso. rewrite <- Forall_Exists_neg, Forall_forall in Hne.
  assert (∀ i, i ∈ seqZ 0 NBUF → caches d s i (blockno (bufs s i)) ∧ blockno (bufs s i) ∈ v_used v) as Hall.
  { intros i Hi. specialize (Hne i Hi). apply elem_of_seqZ in Hi.
    pose proof (rep_buf _ _ _ Hrep i ltac:(lia)) as Hbr. unfold buf_rep in Hbr. case_if_in Hbr.
    - destruct Hbr as (_ & _ & Hr & _). split; [split_and!; [lia|lia|done|done]|].
      destruct (decide (blockno (bufs s i) ∈ v_used v)) as [|Hn]; [done|]. apply cnt_zero in Hn. congruence.
    - destruct Hbr as [? _]. done. }
  set (bl := (λ i, blockno (bufs s i)) <$> seqZ 0 NBUF).
  assert (NoDup bl) as Hnd.
  { apply NoDup_fmap_2_strong; [|apply NoDup_seqZ]. intros i j Hi Hj E.
    destruct (Hall i Hi) as [Hci _], (Hall j Hj) as [Hcj _]. rewrite <- E in Hcj.
    by eapply (rep_uniq _ _ _ Hrep). }
  assert (NoDup (b :: bl)) as Hnd'.
  { constructor; [|done]. intros Hin. apply list_elem_of_fmap in Hin as (i & -> & Hi).
    destruct (Hall i Hi) as [Hci _]. by eapply Hno. }
  assert (list_to_set (b :: bl) ⊆ ({[b]} ∪ v_used v : gset Z)) as Hsub.
  { intros y Hy. apply elem_of_list_to_set, elem_of_cons in Hy as [->|Hy]; [set_solver|].
    apply list_elem_of_fmap in Hy as (i & -> & Hi). destruct (Hall i Hi) as [_ ?]. set_solver. }
  apply subseteq_size in Hsub. rewrite size_list_to_set in Hsub by done.
  unfold bl in Hsub. cbn [length] in Hsub. rewrite length_fmap, length_seqZ in Hsub.
  unfold NBUF, MAXOPBLOCKS in *. lia.
Qed.

(** The end of [bread]: the buffer found or recycled is locked and filled. *)
Lemma bread_finish d s v b i x l :
  rep d s v → v_held v !! b = None → 0 ≤ i < NBUF →
  caches d s i b ∨ refcnt (bufs s i) = 0 ∧ (∀ j, ¬ caches d s j b) →
  x = mk_buf (bool_decide (caches d s i b)) d b (Sleeplock.mk_sleeplock 0 0) (cnt v b + 1) l →
  (caches d s i b → l = v_cur v b) →
  wp (acquiresleep i) (λ _,
      wp (y ← gets (λ s, bufs s i);
          when (negb (valid y)) (disk_rw i false;; modify (upd_buf i (set_valid true)));;
          mret i)
        (λ i s', rep d s' (v_hold b i v))) (upd_buf i (λ _, x) s).
Proof.
  intros Hrep Hh Hi Hwas Hx Hl.
  assert (∀ j, <[i := x]> (bufs s) j = bufs (upd_buf i (λ _, x) s) j) as Hb0 by done.
  assert (cnt (v_hold b i v) b = cnt v b + 1) as Hcnt.
  { unfold cnt. simpl. rewrite (bool_decide_eq_true_2 (b ∈ dom (<[b:=i]> _))) by set_solver.
    rewrite (bool_decide_eq_false_2 (b ∈ dom (v_held v))) by (by rewrite not_elem_of_dom). lia. }
  assert (∀ s', (∀ j, bufs s' j = <[i := mk_buf true d b (Sleeplock.mk_sleeplock 1 (curpid s))
      (cnt v b + 1) (v_cur v b)]> (bufs s) j) → curpid s' = curpid s → bclock s' = bclock s →
    links s' = links s → disk s' = disk s → trace s' = trace s → rep d s' (v_hold b i v)) as Hfin.
  { intros s' Hb Hp Hlk Hln Hd Ht. eapply (rep_update d s s' v _ i b); try done.
    - rewrite Hlk. apply Hrep.
    - rewrite Hln. apply Hrep.
    - intros b'. rewrite Hd. apply Hrep.
    - rewrite Ht. apply Hrep.
    - rewrite Hcnt. simpl. rewrite bool_decide_eq_true_2 by set_solver. done.
    - intros b' Hne. simpl. by rewrite lookup_insert_ne.
    - intros j Hj. simpl in Hj. rewrite lookup_insert_eq in Hj. by simplify_eq.
    - intros Hn. destruct Hn. apply elem_of_union. left. simpl. set_solver. }
  assert (v_cur v b = disk s b ∨ caches d s i b) as Hcl.
  { destruct Hwas as [?|[_ Hno]]; [by right|left]. rewrite (rep_disk _ _ _ Hrep). apply (rep_clean _ _ _ Hrep).
    unfold v_used. rewrite elem_of_union, elem_of_dom. intros [[j Hj]|Hp].
    - apply (rep_held _ _ _ Hrep) in Hj. by apply (Hno j).
    - apply (rep_pin _ _ _ Hrep) in Hp as (j & Hj). by apply (Hno j). }
  unfold wp at 1, acquiresleep. simpl. rewrite fn_lookup_insert, Hx. simpl.
  unfold Sleeplock.acquiresleep. simpl. wp_bind. apply wp_gets. wp_bind.
  apply wp_when; intros Hv; simpl in Hv; rewrite !fn_lookup_insert in Hv; simpl in Hv; bsimpl.
  - unfold disk_rw. wp_steps. apply Hfin; try done. intros j. simpl. rewrite !fn_lookup_insert. simpl.
    destruct (decide (j = i)) as [->|]; [|by rewrite !fn_lookup_insert_ne].
    rewrite !fn_lookup_insert. unfold set_data, set_valid, set_lock. simpl.
    by destruct Hcl as [->|Hc].
  - apply wp_ret, Hfin; try done. intros j. simpl.
    destruct (decide (j = i)) as [->|]; [|by rewrite !fn_lookup_insert_ne].
    rewrite !fn_lookup_insert. unfold set_lock. simpl. rewrite bool_decide_eq_true_2 by done.
    by rewrite Hl.
Qed.

Lemma bread_rep d s v b :
  rep d s v → v_held v !! b = None → Z.of_nat (size ({[b]} ∪ v_used v)) ≤ NBUF →
  wp (bread d b) (λ i s', rep d s' (v_hold b i v)) s.
Proof.
  intros Hrep Hh Hsz. destruct (rep_list _ _ _ Hrep) as (l & Hl & Hperm).
  assert (∀ i, i ∈ l ↔ 0 ≤ i < NBUF) as Hin by (intros i; rewrite Hperm, elem_of_seqZ; lia).
  assert (length l = Z.to_nat NBUF) as Hlen by (by rewrite Hperm, length_seqZ).
  pose proof (rep_lock _ _ _ Hrep) as Hlk. pose proof Hl as [Hnd Hc].
  assert (b ∉ dom (v_held v)) as Hdom by (by apply not_elem_of_dom).
  unfold bread, bget. wp_bind. wp_bind. apply wp_acquire; [done|]. wp_bind. apply wp_gets. wp_bind.
  eapply wp_eq.
  { apply (find_cached_spec d b (lk_set true s) l); [done| |by apply ListH.is_list_first|lia].
    by apply ListH.chain_cons in Hc as [? _]. }
  change (bufs (lk_set true s)) with (bufs s).
  assert (∀ i f, lk_set false (upd_buf i f (lk_set true s)) = upd_buf i (λ _, f (bufs s i)) s) as Hst.
  { intros i f. destruct s; simpl in *; by subst. }
  destruct (list_find _ l) as [[k i]|] eqn:Ef; cbn [mbind option_bind snd].
  - apply list_find_Some in Ef as (Hk & [Hd Hb] & _). apply list_elem_of_lookup_2, Hin in Hk as Hi.
    assert (caches d s i b) as Hci by done. pose proof (rep_buffer _ _ _ _ _ Hrep Hci) as Hbuf.
    wp_bind. apply wp_modify. wp_bind. apply wp_release; [done|]. rewrite Hst. wp_bind.
    eapply bread_finish; [done|done|done|by left| |].
    + rewrite bool_decide_eq_true_2 by done. rewrite Hbuf. unfold set_refcnt. simpl.
      rewrite bool_decide_eq_false_2 by done. pose proof (cnt_range v b). by rewrite u32_small by lia.
    + done.
  - apply list_find_None in Ef. rewrite Forall_forall in Ef.
    assert (∀ j, ¬ caches d s j b) as Hno by (intros j (Hj & Hd & Hb); by apply (Ef j); [apply Hin|]).
    destruct (unused_exists _ _ _ _ Hrep Hno Hsz) as (j & Hj & Hrj).
    wp_bind. apply wp_gets. wp_bind. eapply wp_eq.
    { apply (find_unused_spec (lk_set true s) l); [done| |by apply ListH.is_list_last|lia].
      rewrite app_comm_cons in Hc. by apply ListH.chain_app in Hc as [? _]. }
    change (bufs (lk_set true s)) with (bufs s).
    destruct (list_find _ (reverse l)) as [[k i]|] eqn:Eu; cbn [mbind option_bind snd].
    2:{ apply list_find_None in Eu. rewrite Forall_forall in Eu. exfalso. apply (Eu j); [|done].
        rewrite elem_of_reverse. by apply Hin. }
    apply list_find_Some in Eu as (Hk & Hri & _). apply list_elem_of_lookup_2 in Hk as Hi.
    rewrite elem_of_reverse, Hin in Hi. simpl in Hri.
    wp_bind. apply wp_modify. wp_bind. apply wp_release; [done|]. rewrite Hst. wp_bind.
    eapply bread_finish; [done|done|done|by right| |].
    + rewrite bool_decide_eq_false_2 by apply Hno.
      assert (b ∉ v_used v) as Hbu.
      { unfold v_used. rewrite elem_of_union. intros [?|Hp]; [done|].
        apply (rep_pin _ _ _ Hrep) in Hp as (x & Hx). by apply (Hno x). }
      apply cnt_zero in Hbu. rewrite Hbu. simpl. f_equal.
      pose proof (rep_buf _ _ _ Hrep i Hi) as Hbr. unfold buf_rep in Hbr. case_if_in Hbr; [|by destruct Hbr].
      destruct Hbr as (_ & _ & Hr & ->). rewrite bool_decide_eq_false_2; [done|]. intros Hx.
      rewrite Hri in Hr. symmetry in Hr. apply cnt_zero in Hr. apply Hr. apply elem_of_union. by left.
    + intros Hc'. by apply Hno in Hc'.
Qed.

(** bio.c is a block cache. *)
#[export] Instance bio_cache : BlockCache bst := {|
  bc_bread := bread; bc_bwrite := bwrite; bc_brelse := brelse; bc_bpin := bpin; bc_bunpin := bunpin;
  bc_data s i := data (bufs s i); bc_blockno s i := blockno (bufs s i);
  bc_set i x := upd_buf i (set_data x);
  bc_rep := rep;
  bc_clean d s v b H := rep_clean d s v H b;
  bc_lookup d s v b i H Hh :=
    match rep_held_buffer d s v b i H Hh with
    | conj _ E => conj (f_equal data E) (f_equal blockno E)
    end;
  bc_bread_ok := bread_rep; bc_set_ok := set_rep; bc_bwrite_ok := bwrite_rep;
  bc_brelse_ok := brelse_rep; bc_bpin_ok := bpin_rep; bc_bunpin_ok := bunpin_rep |}.

(** ** binit *)

(** After [i] rounds the first [i] buffers are linked and their locks free. *)
Definition binit_inv (s0 : bst) (i : Z) (s : bst) : Prop :=
  (∃ l, ListH.is_list (links s) HEAD l ∧ l ≡ₚ seqZ 0 i) ∧ bclock s = false ∧
  disk s = disk s0 ∧ trace s = trace s0 ∧
  (∀ j, dev (bufs s j) = dev (bufs s0 j) ∧ refcnt (bufs s j) = refcnt (bufs s0 j)) ∧
  (∀ j, 0 ≤ j < i → lock (bufs s j) = Sleeplock.mk_sleeplock 0 0).

Lemma binit_loop s0 s :
  binit_inv s0 0 s → wp (for_range 0 (Z.to_nat NBUF) binit_buf) (λ _, binit_inv s0 NBUF) s.
Proof.
  intros Hinv. eapply wp_mono; [apply (wp_for_range (binit_inv s0)); [done|]|done].
  intros j s1 Hj ((l & Hl & Hp) & Hlk & Hd & Ht & Hb & Hlo). unfold binit_buf. wp_steps.
  split_and!; try done.
  - exists (j :: l). split.
    + apply (link_front_ok j); [done|]. rewrite Hp. apply not_elem_of_cons. split.
      * unfold HEAD, NBUF, MAXOPBLOCKS in *. lia.
      * rewrite elem_of_seqZ. lia.
    + rewrite Hp. rewrite (Permutation_cons_append (seqZ 0 j) j).
      rewrite seqZ_app by lia. rewrite (seqZ_cons (0 + j) 1), (seqZ_nil (Z.succ (0 + j))) by lia. done.
  - intros k. simpl. destruct (decide (k = j)) as [->|];
      [rewrite fn_lookup_insert; apply Hb|rewrite fn_lookup_insert_ne by done; apply Hb].
  - intros k Hk. simpl. destruct (decide (k = j)) as [->|]; [by rewrite fn_lookup_insert|].
    rewrite fn_lookup_insert_ne by done. apply Hlo. lia.
Qed.

(** The cache at boot: nothing cached, nothing locked. *)
Definition boot_view (s : bst) : bview := mk_view (disk s) (disk s) ∅ ∅ (trace s).

Lemma binit_rep d s :
  d ≠ 0 → (∀ i, dev (bufs s i) = 0 ∧ refcnt (bufs s i) = 0) →
  wp binit (λ _ s', rep d s' (boot_view s)) s.
Proof.
  intros Hd Hz. unfold binit. wp_steps. eapply wp_mono; [apply (binit_loop s)|].
  - split_and!; try done; [|intros j Hj; lia]. exists []. split; [|done].
    exact (ListH.init_list_head_ok HEAD (links s)).
  - intros [] s' (Hl & Hlk & Hdk & Ht & Hb & Hlo).
    assert (∀ i b, ¬ caches d s' i b) as Hno.
    { intros i b (_ & Hdev & _). destruct (Hb i) as [E _]. destruct (Hz i) as [E' _]. congruence. }
    split; try done.
    + by rewrite Hdk.
    + intros i Hi. unfold buf_rep. destruct (Hb i) as [E1 E2], (Hz i) as [E3 E4].
      rewrite E1, E3. case_if; [congruence|]. rewrite E2, E4. split; [done|by apply Hlo].
    + intros i j b Hi. by apply Hno in Hi.
Qed.

(** ** Sequences of operations *)

(** The contract without buffer addresses. *)
Record aview := mk_aview {
  a_disk : Z → bytes; a_cur : Z → bytes; a_held : gset Z; a_pin : gset Z; a_trace : list (Z * bytes) }.

Definition erase (v : bview) : aview :=
  mk_aview (v_disk v) (v_cur v) (dom (v_held v)) (v_pin v) (v_trace v).

Inductive bop :=
  | BRead (b : Z) | BSet (b : Z) (x : bytes) | BWrite (b : Z)
  | BRelse (b : Z) | BPin (b : Z) | BUnpin (b : Z).

(** The abstract cache; [None] outside its contract. *)
Definition spec_bop (o : bop) (a : aview) : option aview :=
  match o with
  | BRead b =>
      if bool_decide (b ∉ a_held a ∧ Z.of_nat (size ({[b]} ∪ (a_held a ∪ a_pin a))) ≤ NBUF)
      then Some (mk_aview (a_disk a) (a_cur a) ({[b]} ∪ a_held a) (a_pin a) (a_trace a)) else None
  | BSet b x =>
      if bool_decide (b ∈ a_held a)
      then Some (mk_aview (a_disk a) (<[b := x]> (a_cur a)) (a_held a) (a_pin a) (a_trace a)) else None
  | BWrite b =>
      if bool_decide (b ∈ a_held a)
      then Some (mk_aview (<[b := a_cur a b]> (a_disk a)) (a_cur a) (a_held a) (a_pin a)
                   (a_trace a ++ [(b, a_cur a b)])) else None
  | BRelse b =>
      if bool_decide (b ∈ a_held a ∧ (b ∈ a_pin a ∨ a_cur a b = a_disk a b))
      then Some (mk_aview (a_disk a) (a_cur a) (a_held a ∖ {[b]}) (a_pin a) (a_trace a)) else None
  | BPin b =>
      if bool_decide (b ∈ a_held a ∧ b ∉ a_pin a)
      then Some (mk_aview (a_disk a) (a_cur a) (a_held a) ({[b]} ∪ a_pin a) (a_trace a)) else None
  | BUnpin b =>
      if bool_decide (b ∈ a_held a ∧ b ∈ a_pin a)
      then Some (mk_aview (a_disk a) (a_cur a) (a_held a) (a_pin a ∖ {[b]}) (a_trace a)) else None
  end.

(** The code on the buffers the client has got from [bread]. *)
Definition run_bop (d : Z) (o : bop) (hm : gmap Z Z) (s : bst) : outcome (gmap Z Z * bst) :=
  let on b (m : Z → M bst unit) (hm' : gmap Z Z) :=
    match m (default (-1) (hm !! b)) s with
    | Ret (_, s') => Ret (hm', s')
    | Panic msg => Panic msg
    | Block => Block
    end in
  match o with
  | BRead b =>
      match bread d b s with
      | Ret (i, s') => Ret (<[b := i]> hm, s')
      | Panic msg => Panic msg
      | Block => Block
      end
  | BSet b x => on b (λ i, modify (upd_buf i (set_data x))) hm
  | BWrite b => on b bwrite hm
  | BRelse b => on b brelse (delete b hm)
  | BPin b => on b bpin hm
  | BUnpin b => on b bunpin hm
  end.

Fixpoint spec_bops (os : list bop) (a : aview) : option aview :=
  match os with
  | [] => Some a
  | o :: os' => a' ← spec_bop o a; spec_bops os' a'
  end.

Fixpoint run_bops (d : Z) (os : list bop) (hm : gmap Z Z) (s : bst) : outcome (gmap Z Z * bst) :=
  match os with
  | [] => Ret (hm, s)
  | o :: os' =>
      match run_bop d o hm s with
      | Ret (hm', s') => run_bops d os' hm' s'
      | Panic msg => Panic msg
      | Block => Block
      end
  end.

Lemma run_bop_rep d o s v a' :
  rep d s v → spec_bop o (erase v) = Some a' →
  ∃ v' s', run_bop d o (v_held v) s = Ret (v_held v', s') ∧ rep d s' v' ∧ erase v' = a'.
Proof.
  intros Hrep Hs.
  assert (∀ b, b ∈ dom (v_held v) → ∃ i, v_held v !! b = Some i) as Hd by (intros b; apply elem_of_dom).
  destruct o as [b|b x|b|b|b|b]; simpl in Hs; case_bool_decide as Hg; simplify_eq; simpl in Hg.
  - destruct Hg as [Hn Hsz]. apply not_elem_of_dom in Hn.
    destruct (wp_inv _ _ _ (bread_rep _ _ _ _ Hrep Hn Hsz)) as (i & s' & E & Hr).
    exists (v_hold b i v), s'. simpl. rewrite E. split_and!; [done|done|].
    unfold erase. simpl. f_equal. set_solver.
  - destruct (Hd b Hg) as (i & Hi). exists (v_set b x v), (upd_buf i (set_data x) s).
    simpl. rewrite Hi. split_and!; [done|by apply set_rep|done].
  - destruct (Hd b Hg) as (i & Hi).
    destruct (wp_inv _ _ _ (bwrite_rep _ _ _ _ _ Hrep Hi)) as ([] & s' & E & Hr).
    exists (v_write b v), s'. simpl. rewrite Hi. simpl. by rewrite E.
  - destruct Hg as [Hh Hp]. destruct (Hd b Hh) as (i & Hi).
    destruct (wp_inv _ _ _ (brelse_rep _ _ _ _ _ Hrep Hi Hp)) as ([] & s' & E & Hr).
    exists (v_release b v), s'. simpl. rewrite Hi. simpl. rewrite E. split_and!; [done|done|].
    unfold erase. simpl. f_equal. by rewrite dom_delete_L.
  - destruct Hg as [Hh Hp]. destruct (Hd b Hh) as (i & Hi).
    destruct (wp_inv _ _ _ (bpin_rep _ _ _ _ _ Hrep Hi Hp)) as ([] & s' & E & Hr).
    exists (v_pinned b v), s'. simpl. rewrite Hi. simpl. by rewrite E.
  - destruct Hg as [Hh Hp]. destruct (Hd b Hh) as (i & Hi).
    destruct (wp_inv _ _ _ (bunpin_rep _ _ _ _ _ Hrep Hi Hp)) as ([] & s' & E & Hr).
    exists (v_unpinned b v), s'. simpl. rewrite Hi. simpl. by rewrite E.
Qed.

(** ** Properties *)

(** [C19] The buffer cache refines a write-back block store.  After binit, any
    sequence of bread, writes to a locked buffer, bwrite, brelse, bpin and bunpin
    within the contract (no more than NBUF blocks in use, a changed block is
    pinned before it is released) runs without panic or deadlock and does to
    contents, disk, locks and pins what the abstract store does; at most one
    buffer holds a block and a locked buffer holds the block's current bytes,
    whatever was recycled in between. *)
Theorem bcache_refines d s os a'
  (Hd : d ≠ 0) (Hz : ∀ i, dev (bufs s i) = 0 ∧ refcnt (bufs s i) = 0)
  (Hs : spec_bops os (mk_aview (disk s) (disk s) ∅ ∅ (trace s)) = Some a') :
  ∃ s1 hm s', binit s = Ret (tt, s1) ∧ run_bops d os ∅ s1 = Ret (hm, s') ∧
    dom hm = a_held a' ∧ (∀ b, disk s' b = a_disk a' b) ∧ trace s' = a_trace a' ∧
    (∀ i j b, caches d s' i b → caches d s' j b → i = j) ∧
    (∀ b i, hm !! b = Some i → data (bufs s' i) = a_cur a' b ∧ blockno (bufs s' i) = b).
Proof.
  destruct (wp_inv _ _ _ (binit_rep d s Hd Hz)) as ([] & s1 & Hb & Hrep).
  assert (∀ os v s1 a', rep d s1 v → spec_bops os (erase v) = Some a' →
    ∃ v' s', run_bops d os (v_held v) s1 = Ret (v_held v', s') ∧ rep d s' v' ∧ erase v' = a') as Hrun.
  { clear. induction os as [|o os IH]; intros v s1 a' Hrep Hs; simpl in Hs; [simplify_eq; eauto|].
    destruct (spec_bop o (erase v)) as [a1|] eqn:Ho; [|done]. simpl in Hs.
    destruct (run_bop_rep _ _ _ _ _ Hrep Ho) as (v1 & s2 & E & Hr & <-). simpl. rewrite E. by apply IH. }
  destruct (Hrun os (boot_view s) s1 a' Hrep) as (v' & s' & E & Hr & <-).
  { unfold erase, boot_view. simpl. by rewrite dom_empty_L. }
  exists s1, (v_held v'), s'. split_and!; [done|done|done|apply Hr|apply Hr|apply Hr|].
  intros b i Hi. destruct (rep_held_buffer _ _ _ _ _ Hr Hi) as [_ ->]. done.
Qed.

Definition zero_bst : bst :=
  mk_bst (λ _, mk_buf false 0 0 (Sleeplock.mk_sleeplock 0 0) 0 []) (ListH.mk_heap ∅ ∅)
    (λ b, [b]) [] false 7.

(** A block is read, changed, pinned and released, another is read, then the
    first is written back and let go. *)
Definition demo_ops : list bop :=
  [BRead 5; BSet 5 [9]; BPin 5; BRelse 5; BRead 6; BRelse 6; BRead 5; BWrite 5; BUnpin 5; BRelse 5].

Lemma bcache_refines_witness :
  ∃ s1 hm s' a', binit zero_bst = Ret (tt, s1) ∧ run_bops 1 demo_ops ∅ s1 = Ret (hm, s') ∧
    dom hm = a_held a' ∧ (∀ b, disk s' b = a_disk a' b) ∧ trace s' = a_trace a' ∧
    (∀ i j b, caches 1 s' i b → caches 1 s' j b → i = j) ∧
    (∀ b i, hm !! b = Some i → data (bufs s' i) = a_cur a' b ∧ blockno (bufs s' i) = b).
Proof.
  destruct (spec_bops demo_ops (mk_aview (disk zero_bst) (disk zero_bst) ∅ ∅ (trace zero_bst)))
    as [a'|] eqn:E; [|vm_compute in E; discriminate E].
  destruct (bcache_refines 1 zero_bst demo_ops a' ltac:(lia) (λ _, conj eq_refl eq_refl) E)
    as (s1 & hm & s' & Hw). exists s1, hm, s', a'. exact Hw.
Defined.

End Bio.
