(* ===== verification/Log.v ===== *)
(** * kernel/log.c: the redo log

    The log over any block cache that keeps the contract [BlockCache] of Bio.v.
    A transaction's blocks are changed in the cache and pinned by [log_write];
    [commit] writes them to the log area, writes the header (the commit point),
    installs them at their home locations and clears the header.

    Crashes: the disk after a crash is the disk at the start of the operation
    with some prefix of the writes it issued applied.  [recover_disk] is the disk
    recovery leaves; LogCrash.v proves that for every prefix it is the disk
    before the transaction or the disk after it. *)

From S2P Require Import Prelude Bytes Spinlock Riscv Bio.
Import Riscv Bytes Lock Bio.

Module Log.

Section log.
Context {S : Type} `{BlockCache S}.

(** [struct log], [struct logheader], and the cache underneath. *)
Record logst := mk_logst {
  lcache : S; llock : bool; start : Z; size : Z; outstanding : Z; committing : bool;
  ldev : Z; lh_n : Z; lh_block : list Z }.

#[export] Instance logst_locked : Locked logst := {|
  lk_held := llock;
  lk_set b s := mk_logst (lcache s) b (start s) (size s) (outstanding s) (committing s)
                  (ldev s) (lh_n s) (lh_block s);
  lk_held_set b s := eq_refl |}.

Definition set_cache (c : S) (s : logst) : logst :=
  mk_logst c (llock s) (start s) (size s) (outstanding s) (committing s) (ldev s) (lh_n s) (lh_block s).
Definition set_outstanding (o : Z) (s : logst) : logst :=
  mk_logst (lcache s) (llock s) (start s) (size s) o (committing s) (ldev s) (lh_n s) (lh_block s).
Definition set_committing (c : bool) (s : logst) : logst :=
  mk_logst (lcache s) (llock s) (start s) (size s) (outstanding s) c (ldev s) (lh_n s) (lh_block s).
Definition set_n (n : Z) (s : logst) : logst :=
  mk_logst (lcache s) (llock s) (start s) (size s) (outstanding s) (committing s) (ldev s) n (lh_block s).
Definition set_block (i b : Z) (s : logst) : logst :=
  mk_logst (lcache s) (llock s) (start s) (size s) (outstanding s) (committing s) (ldev s) (lh_n s)
    (<[Z.to_nat i := b]> (lh_block s)).

Definition block_at (s : logst) (i : Z) : Z := default 0 (lh_block s !! Z.to_nat i).

(** A cache operation as a log operation. *)
Definition onc {A} (m : M S A) : M logst A := λ s,
  match m (lcache s) with
  | Ret (a, c) => Ret (a, set_cache c s)
  | Panic msg => Panic msg
  | Block => Block
  end.

(** [memmove(to->data, from->data, BSIZE)] *)
Definition copy_data (to from : Z) : M logst unit :=
  onc (λ c, Ret (tt, bc_set to (bc_data c from) c)).

(** One round of [install_trans], and the whole. *)
Definition install_one (recovering : bool) (tail : Z) : M logst unit :=
  s ← gets id;
  lbuf ← onc (bc_bread (ldev s) (start s + tail + 1));
  dbuf ← onc (bc_bread (ldev s) (block_at s tail));
  copy_data dbuf lbuf;;
  onc (bc_bwrite dbuf);;
  when (negb recovering) (onc (bc_bunpin dbuf));;
  onc (bc_brelse lbuf);;
  onc (bc_brelse dbuf).

Definition install_trans (recovering : bool) : M logst unit :=
  n ← gets lh_n;
  for_range 0 (Z.to_nat n) (install_one recovering).

Definition read_head : M logst unit :=
  s ← gets id;
  buf ← onc (bc_bread (ldev s) (start s));
  lh ← gets (λ s, bc_data (lcache s) buf);
  modify (set_n (s32 (get32 lh 0)));;
  n ← gets lh_n;
  for_range 0 (Z.to_nat n) (λ i, modify (set_block i (s32 (get32 lh (4 + 4 * i)))));;
  onc (bc_brelse buf).

(** The header block with [n] and the first [n] block numbers stored in it. *)
Definition put_head (n : Z) (bl : list Z) (d : bytes) : bytes :=
  foldl (λ d i, put32 (4 + 4 * i) (default 0 (bl !! Z.to_nat i)) d) (put32 0 n d) (seqZ 0 n).

Definition write_head : M logst unit :=
  s ← gets id;
  buf ← onc (bc_bread (ldev s) (start s));
  onc (λ c, Ret (tt, bc_set buf (put_head (lh_n s) (lh_block s) (bc_data c buf)) c));;
  onc (bc_bwrite buf);;
  onc (bc_brelse buf).

Definition recover_from_log : M logst unit :=
  read_head;;
  install_trans true;;
  modify (set_n 0);;
  write_head.

Definition initlog (dev logstart nlog : Z) : M logst unit :=
  when (BSIZE <=? 4 + 4 * LOGSIZE) (panic "initlog: too big logheader");;
  modify (lk_set false);;
  modify (λ s, mk_logst (lcache s) (llock s) logstart nlog (outstanding s) (committing s)
                 dev (lh_n s) (lh_block s));;
  recover_from_log.

(** One round of [write_log], and the whole. *)
Definition write_one (tail : Z) : M logst unit :=
  s ← gets id;
  to ← onc (bc_bread (ldev s) (start s + tail + 1));
  from ← onc (bc_bread (ldev s) (block_at s tail));
  copy_data to from;;
  onc (bc_bwrite to);;
  onc (bc_brelse from);;
  onc (bc_brelse to).

Definition write_log : M logst unit :=
  n ← gets lh_n;
  for_range 0 (Z.to_nat n) write_one.

Definition commit : M logst unit :=
  n ← gets lh_n;
  when (0 <? n)
    (write_log;; write_head;; install_trans false;; modify (set_n 0);; write_head).

(** A process that must sleep blocks; it runs [begin_op] again when woken. *)
Definition begin_op : M logst unit :=
  acquire;;
  s ← gets id;
  if committing s then Prelude.block
  else if LOGSIZE <? lh_n s + (outstanding s + 1) * MAXOPBLOCKS then Prelude.block
  else modify (set_outstanding (outstanding s + 1));; release.

(** [end_op] up to its first [release]; it returns [do_commit]. *)
Definition end_enter : M logst bool :=
  acquire;;
  modify (λ s, set_outstanding (outstanding s - 1) s);;
  s ← gets id;
  if committing s then panic "log.committing"
  else
    let do_commit := outstanding s =? 0 in
    when do_commit (modify (set_committing true));;
    release;;
    mret do_commit.

(** The rest, for the process that commits. *)
Definition end_commit : M logst unit :=
  commit;;
  acquire;;
  modify (set_committing false);;
  release.

Definition end_op : M logst unit :=
  do_commit ← end_enter;
  when do_commit end_commit.

(** [log_write(b)] for the buffer [b]. *)
Definition log_write (b : Z) : M logst unit :=
  acquire;;
  s ← gets id;
  if (LOGSIZE <=? lh_n s) || (size s - 1 <=? lh_n s) then panic "too big a transaction"
  else if outstanding s <? 1 then panic "log_write outside of trans"
  else
    let bno := bc_blockno (lcache s) b in
    let i := default (lh_n s) (Z.of_nat <$> find_idx (λ x, x =? bno) (take (Z.to_nat (lh_n s)) (lh_block s))) in
    modify (set_block i bno);;
    when (i =? lh_n s) (onc (bc_bpin b);; modify (set_n (lh_n s + 1)));;
    release.

End log.

End Log.
