(* ===== verification/LogCrash.v ===== *)
(** * Crash safety of the log

    [apply_writes ws D] is the disk [D] after the writes [ws]; a crash after [k]
    writes leaves [apply_writes (take k ws) D].  The theorems say what recovery
    makes of such a disk.  A block is off the log if it is not in the log area
    of the disk. *)

From S2P Require Import Prelude Bytes Spinlock Riscv ListH Bio Log.
Import Riscv Bytes Lock Bio Log.

Module LogCrash.

Notation disk := (Z → bytes).
Notation writes := (list (Z * bytes)).

Definition apply_writes (ws : writes) (D : disk) : disk :=
  foldl (λ D w, <[w.1 := w.2]> D) D ws.

(** ** The log on the disk *)

(** The header's count and block numbers, and the writes recovery makes. *)
Definition hdr_n (st : Z) (D : disk) : Z := s32 (get32 (D st) 0).
Definition hdr_block (st : Z) (D : disk) (i : Z) : Z := s32 (get32 (D st) (4 + 4 * i)).

Definition recover_writes (st : Z) (D : disk) : writes :=
  (λ i, (hdr_block st D i, D (st + i + 1))) <$> seqZ 0 (hdr_n st D).

Definition recover_disk (st : Z) (D : disk) : disk := apply_writes (recover_writes st D) D.

Definition off_log (st sz b : Z) : Prop := ¬ (st ≤ b < st + sz).

(** A header recovery can use: it fits the log and names no block of the log. *)
Record hdr_ok (st sz : Z) (D : disk) : Prop := {
  hdr_len : Z.of_nat (length (D st)) = BSIZE;
  hdr_range : 0 ≤ hdr_n st D ≤ LOGSIZE ∧ hdr_n st D ≤ sz - 1;
  hdr_off : ∀ i, 0 ≤ i < hdr_n st D → off_log st sz (hdr_block st D i) }.

Ltac log_lia := unfold LOGSIZE, NBUF, MAXOPBLOCKS, BSIZE in *; lia.

(** ** Lemmas: sequences of writes *)

Lemma apply_app ws1 ws2 D : apply_writes (ws1 ++ ws2) D = apply_writes ws2 (apply_writes ws1 D).
Proof. apply foldl_app. Qed.

Lemma apply_snoc ws b x D : apply_writes (ws ++ [(b, x)]) D = <[b := x]> (apply_writes ws D).
Proof. by rewrite apply_app. Qed.

Lemma apply_notin ws D b : b ∉ ws.*1 → apply_writes ws D b = D b.
Proof.
  induction ws as [|[c x] ws IH] using rev_ind; intros Hb; [done|].
  rewrite fmap_app in Hb. apply not_elem_of_app in Hb as [H1 H2].
  rewrite apply_snoc, fn_lookup_insert_ne by set_solver. by apply IH.
Qed.

(** A block that was written has a value that was written to it. *)
Lemma apply_in ws D b : b ∈ ws.*1 → (b, apply_writes ws D b) ∈ ws.
Proof.
  induction ws as [|[c x] ws IH] using rev_ind; intros Hb; [by apply elem_of_nil in Hb|].
  rewrite apply_snoc. destruct (decide (c = b)) as [->|Hne].
  - rewrite fn_lookup_insert. set_solver.
  - rewrite fn_lookup_insert_ne by done. apply elem_of_app. left. apply IH. set_solver.
Qed.

Lemma apply_determined ws D D' b : b ∈ ws.*1 → apply_writes ws D b = apply_writes ws D' b.
Proof.
  induction ws as [|[c x] ws IH] using rev_ind; intros Hb; [by apply elem_of_nil in Hb|].
  rewrite !apply_snoc. destruct (decide (c = b)) as [->|Hne].
  - by rewrite !fn_lookup_insert.
  - rewrite !fn_lookup_insert_ne by done. apply IH. set_solver.
Qed.

Lemma elem_of_take_fst k (ws : writes) b : b ∈ (take k ws).*1 → b ∈ ws.*1.
Proof. intros Hb. rewrite <- (take_drop k ws), fmap_app. set_solver. Qed.

(** Doing all the writes after some of them is doing all of them. *)
Lemma apply_redo k ws D b : apply_writes ws (apply_writes (take k ws) D) b = apply_writes ws D b.
Proof.
  destruct (decide (b ∈ ws.*1)) as [Hb|Hb]; [by apply apply_determined|].
  rewrite !(apply_notin ws) by done. apply apply_notin. intros Hk. by apply Hb, (elem_of_take_fst k).
Qed.

(** ** Lemmas: the header block *)

Lemma put_head_eq n bl d : put_head n bl d = put32s 4 (λ i, default 0 (bl !! Z.to_nat i)) (seqZ 0 n) (put32 0 n d).
Proof. done. Qed.

Lemma length_put_head n bl d : length (put_head n bl d) = length d.
Proof. rewrite put_head_eq, length_put32s. apply length_put32. Qed.

Lemma get_head_n n bl d : 0 ≤ n < 2 ^ 31 → 4 ≤ Z.of_nat (length d) →
  s32 (get32 (put_head n bl d) 0) = n.
Proof.
  intros Hn Hd. rewrite put_head_eq. unfold get32. rewrite sub_put32s_out; [fold (get32 (put32 0 n d) 0)|lia|lia|].
  - rewrite get32_put32_eq by lia. rewrite u32_small by lia. apply s32_small. lia.
  - intros i Hi. apply elem_of_seqZ in Hi. lia.
Qed.

Lemma get_head_block n bl d i b : 0 ≤ i < n → 4 + 4 * n ≤ Z.of_nat (length d) →
  bl !! Z.to_nat i = Some b → 0 ≤ b < 2 ^ 31 →
  s32 (get32 (put_head n bl d) (4 + 4 * i)) = b.
Proof.
  intros Hi Hd Hb Hr. rewrite put_head_eq, get32_put32s_in.
  - rewrite Hb. simpl. rewrite u32_small by lia. apply s32_small. lia.
  - lia.
  - apply NoDup_seqZ.
  - apply elem_of_seqZ. lia.
  - intros j Hj. apply elem_of_seqZ in Hj. lia.
  - rewrite length_put32. lia.
Qed.

(** ** Lemmas: the operations *)

Section log_ops.
Context {S : Type} `{BlockCache S}.
Implicit Types (s : @logst S) (c : S) (v : bview) (P : gset Z).

Lemma wp_onc {A} (m : M S A) (Q : A → @logst S → Prop) s :
  wp m (λ a c, Q a (set_cache c s)) (lcache s) → wp (onc m) Q s.
Proof. unfold wp, onc. by destruct (m (lcache s)) as [[a c]| |]. Qed.

(** The view [v0] after the writes [ws], with the pins [P] and no lock held. *)
Definition put_view v0 (ws : writes) P : bview :=
  mk_view (apply_writes ws (v_disk v0)) (apply_writes ws (v_cur v0)) ∅ P (v_trace v0 ++ ws).

(** The log's state [s] over a cache with the view [v]. *)
Definition over s v s' : Prop := ∃ c, s' = set_cache c s ∧ bc_rep (ldev s) c v.

Lemma put_view_nil v0 : v_held v0 = ∅ → put_view v0 [] (v_pin v0) = v0.
Proof. destruct v0 as [a b h p t]. simpl. intros ->. unfold put_view. simpl. by rewrite app_nil_r. Qed.

Lemma bread_ok s s' v b (Q : Z → @logst S → Prop) :
  over s v s' → v_held v !! b = None → Z.of_nat (base.size ({[b]} ∪ v_used v)) ≤ NBUF →
  (∀ i s'', over s (v_hold b i v) s'' → Q i s'') → wp (onc (bc_bread (ldev s) b)) Q s'.
Proof.
  intros (c & -> & Hr) Hn Hs HQ. apply wp_onc. simpl.
  eapply wp_mono; [by apply (bc_bread_ok (ldev s) _ v b)|]. intros i c' Hc. apply HQ. by exists c'.
Qed.

Lemma bwrite_ok s s' v b i (Q : unit → @logst S → Prop) :
  over s v s' → v_held v !! b = Some i →
  (∀ s'', over s (v_write b v) s'' → Q tt s'') → wp (onc (bc_bwrite i)) Q s'.
Proof.
  intros (c & -> & Hr) Hb HQ. apply wp_onc. simpl.
  eapply wp_mono; [by apply (bc_bwrite_ok (ldev s) _ v b)|]. intros [] c' Hc. apply HQ. by exists c'.
Qed.

Lemma brelse_ok s s' v b i (Q : unit → @logst S → Prop) :
  over s v s' → v_held v !! b = Some i → b ∈ v_pin v ∨ v_cur v b = v_disk v b →
  (∀ s'', over s (v_release b v) s'' → Q tt s'') → wp (onc (bc_brelse i)) Q s'.
Proof.
  intros (c & -> & Hr) Hb Hp HQ. apply wp_onc. simpl.
  eapply wp_mono; [by apply (bc_brelse_ok (ldev s) _ v b)|]. intros [] c' Hc. apply HQ. by exists c'.
Qed.

Lemma bunpin_ok s s' v b i (Q : unit → @logst S → Prop) :
  over s v s' → v_held v !! b = Some i → b ∈ v_pin v →
  (∀ s'', over s (v_unpinned b v) s'' → Q tt s'') → wp (onc (bc_bunpin i)) Q s'.
Proof.
  intros (c & -> & Hr) Hb Hp HQ. apply wp_onc. simpl.
  eapply wp_mono; [by apply (bc_bunpin_ok (ldev s) _ v b)|]. intros [] c' Hc. apply HQ. by exists c'.
Qed.

Lemma copy_ok s s' v b1 i1 b2 i2 (Q : unit → @logst S → Prop) :
  over s v s' → v_held v !! b1 = Some i1 → v_held v !! b2 = Some i2 →
  (∀ s'', over s (v_set b1 (v_cur v b2) v) s'' → Q tt s'') → wp (copy_data i1 i2) Q s'.
Proof.
  intros (c & -> & Hr) H1 H2 HQ. unfold copy_data. apply wp_onc. simpl.
  destruct (bc_lookup _ _ _ _ _ Hr H2) as [E _]. unfold wp. rewrite E. apply HQ. eexists. split; [done|].
  by apply bc_set_ok.
Qed.

Lemma over_start s v s' : over s v s' → start s' = start s ∧ ldev s' = ldev s ∧ lh_n s' = lh_n s ∧
  lh_block s' = lh_block s ∧ ∀ i, block_at s' i = block_at s i.
Proof. by intros (c & -> & _). Qed.

Lemma over_self s v : bc_rep (ldev s) (lcache s) v → over s v s.
Proof. intros Hr. exists (lcache s). by destruct s. Qed.

(** A block read, changed, written and released, with others untouched. *)
Lemma put_view_step v0 ws P b x i :
  v_release b (v_write b (v_set b x (v_hold b i (put_view v0 ws P)))) = put_view v0 (ws ++ [(b, x)]) P.
Proof.
  unfold v_release, v_write, v_set, v_hold, put_view. simpl.
  rewrite fn_lookup_insert, !apply_snoc, app_assoc. f_equal. by rewrite delete_insert_eq.
Qed.

(** The blocks of [write_one] and [install_one]: both are read, one is copied to
    the other and written. *)
Lemma room_one P (b : Z) : Z.of_nat (base.size P) < NBUF → Z.of_nat (base.size ({[b]} ∪ P)) ≤ NBUF.
Proof.
  intros HP. pose proof (size_union_alt {[b]} P) as E. rewrite size_singleton in E.
  assert (base.size (P ∖ {[b]}) ≤ base.size P)%nat by (apply subseteq_size; set_solver). lia.
Qed.

Lemma write_one_ok s s' v0 ws P tail :
  let lb := start s + tail + 1 in let blk := block_at s tail in
  over s (put_view v0 ws P) s' → blk ∈ P → lb ∉ P → Z.of_nat (base.size P) < NBUF →
  wp (write_one tail)
     (λ _, over s (put_view v0 (ws ++ [(lb, apply_writes ws (v_cur v0) blk)]) P)) s'.
Proof.
  intros lb blk Hs Hb Hl Hsz. assert (lb ≠ blk) as Hne by (intros E; apply Hl; by rewrite E).
  unfold write_one. wp_steps. unfold id.
  destruct (over_start _ _ _ Hs) as (-> & -> & _ & _ & ->). fold lb blk.
  eapply (bread_ok s); [exact Hs|by simpl; rewrite lookup_empty|unfold v_used; simpl|].
  { rewrite dom_empty_L, union_empty_l_L. by apply room_one. }
  intros to s1 H1. apply wp_bind. eapply (bread_ok s); [exact H1| |unfold v_used; simpl|].
  { simpl. by rewrite lookup_insert_ne, lookup_empty. }
  { replace ({[blk]} ∪ (dom (<[lb := to]> ∅ : gmap Z Z) ∪ P)) with ({[lb]} ∪ P : gset Z) by set_solver.
    by apply room_one. }
  intros from s2 H2. apply wp_bind. eapply (copy_ok s); [exact H2| | |].
  { simpl. by rewrite lookup_insert_ne, lookup_insert_eq by done. }
  { simpl. by rewrite lookup_insert_eq. }
  intros s3 H3. apply wp_bind. eapply (bwrite_ok s); [exact H3| |].
  { simpl. by rewrite lookup_insert_ne, lookup_insert_eq by done. }
  intros s4 H4. apply wp_bind. eapply (brelse_ok s); [exact H4| |by left|].
  { simpl. by rewrite lookup_insert_eq. }
  intros s5 H5. eapply (brelse_ok s); [exact H5| | |].
  { simpl. by rewrite lookup_delete_ne, lookup_insert_ne, lookup_insert_eq by done. }
  { right. simpl. by rewrite !fn_lookup_insert. }
  intros s6 H6. rewrite <- (put_view_step v0 ws P lb _ to).
  revert H6. unfold v_release, v_write, v_set, v_hold, put_view. simpl.
  rewrite delete_insert_id; [done|]. by rewrite lookup_insert_ne, lookup_empty.
Qed.

Lemma install_one_ok s s' v0 ws P tail recovering :
  let lb := start s + tail + 1 in let blk := block_at s tail in
  over s (put_view v0 ws P) s' → lb ≠ blk → lb ∉ P →
  (recovering = false → blk ∈ P) → (recovering = true → P = ∅) →
  Z.of_nat (base.size P) < NBUF →
  wp (install_one recovering tail)
     (λ _, over s (put_view v0 (ws ++ [(blk, apply_writes ws (v_cur v0) lb)]) (P ∖ {[blk]}))) s'.
Proof.
  intros lb blk Hs Hne Hl Hp Hr Hsz.
  assert (v_cur (put_view v0 ws P) lb = v_disk (put_view v0 ws P) lb) as Hclean.
  { destruct Hs as (c & _ & Hc). apply (bc_clean _ _ _ lb Hc). unfold v_used. simpl. set_solver. }
  unfold install_one. wp_steps. unfold id.
  destruct (over_start _ _ _ Hs) as (-> & -> & _ & _ & ->). fold lb blk.
  eapply (bread_ok s); [exact Hs|by simpl; rewrite lookup_empty|unfold v_used; simpl|].
  { rewrite dom_empty_L, union_empty_l_L. by apply room_one. }
  intros lbuf s1 H1. apply wp_bind. eapply (bread_ok s); [exact H1| |unfold v_used; simpl|].
  { simpl. by rewrite lookup_insert_ne, lookup_empty. }
  { destruct recovering.
    - rewrite Hr by done.
      replace ({[blk]} ∪ (dom (<[lb := lbuf]> ∅ : gmap Z Z) ∪ ∅)) with ({[blk]} ∪ {[lb]} : gset Z) by set_solver.
      apply (room_one {[lb]}). by rewrite size_singleton.
    - replace ({[blk]} ∪ (dom (<[lb := lbuf]> ∅ : gmap Z Z) ∪ P)) with ({[lb]} ∪ P : gset Z) by set_solver.
      by apply room_one. }
  intros dbuf s2 H2. apply wp_bind. eapply (copy_ok s); [exact H2| | |].
  { simpl. by rewrite lookup_insert_eq. }
  { simpl. by rewrite lookup_insert_ne, lookup_insert_eq by done. }
  intros s3 H3. apply wp_bind. eapply (bwrite_ok s); [exact H3| |].
  { simpl. by rewrite lookup_insert_eq. }
  intros s4 H4. apply wp_bind.
  set (v4 := v_write _ _) in H4. set (v5 := mk_view (v_disk v4) (v_cur v4) (v_held v4) (P ∖ {[blk]}) (v_trace v4)).
  apply (wp_mono _ (λ _, over s v5)).
  { apply wp_when; intros E; bsimpl.
    - eapply (bunpin_ok s); [exact H4|by simpl; rewrite lookup_insert_eq|by apply Hp|].
      intros s5 H5. exact H5.
    - assert (P ∖ {[blk]} = P) as E' by (rewrite (Hr E); set_solver).
      unfold v5. rewrite E'. exact H4. }
  intros [] s5 H5. apply wp_bind. eapply (brelse_ok s); [exact H5| | |].
  { simpl. by rewrite lookup_insert_ne, lookup_insert_eq by done. }
  { right. simpl in Hclean |- *. rewrite fn_lookup_insert_ne, fn_lookup_insert_ne by done. exact Hclean. }
  intros s6 H6. eapply (brelse_ok s); [exact H6| | |].
  { simpl. by rewrite lookup_delete_ne, lookup_insert_eq by done. }
  { right. simpl. by rewrite !fn_lookup_insert. }
  intros s7 H7. rewrite <- (put_view_step v0 ws _ blk _ dbuf).
  revert H7. unfold v5, v4, v_release, v_write, v_set, v_hold, put_view. simpl.
  rewrite insert_insert_ne, delete_insert_id; [done| |done].
  by rewrite lookup_insert_ne, lookup_empty.
Qed.

Lemma write_head_ok s s' v0 ws P :
  over s (put_view v0 ws P) s' → start s ∉ P → Z.of_nat (base.size P) < NBUF →
  wp write_head
     (λ _, over s (put_view v0
        (ws ++ [(start s, put_head (lh_n s) (lh_block s) (apply_writes ws (v_cur v0) (start s)))]) P)) s'.
Proof.
  intros Hs Hl Hsz. unfold write_head. wp_steps. unfold id.
  destruct (over_start _ _ _ Hs) as (-> & -> & -> & -> & _).
  eapply (bread_ok s); [exact Hs|by simpl; rewrite lookup_empty|unfold v_used; simpl|].
  { rewrite dom_empty_L, union_empty_l_L. by apply room_one. }
  intros i s1 (c & -> & Hr). apply wp_bind, wp_onc. simpl.
  assert (v_held (v_hold (start s) i (put_view v0 ws P)) !! start s = Some i) as Hi
    by (simpl; by rewrite lookup_insert_eq).
  destruct (bc_lookup _ _ _ _ _ Hr Hi) as [E _]. unfold wp at 1. rewrite E. clear E.
  eapply (bc_set_ok _ _ _ _ _ _ Hr) in Hi. apply wp_bind.
  eapply (bwrite_ok s); [eexists; split; [done|exact Hi]|by simpl; rewrite lookup_insert_eq|].
  intros s2 H2. eapply (brelse_ok s); [exact H2|by simpl; rewrite lookup_insert_eq| |].
  { right. simpl. by rewrite !fn_lookup_insert. }
  intros s3 H3. by rewrite <- (put_view_step v0 ws P (start s) _ i).
Qed.

(** *** The loops *)

Definition blocks s : list Z := block_at s <$> seqZ 0 (lh_n s).

Lemma elem_of_blocks s n j : 0 ≤ j < n → block_at s j ∈ block_at s <$> seqZ 0 n.
Proof. intros Hj. apply list_elem_of_fmap. exists j. split; [done|]. apply elem_of_seqZ. lia. Qed.

Definition log_writes s (x : Z → bytes) (n : Z) : writes :=
  (λ j, (start s + j + 1, x (block_at s j))) <$> seqZ 0 n.
Definition home_writes s (x : Z → bytes) (n : Z) : writes :=
  (λ j, (block_at s j, x j)) <$> seqZ 0 n.

Lemma seqZ_snoc n : 0 ≤ n → seqZ 0 (n + 1) = seqZ 0 n ++ [n].
Proof.
  intros Hn. pose proof (seqZ_app 0 n 1 Hn ltac:(lia)) as E. rewrite E. f_equal.
Qed.

Lemma log_writes_fst s x n b : b ∈ (log_writes s x n).*1 → start s < b < start s + n + 1.
Proof.
  unfold log_writes. rewrite <- list_fmap_compose. intros (j & -> & Hj)%list_elem_of_fmap.
  apply elem_of_seqZ in Hj. simpl. lia.
Qed.

Lemma home_writes_fst s x n b : b ∈ (home_writes s x n).*1 ↔ b ∈ block_at s <$> seqZ 0 n.
Proof. unfold home_writes. by rewrite <- list_fmap_compose. Qed.

(** The log block written for a block has its contents. *)
Lemma apply_log_writes s x n D j : 0 ≤ j < n →
  apply_writes (log_writes s x n) D (start s + j + 1) = x (block_at s j).
Proof.
  intros Hj.
  assert (start s + j + 1 ∈ (log_writes s x n).*1) as Hin.
  { unfold log_writes. rewrite <- list_fmap_compose. apply list_elem_of_fmap. exists j.
    split; [done|]. apply elem_of_seqZ. lia. }
  apply (apply_in _ D) in Hin. unfold log_writes in Hin at 2. apply list_elem_of_fmap in Hin as (k & [= Hk ->] & _).
  by replace k with j by lia.
Qed.

Lemma write_log_ok s s' v P :
  over s (put_view v [] P) s' → 0 ≤ lh_n s ≤ size s - 1 → list_to_set (blocks s) ⊆ P →
  (∀ b, b ∈ P → off_log (start s) (size s) b) → Z.of_nat (base.size P) < NBUF →
  wp write_log (λ _, over s (put_view v (log_writes s (v_cur v) (lh_n s)) P)) s'.
Proof.
  intros Hs Hn HP Hoff Hsz. unfold write_log. wp_steps.
  destruct (over_start _ _ _ Hs) as (_ & _ & -> & _).
  eapply wp_mono; [apply (wp_for_range (λ i, over s (put_view v (log_writes s (v_cur v) i) P)))|].
  - exact Hs.
  - intros j s1 Hj H1. assert (block_at s j ∈ P) as Hb.
    { apply HP, elem_of_list_to_set, elem_of_blocks. lia. }
    eapply wp_mono; [apply (write_one_ok s _ _ _ _ _ H1 Hb); [|done]|].
    { intros Hl. apply Hoff in Hl. unfold off_log in Hl. lia. }
    intros [] s2 H2. unfold log_writes. rewrite seqZ_snoc, fmap_app by lia. simpl.
    rewrite apply_notin in H2; [exact H2|]. intros Hx%log_writes_fst.
    apply Hoff in Hb. unfold off_log in Hb. lia.
  - intros [] s1 H1. rewrite Z.add_0_l, Z2Nat.id in H1 by lia. exact H1.
Qed.

Lemma blocks_fresh s n j : NoDup (block_at s <$> seqZ 0 n) → 0 ≤ j < n →
  block_at s j ∉ block_at s <$> seqZ 0 j.
Proof.
  intros Hnd Hj. replace n with ((j + 1) + (n - j - 1)) in Hnd by lia.
  rewrite seqZ_app, seqZ_snoc, !fmap_app in Hnd by lia. apply NoDup_app in Hnd as (Hnd & _ & _).
  apply NoDup_app in Hnd as (_ & Hd & _). intros Hin. apply (Hd _ Hin). simpl. by constructor.
Qed.

Lemma install_trans_ok (recovering : bool) s s' v ws P (x : Z → bytes) :
  over s (put_view v ws P) s' → 0 ≤ lh_n s ≤ size s - 1 →
  (∀ j, 0 ≤ j < lh_n s → off_log (start s) (size s) (block_at s j)) →
  (∀ j, 0 ≤ j < lh_n s → apply_writes ws (v_cur v) (start s + j + 1) = x j) →
  (if recovering then P = ∅ else P = list_to_set (blocks s) ∧ NoDup (blocks s)) →
  Z.of_nat (base.size P) < NBUF →
  wp (install_trans recovering)
     (λ _, over s (put_view v (ws ++ home_writes s x (lh_n s)) ∅)) s'.
Proof.
  intros Hs Hn Hoff Hx HP Hsz. unfold install_trans. wp_steps.
  destruct (over_start _ _ _ Hs) as (_ & _ & -> & _).
  assert (∀ b, b ∈ P → off_log (start s) (size s) b) as HPoff.
  { intros b Hb. destruct recovering; [set_solver|]. destruct HP as [-> _].
    apply elem_of_list_to_set, list_elem_of_fmap in Hb as (k & -> & Hk).
    apply elem_of_seqZ in Hk. apply Hoff. lia. }
  set (rest := λ i, P ∖ list_to_set (block_at s <$> seqZ 0 i)).
  eapply wp_mono; [apply (wp_for_range (λ i, over s (put_view v (ws ++ home_writes s x i) (rest i))))|].
  - unfold rest, home_writes. simpl. rewrite app_nil_r, difference_empty_L. exact Hs.
  - intros j s1 Hj H1. specialize (Hoff j ltac:(lia)) as Hb.
    assert (start s + j + 1 ≠ block_at s j) by (unfold off_log in Hb; lia).
    assert (rest j ⊆ P) as Hsub by (unfold rest; set_solver).
    eapply wp_mono; [apply (install_one_ok s _ _ _ _ _ recovering H1); [done|..]|].
    + intros Hl. apply Hsub, HPoff in Hl. unfold off_log in Hl. lia.
    + intros ->. destruct HP as [-> Hnd]. apply elem_of_difference. rewrite !elem_of_list_to_set.
      split; [apply elem_of_blocks; lia|]. apply (blocks_fresh s (lh_n s)); [done|lia].
    + intros ->. unfold rest. rewrite HP. set_solver.
    + apply subseteq_size in Hsub. lia.
    + intros [] s2 H2. rewrite apply_app, apply_notin, Hx, <- app_assoc in H2; [|lia|].
      * unfold home_writes, rest. rewrite seqZ_snoc, !fmap_app, list_to_set_app_L by lia. simpl.
        rewrite union_empty_r_L, <- difference_difference_l_L. exact H2.
      * rewrite home_writes_fst. intros (k & E & Hk)%list_elem_of_fmap. apply elem_of_seqZ in Hk.
        specialize (Hoff k ltac:(lia)). unfold off_log in Hoff. lia.
  - intros [] s1 H1. rewrite Z.add_0_l, Z2Nat.id in H1 by lia.
    replace (rest (lh_n s)) with (∅ : gset Z) in H1; [exact H1|].
    unfold rest. destruct recovering; [|destruct HP as [-> _]; unfold blocks]; set_solver.
Qed.

(** *** Commit *)

(** A transaction in progress: its blocks are pinned and off the log, they fit
    the log and the cache, and the log on disk is empty. *)
Record tx_ok s v : Prop := {
  tx_rep : bc_rep (ldev s) (lcache s) v;
  tx_n : 0 ≤ lh_n s ≤ size s - 1 ∧ lh_n s ≤ LOGSIZE ∧ lh_n s < NBUF;
  tx_len : Z.of_nat (length (lh_block s)) = LOGSIZE;
  tx_nodup : NoDup (blocks s);
  tx_pin : v_pin v = list_to_set (blocks s);
  tx_off : ∀ j, 0 ≤ j < lh_n s → 0 ≤ block_at s j < 2 ^ 31 ∧ off_log (start s) (size s) (block_at s j);
  tx_hdr_len : Z.of_nat (length (v_disk v (start s))) = BSIZE;
  tx_empty : hdr_n (start s) (v_disk v) = 0 }.

(** The disk writes of a commit: log, header, home locations, header. *)
Definition home_data s v : Z → bytes := λ j, v_cur v (block_at s j).
Definition head_full s v : bytes := put_head (lh_n s) (lh_block s) (v_cur v (start s)).
Definition head_empty s v : bytes := put_head 0 (lh_block s) (head_full s v).
Definition commit_writes s v : writes :=
  log_writes s (v_cur v) (lh_n s) ++ (start s, head_full s v) ::
  home_writes s (home_data s v) (lh_n s) ++ [(start s, head_empty s v)].

Section tx.
Context s v (Htx : tx_ok s v) (Hheld : v_held v = ∅).

Lemma tx_start_pin : start s ∉ v_pin v.
Proof.
  rewrite (tx_pin _ _ Htx), elem_of_list_to_set. intros (j & E & Hj)%list_elem_of_fmap.
  apply elem_of_seqZ in Hj. destruct (tx_off _ _ Htx j) as [_ Ho]; [lia|].
  pose proof (tx_n _ _ Htx). unfold off_log in Ho. lia.
Qed.

Lemma tx_pin_off b : b ∈ v_pin v → off_log (start s) (size s) b.
Proof.
  rewrite (tx_pin _ _ Htx), elem_of_list_to_set. intros (j & -> & Hj)%list_elem_of_fmap.
  apply elem_of_seqZ in Hj. apply (tx_off _ _ Htx). lia.
Qed.

Lemma tx_pin_size : Z.of_nat (base.size (v_pin v)) < NBUF.
Proof.
  rewrite (tx_pin _ _ Htx), size_list_to_set by apply (tx_nodup _ _ Htx).
  unfold blocks. rewrite length_fmap, length_seqZ. pose proof (tx_n _ _ Htx). lia.
Qed.

Lemma tx_cur_start : v_cur v (start s) = v_disk v (start s).
Proof.
  apply (bc_clean _ _ _ _ (tx_rep _ _ Htx)). unfold v_used. rewrite Hheld.
  pose proof tx_start_pin. set_solver.
Qed.

(** Blocks outside the transaction are the disk's. *)
Lemma tx_clean b : b ∉ blocks s → v_cur v b = v_disk v b.
Proof.
  intros Hb. apply (bc_clean _ _ _ _ (tx_rep _ _ Htx)). unfold v_used.
  rewrite Hheld, (tx_pin _ _ Htx). set_solver.
Qed.

Lemma start_not_home x n : n ≤ lh_n s → start s ∉ (home_writes s x n).*1.
Proof.
  intros Hn. rewrite home_writes_fst. intros (j & E & Hj)%list_elem_of_fmap. apply elem_of_seqZ in Hj.
  destruct (tx_off _ _ Htx j) as [_ Ho]; [lia|]. pose proof (tx_n _ _ Htx). unfold off_log in Ho. lia.
Qed.

Lemma log_not_home x n j : n ≤ lh_n s → 0 ≤ j < lh_n s → start s + j + 1 ∉ (home_writes s x n).*1.
Proof.
  intros Hn Hj. rewrite home_writes_fst. intros (k & E & Hk)%list_elem_of_fmap. apply elem_of_seqZ in Hk.
  destruct (tx_off _ _ Htx k) as [_ Ho]; [lia|]. pose proof (tx_n _ _ Htx). unfold off_log in Ho. lia.
Qed.

Lemma start_not_log x n : start s ∉ (log_writes s x n).*1.
Proof. intros Hb%log_writes_fst. lia. Qed.

(** What [commit] writes, and the state it leaves. *)
Lemma commit_ok : 0 < lh_n s →
  wp commit (λ _, over (set_n 0 s) (put_view v (commit_writes s v) ∅)) s.
Proof.
  intros Hpos. destruct (tx_n _ _ Htx) as (Hn & _ & _). unfold commit. wp_steps; [|lia].
  eapply wp_mono; [apply (write_log_ok s s v (v_pin v))|].
  { rewrite put_view_nil by exact Hheld. apply over_self, (tx_rep _ _ Htx). }
  { done. } { by rewrite (tx_pin _ _ Htx). } { apply tx_pin_off. } { apply tx_pin_size. }
  intros [] s1 H1. apply wp_bind.
  eapply wp_mono; [apply (write_head_ok s _ _ _ _ H1 tx_start_pin tx_pin_size)|].
  intros [] s2 H2. rewrite apply_notin in H2 by apply start_not_log. fold (head_full s v) in H2.
  apply wp_bind. eapply wp_mono; [apply (install_trans_ok false s s2 v _ _ (home_data s v) H2 Hn)|].
  { intros j Hj. by apply (tx_off _ _ Htx). }
  { intros j Hj. rewrite apply_snoc, fn_lookup_insert_ne by lia. by apply apply_log_writes. }
  { split; [apply (tx_pin _ _ Htx)|apply (tx_nodup _ _ Htx)]. } { apply tx_pin_size. }
  intros [] s3 (c & -> & H3). apply wp_bind, wp_modify.
  eapply wp_mono; [eapply (write_head_ok (set_n 0 s) _ v _ ∅)|].
  { exists c. split; [done|exact H3]. } { set_solver. } { done. }
  intros [] s4 H4. rewrite apply_app, apply_notin, apply_snoc, fn_lookup_insert in H4
    by (apply start_not_home; lia).
  unfold commit_writes. rewrite <- !app_assoc in H4. exact H4.
Qed.

(** The disk when the header has been written, and the disk after [j] installs. *)
Definition committed : disk :=
  <[start s := head_full s v]> (apply_writes (log_writes s (v_cur v) (lh_n s)) (v_disk v)).
Definition installed (j : nat) : disk :=
  apply_writes (take j (home_writes s (home_data s v) (lh_n s))) committed.

(** A disk whose header is empty: recovery does nothing. *)
Lemma recover_empty D b : hdr_n (start s) D = 0 → recover_disk (start s) D b = D b.
Proof. intros E. unfold recover_disk, recover_writes. by rewrite E. Qed.

Lemma hdr_ok_empty D :
  hdr_n (start s) D = 0 → Z.of_nat (length (D (start s))) = BSIZE → hdr_ok (start s) (size s) D.
Proof.
  intros E Hl. pose proof (tx_n _ _ Htx). split; [done|rewrite E; log_lia|rewrite E; lia].
Qed.

(** A crash before the commit point. *)
Lemma crash_before k :
  let D := apply_writes (take k (log_writes s (v_cur v) (lh_n s))) (v_disk v) in
  hdr_ok (start s) (size s) D ∧
  ∀ b, off_log (start s) (size s) b → recover_disk (start s) D b = v_disk v b.
Proof.
  intros D. assert (D (start s) = v_disk v (start s)) as E.
  { apply apply_notin. intros Hb%elem_of_take_fst. by apply start_not_log in Hb. }
  assert (hdr_n (start s) D = 0) as En by (unfold hdr_n; rewrite E; apply (tx_empty _ _ Htx)).
  split; [apply hdr_ok_empty; [done|rewrite E; apply (tx_hdr_len _ _ Htx)]|].
  intros b Hb. rewrite recover_empty by done. apply apply_notin.
  intros Hin%elem_of_take_fst%log_writes_fst. pose proof (tx_n _ _ Htx). unfold off_log in Hb. lia.
Qed.

Lemma length_head_full : Z.of_nat (length (head_full s v)) = BSIZE.
Proof. unfold head_full. rewrite length_put_head, tx_cur_start. apply (tx_hdr_len _ _ Htx). Qed.

Lemma installed_start j : installed j (start s) = head_full s v.
Proof.
  unfold installed. rewrite apply_notin; [unfold committed; by rewrite fn_lookup_insert|].
  intros Hb%elem_of_take_fst. revert Hb. by apply start_not_home.
Qed.

Lemma installed_n j : hdr_n (start s) (installed j) = lh_n s.
Proof.
  unfold hdr_n. rewrite installed_start. apply get_head_n; [pose proof (tx_n _ _ Htx); log_lia|].
  pose proof (tx_hdr_len _ _ Htx). rewrite tx_cur_start. log_lia.
Qed.

Lemma installed_block j i : 0 ≤ i < lh_n s → hdr_block (start s) (installed j) i = block_at s i.
Proof.
  intros Hi. unfold hdr_block. rewrite installed_start. pose proof (tx_n _ _ Htx) as Hn.
  pose proof (tx_len _ _ Htx) as Hl. pose proof (tx_hdr_len _ _ Htx) as Hh. unfold BSIZE, LOGSIZE, MAXOPBLOCKS in *.
  apply get_head_block; [done|rewrite tx_cur_start; lia| |by apply (tx_off _ _ Htx)].
  unfold block_at. destruct (lh_block s !! Z.to_nat i) eqn:E; [done|]. apply lookup_ge_None in E. lia.
Qed.

(** After the commit point recovery redoes the whole transaction. *)
Lemma installed_recover_writes j :
  recover_writes (start s) (installed j) = home_writes s (home_data s v) (lh_n s).
Proof.
  unfold recover_writes, home_writes. rewrite installed_n. apply list_fmap_ext. intros k i Hi.
  apply list_elem_of_lookup_2, elem_of_seqZ in Hi. rewrite installed_block by lia. f_equal.
  unfold installed. rewrite apply_notin.
  - unfold committed. rewrite fn_lookup_insert_ne by lia. apply apply_log_writes. lia.
  - intros Hb%elem_of_take_fst. revert Hb. apply log_not_home; lia.
Qed.

Lemma committed_new b : off_log (start s) (size s) b →
  apply_writes (home_writes s (home_data s v) (lh_n s)) committed b = v_cur v b.
Proof.
  intros Hb. pose proof (tx_n _ _ Htx). destruct (decide (b ∈ blocks s)) as [Hin|Hin].
  - assert (b ∈ (home_writes s (home_data s v) (lh_n s)).*1) as Hf by by apply home_writes_fst.
    apply (apply_in _ committed) in Hf. unfold home_writes in Hf at 2.
    by apply list_elem_of_fmap in Hf as (j & [= -> ->] & _).
  - rewrite apply_notin by by rewrite home_writes_fst.
    unfold committed, off_log in *. rewrite fn_lookup_insert_ne by lia.
    rewrite apply_notin by (intros Hx%log_writes_fst; lia). symmetry. by apply tx_clean.
Qed.

Lemma crash_mid j : hdr_ok (start s) (size s) (installed j) ∧
  ∀ b, off_log (start s) (size s) b → recover_disk (start s) (installed j) b = v_cur v b.
Proof.
  pose proof (tx_n _ _ Htx) as Hn. split.
  - split; [rewrite installed_start; apply length_head_full|rewrite installed_n; lia|].
    intros i Hi. rewrite installed_n in Hi. rewrite installed_block by lia. by apply (tx_off _ _ Htx).
  - intros b Hb. unfold recover_disk. rewrite installed_recover_writes. unfold installed.
    rewrite apply_redo. by apply committed_new.
Qed.

(** A crash after the header was cleared. *)
Lemma crash_after :
  let D := <[start s := head_empty s v]> (apply_writes (home_writes s (home_data s v) (lh_n s)) committed) in
  hdr_ok (start s) (size s) D ∧ hdr_n (start s) D = 0 ∧
  ∀ b, off_log (start s) (size s) b → D b = v_cur v b.
Proof.
  intros D. pose proof (tx_n _ _ Htx) as Hn. pose proof length_head_full as Hl.
  assert (D (start s) = head_empty s v) as E by (unfold D; by rewrite fn_lookup_insert).
  assert (hdr_n (start s) D = 0) as En.
  { unfold hdr_n. rewrite E. apply get_head_n; log_lia. }
  split; [|split; [done|]].
  - apply hdr_ok_empty; [done|]. rewrite E. unfold head_empty. by rewrite length_put_head.
  - intros b Hb. unfold D. unfold off_log in Hb. rewrite fn_lookup_insert_ne by lia. by apply committed_new.
Qed.

(** Every crash point. *)
Lemma commit_crash k :
  let D := apply_writes (take k (commit_writes s v)) (v_disk v) in
  hdr_ok (start s) (size s) D ∧
  ∀ b, off_log (start s) (size s) b →
    recover_disk (start s) D b = if decide (Z.of_nat k ≤ lh_n s) then v_disk v b else v_cur v b.
Proof.
  intros D. pose proof (tx_n _ _ Htx) as Hn.
  assert (length (log_writes s (v_cur v) (lh_n s)) = Z.to_nat (lh_n s)) as Hlen
    by (unfold log_writes; by rewrite length_fmap, length_seqZ).
  unfold D, commit_writes. destruct (decide _) as [Hk|Hk].
  { rewrite take_app_le by lia. apply crash_before. }
  rewrite take_app_ge by lia. destruct (k - _)%nat as [|j] eqn:Ej; [lia|]. cbn [take].
  rewrite apply_app. change (apply_writes (_ :: ?ws) _) with (apply_writes ws committed).
  assert (length (home_writes s (home_data s v) (lh_n s)) = Z.to_nat (lh_n s)) as Hlen'
    by (unfold home_writes; by rewrite length_fmap, length_seqZ).
  destruct (decide (j ≤ Z.to_nat (lh_n s))%nat) as [Hj|Hj].
  { rewrite take_app_le by lia. apply crash_mid. }
  rewrite take_app_ge, (take_ge [_]) by (simpl; lia). rewrite apply_snoc.
  destruct crash_after as (Hok & H0 & Hnew). split; [done|].
  intros b Hb. rewrite recover_empty by done. by apply Hnew.
Qed.

End tx.

(** *** Recovery *)

Definition set_head (n : Z) (bl : list Z) s : logst :=
  mk_logst (lcache s) (llock s) (start s) (size s) (outstanding s) (committing s) (ldev s) n bl.

Section recovery.
Context s v (Hrep : bc_rep (ldev s) (lcache s) v).
Context (Hheld : v_held v = ∅) (Hpin : v_pin v = ∅).
Context (Hok : hdr_ok (start s) (size s) (v_disk v)) (Hlen : Z.of_nat (length (lh_block s)) = LOGSIZE).

Notation D := (v_disk v).
Notation st := (start s).

Lemma boot_clean b : v_cur v b = D b.
Proof. apply (bc_clean _ _ _ _ Hrep). unfold v_used. rewrite Hheld, Hpin. set_solver. Qed.

Lemma read_head_ok :
  wp read_head (λ _ s', ∃ bl, over (set_head (hdr_n st D) bl s) v s' ∧ Z.of_nat (length bl) = LOGSIZE ∧
    ∀ i, 0 ≤ i < hdr_n st D → default 0 (bl !! Z.to_nat i) = hdr_block st D i) s.
Proof.
  unfold read_head. wp_steps. unfold id.
  eapply (bread_ok s); [by apply over_self|by rewrite Hheld|unfold v_used; rewrite Hheld, Hpin|].
  { replace ({[st]} ∪ (dom (∅ : gmap Z Z) ∪ ∅)) with ({[st]} : gset Z) by set_solver. by rewrite size_singleton. }
  intros i s1 (c & -> & Hr). assert (v_held (v_hold st i v) !! st = Some i) as Hi by (simpl; by rewrite lookup_insert_eq).
  destruct (bc_lookup _ _ _ _ _ Hr Hi) as [E _]. simpl in E. rewrite boot_clean in E.
  wp_steps. simpl. rewrite E. fold (hdr_n st D).
  pose proof (hdr_range _ _ _ Hok) as Hn.
  apply (wp_mono _ (λ _ s', ∃ bl, s' = set_head (hdr_n st D) bl (set_cache c s) ∧
    Z.of_nat (length bl) = LOGSIZE ∧
    ∀ i, 0 ≤ i < hdr_n st D → default 0 (bl !! Z.to_nat i) = hdr_block st D i)).
  - eapply wp_mono; [apply (wp_for_range (λ n s', ∃ bl, s' = set_head (hdr_n st D) bl (set_cache c s) ∧
      Z.of_nat (length bl) = LOGSIZE ∧ ∀ i, 0 ≤ i < n → default 0 (bl !! Z.to_nat i) = hdr_block st D i))|].
    + exists (lh_block s). split_and!; [done|done|lia].
    + intros j s1 Hj (bl & -> & Hl & Hbl). apply wp_modify.
      exists (<[Z.to_nat j := hdr_block st D j]> bl). split_and!; [done|by rewrite length_insert|].
      intros k Hk. destruct (decide (k = j)) as [->|].
      * rewrite list_lookup_insert_eq by lia. done.
      * rewrite list_lookup_insert_ne by lia. apply Hbl. lia.
    + intros [] s1 (bl & -> & Hl & Hbl). exists bl. split_and!; [done|done|]. intros k Hk. apply Hbl. lia.
  - intros [] s1 (bl & -> & Hl & Hbl). apply wp_onc. simpl.
    eapply wp_mono; [apply (bc_brelse_ok (ldev s) _ _ st i Hr Hi); right; apply boot_clean|].
    intros [] c' Hc'. exists bl. split_and!; [|done|done]. exists c'. split; [done|].
    replace (v_release st (v_hold st i v)) with v in Hc'; [exact Hc'|].
    unfold v_release, v_hold. simpl. rewrite delete_insert_id by by rewrite Hheld. by destruct v.
Qed.

(** What recovery writes. *)
Definition recovery_writes (h : bytes) : writes := recover_writes st D ++ [(st, h)].

Lemma recover_fst b : b ∈ (recover_writes st D).*1 → off_log st (size s) b.
Proof.
  unfold recover_writes. rewrite <- list_fmap_compose. intros (i & -> & Hi)%list_elem_of_fmap.
  apply elem_of_seqZ in Hi. apply (hdr_off _ _ _ Hok). lia.
Qed.

Lemma start_on : ¬ off_log st (size s) st.
Proof. pose proof (hdr_range _ _ _ Hok). unfold off_log. lia. Qed.

(** Partly recovered, the log is as it was, so recovery starts over. *)
Lemma recover_again k : let D' := apply_writes (take k (recover_writes st D)) D in
  hdr_ok st (size s) D' ∧ ∀ b, recover_disk st D' b = recover_disk st D b.
Proof.
  intros D'. assert (∀ b, ¬ off_log st (size s) b → D' b = D b) as Hlog.
  { intros b Hb. apply apply_notin. intros Hin%elem_of_take_fst. by apply Hb, recover_fst. }
  pose proof (Hlog _ start_on) as E. pose proof (hdr_range _ _ _ Hok) as Hn.
  assert (hdr_n st D' = hdr_n st D) as En by (unfold hdr_n; by rewrite E).
  assert (∀ i, hdr_block st D' i = hdr_block st D i) as Eb by (intros i; unfold hdr_block; by rewrite E).
  split.
  - split; [rewrite E; apply Hok|rewrite En; apply Hok|]. intros i Hi. rewrite En in Hi. rewrite Eb.
    by apply (hdr_off _ _ _ Hok).
  - intros b. unfold recover_disk.
    replace (recover_writes st D') with (recover_writes st D); [apply apply_redo|].
    unfold recover_writes. rewrite En. apply list_fmap_ext. intros j i Hi.
    apply list_elem_of_lookup_2, elem_of_seqZ in Hi. rewrite Eb. f_equal. symmetry. apply Hlog.
    unfold off_log. lia.
Qed.

(** The end of recovery: the log is empty and the disk is the recovered one. *)
Definition recovered (D' : disk) : Prop :=
  hdr_ok st (size s) D' ∧ hdr_n st D' = 0 ∧
  ∀ b, off_log st (size s) b → D' b = recover_disk st D b.

Lemma recovery_done bl :
  recovered (apply_writes (recovery_writes (put_head 0 bl (D st))) D).
Proof.
  pose proof (hdr_len _ _ _ Hok) as Hl. pose proof (hdr_range _ _ _ Hok) as Hn.
  unfold recovery_writes. rewrite apply_snoc. set (D' := <[_ := _]> _).
  assert (D' st = put_head 0 bl (D st)) as E by (unfold D'; by rewrite fn_lookup_insert).
  assert (hdr_n st D' = 0) as En by (unfold hdr_n; rewrite E; apply get_head_n; log_lia).
  split_and!; [|done|].
  - split; [rewrite E, length_put_head; done|rewrite En; log_lia|rewrite En; lia].
  - intros b Hb. unfold D'. rewrite fn_lookup_insert_ne; [done|]. intros <-. by apply start_on.
Qed.

Lemma recovery_crash bl k : let D' := apply_writes (take k (recovery_writes (put_head 0 bl (D st)))) D in
  hdr_ok st (size s) D' ∧
  ∀ b, off_log st (size s) b → recover_disk st D' b = recover_disk st D b.
Proof.
  intros D'. destruct (decide (k ≤ length (recover_writes st D))%nat) as [Hk|Hk].
  - unfold D', recovery_writes. rewrite take_app_le by done. destruct (recover_again k) as [H1 H2]. auto.
  - unfold D'. rewrite take_ge by (unfold recovery_writes; rewrite length_app; simpl; lia).
    destruct (recovery_done bl) as (H1 & H2 & H3). split; [done|]. intros b Hb.
    unfold recover_disk at 1, recover_writes. rewrite H2. by apply H3.
Qed.

Lemma recover_from_log_ok :
  wp recover_from_log (λ _ s', ∃ bl, Z.of_nat (length bl) = LOGSIZE ∧
    over (set_head 0 bl s) (put_view v (recovery_writes (put_head 0 bl (D st))) ∅) s') s.
Proof.
  unfold recover_from_log. apply wp_bind. eapply wp_mono; [apply read_head_ok|].
  intros [] s1 (bl & H1 & Hl & Hbl). set (s0 := set_head (hdr_n st D) bl s) in H1.
  apply wp_bind. pose proof (hdr_range _ _ _ Hok) as Hn.
  eapply wp_mono; [apply (install_trans_ok true s0 s1 v [] ∅ (λ j, D (st + j + 1)))|].
  { rewrite <- Hpin, put_view_nil; done. } { simpl. lia. }
  { intros j Hj. unfold block_at. simpl. rewrite Hbl by done. by apply (hdr_off _ _ _ Hok). }
  { intros j Hj. apply boot_clean. } { done. } { done. }
  intros [] s2 (c & -> & H2). apply wp_bind, wp_modify.
  replace ([] ++ home_writes s0 _ _) with (recover_writes st D) in H2.
  2:{ unfold home_writes, recover_writes. simpl. apply list_fmap_ext. intros k i Hi.
      apply list_elem_of_lookup_2, elem_of_seqZ in Hi. unfold block_at. simpl. rewrite Hbl by lia. done. }
  eapply wp_mono; [eapply (write_head_ok (set_head 0 bl s) _ v _ ∅)|].
  { exists c. split; [done|exact H2]. } { set_solver. } { done. }
  intros [] s3 H3. exists bl. split; [done|]. simpl in H3.
  rewrite apply_notin, boot_clean in H3; [exact H3|]. intros Hb. by apply start_on, recover_fst.
Qed.
End recovery.

End log_ops.

End LogCrash.
