(* ===== verification/LogTx.v ===== *)
(** * Transactions over the log

    The use of the log by a system call (begin_op; updates through log_write;
    end_op), and the theorems: a transaction is all or nothing under a crash at
    any disk write, recovery can itself be interrupted, and the admission control
    of begin_op keeps log_write from running out of log space. *)

From S2P Require Import Prelude Bytes Spinlock Riscv ListH Sleeplock Bio Log LogCrash.
Import Riscv Bytes Lock Bio Log LogCrash.

Module LogTx.

Section tx_ops.
Context {S : Type} `{BlockCache S}.
Implicit Types (s : @logst S) (c : S) (v : bview).

(** bp = bread(); modify bp->data; log_write(bp); brelse(bp). *)
Definition update (u : Z * bytes) : M logst unit :=
  s ← gets id;
  bp ← onc (bc_bread (ldev s) u.1);
  onc (λ c, Ret (tt, bc_set bp u.2 c));;
  log_write bp;;
  onc (bc_brelse bp).

Fixpoint updates (us : list (Z * bytes)) : M logst unit :=
  match us with
  | [] => mret tt
  | u :: us' => update u;; updates us'
  end.

Definition transaction (us : list (Z * bytes)) : M logst unit :=
  begin_op;; updates us;; end_op.

(** ** Between transactions *)

Record idle s v : Prop := {
  id_lock : llock s = false;
  id_out : outstanding s = 0;
  id_com : committing s = false;
  id_n : lh_n s = 0;
  id_len : Z.of_nat (length (lh_block s)) = LOGSIZE;
  id_rep : bc_rep (ldev s) (lcache s) v;
  id_held : v_held v = ∅;
  id_pin : v_pin v = ∅;
  id_hdr : hdr_ok (start s) (size s) (v_disk v);
  id_empty : hdr_n (start s) (v_disk v) = 0 }.

(** The machine rebooted with the disk [D]: an empty cache and zeroed memory. *)
Record booted (d : Z) (D : Z → bytes) s v : Prop := {
  bt_rep : bc_rep d (lcache s) v;
  bt_held : v_held v = ∅;
  bt_pin : v_pin v = ∅;
  bt_disk : v_disk v = D;
  bt_out : outstanding s = 0;
  bt_com : committing s = false;
  bt_len : Z.of_nat (length (lh_block s)) = LOGSIZE }.

(** ** Lemmas *)

Lemma idle_tx s v : idle s v → tx_ok s v.
Proof.
  intros Hi. pose proof (id_n _ _ Hi) as E. destruct (id_hdr _ _ Hi) as [H1 H2 H3].
  rewrite (id_empty _ _ Hi) in H2. split; try apply Hi; rewrite ?E; try done; try log_lia.
  - unfold blocks. rewrite E. constructor.
  - unfold blocks. rewrite E. apply Hi.
Qed.

(** The parts of the log that matter to a transaction. *)
Lemma tx_ok_move s s' v v' :
  tx_ok s v → bc_rep (ldev s') (lcache s') v' → start s' = start s → size s' = size s →
  lh_n s' = lh_n s → lh_block s' = lh_block s → v_pin v' = v_pin v → v_disk v' = v_disk v →
  tx_ok s' v'.
Proof.
  intros [] Hr E1 E2 E3 E4 E5 E6.
  assert (∀ j, block_at s' j = block_at s j) as Eb by (intros j; unfold block_at; by rewrite E4).
  assert (blocks s' = blocks s) as Ebs.
  { unfold blocks. rewrite E3. apply list_fmap_ext. intros. apply Eb. }
  split; rewrite ?E1, ?E2, ?E3, ?E4, ?E5, ?E6, ?Ebs; auto.
  intros j Hj. rewrite Eb. auto.
Qed.

Lemma begin_op_ok s (Q : unit → logst → Prop) :
  llock s = false → committing s = false →
  lh_n s + (outstanding s + 1) * MAXOPBLOCKS ≤ LOGSIZE →
  Q tt (set_outstanding (outstanding s + 1) s) → wp begin_op Q s.
Proof.
  intros Hl Hc Hsp HQ. unfold begin_op. apply wp_bind, wp_acquire; [done|]. wp_steps. unfold id.
  simpl. rewrite Hc. case_if; [lia|]. wp_steps. apply wp_release; [done|].
  destruct s. simpl in *. subst. exact HQ.
Qed.

(** The index of a block in the log header. *)
Lemma find_block s b :
  0 ≤ lh_n s ≤ Z.of_nat (length (lh_block s)) →
  match find_idx (λ x, x =? b) (take (Z.to_nat (lh_n s)) (lh_block s)) with
  | Some j => Z.of_nat j < lh_n s ∧ lh_block s !! j = Some b ∧ b ∈ blocks s
  | None => b ∉ blocks s
  end.
Proof.
  intros Hn. destruct (find_idx _ _) as [j|] eqn:E.
  - pose proof (find_idx_lt _ _ _ E) as Hlt. rewrite length_take in Hlt.
    apply find_idx_Some in E as [(x & Hx & Hxb) _]. bsimpl. subst x.
    rewrite lookup_take_lt in Hx by lia. split_and!; [lia|done|].
    unfold blocks. replace b with (block_at s (Z.of_nat j)).
    + apply elem_of_blocks. lia.
    + unfold block_at. by rewrite Nat2Z.id, Hx.
  - intros (j & -> & Hj)%list_elem_of_fmap. apply elem_of_seqZ in Hj.
    assert (lh_block s !! Z.to_nat j = Some (block_at s j)) as Hb.
    { unfold block_at. destruct (lh_block s !! Z.to_nat j) eqn:El; [done|]. apply lookup_ge_None in El. lia. }
    assert ((block_at s j =? block_at s j) = false) as Hf.
    { eapply (proj1 (find_idx_None _ _) E). apply (list_elem_of_lookup_2 _ (Z.to_nat j)).
      rewrite lookup_take_lt by lia. done. }
    rewrite Z.eqb_refl in Hf. done.
Qed.

(** A block is added at the end of the header, or is there already. *)
Lemma blocks_add s c b :
  0 ≤ lh_n s < Z.of_nat (length (lh_block s)) →
  blocks (set_n (lh_n s + 1) (set_cache c (set_block (lh_n s) b s))) = blocks s ++ [b].
Proof.
  intros Hn. unfold blocks. simpl. rewrite seqZ_snoc, fmap_app by lia. f_equal.
  - apply list_fmap_ext. intros k j Hj. apply list_elem_of_lookup_2, elem_of_seqZ in Hj.
    unfold block_at. simpl. by rewrite list_lookup_insert_ne by lia.
  - simpl. unfold block_at. simpl. by rewrite list_lookup_insert_eq by lia.
Qed.

Lemma tx_ok_add s c v b :
  tx_ok s v → bc_rep (ldev s) c (v_pinned b v) → b ∉ blocks s →
  lh_n s < LOGSIZE → lh_n s < size s - 1 → lh_n s + 1 < NBUF →
  0 ≤ b < 2 ^ 31 → off_log (start s) (size s) b →
  tx_ok (set_n (lh_n s + 1) (set_cache c (set_block (lh_n s) b s))) (v_pinned b v).
Proof.
  intros Ht Hr Hb H1 H2 H3 Hr31 Hoff. destruct (tx_n _ _ Ht) as (Hn & _ & _). pose proof (tx_len _ _ Ht) as Hl.
  split; simpl; try apply Ht; try done; rewrite ?blocks_add by lia.
  - lia.
  - rewrite length_insert. done.
  - apply NoDup_app. split_and!; [apply (tx_nodup _ _ Ht)|set_solver|apply NoDup_singleton].
  - rewrite (tx_pin _ _ Ht), list_to_set_app_L. simpl. set_solver.
  - intros j Hj. unfold block_at. simpl. destruct (decide (j = lh_n s)) as [->|].
    + rewrite list_lookup_insert_eq by lia. done.
    + rewrite list_lookup_insert_ne by lia. apply (tx_off _ _ Ht). lia.
Qed.

(** [log_write]: the block is in the transaction afterwards, once. *)
Lemma log_write_ok s v b i :
  tx_ok s v → v_held v !! b = Some i → llock s = false → 1 ≤ outstanding s →
  lh_n s < LOGSIZE → lh_n s < size s - 1 → lh_n s + 1 < NBUF →
  0 ≤ b < 2 ^ 31 → off_log (start s) (size s) b →
  wp (log_write i) (λ _ s', tx_ok s' (v_pinned b v) ∧ llock s' = false ∧
    outstanding s' = outstanding s ∧ committing s' = committing s ∧ ldev s' = ldev s ∧
    start s' = start s ∧ size s' = size s ∧ lh_n s ≤ lh_n s' ≤ lh_n s + 1) s.
Proof.
  intros Ht Hi Hlk Ho H1 H2 H3 Hr31 Hoff. destruct (tx_n _ _ Ht) as (Hn & _ & _).
  pose proof (tx_len _ _ Ht) as Hl.
  unfold log_write. apply wp_bind, wp_acquire; [done|]. wp_steps. unfold id. simpl.
  destruct (bc_lookup _ _ _ _ _ (tx_rep _ _ Ht) Hi) as [_ ->].
  destruct (_ || _) eqn:Hg; [apply orb_true_iff in Hg; bsimpl; destruct Hg; bsimpl; lia|].
  destruct (outstanding s <? 1) eqn:Ho'; bsimpl; [lia|]. cbv zeta. apply wp_bind, wp_modify.
  pose proof (find_block s b ltac:(lia)) as Hf.
  destruct (find_idx _ _) as [j|] eqn:E; simpl; apply wp_bind, wp_when; intros Hw; bsimpl; try lia.
  - destruct Hf as (Hj & Hb & Hin). apply wp_release; [done|]. simpl. split_and!; try done; try lia.
    assert (v_pinned b v = v) as ->.
    { unfold v_pinned. destruct v as [vd vc vh vp vt]. simpl. f_equal.
      pose proof (tx_pin _ _ Ht). simpl in *. set_solver. }
    eapply (tx_ok_move s); [exact Ht|apply (tx_rep _ _ Ht)|done|done|done| |done|done].
    simpl. rewrite Nat2Z.id. by apply list_insert_id.
  - apply wp_bind, wp_onc. simpl.
    eapply wp_mono; [apply (bc_bpin_ok (ldev s) _ v b i (tx_rep _ _ Ht) Hi)|].
    { rewrite (tx_pin _ _ Ht), elem_of_list_to_set. exact Hf. }
    intros [] c Hc. apply wp_modify, wp_release; [done|]. simpl. split_and!; try done; try lia.
    eapply (tx_ok_move (set_n (lh_n s + 1) (set_cache c (set_block (lh_n s) b s))));
      [by apply tx_ok_add|exact Hc|done..].
Qed.

(** *** A transaction *)

(** The transaction begun at [s] and [v] by [k] operations, after the updates [us]. *)
Record in_ops (k : Z) s v (us : list (Z * bytes)) s' : Prop := {
  it_tx : tx_ok s' (mk_view (v_disk v) (apply_writes us (v_cur v)) ∅ (list_to_set us.*1) (v_trace v));
  it_lock : llock s' = false;
  it_out : outstanding s' = k;
  it_com : committing s' = false;
  it_same : ldev s' = ldev s ∧ start s' = start s ∧ size s' = size s;
  it_n : lh_n s' ≤ Z.of_nat (length us) }.
Definition in_tx := in_ops 1.

Lemma begin_tx s v (Q : unit → logst → Prop) :
  idle s v → (∀ s', in_tx s v [] s' → Q tt s') → wp begin_op Q s.
Proof.
  intros Hi HQ. pose proof (id_n _ _ Hi) as E. apply begin_op_ok; try apply Hi.
  { rewrite E, (id_out _ _ Hi). log_lia. }
  apply HQ. split; simpl; try apply Hi; rewrite ?(id_out _ _ Hi), ?E; try done.
  pose proof (id_held _ _ Hi) as Hh. pose proof (id_pin _ _ Hi) as Hp.
  replace (mk_view _ _ _ _ _) with v by (destruct v; simpl in *; by subst).
  eapply (tx_ok_move s); [by apply idle_tx|apply Hi|done..].
Qed.

Lemma update_tx k s v us s' u (Q : unit → logst → Prop) :
  in_ops k s v us s' → 1 ≤ k → Z.of_nat (length us) + 1 < NBUF → Z.of_nat (length us) + 1 < size s →
  0 ≤ u.1 < 2 ^ 31 → off_log (start s) (size s) u.1 →
  (∀ s'', in_ops k s v (us ++ [u]) s'' → Q tt s'') → wp (update u) Q s'.
Proof.
  intros [Ht Hlk Ho Hc (Ed & Es & Ez) Hn] Hk Hlen Hsz Hr Hoff HQ. destruct u as [b x]. simpl in Hr, Hoff.
  unfold update. wp_steps. unfold id. simpl.
  set (w := mk_view _ _ _ _ _) in Ht.
  eapply (bread_ok s' s' w); [apply over_self, (tx_rep _ _ Ht)|by simpl; rewrite lookup_empty| |].
  { unfold v_used. simpl. rewrite dom_empty_L, union_empty_l_L. apply room_one. apply (tx_pin_size _ _ Ht). }
  intros i s1 (c & -> & Hc1). apply wp_bind, wp_onc. simpl.
  assert (v_held (v_hold b i w) !! b = Some i) as Hi by (simpl; by rewrite lookup_insert_eq).
  pose proof (bc_set_ok _ _ _ _ _ x Hc1 Hi) as Hc2. unfold wp at 1.
  apply wp_bind. eapply wp_mono; [apply (log_write_ok _ (v_set b x (v_hold b i w)) b i)|].
  { eapply (tx_ok_move s'); [exact Ht|exact Hc2|done..]. }
  { exact Hi. } { done. } { simpl. lia. } { simpl. log_lia. } { simpl. rewrite Ez. log_lia. }
  { simpl. log_lia. } { done. } { simpl. by rewrite Es, Ez. }
  intros [] s2 (Ht2 & H2). simpl in H2. destruct H2 as (Hl2 & Ho2 & Hc2' & Ed2 & Es2 & Ez2 & Hn2).
  eapply (brelse_ok s2); [apply over_self, (tx_rep _ _ Ht2)|exact Hi|left; simpl; set_solver|].
  intros s3 (c3 & -> & Hr3). apply HQ. split; simpl; try congruence.
  - replace (mk_view _ _ _ _ _) with (v_release b (v_pinned b (v_set b x (v_hold b i w)))).
    + eapply (tx_ok_move s2); [exact Ht2|exact Hr3|done..].
    + unfold v_release, v_pinned, v_set, v_hold, w. simpl. rewrite apply_snoc, delete_insert_eq. f_equal.
      rewrite fmap_app, list_to_set_app_L. simpl. set_solver.
  - rewrite Ed2, Es2, Ez2. auto.
  - rewrite length_app. simpl. lia.
Qed.

Lemma updates_tx k s v us : ∀ done s' (Q : unit → logst → Prop),
  in_ops k s v done s' → 1 ≤ k → Z.of_nat (length done + length us) < NBUF → Z.of_nat (length done + length us) < size s →
  (∀ b, b ∈ us.*1 → 0 ≤ b < 2 ^ 31 ∧ off_log (start s) (size s) b) →
  (∀ s'', in_ops k s v (done ++ us) s'' → Q tt s'') → wp (updates us) Q s'.
Proof.
  induction us as [|u us IH]; intros dn s' Q Hs Hk Hlen Hsz Hoff HQ; simpl.
  { apply wp_ret, HQ. by rewrite app_nil_r. }
  simpl in Hlen, Hsz. apply wp_bind. destruct (Hoff u.1) as [Hr Ho]; [simpl; by left|].
  apply (update_tx k s v dn); [done|done|lia|lia|done|done|].
  intros s1 H1. apply (IH (dn ++ [u])); [done|done|rewrite length_app; simpl; lia|rewrite length_app; simpl; lia| |].
  - intros b Hb. apply Hoff. simpl. by right.
  - intros s2 H2. apply HQ. by rewrite <- app_assoc in H2.
Qed.

(** Updates of different blocks take one entry of the header each. *)
Lemma ops_count k s v us s' : in_ops k s v us s' → NoDup us.*1 → lh_n s' = Z.of_nat (length us).
Proof.
  intros [Ht _ _ _ _ _] Hnd. destruct (tx_n _ _ Ht) as (Hn & _ & _). pose proof (tx_pin _ _ Ht) as Hp. simpl in Hp.
  apply (f_equal base.size) in Hp. rewrite !size_list_to_set in Hp by (done || apply (tx_nodup _ _ Ht)).
  unfold blocks in Hp. rewrite !length_fmap, length_seqZ in Hp. lia.
Qed.

(** The writes [ws] take the disk from the contents of [v] on disk to the current
    ones: whatever prefix of them a crash leaves, recovery yields one or the
    other, and the latter if all were made. *)
Definition atomic_writes (st sz : Z) (D D' : Z → bytes) (ws : writes) : Prop :=
  ∃ k0, (k0 ≤ length ws)%nat ∧ ∀ k, let Dk := apply_writes (take k ws) D in
    hdr_ok st sz Dk ∧ ∀ b, off_log st sz b →
      recover_disk st Dk b = if decide (k < k0)%nat then D b else D' b.

Lemma commit_atomic s v : tx_ok s v → v_held v = ∅ →
  wp commit (λ _ s', ∃ ws, over (set_n 0 s) (put_view v ws ∅) s' ∧
    hdr_n (start s) (apply_writes ws (v_disk v)) = 0 ∧
    atomic_writes (start s) (size s) (v_disk v) (v_cur v) ws) s.
Proof.
  intros Ht Hh. destruct (tx_n _ _ Ht) as (Hn & _ & _). destruct (decide (lh_n s = 0)) as [E|E].
  - unfold commit. apply wp_bind, wp_gets. rewrite E. simpl. apply wp_ret. exists [].
    assert (blocks s = []) as Eb by (unfold blocks; by rewrite E).
    split_and!; [|apply (tx_empty _ _ Ht)|].
    + exists (lcache s). split; [destruct s; simpl in *; by subst|].
      pose proof (tx_pin _ _ Ht) as Hp. rewrite Eb in Hp. simpl in Hp. rewrite <- Hp, put_view_nil by done.
      apply (tx_rep _ _ Ht).
    + exists 0%nat. split; [done|]. intros k. rewrite take_nil. cbn [apply_writes foldl].
      split; [apply (hdr_ok_empty _ _ Ht); [apply (tx_empty _ _ Ht)|apply (tx_hdr_len _ _ Ht)]|].
      intros b Hb. rewrite decide_False by lia. rewrite recover_empty by apply (tx_empty _ _ Ht).
      symmetry. apply (tx_clean _ _ Ht Hh). rewrite Eb. set_solver.
  - eapply wp_mono; [apply (commit_ok _ _ Ht Hh); lia|]. intros [] s' Hs'. exists (commit_writes s v).
    split_and!; [exact Hs'| |].
    + destruct (crash_after _ _ Ht Hh) as (_ & H0 & _). unfold commit_writes.
      rewrite apply_app. change (apply_writes (_ :: ?ws) _) with (apply_writes ws (committed s v)).
      rewrite apply_snoc. exact H0.
    + exists (Datatypes.S (Z.to_nat (lh_n s))). split.
      { unfold commit_writes, log_writes, home_writes. rewrite length_app. simpl.
        rewrite length_app, !length_fmap, !length_seqZ. simpl. lia. }
      intros k. destruct (commit_crash _ _ Ht Hh k) as [H1 H2]. split; [done|]. intros b Hb.
      rewrite H2 by done. repeat case_decide; try done; lia.
Qed.

(** [end_op] of the only operation commits; the log is idle again. *)
Lemma end_open s w : tx_ok s w → v_held w = ∅ → llock s = false → outstanding s = 1 → committing s = false →
  wp end_op (λ _ s', ∃ v' ws, idle s' v' ∧ ldev s' = ldev s ∧ start s' = start s ∧ size s' = size s ∧
    v_disk v' = apply_writes ws (v_disk w) ∧ v_trace v' = v_trace w ++ ws ∧
    atomic_writes (start s) (size s) (v_disk w) (v_cur w) ws) s.
Proof.
  intros Ht Hh Hlk Ho Hcm.
  unfold end_op, end_enter. apply wp_bind, wp_bind, wp_acquire; [done|].
  apply wp_bind, wp_modify. apply wp_bind, wp_gets. unfold id.
  simpl. rewrite Hcm, Ho. simpl. apply wp_bind, wp_modify. simpl. apply wp_bind, wp_release; [done|].
  apply wp_ret. set (s1 := lk_set false _). apply wp_bind.
  assert (tx_ok s1 w) as Ht1 by (eapply (tx_ok_move s); [exact Ht|apply (tx_rep _ _ Ht)|done..]).
  eapply wp_mono; [apply (commit_atomic _ _ Ht1); done|].
  intros [] s2 (ws & (c & -> & Hr) & H0 & k0 & Hk0 & Hcr).
  apply wp_bind, wp_acquire; [done|]. apply wp_bind, wp_modify, wp_release; [done|].
  simpl. exists (put_view w ws ∅), ws. split_and!; try done; [|by exists k0].
  split; try done; [apply (tx_len _ _ Ht)|].
  destruct (Hcr (length ws)) as [Hok _]. rewrite take_ge in Hok by done. exact Hok.
Qed.

Lemma end_tx s v us s' :
  in_tx s v us s' →
  wp end_op (λ _ s'', ∃ v' ws, idle s'' v' ∧
    ldev s'' = ldev s ∧ start s'' = start s ∧ size s'' = size s ∧
    v_disk v' = apply_writes ws (v_disk v) ∧ v_trace v' = v_trace v ++ ws ∧
    atomic_writes (start s) (size s) (v_disk v) (apply_writes us (v_cur v)) ws) s'.
Proof.
  intros [Ht Hlk Ho Hcm (Ed & Es & Ez) Hn]. eapply wp_mono; [apply (end_open s' _ Ht); done|].
  rewrite Ed, Es, Ez. done.
Qed.

(** What the disk holds after the commit. *)
Lemma committed_disk st sz D D' ws b : atomic_writes st sz D D' ws → hdr_n st (apply_writes ws D) = 0 → off_log st sz b →
  apply_writes ws D b = D' b.
Proof.
  intros (k0 & Hk0 & Hcr) H0 Hb. destruct (Hcr (length ws)) as [_ Hrec]. rewrite take_ge in Hrec by done.
  specialize (Hrec b Hb). rewrite decide_False in Hrec by lia. rewrite <- Hrec. unfold recover_disk, recover_writes. by rewrite H0.
Qed.

(** *** Recovery *)

Lemma initlog_ok d st sz D s v :
  booted d D s v → hdr_ok st sz D →
  wp (initlog d st sz) (λ _ s', ∃ v' ws, idle s' v' ∧
    ldev s' = d ∧ start s' = st ∧ size s' = sz ∧
    v_disk v' = apply_writes ws D ∧ v_trace v' = v_trace v ++ ws ∧
    (∀ b, off_log st sz b → v_disk v' b = recover_disk st D b) ∧
    ∀ k, let Dk := apply_writes (take k ws) D in
      hdr_ok st sz Dk ∧ ∀ b, off_log st sz b → recover_disk st Dk b = recover_disk st D b) s.
Proof.
  intros [Hr Hh Hp <- Ho Hc Hl] Hok. unfold initlog. apply wp_bind, wp_when; intros Hw; [done|].
  apply wp_bind, wp_modify. apply wp_bind, wp_modify. simpl. set (s1 := mk_logst _ _ _ _ _ _ _ _ _).
  eapply wp_mono; [apply (recover_from_log_ok s1 v); done|].
  intros [] s2 (bl & Hbl & c & -> & Hc2). simpl in *.
  exists (put_view v (recovery_writes s1 v (put_head 0 bl (v_disk v st))) ∅),
    (recovery_writes s1 v (put_head 0 bl (v_disk v st))).
  destruct (recovery_done s1 v Hok bl) as (Hok' & H0 & Hd).
  split_and!; try done.
  intros k. apply (recovery_crash s1 v Hok bl k).
Qed.

(** Rebooting after any number [k] of the writes [ws] to the disk [D] and running
    initlog yields, off the log, [D] or [D'], and [D'] from some write on. *)
Definition all_or_nothing (d st sz : Z) (D D' : Z → bytes) (ws : writes) : Prop :=
  ∃ k0, (k0 ≤ length ws)%nat ∧
  ∀ k s v, booted d (apply_writes (take k ws) D) s v →
    wp (initlog d st sz) (λ _ s', ∃ v', idle s' v' ∧
      ∀ b, off_log st sz b → v_disk v' b = if decide (k < k0)%nat then D b else D' b) s.

Lemma apply_ext ws (D D' : Z → bytes) : (∀ b, D b = D' b) → ∀ b, apply_writes ws D b = apply_writes ws D' b.
Proof.
  intros HD b. destruct (decide (b ∈ ws.*1)); [by apply apply_determined|].
  by rewrite !apply_notin.
Qed.

Lemma idle_clean s v b : idle s v → v_cur v b = v_disk v b.
Proof. intros Hi. eapply boot_clean; apply Hi. Qed.

Lemma atomic_boot d st sz D D1 D2 ws :
  atomic_writes st sz D D1 ws → (∀ b, D1 b = D2 b) → all_or_nothing d st sz D D2 ws.
Proof.
  intros (k0 & Hk0 & Hcr) HD. exists k0. split; [done|]. intros k s v Hb.
  destruct (Hcr k) as [Hok Hrec]. eapply wp_mono; [apply (initlog_ok _ _ _ _ _ _ Hb Hok)|].
  intros [] s' (v' & _ & Hi & _ & _ & _ & _ & _ & Hd & _). exists v'. split; [done|].
  intros b Ho. rewrite Hd, Hrec by done. case_decide; [done|]. apply HD.
Qed.
End tx_ops.

(** ** Properties *)

(** [C1] A transaction is atomic and durable.  From an idle log, begin_op, up to
    MAXOPBLOCKS updates through bread, log_write and brelse, and end_op run without
    panic or blocking and leave the disk (off the log) with the updates applied.
    If the machine crashes after any number k of the disk writes made on the way,
    reboots and runs initlog, the disk has none of the updates (before the header
    write) or all of them (after it), and all of them once end_op has returned. *)
Theorem transaction_atomic {S} `{BlockCache S} (s : @logst S) v us
  (Hidle : idle s v) (Hlen : Z.of_nat (length us) ≤ MAXOPBLOCKS) (Hsz : MAXOPBLOCKS < size s)
  (Hoff : ∀ b, b ∈ us.*1 → 0 ≤ b < 2 ^ 31 ∧ off_log (start s) (size s) b) :
  wp (transaction us) (λ _ s', ∃ v' ws, idle s' v' ∧ v_trace v' = v_trace v ++ ws ∧
    (∀ b, off_log (start s) (size s) b → v_disk v' b = apply_writes us (v_disk v) b) ∧
    all_or_nothing (S:=S) (ldev s) (start s) (size s) (v_disk v) (apply_writes us (v_disk v)) ws) s.
Proof.
  unfold transaction. apply wp_bind, (begin_tx s v); [done|]. intros s1 H1.
  apply wp_bind, (updates_tx 1 s v us []); [done|done|simpl; log_lia|simpl; log_lia|done|]. intros s2 H2.
  eapply wp_mono; [apply (end_tx s v us); exact H2|].
  intros [] s3 (v' & ws & Hi & _ & Es & Ez & Hd & Ht & Hat). exists v', ws.
  assert (∀ b, apply_writes us (v_cur v) b = apply_writes us (v_disk v) b) as Hcd.
  { apply apply_ext. intros b. by eapply idle_clean. }
  split_and!; [done|done| |by eapply atomic_boot].
  intros b Hb. rewrite Hd, (committed_disk _ _ _ _ _ _ Hat); [apply Hcd| |done]. rewrite <- Hd, <- Es. apply Hi.
Qed.

(** [C23] Recovery is correct and can be interrupted.  From a booted machine whose
    disk has a valid log header, initlog installs the committed transaction (or
    nothing, if the header is empty) and empties the log; if it crashes after any
    number of its own disk writes and is run again, the disk ends up the same. *)
Theorem recovery_restartable {S} `{BlockCache S} (d st sz : Z) (D : Z → bytes) (s : @logst S) v
  (Hboot : booted d D s v) (Hok : hdr_ok st sz D) :
  wp (initlog d st sz) (λ _ s', ∃ v' ws, idle s' v' ∧ v_trace v' = v_trace v ++ ws ∧
    (∀ b, off_log st sz b → v_disk v' b = recover_disk st D b) ∧
    ∀ k s2 v2, booted d (apply_writes (take k ws) D) s2 v2 →
      wp (initlog (S:=S) d st sz) (λ _ s3, ∃ v3, idle s3 v3 ∧
        ∀ b, off_log st sz b → v_disk v3 b = v_disk v' b) s2) s.
Proof.
  eapply wp_mono; [apply (initlog_ok _ _ _ _ _ _ Hboot Hok)|].
  intros [] s' (v' & ws & Hi & _ & _ & _ & _ & Ht & Hd & Hcr). exists v', ws. split_and!; [done|done|done|].
  intros k s2 v2 Hb. destruct (Hcr k) as [Hok' Hrec].
  eapply wp_mono; [apply (initlog_ok _ _ _ _ _ _ Hb Hok')|].
  intros [] s3 (v3 & _ & Hi3 & _ & _ & _ & _ & _ & Hd3 & _). exists v3. split; [done|].
  intros b Hb'. by rewrite Hd3, Hrec, Hd.
Qed.

(** ** Witnesses *)

(** A machine whose disk has an empty log in blocks 2..31. *)
Definition demo_disk : Z → bytes := λ b, replicate (Z.to_nat BSIZE) 0.
Definition demo_bst (D : Z → bytes) : bst :=
  mk_bst (λ _, mk_buf false 0 0 (Sleeplock.mk_sleeplock 0 0) 0 []) (ListH.mk_heap ∅ ∅) D [] false 7.
Definition demo_log (c : bst) : logst :=
  mk_logst c false 2 30 0 false 1 0 (replicate (Z.to_nat LOGSIZE) 0).

Lemma demo_booted D : ∃ c, binit (demo_bst D) = Ret (tt, c) ∧
  booted 1 D (demo_log c) (mk_view D D ∅ ∅ []).
Proof.
  assert (wp binit (λ _ c, rep 1 c (boot_view (demo_bst D))) (demo_bst D)) as Hw
    by (apply binit_rep; [lia|done]).
  destruct (wp_inv _ _ _ Hw) as ([] & c & E & Hr). exists c. split; [exact E|].
  by split.
Qed.

Lemma demo_hdr : hdr_ok 2 30 demo_disk ∧ hdr_n 2 demo_disk = 0.
Proof.
  assert (hdr_n 2 demo_disk = 0) as E by (vm_compute; reflexivity).
  split; [|exact E]. split; [vm_compute; reflexivity|rewrite E; vm_compute; split; [split|]; discriminate|].
  rewrite E. lia.
Qed.

Definition demo_updates : list (Z * bytes) := [(50, [1]); (60, [2]); (50, [3])].

Lemma transaction_atomic_witness : ∃ (s : @logst bst) v, idle s v ∧
  wp (transaction demo_updates) (λ _ s', ∃ v' ws, idle s' v' ∧ v_trace v' = v_trace v ++ ws ∧
    (∀ b, off_log 2 30 b → v_disk v' b = apply_writes demo_updates demo_disk b) ∧
    all_or_nothing (S:=bst) 1 2 30 demo_disk (apply_writes demo_updates demo_disk) ws) s.
Proof.
  destruct (demo_booted demo_disk) as (c & _ & Hb). destruct demo_hdr as [Hok H0].
  exists (demo_log c), (mk_view demo_disk demo_disk ∅ ∅ []).
  assert (idle (demo_log c) (mk_view demo_disk demo_disk ∅ ∅ [])) as Hi.
  { by split; try apply Hb. }
  split; [exact Hi|].
  apply (transaction_atomic (demo_log c) _ demo_updates Hi); [done|done|].
  intros b Hin. unfold off_log. simpl in Hin. set_unfold in Hin. simpl. lia.
Defined.

(** A disk with a committed transaction: block 50 is to get the contents of 3. *)
Definition demo_committed : Z → bytes :=
  <[2 := put_head 1 [50] (demo_disk 2)]> (<[3 := [7]]> demo_disk).

Lemma recovery_restartable_witness : ∃ (s : @logst bst),
  wp (initlog 1 2 30) (λ _ s', ∃ v' ws, idle s' v' ∧ v_trace v' = [] ++ ws ∧
    (∀ b, off_log 2 30 b → v_disk v' b = recover_disk 2 demo_committed b) ∧
    ∀ k s2 v2, booted 1 (apply_writes (take k ws) demo_committed) s2 v2 →
      wp (initlog (S:=bst) 1 2 30) (λ _ s3, ∃ v3, idle s3 v3 ∧
        ∀ b, off_log 2 30 b → v_disk v3 b = v_disk v' b) s2) s ∧
  recover_disk 2 demo_committed 50 = [7].
Proof.
  destruct (demo_booted demo_committed) as (c & _ & Hb). exists (demo_log c). split; [|vm_compute; reflexivity].
  apply (recovery_restartable 1 2 30 demo_committed _ _ Hb).
  assert (hdr_n 2 demo_committed = 1) as E by (vm_compute; reflexivity).
  split; [vm_compute; reflexivity|rewrite E; vm_compute; split; [split|]; discriminate|].
  rewrite E. intros i Hi. replace i with 0 by lia. vm_compute. intros [_ Hlt]. discriminate Hlt.
Defined.

End LogTx.
