(* ===== verification/LogAdmit.v ===== *)
(** * Admission control of the log

    Several processes use the log at once.  begin_op admits an operation only if
    the log has room for MAXOPBLOCKS blocks of it and of every other admitted
    operation; the steps below interleave begin_op, log_write, the two parts of
    end_op, and the reads and releases of buffers, in any order. *)

From S2P Require Import Prelude Bytes Spinlock Riscv ListH Sleeplock Bio Log LogCrash LogTx.
Import Riscv Bytes Lock Bio Log LogCrash LogTx.

Module LogAdmit.

Section admission.
Context {S : Type} `{BlockCache S}.
Implicit Types (s : @logst S) (w : gmap Z Z).

(** The log and, for each operation in progress, the log_writes it has made. *)
Inductive lstep : logst * gmap Z Z → logst * gmap Z Z → Prop :=
  | step_begin s w p s' :
      w !! p = None → begin_op s = Ret (tt, s') → lstep (s, w) (s', <[p := 0]> w)
  | step_write s w p n i s' :
      w !! p = Some n → n < MAXOPBLOCKS → log_write i s = Ret (tt, s') →
      lstep (s, w) (s', <[p := n + 1]> w)
  | step_cache s w c : lstep (s, w) (set_cache c s, w)
  | step_end s w p n b s' :
      w !! p = Some n → end_enter s = Ret (b, s') → lstep (s, w) (s', delete p w)
  | step_commit s w s' :
      committing s = true → end_commit s = Ret (tt, s') → lstep (s, w) (s', w).

(** The log blocks that operations in progress may still ask for. *)
Definition reserved w : Z := map_fold (λ _ n r, (MAXOPBLOCKS - n) + r) 0 w.

Record admitted s w : Prop := {
  ad_lock : llock s = false;
  ad_n : 0 ≤ lh_n s;
  ad_out : outstanding s = Z.of_nat (base.size w);
  ad_commit : committing s = true → w = ∅;
  ad_budget : map_Forall (λ _ n, 0 ≤ n ≤ MAXOPBLOCKS) w;
  ad_space : lh_n s + reserved w ≤ LOGSIZE }.

(** ** Lemmas: the reservation *)

Lemma reserved_insert w p n : w !! p = None → reserved (<[p := n]> w) = (MAXOPBLOCKS - n) + reserved w.
Proof. intros Hp. unfold reserved. apply (map_fold_insert_L (λ _ n r, (MAXOPBLOCKS - n) + r)); [|done]. intros. lia. Qed.

Lemma reserved_delete w p n : w !! p = Some n → reserved w = (MAXOPBLOCKS - n) + reserved (delete p w).
Proof. intros Hp. unfold reserved. apply (map_fold_delete_L (λ _ n r, (MAXOPBLOCKS - n) + r)); [|done]. intros. lia. Qed.

Lemma reserved_update w p n n' : w !! p = Some n →
  reserved (<[p := n']> w) = reserved w + n - n'.
Proof.
  intros Hp. rewrite <- insert_delete_eq, reserved_insert by apply lookup_delete_eq.
  rewrite (reserved_delete w p n) by done. lia.
Qed.

Lemma reserved_bounds w : map_Forall (λ _ n, 0 ≤ n ≤ MAXOPBLOCKS) w →
  0 ≤ reserved w ≤ Z.of_nat (base.size w) * MAXOPBLOCKS.
Proof.
  induction w as [|p n w Hp IH] using map_ind; intros Hw.
  { unfold reserved. rewrite map_fold_empty, map_size_empty. lia. }
  apply map_Forall_insert in Hw as [Hn Hw]; [|done]. rewrite reserved_insert, map_size_insert_None by done.
  specialize (IH Hw). log_lia.
Qed.

(** ** Lemmas: what the operations do to the header count *)

Lemma begin_op_inv s s' : begin_op s = Ret (tt, s') →
  committing s = false ∧ lh_n s + (outstanding s + 1) * MAXOPBLOCKS ≤ LOGSIZE ∧
  s' = lk_set false (set_outstanding (outstanding s + 1) s).
Proof.
  unfold begin_op, mbind, M_bind, acquire. cbn [lk_held logst_locked].
  destruct (llock s) eqn:El; [done|]. unfold gets, id. simpl.
  destruct (committing s) eqn:Ec; [done|]. case_if; [done|]. simpl. intros [= <-]. done.
Qed.

Lemma log_write_inv i s s' : log_write i s = Ret (tt, s') →
  llock s' = false ∧ outstanding s' = outstanding s ∧ committing s' = committing s ∧
  lh_n s ≤ lh_n s' ≤ lh_n s + 1.
Proof.
  unfold log_write, mbind, M_bind, acquire, gets, modify, when, onc, release. cbn [lk_held lk_set logst_locked].
  destruct (llock s) eqn:El; [done|]. unfold id. cbn -[find_idx take MAXOPBLOCKS].
  repeat case_if; try done; cbn -[find_idx take].
  - destruct (bc_bpin i (lcache s)) as [[[] c]| |]; try done. simpl. intros [= <-]. simpl. split_and!; lia || done.
  - intros [= <-]. simpl. split_and!; lia || done.
Qed.

(** Frames: loops over the cache leave the header alone. *)
Definition keeps {A} (m : M logst A) : Prop :=
  ∀ s a s', m s = Ret (a, s') → llock s' = llock s ∧ outstanding s' = outstanding s ∧
    committing s' = committing s ∧ lh_n s' = lh_n s.

Lemma keeps_onc {A} (m : M S A) : keeps (onc m).
Proof. intros s a s'. unfold onc. destruct (m (lcache s)) as [[]| |]; try done. by intros [= <- <-]. Qed.

Lemma keeps_bind {A B} (m : M logst A) (k : A → M logst B) :
  keeps m → (∀ a, keeps (k a)) → keeps (m ≫= k).
Proof.
  intros Hm Hk s b s'. unfold mbind, M_bind. destruct (m s) as [[a s1]| |] eqn:E; try done.
  intros E'. apply Hm in E as (<- & <- & <- & <-). by apply Hk in E'.
Qed.

Lemma keeps_gets {A} (f : @logst S → A) : keeps (gets f).
Proof. by intros s a s' [= <- <-]. Qed.

Lemma keeps_when b (m : M logst unit) : keeps m → keeps (when b m).
Proof. destruct b; [done|]. by intros _ s a s' [= <- <-]. Qed.

Lemma keeps_for n (body : Z → M logst unit) : ∀ i, (∀ j, keeps (body j)) → keeps (for_range i n body).
Proof.
  induction n as [|n IH]; intros i Hb; cbn [for_range]; [by intros s a s' [= <- <-]|].
  apply keeps_bind; [done|]. intros _. by apply IH.
Qed.

Ltac keeps_tac := repeat first
  [ apply keeps_bind; [|intros ?] | apply keeps_onc | apply keeps_gets | apply keeps_when | apply keeps_for; intros ? ].

Lemma keeps_loops r : keeps write_log ∧ keeps write_head ∧ keeps (install_trans r).
Proof.
  split_and!; unfold write_log, write_one, write_head, install_trans, install_one, copy_data; keeps_tac.
Qed.

Lemma commit_inv s s' : 0 ≤ lh_n s → commit s = Ret (tt, s') →
  llock s' = llock s ∧ outstanding s' = outstanding s ∧ committing s' = committing s ∧ lh_n s' = 0.
Proof.
  intros Hn. unfold commit, mbind, M_bind, gets, modify. destruct (0 <? lh_n s) eqn:E; bsimpl; simpl.
  2:{ intros [= <-]. split_and!; [done..|lia]. }
  destruct (keeps_loops false) as (H1 & H2 & H3).
  destruct (write_log s) as [[[] s1]| |] eqn:E1; try done. apply H1 in E1 as (<- & <- & <- & _).
  destruct (write_head s1) as [[[] s2]| |] eqn:E2; try done. apply H2 in E2 as (<- & <- & <- & _).
  destruct (install_trans false s2) as [[[] s3]| |] eqn:E3; try done. apply H3 in E3 as (<- & <- & <- & _).
  intros E4. by apply H2 in E4.
Qed.

Lemma end_enter_eq s : llock s = false → committing s = false →
  end_enter s = Ret (outstanding s - 1 =? 0,
    lk_set false (set_committing (outstanding s - 1 =? 0) (set_outstanding (outstanding s - 1) s))).
Proof.
  intros Hl Hc. unfold end_enter, mbind, M_bind, acquire, gets, modify, release, id. simpl. rewrite Hl. simpl.
  rewrite Hc. by destruct (outstanding s - 1 =? 0).
Qed.

(** ** The invariant *)

Lemma admitted_init s : llock s = false → outstanding s = 0 → committing s = false → lh_n s = 0 → admitted s ∅.
Proof.
  intros H1 H2 H3 H4. split; try done; rewrite ?H4; done.
Qed.

Lemma admitted_step sw sw' : lstep sw sw' → admitted sw.1 sw.2 → admitted sw'.1 sw'.2.
Proof.
  intros Hst [Hl Hn Ho Hc Hb Hs]. destruct Hst as [s w p s' Hp E|s w p n i s' Hp Hlt E|s w c|s w p n b s' Hp E|s w s' Hcm E]; simpl in *.
  - apply begin_op_inv in E as (Hcf & Hsp & ->). pose proof (reserved_bounds w Hb) as Hr.
    split; simpl; rewrite ?map_size_insert_None, ?reserved_insert by done; try done; try log_lia.
    + rewrite Hcf. done.
    + apply map_Forall_insert; [done|]. split; [log_lia|done].
  - apply log_write_inv in E as (Hl' & Ho' & Hc' & Hn'). pose proof (Hb _ _ Hp) as Hnb. simpl in Hnb.
    split; simpl; try done; try lia.
    + rewrite map_size_insert_Some by eauto. lia.
    + rewrite Hc'. intros Ht. rewrite (Hc Ht) in Hp. by rewrite lookup_empty in Hp.
    + apply map_Forall_insert_2; [lia|done].
    + rewrite (reserved_update w p n) by done. lia.
  - by split.
  - assert (committing s = false) as Hcf.
    { destruct (committing s); [|done]. rewrite Hc in Hp by done. by rewrite lookup_empty in Hp. }
    rewrite end_enter_eq in E by done. simplify_eq. pose proof (Hb _ _ Hp) as Hnb. simpl in Hnb.
    rewrite (reserved_delete w p n Hp) in Hs.
    pose proof (map_size_delete_Some p w ltac:(eauto)) as Hsz.
    assert (base.size w ≠ 0%nat) by (apply map_size_non_empty_iff; intros ->; done).
    split; simpl; try done; try lia.
    + intros Hz. bsimpl. apply map_size_empty_inv. lia.
    + by apply map_Forall_delete.
  - rewrite (Hc Hcm) in *. unfold end_commit, mbind, M_bind in E.
    destruct (commit s) as [[[] s1]| |] eqn:Ec; try done.
    apply commit_inv in Ec as (E1 & E2 & E3 & E4); [|done].
    unfold acquire, modify, release in E. simpl in E. rewrite E1, Hl in E. simpl in E. simplify_eq.
    apply admitted_init; simpl; try done. by rewrite E2, Ho, map_size_empty.
Qed.

Lemma admitted_rtc sw sw' : rtc lstep sw sw' → admitted sw.1 sw.2 → admitted sw'.1 sw'.2.
Proof. induction 1; [done|]. intros Ha. by apply IHrtc, (admitted_step _ _ H0). Qed.

(** An operation that has not used up its blocks finds room in the log. *)
Lemma admitted_room s w p n : admitted s w → w !! p = Some n → n < MAXOPBLOCKS →
  lh_n s < LOGSIZE ∧ committing s = false ∧ 1 ≤ outstanding s.
Proof.
  intros [Hl Hn Ho Hc Hb Hs] Hp Hlt. rewrite (reserved_delete w p n Hp) in Hs.
  pose proof (reserved_bounds (delete p w) (map_Forall_delete _ _ _ Hb)) as Hr.
  split_and!; [lia| |].
  - destruct (committing s); [|done]. rewrite Hc in Hp by done. by rewrite lookup_empty in Hp.
  - assert (base.size w ≠ 0%nat); [|lia]. intros E. apply map_size_empty_inv in E. subst.
    by rewrite lookup_empty in Hp.
Qed.

End admission.

(** ** Properties *)

(** [C24] Admission control works.  Start from an idle log and let any number of
    processes run begin_op, at most MAXOPBLOCKS log_writes each, and end_op, in any
    interleaving.  Then an operation is never cut off by a commit (log.committing
    is off while one is in progress), end_op does not panic, the blocks logged plus
    the blocks still reserved fit LOGSIZE, and, on a disk whose log has more than
    LOGSIZE blocks, log_write does not panic unless pinning the buffer does. *)
Theorem log_admission {S} `{BlockCache S} (s0 s : @logst S) w p n
  (Hinit : llock s0 = false ∧ outstanding s0 = 0 ∧ committing s0 = false ∧ lh_n s0 = 0)
  (Hreach : rtc lstep (s0, ∅) (s, w)) (Hp : w !! p = Some n) :
  committing s = false ∧ outstanding s = Z.of_nat (base.size w) ∧ lh_n s + reserved w ≤ LOGSIZE ∧
  (∃ b s', end_enter s = Ret (b, s')) ∧
  (n < MAXOPBLOCKS → LOGSIZE < size s →
   ∀ i msg, log_write i s = Panic msg → bc_bpin i (lcache s) = Panic msg).
Proof.
  destruct Hinit as (H1 & H2 & H3 & H4).
  pose proof (admitted_rtc _ _ Hreach (admitted_init s0 H1 H2 H3 H4)) as Ha. simpl in Ha.
  assert (committing s = false) as Hc.
  { destruct (committing s) eqn:E; [|done]. rewrite (ad_commit _ _ Ha E) in Hp. by rewrite lookup_empty in Hp. }
  split_and!; [done|apply Ha|apply Ha| |].
  - rewrite end_enter_eq by (done || apply Ha). eauto.
  - intros Hlt Hsz i msg. destruct (admitted_room _ _ _ _ Ha Hp Hlt) as (Hn & _ & Ho).
    pose proof (ad_lock _ _ Ha) as Hl.
    unfold log_write, mbind, M_bind, acquire, gets, modify, when, onc, release, id. simpl. rewrite Hl. simpl.
    destruct (_ || _) eqn:Hg; [apply orb_true_iff in Hg as [Hg|Hg]; bsimpl; lia|].
    destruct (outstanding s <? 1) eqn:Ho'; bsimpl; [lia|]. simpl.
    destruct (_ =? lh_n s); simpl; [|done].
    destruct (bc_bpin i (lcache s)) as [[[] c]| |]; simpl; intros E; by simplify_eq.
Qed.

Section gap.
Context {S : Type} `{BlockCache S}.
Implicit Types (s : @logst S).

Lemma begin_more k s v s' (Q : unit → logst → Prop) : in_ops k s v [] s' → (k + 1) * MAXOPBLOCKS ≤ LOGSIZE →
  (∀ s'', in_ops (k + 1) s v [] s'' → Q tt s'') → wp begin_op Q s'.
Proof.
  intros [Ht Hlk Ho Hc Hsame Hn] Hk HQ. destruct (tx_n _ _ Ht) as (Hn0 & _ & _). simpl in Hn. apply begin_op_ok; [done|done|rewrite Ho; lia|]. apply HQ. split; simpl; try done; [|lia].
  eapply (tx_ok_move s'); [exact Ht|apply (tx_rep _ _ Ht)|done..].
Qed.

Lemma log_write_full i s : llock s = false → size s - 1 ≤ lh_n s → log_write i s = Panic "too big a transaction".
Proof.
  intros Hl Hn. unfold log_write, mbind, M_bind, acquire, gets, id. cbn [lk_held lk_set logst_locked]. rewrite Hl. simpl.
  by rewrite (proj2 (Z.leb_le (size s - 1) (lh_n s))), orb_true_r by lia.
Qed.

Lemma update_full k s v us s' u : in_ops k s v us s' → lh_n s' = size s - 1 → update u s' = Panic "too big a transaction".
Proof.
  intros [Ht Hlk Ho Hc (Ed & Es & Ez) _] Hn. set (w := mk_view _ _ _ _ _) in Ht.
  assert (Hb : wp (onc (bc_bread (ldev s') u.1)) (λ i s2, llock s2 = false ∧ lh_n s2 = size s2 - 1) s').
  { eapply (bread_ok s' s' w); [apply over_self, (tx_rep _ _ Ht)|by simpl; rewrite lookup_empty| |].
    - unfold v_used. simpl. rewrite dom_empty_L, union_empty_l_L. apply room_one. apply (tx_pin_size _ _ Ht).
    - intros i s2 (c & -> & _). simpl. split; [done|lia]. }
  apply wp_inv in Hb as (i & s2 & E & Hl2 & Hn2). unfold update, mbind, M_bind, gets, id. rewrite E. unfold onc.
  rewrite log_write_full; [done|done|]. simpl. lia.
Qed.

End gap.

(** [C38] The room begin_op reserves is not all there.  On a log of at most LOGSIZE
    blocks, as mkfs makes it, one of them the header: begin_op admits three operations,
    which may write LOGSIZE blocks together; but whatever cache and disk, and whichever
    different blocks they write, after [size - 1] of them the next log_write panics,
    within what the three operations were promised.  begin_op counts LOGSIZE blocks,
    log_write stops at size - 1. *)
Theorem log_admission_gap {S} `{BlockCache S} (s : @logst S) v us u : idle s v → size s ≤ LOGSIZE →
  Z.of_nat (length us) = size s - 1 → NoDup us.*1 →
  (∀ b, b ∈ us.*1 → 0 ≤ b < 2 ^ 31 ∧ off_log (start s) (size s) b) →
  Z.of_nat (length (us ++ [u])) ≤ 3 * MAXOPBLOCKS ∧
  ∃ s', (begin_op;; begin_op;; begin_op;; updates us) s = Ret (tt, s') ∧ outstanding s' = 3 ∧ lh_n s' = size s - 1 ∧
    update u s' = Panic "too big a transaction".
Proof.
  intros Hi Hsz Hlen Hnd Hoff. split; [rewrite length_app; simpl; log_lia|].
  assert (Hw : wp (begin_op;; begin_op;; begin_op;; updates us) (λ _ s', in_ops 3 s v us s') s).
  { apply wp_bind, (begin_tx s v); [done|]. intros s1 H1. apply wp_bind, (begin_more 1 s v); [done|done|]. intros s2 H2.
    apply wp_bind, (begin_more 2 s v); [done|done|]. intros s3 H3. apply (updates_tx 3 s v us []); [done|done|simpl; log_lia|simpl; lia|done|].
    by intros s4 H4. }
  apply wp_inv in Hw as ([] & s' & E & Hs). exists s'. pose proof (ops_count _ _ _ _ _ Hs Hnd) as Hn.
  split; [done|]. split; [apply Hs|]. split; [lia|]. eapply update_full; [exact Hs|lia].
Qed.

(** ** Witnesses *)

(** Twenty-nine blocks on the log of the demo disk. *)
Definition gap_blocks : list (Z * bytes) := map (λ b, (b, [])) (seqZ 100 29).

Lemma log_admission_gap_witness : ∃ s : @logst bst, size s = LOGSIZE ∧
  ∃ s', (begin_op;; begin_op;; begin_op;; updates gap_blocks) s = Ret (tt, s') ∧ update (200, []) s' = Panic "too big a transaction".
Proof.
  destruct (demo_booted demo_disk) as (c & _ & Hb). destruct demo_hdr as [Hok H0].
  assert (Hi : idle (demo_log c) (mk_view demo_disk demo_disk ∅ ∅ [])) by (by split; try apply Hb).
  exists (demo_log c). split; [reflexivity|]. destruct (log_admission_gap (demo_log c) _ gap_blocks (200, []) Hi) as (_ & s' & E & _ & _ & Hp).
  - vm_compute. discriminate.
  - reflexivity.
  - apply (bool_decide_unpack _). vm_compute. exact I.
  - assert (Eb : gap_blocks.*1 = seqZ 100 29) by reflexivity. rewrite Eb. intros b Hin. apply elem_of_seqZ in Hin. unfold off_log. simpl. lia.
  - exists s'. split; [exact E|exact Hp].
Defined.

(** Two operations, one of which has logged a block. *)

Definition fresh_log : outcome (unit * @logst bst) :=
  match binit (demo_bst demo_disk) with
  | Ret (_, c) => Ret (tt, demo_log c)
  | Panic msg => Panic msg
  | Block => Block
  end.

Definition is_ret {A} (o : outcome A) : bool := match o with Ret _ => true | _ => false end.
Definition after (m : M (@logst bst) unit) (s : logst) : logst :=
  match m s with Ret (_, s') => s' | _ => s end.

Lemma after_eq m s : is_ret (m s) = true → m s = Ret (tt, after m s).
Proof. unfold after. by destruct (m s) as [[[] s']| |]. Qed.

Definition w0 : logst := match fresh_log with Ret (_, s) => s | _ => demo_log (demo_bst demo_disk) end.
Definition w2 : logst := after begin_op (after begin_op w0).
Definition w3 : logst := match onc (bread 1 100) w2 with Ret (_, s) => set_cache (lcache s) w2 | _ => w2 end.
Definition w3_buf : Z := match onc (bread 1 100) w2 with Ret (i, _) => i | _ => 0 end.

Lemma log_admission_witness :
  let s := after (log_write w3_buf) w3 in let w : gmap Z Z := {[1 := 1; 2 := 0]} in
  lh_n s = 1 ∧
  (committing s = false ∧ outstanding s = Z.of_nat (base.size w) ∧ lh_n s + reserved w ≤ LOGSIZE ∧
   (∃ b s', end_enter s = Ret (b, s')) ∧
   (1 < MAXOPBLOCKS → LOGSIZE < size s →
    ∀ i msg, log_write i s = Panic msg → bc_bpin i (lcache s) = Panic msg)).
Proof.
  intros s w. split; [vm_compute; reflexivity|].
  apply (log_admission w0 s w 1 1); [vm_compute; by split_and!| |vm_compute; reflexivity].
  apply (rtc_l _ _ (after begin_op w0, <[1 := 0]> ∅)).
  { apply step_begin; [done|]. apply after_eq. vm_compute. reflexivity. }
  apply (rtc_l _ _ (w2, <[2 := 0]> (<[1 := 0]> ∅))).
  { apply step_begin; [done|]. apply after_eq. vm_compute. reflexivity. }
  apply (rtc_l _ _ (w3, <[2 := 0]> (<[1 := 0]> ∅))).
  { unfold w3. destruct (onc _ w2) as [[? s']| |] eqn:E; [apply step_cache|vm_compute in E; discriminate E..]. }
  apply rtc_once. replace w with (<[1 := 0 + 1]> (<[2 := 0]> (<[1 := 0]> (∅ : gmap Z Z)))) by reflexivity.
  apply (step_write _ _ 1 0 w3_buf); [done|done|]. apply after_eq. vm_compute. reflexivity.
Defined.

End LogAdmit.
