(* ===== verification/Journal.v ===== *)
(** * The contract of the log towards the file system

    A file-system call runs between begin_op and end_op.  Inside, it reads and
    locks blocks (bread), changes them, hands the changed ones to the log
    (log_write) and lets go of them (brelse).  [Journal] states what it may rely
    on; [log_journal] shows that the log of Log.v, with a transaction open, keeps
    it over any block cache that keeps [BlockCache]. *)

From S2P Require Import Prelude Bytes Spinlock Riscv ListH Sleeplock Bio Log LogCrash LogTx.
Import Riscv Bytes Lock Bio Log LogCrash LogTx.

Module Journal.

(** The contents of the disk as the call sees them; the blocks it has locked, with
    their buffers; the blocks in the transaction; the blocks it has changed and
    not handed to the log yet. *)
Record jview := mk_jview {
  j_cur : Z → bytes; j_held : gmap Z Z; j_log : gset Z; j_dirty : gset Z }.

Definition j_used (v : jview) : gset Z := dom (j_held v) ∪ j_log v.

Definition jv_hold (b i : Z) (v : jview) : jview :=
  mk_jview (j_cur v) (<[b := i]> (j_held v)) (j_log v) (j_dirty v).
Definition jv_release (b : Z) (v : jview) : jview :=
  mk_jview (j_cur v) (delete b (j_held v)) (j_log v) (j_dirty v).
Definition jv_set (b : Z) (x : bytes) (v : jview) : jview :=
  mk_jview (<[b := x]> (j_cur v)) (j_held v) (j_log v) ({[b]} ∪ j_dirty v).
Definition jv_logged (b : Z) (v : jview) : jview :=
  mk_jview (j_cur v) (j_held v) ({[b]} ∪ j_log v) (j_dirty v ∖ {[b]}).

(** [j_cap] is the number of blocks a transaction can log, [j_area] the blocks
    that belong to the log itself. *)
Class Journal (J : Type) := {
  j_cap : J → Z;
  j_area : J → Z → Prop;
  j_bread : Z → Z → M J Z;
  j_brelse : Z → M J unit;
  j_log_write : Z → M J unit;
  j_data : J → Z → bytes;
  j_set : Z → bytes → J → J;
  j_rep : Z → J → jview → Prop;
  j_lookup d s v b i : j_rep d s v → j_held v !! b = Some i → j_data s i = j_cur v b;
  j_bread_ok d s v b : j_rep d s v → j_held v !! b = None →
    Z.of_nat (base.size ({[b]} ∪ j_used v)) ≤ NBUF →
    wp (j_bread d b) (λ i s', j_rep d s' (jv_hold b i v) ∧ j_cap s' = j_cap s ∧ j_area s' = j_area s) s;
  j_set_ok d s v b i x : j_rep d s v → j_held v !! b = Some i →
    j_rep d (j_set i x s) (jv_set b x v) ∧ j_cap (j_set i x s) = j_cap s ∧ j_area (j_set i x s) = j_area s;
  j_log_write_ok d s v b i : j_rep d s v → j_held v !! b = Some i →
    Z.of_nat (base.size (j_log v)) < j_cap s → 0 ≤ b < 2 ^ 31 → ¬ j_area s b →
    wp (j_log_write i) (λ _ s', j_rep d s' (jv_logged b v) ∧ j_cap s' = j_cap s ∧ j_area s' = j_area s) s;
  j_brelse_ok d s v b i : j_rep d s v → j_held v !! b = Some i → b ∉ j_dirty v →
    wp (j_brelse i) (λ _ s', j_rep d s' (jv_release b v) ∧ j_cap s' = j_cap s ∧ j_area s' = j_area s) s }.

(** ** The log keeps it *)

Section log_journal.
Context {S : Type} `{BlockCache S}.

(** What does not change while the transaction is open: the disk, the writes made
    to it, the log's place, the number of operations, [committing]. *)
Context (Fr : (Z → bytes) → writes → Z → Z → Z → bool → Prop).
Definition framed (s : @logst S) (bv : bview) : Prop :=
  Fr (v_disk bv) (v_trace bv) (start s) (size s) (outstanding s) (committing s).

(** A transaction is open: every block is the disk's, logged, or dirty. *)
Definition lrep (d : Z) (s : @logst S) (v : jview) : Prop :=
  ldev s = d ∧ llock s = false ∧ 1 ≤ outstanding s ∧ j_dirty v ⊆ dom (j_held v) ∧
  ∃ bv, (tx_ok s bv ∧ framed s bv) ∧ (∀ b, v_cur bv b = j_cur v b) ∧ v_held bv = j_held v ∧ v_pin bv = j_log v ∧
    ∀ b, b ∈ j_dirty v ∨ b ∈ j_log v ∨ v_cur bv b = v_disk bv b.

Definition lcap (s : @logst S) : Z := Z.min (Z.min LOGSIZE (size s - 1)) (NBUF - 1).

Lemma lrep_count d s v : lrep d s v → lh_n s = Z.of_nat (base.size (j_log v)).
Proof.
  intros (_ & _ & _ & _ & bv & [Ht _] & _ & _ & <- & _). rewrite (tx_pin _ _ Ht), size_list_to_set by apply Ht.
  unfold blocks. rewrite length_fmap, length_seqZ. pose proof (tx_n _ _ Ht). lia.
Qed.

Lemma lrep_lookup d s v b i : lrep d s v → j_held v !! b = Some i → bc_data (lcache s) i = j_cur v b.
Proof.
  intros (_ & _ & _ & _ & bv & [Ht _] & Hc & Hh & _) Hi. rewrite <- Hh in Hi. rewrite <- Hc.
  by apply (bc_lookup _ _ _ _ _ (tx_rep _ _ Ht)).
Qed.

(** A step of the cache under the log. *)
Lemma lrep_cache d s v v' c bv bv' :
  lrep d s v → tx_ok s bv → framed s bv → bc_rep (ldev s) c bv' → v_pin bv' = v_pin bv → v_disk bv' = v_disk bv → v_trace bv' = v_trace bv →
  (∀ b, v_cur bv' b = j_cur v' b) → v_held bv' = j_held v' → v_pin bv' = j_log v' →
  (∀ b, b ∈ j_dirty v' ∨ b ∈ j_log v' ∨ v_cur bv' b = v_disk bv' b) → j_dirty v' ⊆ dom (j_held v') →
  lrep d (set_cache c s) v'.
Proof.
  intros (Hd & Hl & Ho & _) Ht Hfr Hr Hp Hdk Htr Hc Hh Hp' Hx Hdd. split_and!; try done.
  exists bv'. split_and!; try done; [by eapply (tx_ok_move s)|]. unfold framed in *. by rewrite Hdk, Htr.
Qed.

#[local, refine] Instance log_journal_at : Journal (@logst S) := {|
  j_cap := lcap;
  j_area s b := start s ≤ b < start s + size s;
  j_bread d b := onc (bc_bread d b);
  j_brelse i := onc (bc_brelse i);
  j_log_write i := log_write i;
  j_data s i := bc_data (lcache s) i;
  j_set i x s := set_cache (bc_set i x (lcache s)) s;
  j_rep := lrep;
  j_lookup := lrep_lookup |}.
Proof.
  - intros d s v b Hs Hn Hsz. pose proof Hs as (Hd & Hl & Ho & Hdd & bv & [Ht Hfr] & Hc & Hh & Hp & Hx).
    apply wp_onc. rewrite <- Hd.
    eapply wp_mono; [apply (bc_bread_ok (ldev s) _ bv b (tx_rep _ _ Ht)); [by rewrite Hh|]|].
    { unfold v_used. by rewrite Hh, Hp. }
    intros i c Hr. split; [|done]. rewrite Hd in Hr |- *.
    eapply (lrep_cache _ s v _ c bv (v_hold b i bv)); simpl; try done; [by rewrite Hd|by rewrite Hh|].
    rewrite dom_insert. set_solver.
  - intros d s v b i x Hs Hi. pose proof Hs as (Hd & Hl & Ho & Hdd & bv & [Ht Hfr] & Hc & Hh & Hp & Hx).
    rewrite <- Hh in Hi. pose proof (bc_set_ok _ _ _ _ _ x (tx_rep _ _ Ht) Hi) as Hr. split; [|done].
    eapply (lrep_cache _ s v _ _ bv (v_set b x bv)); simpl; try done.
    + intros b'. destruct (decide (b' = b)) as [->|]; [by rewrite !fn_lookup_insert|].
      by rewrite !fn_lookup_insert_ne.
    + intros b'. destruct (decide (b' = b)) as [->|]; [left; set_solver|].
      rewrite fn_lookup_insert_ne by done. destruct (Hx b') as [?|?]; [left; set_solver|by right].
    + assert (b ∈ dom (j_held v)) by (rewrite <- Hh; by eapply elem_of_dom_2). set_solver.
  - intros d s v b i Hs Hi Hcap Hb Ha. pose proof Hs as (Hd & Hl & Ho & Hdd & bv & [Ht Hfr] & Hc & Hh & Hp & Hx).
    rewrite <- (lrep_count _ _ _ Hs) in Hcap. unfold lcap in Hcap.
    eapply wp_mono; [apply (log_write_ok s bv b i Ht); try done; try lia; by rewrite Hh|].
    intros [] s' (Ht' & Hl' & Ho' & Hcm' & Hd' & Hst & Hsz & _).
    split; [|unfold lcap; by rewrite Hst, Hsz].
    split_and!; [congruence|done|lia|set_solver|]. exists (v_pinned b bv). simpl. rewrite Hp.
    split_and!; try done; [unfold framed in *; by rewrite Hst, Hsz, Ho', Hcm'|]. intros b'. destruct (Hx b') as [?|[?|?]]; [|set_solver|set_solver].
    destruct (decide (b' = b)); set_solver.
  - intros d s v b i Hs Hi Hdirty. pose proof Hs as (Hd & Hl & Ho & Hdd & bv & [Ht Hfr] & Hc & Hh & Hp & Hx).
    apply wp_onc. rewrite <- Hh in Hi.
    eapply wp_mono; [apply (bc_brelse_ok (ldev s) _ bv b i (tx_rep _ _ Ht) Hi); rewrite Hp; destruct (Hx b); naive_solver|].
    intros [] c Hr. split; [|done].
    eapply (lrep_cache _ s v _ c bv (v_release b bv)); simpl; try done; [by rewrite Hh|].
    rewrite dom_delete. set_solver.
Defined.

End log_journal.

#[export] Instance log_journal {S : Type} `{BlockCache S} : Journal (@logst S) := log_journal_at (λ _ _ _ _ _ _, True).

End Journal.
