(* ===== verification/Fs.v ===== *)
(** * kernel/fs.c, kernel/fs.h: the file system

    Blocks (balloc, bfree), inodes (the table, ialloc, iupdate, ilock, iput),
    inode contents (bmap, itrunc, readi, writei), directories (dirlookup,
    dirlink) and names (skipelem, namex), over any [Journal].

    Pointers into the inode table are indices 0 .. NINODE-1; a null pointer is
    [None] where the code returns one.  User memory is reached through the
    arguments [out] (either_copyout: can these bytes be stored at this address)
    and [inp] (either_copyin: the bytes it puts into the buffer, and whether it
    reaches the end). *)

From S2P Require Import Prelude Bytes Spinlock Riscv ListH Sleeplock Bio Log LogCrash LogTx Journal CString.
Import Riscv Bytes Lock Journal.

Module Fs.

Definition BSIZE : Z := Bio.BSIZE.
Definition FSMAGIC : Z := 0x10203040.
Definition NDIRECT : Z := 12.
Definition NINDIRECT : Z := BSIZE / 4.
Definition MAXFILE : Z := NDIRECT + NINDIRECT.
Definition DIRSIZ : Z := 14.
Definition DIRENT_SIZE : Z := 2 + DIRSIZ.
Definition DINODE_SIZE : Z := 64.
Definition IPB : Z := BSIZE / DINODE_SIZE.
Definition BPB : Z := BSIZE * 8.
Definition ROOTINO : Z := 1.
Definition T_DIR : Z := 1.
Definition T_FILE : Z := 2.
Definition T_DEVICE : Z := 3.

(** [struct superblock] *)
Record superblock := mk_sb {
  magic : Z; sb_size : Z; nblocks : Z; ninodes : Z; nlog : Z; logstart : Z; inodestart : Z; bmapstart : Z }.

Definition IBLOCK (i : Z) (sb : superblock) : Z := i / IPB + inodestart sb.
Definition BBLOCK (b : Z) (sb : superblock) : Z := b / BPB + bmapstart sb.

(** [struct dinode]: the fields at their offsets in the inode block. *)
Record dinode := mk_dinode {
  d_type : Z; d_major : Z; d_minor : Z; d_nlink : Z; d_size : Z; d_addrs : list Z }.

Definition dinode_off (inum : Z) : Z := (inum mod IPB) * DINODE_SIZE.

Definition get_dinode (inum : Z) (d : bytes) : dinode :=
  let o := dinode_off inum in
  mk_dinode (s16 (get16 d o)) (s16 (get16 d (o + 2))) (s16 (get16 d (o + 4))) (s16 (get16 d (o + 6)))
    (get32 d (o + 8)) ((λ i, get32 d (o + 12 + 4 * i)) <$> seqZ 0 (NDIRECT + 1)).

Definition put_addrs (o : Z) (a : list Z) (d : bytes) : bytes :=
  put32s (o + 12) (λ i, default 0 (a !! Z.to_nat i)) (seqZ 0 (NDIRECT + 1)) d.

Definition put_dinode (inum : Z) (x : dinode) (d : bytes) : bytes :=
  let o := dinode_off inum in
  put_addrs o (d_addrs x)
    (put32 (o + 8) (d_size x)
      (put16 (o + 6) (d_nlink x)
        (put16 (o + 4) (d_minor x) (put16 (o + 2) (d_major x) (put16 o (d_type x) d))))).

(** [struct inode] *)
Record inode := mk_inode {
  dev : Z; inum : Z; ref : Z; lock : Sleeplock.sleeplock; valid : bool;
  type : Z; major : Z; minor : Z; nlink : Z; isize : Z; addrs : list Z }.

Section fs.
Context {J : Type} `{Journal J}.

(** The file system's state: the journal, [sb], [itable], the running process. *)
Record fsst := mk_fsst {
  jr : J; sb : superblock; itable : Z → inode; ilk : bool; mypid : Z }.

#[export] Instance fsst_locked : Locked fsst := {|
  lk_held := ilk;
  lk_set b s := mk_fsst (jr s) (sb s) (itable s) b (mypid s);
  lk_held_set b s := eq_refl |}.

Definition set_jr (j : J) (s : fsst) : fsst := mk_fsst j (sb s) (itable s) (ilk s) (mypid s).
Definition set_sb (x : superblock) (s : fsst) : fsst := mk_fsst (jr s) x (itable s) (ilk s) (mypid s).
Definition upd_inode (ip : Z) (f : inode → inode) (s : fsst) : fsst :=
  mk_fsst (jr s) (sb s) (<[ip := f (itable s ip)]> (itable s)) (ilk s) (mypid s).

Definition set_ref (r : Z) (x : inode) : inode :=
  mk_inode (dev x) (inum x) r (lock x) (valid x) (type x) (major x) (minor x) (nlink x) (isize x) (addrs x).
Definition set_ilock (l : Sleeplock.sleeplock) (x : inode) : inode :=
  mk_inode (dev x) (inum x) (ref x) l (valid x) (type x) (major x) (minor x) (nlink x) (isize x) (addrs x).
Definition set_valid (v : bool) (x : inode) : inode :=
  mk_inode (dev x) (inum x) (ref x) (lock x) v (type x) (major x) (minor x) (nlink x) (isize x) (addrs x).
Definition set_type (t : Z) (x : inode) : inode :=
  mk_inode (dev x) (inum x) (ref x) (lock x) (valid x) t (major x) (minor x) (nlink x) (isize x) (addrs x).
Definition set_nlink (n : Z) (x : inode) : inode :=
  mk_inode (dev x) (inum x) (ref x) (lock x) (valid x) (type x) (major x) (minor x) n (isize x) (addrs x).
Definition set_majmin (ma mi : Z) (x : inode) : inode :=
  mk_inode (dev x) (inum x) (ref x) (lock x) (valid x) (type x) ma mi (nlink x) (isize x) (addrs x).
Definition set_isize (n : Z) (x : inode) : inode :=
  mk_inode (dev x) (inum x) (ref x) (lock x) (valid x) (type x) (major x) (minor x) (nlink x) n (addrs x).
Definition set_addr (i a : Z) (x : inode) : inode :=
  mk_inode (dev x) (inum x) (ref x) (lock x) (valid x) (type x) (major x) (minor x) (nlink x) (isize x)
    (<[Z.to_nat i := a]> (addrs x)).

Definition addr_at (x : inode) (i : Z) : Z := default 0 (addrs x !! Z.to_nat i).

(** Journal operations on the file system's state. *)
Definition onj {A} (m : M J A) : M fsst A := λ s,
  match m (jr s) with
  | Ret (a, j) => Ret (a, set_jr j s)
  | Panic msg => Panic msg
  | Block => Block
  end.

Definition bread (d b : Z) : M fsst Z := onj (j_bread d b).
Definition brelse (bp : Z) : M fsst unit := onj (j_brelse bp).
Definition log_write (bp : Z) : M fsst unit := onj (j_log_write bp).
Definition data (bp : Z) : M fsst bytes := gets (λ s, j_data (jr s) bp).
Definition set_data (bp : Z) (d : bytes) : M fsst unit := modify (λ s, set_jr (j_set bp d (jr s)) s).

(** ** Blocks *)

Definition get_sb (d : bytes) : superblock :=
  mk_sb (get32 d 0) (get32 d 4) (get32 d 8) (get32 d 12) (get32 d 16) (get32 d 20) (get32 d 24) (get32 d 28).

Definition readsb (d : Z) : M fsst unit :=
  bp ← bread d 1;
  x ← data bp;
  modify (set_sb (get_sb x));;
  brelse bp.

(** [fsinit]; [initlog] is the log's (Log.v). *)
Definition fsinit (initlog : Z → superblock → M J unit) (d : Z) : M fsst unit :=
  readsb d;;
  x ← gets sb;
  if negb (magic x =? FSMAGIC) then panic "invalid file system" else onj (initlog d x).

Definition bzero (d bno : Z) : M fsst unit :=
  bp ← bread d bno;
  set_data bp (replicate (Z.to_nat BSIZE) 0);;
  log_write bp;;
  brelse bp.

(** The bit of a bitmap block, and setting and clearing it. *)
Definition bit_mask (bi : Z) : Z := Z.shiftl 1 (bi mod 8).
Definition bit_free (d : bytes) (bi : Z) : bool := Z.land (get8 d (bi / 8)) (bit_mask bi) =? 0.
Definition bit_mark (bi : Z) (d : bytes) : bytes :=
  put8 (bi / 8) (Z.lor (get8 d (bi / 8)) (bit_mask bi)) d.
Definition bit_clear (bi : Z) (d : bytes) : bytes :=
  put8 (bi / 8) (Z.land (get8 d (bi / 8)) (Z.lnot (bit_mask bi))) d.

(** [balloc]'s inner loop: the first free bit among [k] from [bi] on. *)
Fixpoint find_free (k : nat) (bi : Z) (d : bytes) : option Z :=
  match k with
  | O => None
  | S k' => if bit_free d bi then Some bi else find_free k' (bi + 1) d
  end.

Fixpoint balloc_loop (fuel : nat) (d b : Z) : M fsst Z :=
  match fuel with
  | O => Prelude.block
  | S fuel' =>
      x ← gets sb;
      if b <? sb_size x then
        bp ← bread d (BBLOCK b x);
        bm ← data bp;
        match find_free (Z.to_nat (Z.min BPB (sb_size x - b))) 0 bm with
        | Some bi =>
            set_data bp (bit_mark bi bm);;
            log_write bp;;
            brelse bp;;
            bzero d (b + bi);;
            mret (b + bi)
        | None => brelse bp;; balloc_loop fuel' d (b + BPB)
        end
      else mret 0
  end.

Definition balloc (d : Z) : M fsst Z :=
  x ← gets sb;
  balloc_loop (S (Z.to_nat (sb_size x))) d 0.

Definition bfree (d b : Z) : M fsst unit :=
  x ← gets sb;
  bp ← bread d (BBLOCK b x);
  bm ← data bp;
  if bit_free bm (b mod BPB) then panic "freeing free block"
  else
    set_data bp (bit_clear (b mod BPB) bm);;
    log_write bp;;
    brelse bp.

(** ** Inodes *)

Definition iinit : M fsst unit :=
  modify (lk_set false);;
  for_range 0 (Z.to_nat NINODE)
    (λ i, modify (upd_inode i (λ x, set_ilock (Sleeplock.initsleeplock (lock x)) x))).

Definition acquiresleep (ip : Z) : M fsst unit := λ s,
  match Sleeplock.acquiresleep (mypid s) (lock (itable s ip)) with
  | Ret l => Ret (tt, upd_inode ip (set_ilock l) s)
  | Panic msg => Panic msg
  | Block => Block
  end.
Definition releasesleep (ip : Z) : M fsst unit :=
  modify (upd_inode ip (λ x, set_ilock (Sleeplock.releasesleep (lock x)) x)).
Definition holdingsleep (ip : Z) : M fsst bool :=
  gets (λ s, Sleeplock.holdingsleep (mypid s) (lock (itable s ip))).

(** [iget]'s scan of the table from [ip] on: the entry for the inode, or the
    first free entry seen. *)
Fixpoint iget_scan (k : nat) (ip : Z) (empty : option Z) (d i : Z) (tb : Z → inode) : Z + option Z :=
  match k with
  | O => inr empty
  | S k' =>
      let x := tb ip in
      if (0 <? ref x) && (dev x =? d) && (inum x =? i) then inl ip
      else
        let empty' := match empty with
                      | None => if ref x =? 0 then Some ip else None
                      | Some _ => empty
                      end in
        iget_scan k' (ip + 1) empty' d i tb
  end.

Definition iget (d i : Z) : M fsst Z :=
  acquire;;
  tb ← gets itable;
  match iget_scan (Z.to_nat NINODE) 0 None d i tb with
  | inl ip =>
      modify (upd_inode ip (λ x, set_ref (s32 (ref x + 1)) x));;
      release;;
      mret ip
  | inr None => panic "iget: no inodes"
  | inr (Some ip) =>
      modify (upd_inode ip (λ x,
        mk_inode d i 1 (lock x) false (type x) (major x) (minor x) (nlink x) (isize x) (addrs x)));;
      release;;
      mret ip
  end.

Definition idup (ip : Z) : M fsst Z :=
  acquire;;
  modify (upd_inode ip (λ x, set_ref (s32 (ref x + 1)) x));;
  release;;
  mret ip.

(** [memset(dip, 0, sizeof( *dip)); dip->type = type] *)
Definition clear_dinode (i ty : Z) (d : bytes) : bytes :=
  put16 (dinode_off i) ty (put_bytes (dinode_off i) (replicate (Z.to_nat DINODE_SIZE) 0) d).

Fixpoint ialloc_loop (fuel : nat) (d ty i : Z) : M fsst (option Z) :=
  match fuel with
  | O => Prelude.block
  | S fuel' =>
      x ← gets sb;
      if i <? ninodes x then
        bp ← bread d (IBLOCK i x);
        b ← data bp;
        if d_type (get_dinode i b) =? 0 then
          set_data bp (clear_dinode i ty b);;
          log_write bp;;
          brelse bp;;
          ip ← iget d i;
          mret (Some ip)
        else brelse bp;; ialloc_loop fuel' d ty (i + 1)
      else mret None
  end.

Definition ialloc (d ty : Z) : M fsst (option Z) :=
  x ← gets sb;
  ialloc_loop (S (Z.to_nat (ninodes x))) d ty 1.

(** The on-disk copy of an in-memory inode. *)
Definition dinode_of (x : inode) : dinode :=
  mk_dinode (type x) (major x) (minor x) (nlink x) (isize x) (addrs x).

Definition iupdate (ip : Z) : M fsst unit :=
  x ← gets (λ s, itable s ip);
  y ← gets sb;
  bp ← bread (dev x) (IBLOCK (inum x) y);
  b ← data bp;
  set_data bp (put_dinode (inum x) (dinode_of x) b);;
  log_write bp;;
  brelse bp.

Definition load_inode (d : dinode) (x : inode) : inode :=
  mk_inode (dev x) (inum x) (ref x) (lock x) (valid x) (d_type d) (d_major d) (d_minor d) (d_nlink d)
    (d_size d) (d_addrs d).

Definition ilock (ip : Z) : M fsst unit :=
  x ← gets (λ s, itable s ip);
  if ref x <? 1 then panic "ilock"
  else
    acquiresleep ip;;
    x ← gets (λ s, itable s ip);
    if negb (valid x) then
      y ← gets sb;
      bp ← bread (dev x) (IBLOCK (inum x) y);
      b ← data bp;
      modify (upd_inode ip (load_inode (get_dinode (inum x) b)));;
      brelse bp;;
      modify (upd_inode ip (set_valid true));;
      x ← gets (λ s, itable s ip);
      if type x =? 0 then panic "ilock: no type" else mret tt
    else mret tt.

Definition iunlock (ip : Z) : M fsst unit :=
  h ← holdingsleep ip;
  x ← gets (λ s, itable s ip);
  if negb h || (ref x <? 1) then panic "iunlock" else releasesleep ip.

(** ** Inode contents *)

(** [a[j]] of an indirect block. *)
Definition ind_get (a : bytes) (j : Z) : Z := get32 a (4 * j).
Definition ind_put (j v : Z) (a : bytes) : bytes := put32 (4 * j) v a.

(** The part of [bmap] that goes through the indirect block [ind]. *)
Definition bmap_indirect (d ind bn : Z) : M fsst Z :=
  bp ← bread d ind;
  a ← data bp;
  addr ← (if ind_get a bn =? 0 then
            addr ← balloc d;
            when (negb (addr =? 0))
              (a ← data bp; set_data bp (ind_put bn addr a);; log_write bp);;
            mret addr
          else mret (ind_get a bn));
  brelse bp;;
  mret addr.

Definition bmap (ip bn : Z) : M fsst Z :=
  x ← gets (λ s, itable s ip);
  if bn <? NDIRECT then
    if addr_at x bn =? 0 then
      addr ← balloc (dev x);
      if addr =? 0 then mret 0
      else modify (upd_inode ip (set_addr bn addr));; mret addr
    else mret (addr_at x bn)
  else
    let bn := bn - NDIRECT in
    if bn <? NINDIRECT then
      if addr_at x NDIRECT =? 0 then
        addr ← balloc (dev x);
        if addr =? 0 then mret 0
        else modify (upd_inode ip (set_addr NDIRECT addr));; bmap_indirect (dev x) addr bn
      else bmap_indirect (dev x) (addr_at x NDIRECT) bn
    else panic "bmap: out of range".

Definition itrunc (ip : Z) : M fsst unit :=
  for_range 0 (Z.to_nat NDIRECT) (λ i,
    x ← gets (λ s, itable s ip);
    when (negb (addr_at x i =? 0))
      (bfree (dev x) (addr_at x i);; modify (upd_inode ip (set_addr i 0))));;
  x ← gets (λ s, itable s ip);
  when (negb (addr_at x NDIRECT =? 0))
    (bp ← bread (dev x) (addr_at x NDIRECT);
     for_range 0 (Z.to_nat NINDIRECT) (λ j,
       a ← data bp;
       when (negb (ind_get a j =? 0)) (bfree (dev x) (ind_get a j)));;
     brelse bp;;
     bfree (dev x) (addr_at x NDIRECT);;
     modify (upd_inode ip (set_addr NDIRECT 0)));;
  modify (upd_inode ip (set_isize 0));;
  iupdate ip.

Definition iput (ip : Z) : M fsst unit :=
  acquire;;
  x ← gets (λ s, itable s ip);
  when ((ref x =? 1) && valid x && (nlink x =? 0))
    (acquiresleep ip;;
     release;;
     itrunc ip;;
     modify (upd_inode ip (set_type 0));;
     iupdate ip;;
     modify (upd_inode ip (set_valid false));;
     releasesleep ip;;
     acquire);;
  modify (upd_inode ip (λ x, set_ref (ref x - 1) x));;
  release.

Definition iunlockput (ip : Z) : M fsst unit := iunlock ip;; iput ip.

(** [struct stat] *)
Record stat := mk_stat { st_dev : Z; st_ino : Z; st_type : Z; st_nlink : Z; st_size : Z }.

Definition stati (ip : Z) : M fsst stat :=
  gets (λ s, let x := itable s ip in mk_stat (dev x) (inum x) (type x) (nlink x) (isize x)).

(** [readi]'s loop: the count and the bytes delivered. *)
Fixpoint readi_loop (out : Z → bytes → bool) (fuel : nat) (ip dst off n tot : Z) : M fsst (Z * bytes) :=
  match fuel with
  | O => Prelude.block
  | S fuel' =>
      if tot <? n then
        addr ← bmap ip (off / BSIZE);
        if addr =? 0 then mret (tot, [])
        else
          x ← gets (λ s, itable s ip);
          bp ← bread (dev x) addr;
          b ← data bp;
          let m := Z.min (n - tot) (BSIZE - off mod BSIZE) in
          let piece := sub_bytes (off mod BSIZE) (Z.to_nat m) b in
          if negb (out dst piece) then brelse bp;; mret (-1, [])
          else
            brelse bp;;
            r ← readi_loop out fuel' ip (u64 (dst + m)) (u32 (off + m)) n (u32 (tot + m));
            mret (r.1, piece ++ r.2)
      else mret (tot, [])
  end.

Definition readi (out : Z → bytes → bool) (ip dst off n : Z) : M fsst (Z * bytes) :=
  x ← gets (λ s, itable s ip);
  if (isize x <? off) || (u32 (off + n) <? off) then mret (0, [])
  else
    let n := if isize x <? u32 (off + n) then u32 (isize x - off) else n in
    readi_loop out (Z.to_nat (n / BSIZE + 3)) ip dst off n 0.

(** [writei]'s loop: the count and the final offset. *)
Fixpoint writei_loop (inp : Z → Z → bytes * bool) (fuel : nat) (ip src off n tot : Z) : M fsst (Z * Z) :=
  match fuel with
  | O => Prelude.block
  | S fuel' =>
      if tot <? n then
        addr ← bmap ip (off / BSIZE);
        if addr =? 0 then mret (tot, off)
        else
          x ← gets (λ s, itable s ip);
          bp ← bread (dev x) addr;
          b ← data bp;
          let m := Z.min (n - tot) (BSIZE - off mod BSIZE) in
          let '(piece, ok) := inp src m in
          set_data bp (put_bytes (off mod BSIZE) piece b);;
          if negb ok then brelse bp;; mret (tot, off)
          else
            log_write bp;;
            brelse bp;;
            writei_loop inp fuel' ip (u64 (src + m)) (u32 (off + m)) n (u32 (tot + m))
      else mret (tot, off)
  end.

Definition writei (inp : Z → Z → bytes * bool) (ip src off n : Z) : M fsst Z :=
  x ← gets (λ s, itable s ip);
  if (isize x <? off) || (u32 (off + n) <? off) then mret (-1)
  else if MAXFILE * BSIZE <? u32 (off + n) then mret (-1)
  else
    r ← writei_loop inp (Z.to_nat (n / BSIZE + 3)) ip src off n 0;
    x ← gets (λ s, itable s ip);
    when (isize x <? r.2) (modify (upd_inode ip (set_isize (r.2))));;
    iupdate ip;;
    mret (r.1).

(** ** Directories *)

(** Copies between the kernel's memory and an inode do not fail. *)
Definition kout : Z → bytes → bool := λ _ _, true.
Definition kinp (buf : bytes) : Z → Z → bytes * bool := λ src m, (sub_bytes src (Z.to_nat m) buf, true).

Definition namecmp (s t : bytes) : Z := CString.strncmp_bytes s t (Z.to_nat DIRSIZ).

(** [struct dirent] *)
Definition de_inum (de : bytes) : Z := get16 de 0.
Definition de_name (de : bytes) : bytes := sub_bytes 2 (Z.to_nat DIRSIZ) de.
Definition mk_dirent (i : Z) (name : bytes) : bytes :=
  le_bytes 2 i ++ CString.strncpy_bytes name (Z.to_nat DIRSIZ).

(** The loop of [dirlookup] from [off] on. *)
Fixpoint dirlookup_loop (fuel : nat) (dp : Z) (name : bytes) (off : Z) : M fsst (option (Z * Z)) :=
  match fuel with
  | O => Prelude.block
  | S fuel' =>
      x ← gets (λ s, itable s dp);
      if off <? isize x then
        r ← readi kout dp 0 off DIRENT_SIZE;
        if negb (r.1 =? DIRENT_SIZE) then panic "dirlookup read"
        else if de_inum (r.2) =? 0 then dirlookup_loop fuel' dp name (u32 (off + DIRENT_SIZE))
        else if namecmp name (de_name (r.2)) =? 0 then
          ip ← iget (dev x) (de_inum (r.2));
          mret (Some (ip, off))
        else dirlookup_loop fuel' dp name (u32 (off + DIRENT_SIZE))
      else mret None
  end.

(** The inode and the offset of the entry ([*poff]). *)
Definition dirlookup (dp : Z) (name : bytes) : M fsst (option (Z * Z)) :=
  x ← gets (λ s, itable s dp);
  if negb (type x =? T_DIR) then panic "dirlookup not DIR"
  else dirlookup_loop (Z.to_nat (isize x / DIRENT_SIZE + 2)) dp name 0.

(** [dirlink]'s search for an empty entry. *)
Fixpoint dirlink_loop (fuel : nat) (dp off : Z) : M fsst Z :=
  match fuel with
  | O => Prelude.block
  | S fuel' =>
      x ← gets (λ s, itable s dp);
      if off <? isize x then
        r ← readi kout dp 0 off DIRENT_SIZE;
        if negb (r.1 =? DIRENT_SIZE) then panic "dirlink read"
        else if de_inum (r.2) =? 0 then mret off
        else dirlink_loop fuel' dp (off + DIRENT_SIZE)
      else mret off
  end.

Definition dirlink (dp : Z) (name : bytes) (i : Z) : M fsst Z :=
  r ← dirlookup dp name;
  match r with
  | Some (ip, _) => iput ip;; mret (-1)
  | None =>
      x ← gets (λ s, itable s dp);
      off ← dirlink_loop (Z.to_nat (isize x / DIRENT_SIZE + 2)) dp 0;
      n ← writei (kinp (mk_dirent i name)) dp 0 off DIRENT_SIZE;
      if negb (n =? DIRENT_SIZE) then mret (-1) else mret 0
  end.

End fs.

(** ** Paths *)

Definition SLASH : Z := 47.

(** [while( *path == '/') path++] on a string given by its bytes up to the nul. *)
Fixpoint skip_slashes (path : bytes) : bytes :=
  match path with
  | c :: path' => if c =? SLASH then skip_slashes path' else path
  | [] => []
  end.

(** [while( *path != '/' && *path != 0) path++]: the element and the rest. *)
Fixpoint take_elem (path : bytes) : bytes * bytes :=
  match path with
  | c :: path' =>
      if c =? SLASH then ([], path) else let '(e, r) := take_elem path' in (c :: e, r)
  | [] => ([], [])
  end.

(** [skipelem(path, name)]: the rest of the path and the bytes of [name] up to a
    nul or DIRSIZ. *)
Definition skipelem (path : bytes) : option (bytes * bytes) :=
  match skip_slashes path with
  | [] => None
  | p =>
      let '(e, r) := take_elem p in
      Some (skip_slashes r, if DIRSIZ <=? Z.of_nat (length e) then take (Z.to_nat DIRSIZ) e else e)
  end.

Section names.
Context {J : Type} `{Journal J}.

(** [namex]'s loop from inode [ip] on; it returns the inode and the last name. *)
Fixpoint namex_loop (fuel : nat) (ip : Z) (path : bytes) (nameiparent : bool) (name : bytes) :
    M (@fsst J) (option (Z * bytes)) :=
  match fuel with
  | O => Prelude.block
  | S fuel' =>
      match skipelem path with
      | None => if nameiparent then iput ip;; mret None else mret (Some (ip, name))
      | Some (path', name') =>
          ilock ip;;
          x ← gets (λ s, itable s ip);
          if negb (type x =? T_DIR) then iunlockput ip;; mret None
          else if nameiparent && bool_decide (path' = []) then iunlock ip;; mret (Some (ip, name'))
          else
            r ← dirlookup ip name';
            match r with
            | None => iunlockput ip;; mret None
            | Some (next, _) => iunlockput ip;; namex_loop fuel' next path' nameiparent name'
            end
      end
  end.

Definition namex (cwd : Z) (path : bytes) (nameiparent : bool) : M (@fsst J) (option (Z * bytes)) :=
  ip ← (match path with
        | c :: _ => if c =? SLASH then iget ROOTDEV ROOTINO else idup cwd
        | [] => idup cwd
        end);
  namex_loop (S (length path)) ip path nameiparent [].

Definition namei (cwd : Z) (path : bytes) : M (@fsst J) (option Z) :=
  r ← namex cwd path false; mret (fst <$> r).

Definition nameiparent (cwd : Z) (path : bytes) : M (@fsst J) (option (Z * bytes)) :=
  namex cwd path true.

End names.

End Fs.
