(* ===== verification/FsBlock.v ===== *)
(** * The block layer of the file system

    [layout]: where mkfs puts the parts of the disk; [fs_ok]: what holds of a
    file system's blocks.  balloc and bfree are proved to be the allocation and
    release of a block in the set of blocks in use, which the bitmap represents. *)

From S2P Require Import Prelude Bytes Spinlock Riscv ListH Sleeplock Bio Log LogCrash LogTx Journal CString Fs.
Import Riscv Bytes Lock Journal Fs.

Module FsBlock.

Ltac fs_lia :=
  unfold MAXFILE, NINDIRECT, NDIRECT, IPB, BPB, DINODE_SIZE, DIRENT_SIZE, DIRSIZ, Fs.BSIZE, Bio.BSIZE in *; zlia.

(** ** Bits *)

Definition is_bytes (d : bytes) : Prop := Forall (λ x, 0 ≤ x < 256) d.

Lemma get8_range d o : is_bytes d → 0 ≤ get8 d o < 256.
Proof.
  intros Hd. unfold get8. destruct (d !! Z.to_nat o) as [x|] eqn:E; simpl; [|lia].
  by eapply (Forall_lookup_1 _ _ _ _ Hd) in E.
Qed.

Lemma is_bytes_put8 o v d : is_bytes d → is_bytes (put8 o v d).
Proof. intros Hd. apply Forall_insert; [done|]. apply Z.mod_pos_bound. lia. Qed.

Lemma bit_free_testbit d bi : bit_free d bi = negb (Z.testbit (get8 d (bi / 8)) (bi mod 8)).
Proof.
  unfold bit_free, bit_mask. set (k := bi mod 8). set (x := get8 _ _).
  assert (0 ≤ k) by (apply Z.mod_pos_bound; lia).
  rewrite Z.shiftl_1_l. destruct (Z.testbit x k) eqn:E; simpl; [apply Z.eqb_neq|apply Z.eqb_eq].
  - intros H0. apply (f_equal (λ z, Z.testbit z k)) in H0.
    rewrite Z.land_spec, E, Z.pow2_bits_true, Z.bits_0 in H0 by done. done.
  - apply Z.bits_inj'. intros n Hn. rewrite Z.land_spec, Z.bits_0.
    destruct (decide (n = k)) as [->|]; [by rewrite E|].
    rewrite Z.pow2_bits_false by done. by rewrite andb_false_r.
Qed.

Lemma mask_bound k x : 0 ≤ k < 8 → 0 ≤ x < 256 → 0 ≤ Z.lor x (2 ^ k) < 256 ∧ 0 ≤ Z.land x (Z.lnot (2 ^ k)) < 256.
Proof.
  intros Hk Hx. assert (2 ^ k ≤ 2 ^ 7) by (apply Z.pow_le_mono_r; lia).
  assert (0 < 2 ^ k) by (apply Z.pow_pos_nonneg; lia).
  assert (∀ y, (∀ n, 8 ≤ n → Z.testbit y n = false) → 0 ≤ y → y < 256) as Hb.
  { intros y Hy Hpos. destruct (decide (y = 0)) as [->|]; [lia|]. change 256 with (2 ^ 8).
    apply Z.log2_lt_pow2; [lia|]. destruct (decide (8 ≤ Z.log2 y)) as [Hl|]; [|lia].
    specialize (Hy _ Hl). rewrite Z.bit_log2 in Hy by lia. done. }
  assert (∀ y n, 0 ≤ y < 256 → 8 ≤ n → Z.testbit y n = false) as Ht.
  { intros y n Hy Hn. destruct (decide (y = 0)) as [->|]; [apply Z.bits_0|]. apply Z.bits_above_log2; [lia|].
    assert (Z.log2 y < 8); [|lia]. apply Z.log2_lt_pow2; [lia|]. lia. }
  assert (0 ≤ Z.land x (Z.lnot (2 ^ k))) by (apply Z.land_nonneg; lia).
  assert (0 ≤ Z.lor x (2 ^ k)) by (apply Z.lor_nonneg; lia).
  split; (split; [done|apply Hb; [|done]]); intros n Hn; rewrite ?Z.lor_spec, ?Z.land_spec, !(Ht _ n) by lia; done.
Qed.

Section bits.
Context (d : bytes) (Hd : is_bytes d) (bi : Z) (Hbi : 0 ≤ bi < 8 * Z.of_nat (length d)).

Lemma bit_mark_spec bi' : 0 ≤ bi' → bit_free (bit_mark bi d) bi' = negb (bi =? bi') && bit_free d bi'.
Proof.
  intros Hbi'. rewrite !bit_free_testbit. unfold bit_mark, bit_mask. rewrite Z.shiftl_1_l.
  assert (0 ≤ bi mod 8 < 8) as Hm by (apply Z.mod_pos_bound; lia).
  destruct (mask_bound (bi mod 8) (get8 d (bi / 8)) Hm (get8_range _ _ Hd)) as [Hr _].
  destruct (decide (bi / 8 = bi' / 8)) as [E|E].
  - rewrite <- E, get8_put8_eq, Z.mod_small by zlia. rewrite Z.lor_spec, negb_orb, andb_comm. f_equal.
    destruct (decide (bi = bi')) as [->|Hne]; [by rewrite Z.pow2_bits_true, Z.eqb_refl by lia|].
    rewrite Z.pow2_bits_false by zlia. symmetry. apply negb_true_iff, Z.eqb_neq. done.
  - rewrite get8_put8_ne by zlia. destruct (bi =? bi') eqn:E'; [bsimpl; congruence|done].
Qed.

Lemma bit_clear_spec bi' : 0 ≤ bi' → bit_free (bit_clear bi d) bi' = (bi =? bi') || bit_free d bi'.
Proof.
  intros Hbi'. rewrite !bit_free_testbit. unfold bit_clear, bit_mask. rewrite Z.shiftl_1_l.
  assert (0 ≤ bi mod 8 < 8) as Hm by (apply Z.mod_pos_bound; lia).
  destruct (mask_bound (bi mod 8) (get8 d (bi / 8)) Hm (get8_range _ _ Hd)) as [_ Hr].
  destruct (decide (bi / 8 = bi' / 8)) as [E|E].
  - rewrite <- E, get8_put8_eq, Z.mod_small by zlia.
    rewrite Z.land_spec, Z.lnot_spec, negb_andb, negb_involutive, orb_comm by (apply Z.mod_pos_bound; lia). f_equal.
    destruct (decide (bi = bi')) as [->|Hne]; [by rewrite Z.pow2_bits_true, Z.eqb_refl by lia|].
    rewrite Z.pow2_bits_false by zlia. symmetry. by apply Z.eqb_neq.
  - rewrite get8_put8_ne by zlia. destruct (bi =? bi') eqn:E'; [bsimpl; congruence|done].
Qed.
End bits.

Lemma find_free_spec d : ∀ k bi, match find_free k bi d with
  | Some r => bi ≤ r < bi + Z.of_nat k ∧ bit_free d r = true ∧ ∀ j, bi ≤ j < r → bit_free d j = false
  | None => ∀ j, bi ≤ j < bi + Z.of_nat k → bit_free d j = false
  end.
Proof.
  induction k as [|k IH]; intros bi; simpl; [intros; lia|].
  destruct (bit_free d bi) eqn:E; [split_and!; [lia|lia|done|intros; lia]|].
  specialize (IH (bi + 1)). destruct (find_free k (bi + 1) d) as [r|].
  - destruct IH as (? & ? & Hlt). split_and!; [lia|lia|done|]. intros j Hj.
    destruct (decide (j = bi)) as [->|]; [done|]. apply Hlt. lia.
  - intros j Hj. destruct (decide (j = bi)) as [->|]; [done|]. apply IH. lia.
Qed.

(** ** The disk *)

(** The first data block. *)
Definition data_start (x : superblock) : Z := bmapstart x + sb_size x / BPB + 1.

(** The layout of mkfs: boot block, super block, log, inodes, bitmap, data. *)
Record layout (x : superblock) : Prop := {
  lo_size : 0 < sb_size x < 2 ^ 31;
  lo_log : 2 ≤ logstart x ∧ 0 ≤ nlog x ∧ logstart x + nlog x ≤ inodestart x;
  lo_inodes : 0 ≤ ninodes x ∧ inodestart x + ninodes x / IPB + 1 ≤ bmapstart x;
  lo_data : data_start x ≤ sb_size x }.

(** A block is in use if its bit in the bitmap is set. *)
Definition in_use (x : superblock) (cur : Z → bytes) (b : Z) : Prop :=
  bit_free (cur (BBLOCK b x)) (b mod BPB) = false.

#[export] Instance in_use_dec x cur b : Decision (in_use x cur b) :=
  decide (bit_free _ _ = false).

(** Blocks are blocks, and the metadata is never free. *)
Record fs_ok (x : superblock) (cur : Z → bytes) : Prop := {
  ok_len : ∀ b, 0 ≤ b < sb_size x → Z.of_nat (length (cur b)) = BSIZE ∧ is_bytes (cur b);
  ok_meta : ∀ b, 0 ≤ b < data_start x → in_use x cur b }.

Definition zero_block : bytes := replicate (Z.to_nat BSIZE) 0.

(** The disk after the allocation and the release of [b]. *)
Definition alloc_disk (x : superblock) (b : Z) (cur : Z → bytes) : Z → bytes :=
  <[b := zero_block]> (<[BBLOCK b x := bit_mark (b mod BPB) (cur (BBLOCK b x))]> cur).
Definition free_disk (x : superblock) (b : Z) (cur : Z → bytes) : Z → bytes :=
  <[BBLOCK b x := bit_clear (b mod BPB) (cur (BBLOCK b x))]> cur.

Section disk.
Context (x : superblock) (Hlo : layout x).

Lemma bblock_range b : 0 ≤ b < sb_size x → inodestart x < BBLOCK b x < data_start x.
Proof.
  intros Hb. destruct Hlo as [H1 H2 H3 H4]. unfold BBLOCK, data_start in *.
  assert (0 ≤ b / BPB ≤ sb_size x / BPB) by (split; [apply Z.div_pos; fs_lia|apply Z.div_le_mono; fs_lia]).
  assert (0 ≤ ninodes x / IPB) by (apply Z.div_pos; fs_lia). lia.
Qed.

Lemma data_start_pos : 0 < data_start x.
Proof. pose proof (bblock_range 0 ltac:(destruct Hlo; lia)). destruct Hlo. lia. Qed.

Lemma bit_range b : 0 ≤ b mod BPB < 8 * BSIZE.
Proof. pose proof (Z.mod_pos_bound b BPB ltac:(fs_lia)). fs_lia. Qed.

Lemma in_use_update cur b f b' : 0 ≤ b' < sb_size x →
  in_use x (<[BBLOCK b x := f]> cur) b' ↔
  bit_free (if decide (BBLOCK b x = BBLOCK b' x) then f else cur (BBLOCK b' x)) (b' mod BPB) = false.
Proof.
  intros Hb'. unfold in_use. case_decide as E; [rewrite <- E, fn_lookup_insert|rewrite fn_lookup_insert_ne by done]; done.
Qed.

Lemma bit_inj b b' : BBLOCK b x = BBLOCK b' x → (b mod BPB =? b' mod BPB) = (b =? b').
Proof.
  intros E. unfold BBLOCK in E. destruct (b =? b') eqn:E1; bsimpl; [subst; by rewrite Z.eqb_refl|].
  apply Z.eqb_neq. intros E2. apply E1. rewrite (Z.div_mod b BPB), (Z.div_mod b' BPB) by fs_lia. nia.
Qed.

Lemma alloc_in_use cur b b' : fs_ok x cur → data_start x ≤ b < sb_size x → 0 ≤ b' < sb_size x →
  in_use x (alloc_disk x b cur) b' ↔ b' = b ∨ in_use x cur b'.
Proof.
  intros Hok Hb Hb'. pose proof data_start_pos. pose proof (bblock_range b ltac:(lia)). pose proof (bblock_range b' Hb').
  pose proof (bit_range b). pose proof (bit_range b').
  destruct (ok_len _ _ Hok (BBLOCK b x)) as [Hl Hby]; [destruct Hlo; lia|].
  transitivity (in_use x (<[BBLOCK b x := bit_mark (b mod BPB) (cur (BBLOCK b x))]> cur) b').
  { unfold in_use, alloc_disk. rewrite fn_lookup_insert_ne by lia. done. }
  rewrite in_use_update by done. case_decide as E.
  - rewrite (bit_mark_spec _ Hby) by lia. rewrite bit_inj, E by done. unfold in_use.
    destruct (b =? b') eqn:E1; bsimpl; simpl; [naive_solver|]. naive_solver.
  - unfold in_use. split; [by right|]. intros [->|?]; [done|done].
Qed.

Lemma free_in_use cur b b' : fs_ok x cur → data_start x ≤ b < sb_size x → 0 ≤ b' < sb_size x →
  in_use x (free_disk x b cur) b' ↔ b' ≠ b ∧ in_use x cur b'.
Proof.
  intros Hok Hb Hb'. pose proof data_start_pos. pose proof (bblock_range b ltac:(lia)).
  pose proof (bit_range b). pose proof (bit_range b').
  destruct (ok_len _ _ Hok (BBLOCK b x)) as [Hl Hby]; [destruct Hlo; lia|].
  unfold free_disk. rewrite in_use_update by done. case_decide as E.
  - rewrite (bit_clear_spec _ Hby) by lia. rewrite bit_inj, E by done. unfold in_use.
    destruct (b =? b') eqn:E1; bsimpl; simpl; [naive_solver|]. naive_solver.
  - unfold in_use. split; [|by intros [_ ?]]. intros Hu. split; [|done]. by intros ->.
Qed.

Lemma put_ok cur b d : fs_ok x cur → data_start x ≤ b → Z.of_nat (length d) = BSIZE → is_bytes d →
  fs_ok x (<[b := d]> cur).
Proof.
  intros [H1 H2] Hb Hl Hd. split; intros b' Hb'.
  - destruct (decide (b' = b)) as [->|]; [by rewrite fn_lookup_insert|]. rewrite fn_lookup_insert_ne by done. by apply H1.
  - unfold in_use. rewrite fn_lookup_insert_ne; [by apply H2|].
    pose proof (bblock_range b' ltac:(destruct Hlo; lia)). lia.
Qed.

Lemma bitmap_ok cur b f : fs_ok x cur → 0 ≤ b < sb_size x →
  Z.of_nat (length f) = BSIZE → is_bytes f →
  (∀ b', 0 ≤ b' < data_start x → in_use x (<[BBLOCK b x := f]> cur) b') →
  fs_ok x (<[BBLOCK b x := f]> cur).
Proof.
  intros [H1 H2] Hb Hl Hd Hm. split; [|done]. intros b' Hb'.
  destruct (decide (b' = BBLOCK b x)) as [->|]; [by rewrite fn_lookup_insert|].
  rewrite fn_lookup_insert_ne by done. by apply H1.
Qed.

Lemma zero_block_ok : Z.of_nat (length zero_block) = BSIZE ∧ is_bytes zero_block.
Proof.
  unfold zero_block. split; [by rewrite length_replicate|]. apply Forall_replicate. lia.
Qed.

Lemma alloc_ok cur b : fs_ok x cur → data_start x ≤ b < sb_size x → fs_ok x (alloc_disk x b cur).
Proof.
  intros Hok Hb. pose proof data_start_pos. pose proof (bblock_range b ltac:(lia)).
  destruct (ok_len _ _ Hok (BBLOCK b x)) as [Hl Hby]; [destruct Hlo; lia|].
  unfold alloc_disk. apply put_ok; [|lia|apply zero_block_ok..].
  apply bitmap_ok; [done|lia|unfold bit_mark; by rewrite length_put8|by apply is_bytes_put8|].
  intros b' Hb'. pose proof (proj2 (alloc_in_use cur b b' Hok Hb ltac:(destruct Hlo; lia)) (or_intror (ok_meta _ _ Hok b' Hb'))) as Hu.
  unfold in_use, alloc_disk in Hu. pose proof (bblock_range b' ltac:(destruct Hlo; lia)).
  rewrite fn_lookup_insert_ne in Hu by lia. exact Hu.
Qed.

Lemma free_ok cur b : fs_ok x cur → data_start x ≤ b < sb_size x → fs_ok x (free_disk x b cur).
Proof.
  intros Hok Hb. pose proof data_start_pos. pose proof (bblock_range b ltac:(lia)).
  destruct (ok_len _ _ Hok (BBLOCK b x)) as [Hl Hby]; [destruct Hlo; lia|].
  apply bitmap_ok; [done|lia|unfold bit_clear; by rewrite length_put8|by apply is_bytes_put8|].
  intros b' Hb'. apply (free_in_use cur b b' Hok Hb ltac:(destruct Hlo; lia)). split; [lia|by apply (ok_meta _ _ Hok)].
Qed.

End disk.

(** ** The journal under the file system *)

(** A block read, changed, logged and released. *)
Definition jv_upd (b : Z) (x : bytes) (v : jview) : jview :=
  mk_jview (<[b := x]> (j_cur v)) (j_held v) ({[b]} ∪ j_log v) (j_dirty v).

Lemma jv_upd_eq b x i v : j_held v !! b = None → b ∉ j_dirty v →
  jv_release b (jv_logged b (jv_set b x (jv_hold b i v))) = jv_upd b x v.
Proof.
  intros Hn Hd. unfold jv_release, jv_logged, jv_set, jv_hold, jv_upd. simpl.
  rewrite delete_insert_id by done. f_equal. set_solver.
Qed.

Lemma jv_read_eq b i v : j_held v !! b = None → jv_release b (jv_hold b i v) = v.
Proof. intros Hn. unfold jv_release, jv_hold. simpl. rewrite delete_insert_id by done. by destruct v. Qed.

Section rules.
Context {J : Type} `{Journal J} (d : Z).
Implicit Types (s : @fsst J) (v : jview).

(** The state [s0] with its journal in the view [v]. *)
Definition fover s0 v s : Prop :=
  (j_rep d (jr s) v ∧ j_cap (jr s) = j_cap (jr s0) ∧ j_area (jr s) = j_area (jr s0)) ∧
  sb s = sb s0 ∧ (∀ i, itable s i = itable s0 i) ∧ ilk s = ilk s0 ∧ mypid s = mypid s0.

Lemma fover_self s v : j_rep d (jr s) v → fover s v s.
Proof. intros Hr. split_and!; done. Qed.

Lemma fover_sb s0 v s : fover s0 v s → sb s = sb s0 ∧ (∀ i, itable s i = itable s0 i) ∧ ilk s = ilk s0 ∧ mypid s = mypid s0.
Proof. by intros (_ & ?). Qed.

Lemma fover_base s0 s1 v s : fover s0 v s → sb s1 = sb s0 → (∀ i, itable s1 i = itable s0 i) → ilk s1 = ilk s0 →
  mypid s1 = mypid s0 → jr s1 = jr s0 → fover s1 v s.
Proof.
  intros ((Hr & Hc & Ha) & H1 & H2 & H3 & H4) E1 E2 E3 E4 E5. unfold fover. rewrite E1, E3, E4, E5.
  split_and!; try done. intros i. by rewrite H2, E2.
Qed.

Lemma fover_upd s0 v s ip f : fover s0 v s → fover (upd_inode ip f s0) v (upd_inode ip f s).
Proof.
  intros (Hr & H1 & H2 & H3 & H4). split_and!; try done; try apply Hr. intros i. simpl.
  destruct (decide (i = ip)) as [->|]; [by rewrite !fn_lookup_insert, H2|by rewrite !fn_lookup_insert_ne].
Qed.

Lemma wp_bread s0 v s b (Q : Z → fsst → Prop) :
  fover s0 v s → j_held v !! b = None → Z.of_nat (base.size ({[b]} ∪ j_used v)) ≤ NBUF →
  (∀ i s', fover s0 (jv_hold b i v) s' → Q i s') → wp (bread d b) Q s.
Proof.
  intros ((Hr & Hc & Ha) & Hx) Hn Hs HQ. unfold wp, bread, onj.
  pose proof (j_bread_ok _ _ _ _ Hr Hn Hs) as Hw. unfold wp in Hw. destruct (j_bread d b (jr s)) as [[i j']| |]; try done.
  destruct Hw as (Hr' & Hc' & Ha'). apply HQ. split; [|done]. simpl. split_and!; [done|congruence..].
Qed.

Lemma wp_data s0 v s b i (Q : bytes → fsst → Prop) :
  fover s0 v s → j_held v !! b = Some i → Q (j_cur v b) s → wp (data i) Q s.
Proof.
  intros ((Hr & _) & _) Hi HQ. unfold wp, data, gets. by rewrite (j_lookup _ _ _ _ _ Hr Hi).
Qed.

Lemma wp_set s0 v s b i x (Q : unit → fsst → Prop) :
  fover s0 v s → j_held v !! b = Some i → (∀ s', fover s0 (jv_set b x v) s' → Q tt s') → wp (set_data i x) Q s.
Proof.
  intros ((Hr & Hc & Ha) & Hx) Hi HQ. unfold wp, set_data, modify. apply HQ.
  destruct (j_set_ok _ _ _ _ _ x Hr Hi) as (Hr' & Hc' & Ha'). split; [|done]. simpl. split_and!; [done|congruence..].
Qed.

Lemma wp_log s0 v s b i (Q : unit → fsst → Prop) :
  fover s0 v s → j_held v !! b = Some i →
  Z.of_nat (base.size (j_log v)) < j_cap (jr s0) → 0 ≤ b < 2 ^ 31 → ¬ j_area (jr s0) b →
  (∀ s', fover s0 (jv_logged b v) s' → Q tt s') → wp (log_write i) Q s.
Proof.
  intros ((Hr & Hc & Ha) & Hx) Hi Hs Hb Hna HQ. unfold wp, log_write, onj.
  rewrite <- Hc in Hs. rewrite <- Ha in Hna.
  pose proof (j_log_write_ok _ _ _ _ _ Hr Hi Hs Hb Hna) as Hw. unfold wp in Hw.
  destruct (j_log_write i (jr s)) as [[[] j']| |]; try done.
  destruct Hw as (Hr' & Hc' & Ha'). apply HQ. split; [|done]. simpl. split_and!; [done|congruence..].
Qed.

Lemma wp_brelse s0 v s b i (Q : unit → fsst → Prop) :
  fover s0 v s → j_held v !! b = Some i → b ∉ j_dirty v →
  (∀ s', fover s0 (jv_release b v) s' → Q tt s') → wp (brelse i) Q s.
Proof.
  intros ((Hr & Hc & Ha) & Hx) Hi Hd HQ. unfold wp, brelse, onj.
  pose proof (j_brelse_ok _ _ _ _ _ Hr Hi Hd) as Hw. unfold wp in Hw.
  destruct (j_brelse i (jr s)) as [[[] j']| |]; try done.
  destruct Hw as (Hr' & Hc' & Ha'). apply HQ. split; [|done]. simpl. split_and!; [done|congruence..].
Qed.

(** A transaction with room for [k] more blocks. *)
Definition room s0 v (k : Z) : Prop :=
  Z.of_nat (base.size (j_used v)) + k ≤ NBUF ∧ Z.of_nat (base.size (j_log v)) + k ≤ j_cap (jr s0).

Lemma size_add (b : Z) (X : gset Z) :
  (base.size X ≤ base.size ({[b]} ∪ X))%nat ∧ (base.size ({[b]} ∪ X) ≤ S (base.size X))%nat.
Proof.
  split; [apply subseteq_size; set_solver|]. rewrite size_union_alt, size_singleton.
  assert (base.size (X ∖ {[b]}) ≤ base.size X)%nat by (apply subseteq_size; set_solver). lia.
Qed.

Lemma room_bread s0 v k b : room s0 v k → 1 ≤ k → Z.of_nat (base.size ({[b]} ∪ j_used v)) ≤ NBUF.
Proof. intros [Hr _] Hk. pose proof (size_add b (j_used v)). lia. Qed.

Lemma room_upd s0 v k b x : room s0 v k → room s0 (jv_upd b x v) (k - 1).
Proof.
  intros [H1 H2]. split; unfold j_used in *; simpl in *.
  - replace (dom (j_held v) ∪ ({[b]} ∪ j_log v)) with ({[b]} ∪ (dom (j_held v) ∪ j_log v)) by set_solver.
    pose proof (size_add b (dom (j_held v) ∪ j_log v)). lia.
  - pose proof (size_add b (j_log v)). lia.
Qed.

(** What the block layer relies on: the layout, the disk, no half-done change, and
    that the blocks locked by the caller are data blocks in use. *)
Record ready s0 v : Prop := {
  rd_layout : layout (sb s0);
  rd_ok : fs_ok (sb s0) (j_cur v);
  rd_area : ∀ b, j_area (jr s0) b → b < inodestart (sb s0);
  rd_dirty : j_dirty v = ∅;
  rd_held : ∀ b, b ∈ dom (j_held v) → data_start (sb s0) ≤ b < sb_size (sb s0) ∧ in_use (sb s0) (j_cur v) b }.

Lemma ready_not_held s0 v b : ready s0 v →
  b < data_start (sb s0) ∨ ¬ in_use (sb s0) (j_cur v) b → j_held v !! b = None.
Proof.
  intros Hr Hb. apply not_elem_of_dom. intros Hin. destruct (rd_held _ _ Hr b Hin) as [? ?].
  destruct Hb; [lia|tauto].
Qed.

(** Changing a block that is not locked. *)
Lemma wp_update s0 v s b f (Q : unit → fsst → Prop) k :
  ready s0 v → fover s0 v s → room s0 v k → 1 ≤ k → j_held v !! b = None →
  inodestart (sb s0) ≤ b < 2 ^ 31 →
  (∀ s', fover s0 (jv_upd b (f (j_cur v b)) v) s' → Q tt s') →
  wp (bp ← bread d b; x ← data bp; set_data bp (f x);; log_write bp;; brelse bp) Q s.
Proof.
  intros Hr Hs Hroom Hk Hn Hb HQ. apply wp_bind.
  eapply wp_bread; [exact Hs|done|by eapply room_bread|]. intros i s1 H1.
  apply wp_bind. eapply wp_data; [exact H1|by simpl; rewrite lookup_insert_eq|].
  apply wp_bind. eapply wp_set; [exact H1|by simpl; rewrite lookup_insert_eq|]. intros s2 H2.
  apply wp_bind. eapply wp_log; [exact H2|by simpl; rewrite lookup_insert_eq|destruct Hroom; simpl; lia| | |].
  { destruct (rd_layout _ _ Hr). lia. } { intros Ha%(rd_area _ _ Hr). lia. }
  intros s3 H3. eapply wp_brelse; [exact H3|by simpl; rewrite lookup_insert_eq|simpl; clear; set_solver|].
  intros s4 H4. apply HQ. rewrite jv_upd_eq in H4; [exact H4|done|]. rewrite (rd_dirty _ _ Hr). apply not_elem_of_empty.
Qed.

Lemma bzero_ok s0 v s b k (Q : unit → fsst → Prop) :
  ready s0 v → fover s0 v s → room s0 v k → 1 ≤ k → j_held v !! b = None →
  inodestart (sb s0) ≤ b < 2 ^ 31 →
  (∀ s', fover s0 (jv_upd b zero_block v) s' → Q tt s') → wp (bzero d b) Q s.
Proof.
  intros Hr Hs Hroom Hk Hn Hb HQ. unfold bzero. apply wp_bind.
  eapply wp_bread; [exact Hs|done|by eapply room_bread|]. intros i s1 H1.
  apply wp_bind. eapply wp_set; [exact H1|by simpl; rewrite lookup_insert_eq|]. intros s2 H2.
  apply wp_bind. eapply wp_log; [exact H2|by simpl; rewrite lookup_insert_eq|destruct Hroom; simpl; lia| | |].
  { destruct (rd_layout _ _ Hr). lia. } { intros Ha%(rd_area _ _ Hr). lia. }
  intros s3 H3. eapply wp_brelse; [exact H3|by simpl; rewrite lookup_insert_eq|simpl; clear; set_solver|].
  intros s4 H4. apply HQ. rewrite jv_upd_eq in H4; [exact H4|done|]. rewrite (rd_dirty _ _ Hr). apply not_elem_of_empty.
Qed.

(** The view after the allocation of block [r]. *)
Definition jv_alloc (x : superblock) (r : Z) (v : jview) : jview :=
  jv_upd r zero_block (jv_upd (BBLOCK r x) (bit_mark (r mod BPB) (j_cur v (BBLOCK r x))) v).

Lemma jv_alloc_cur x r v : j_cur (jv_alloc x r v) = alloc_disk x r (j_cur v).
Proof. done. Qed.

(** A bitmap block of the scan: [b] is a multiple of BPB. *)
Lemma scan_bits x b bi : b mod BPB = 0 → 0 ≤ bi < BPB → BBLOCK (b + bi) x = BBLOCK b x ∧ (b + bi) mod BPB = bi.
Proof. intros Hb Hbi. unfold BBLOCK. fs_lia. Qed.

Lemma ready_alloc_bitmap s0 v r : ready s0 v → data_start (sb s0) ≤ r < sb_size (sb s0) →
  ready s0 (jv_upd (BBLOCK r (sb s0)) (bit_mark (r mod BPB) (j_cur v (BBLOCK r (sb s0)))) v).
Proof.
  intros Hr Hb. pose proof (rd_layout _ _ Hr) as Hlo. pose proof (rd_ok _ _ Hr) as Hok.
  pose proof (data_start_pos _ Hlo). pose proof (bblock_range _ Hlo r ltac:(lia)).
  destruct (ok_len _ _ Hok (BBLOCK r (sb s0))) as [Hl Hby]; [destruct Hlo; lia|].
  assert (∀ b', 0 ≤ b' < sb_size (sb s0) → in_use (sb s0) (j_cur v) b' →
    in_use (sb s0) (<[BBLOCK r (sb s0) := bit_mark (r mod BPB) (j_cur v (BBLOCK r (sb s0)))]> (j_cur v)) b') as Hu.
  { intros b' Hb' Hin. rewrite in_use_update by done. case_decide as E; [|done].
    pose proof (bit_range r). pose proof (bit_range b').
    rewrite (bit_mark_spec _ Hby) by lia. rewrite E. unfold in_use in Hin. by rewrite Hin, andb_false_r. }
  split; simpl; try apply Hr.
  - apply bitmap_ok; [done|lia|unfold bit_mark; by rewrite length_put8|by apply is_bytes_put8|].
    intros b' Hb'. apply Hu; [destruct Hlo; lia|]. by apply (ok_meta _ _ Hok).
  - intros b' Hb'. destruct (rd_held _ _ Hr b' Hb') as [? ?]. split; [done|]. apply Hu; [lia|done].
Qed.

Lemma balloc_loop_ok s0 v : ready s0 v → room s0 v 2 → ∀ fuel b s,
  fover s0 v s → 0 ≤ b → b mod BPB = 0 → (∀ b', 0 ≤ b' < b → b' < sb_size (sb s0) → in_use (sb s0) (j_cur v) b') →
  sb_size (sb s0) - b < Z.of_nat fuel → 1 ≤ Z.of_nat fuel →
  wp (balloc_loop fuel d b) (λ r s',
    (r = 0 ∧ (∀ b, 0 ≤ b < sb_size (sb s0) → in_use (sb s0) (j_cur v) b) ∧ fover s0 v s') ∨
    (data_start (sb s0) ≤ r < sb_size (sb s0) ∧ ¬ in_use (sb s0) (j_cur v) r ∧
     (∀ b, 0 ≤ b < r → in_use (sb s0) (j_cur v) b) ∧ fover s0 (jv_alloc (sb s0) r v) s')) s.
Proof.
  intros Hr Hroom. pose proof (rd_layout _ _ Hr) as Hlo. pose proof (rd_ok _ _ Hr) as Hok.
  induction fuel as [|fuel IH]; intros b s Hs Hb Hmod Hlt Hf Hf1; [lia|].
  cbn [balloc_loop]. apply wp_bind, wp_gets. destruct (fover_sb _ _ _ Hs) as (-> & _).
  destruct (b <? sb_size (sb s0)) eqn:E; bsimpl.
  2:{ apply wp_ret. left. split_and!; [done| |done]. intros b' Hb'. apply Hlt; lia. }
  pose proof (bblock_range _ Hlo b ltac:(lia)) as Hbb.
  apply wp_bind. eapply wp_bread; [exact Hs|apply (ready_not_held _ _ _ Hr); left; lia|by eapply room_bread|].
  intros i s1 H1. apply wp_bind. eapply wp_data; [exact H1|by simpl; rewrite lookup_insert_eq|].
  pose proof (find_free_spec (j_cur v (BBLOCK b (sb s0))) (Z.to_nat (Z.min BPB (sb_size (sb s0) - b))) 0) as Hfind.
  simpl. destruct (find_free _ _ _) as [bi|].
  - destruct Hfind as (Hbi & Hfree & Hfirst).
    destruct (scan_bits (sb s0) b bi Hmod ltac:(lia)) as [Ebb Emod].
    assert (¬ in_use (sb s0) (j_cur v) (b + bi)) as Hnu by (unfold in_use; rewrite Ebb, Emod; congruence).
    assert (data_start (sb s0) ≤ b + bi < sb_size (sb s0)) as Hri.
    { split; [|lia]. destruct (decide (data_start (sb s0) ≤ b + bi)); [done|].
      exfalso. apply Hnu, (ok_meta _ _ Hok). lia. }
    pose proof (ready_alloc_bitmap _ _ _ Hr Hri) as Hr'. rewrite Ebb, Emod in Hr'.
    apply wp_bind. eapply wp_set; [exact H1|by simpl; rewrite lookup_insert_eq|]. intros s2 H2.
    apply wp_bind. eapply wp_log; [exact H2|by simpl; rewrite lookup_insert_eq|destruct Hroom; simpl; lia| | |].
    { destruct Hlo. lia. } { intros Ha%(rd_area _ _ Hr). lia. }
    intros s3 H3. apply wp_bind.
    eapply wp_brelse; [exact H3|by simpl; rewrite lookup_insert_eq|simpl; clear; set_solver|].
    intros s4 H4. rewrite jv_upd_eq in H4; [|apply (ready_not_held _ _ _ Hr); left; lia|rewrite (rd_dirty _ _ Hr); apply not_elem_of_empty].
    apply wp_bind. eapply (bzero_ok s0 _ s4 _ 1 _ Hr' H4); [by apply (room_upd s0 v 2)|lia| |destruct Hlo; lia|].
    { simpl. apply (ready_not_held _ _ _ Hr). by right. }
    intros s5 H5. apply wp_ret. right. unfold jv_alloc. rewrite Ebb, Emod. split_and!; [lia|lia|done| |done].
    intros b' Hb'. destruct (decide (b' < b)); [apply Hlt; lia|].
    destruct (scan_bits (sb s0) b (b' - b) Hmod ltac:(lia)) as [E1 E2].
    replace (b + (b' - b)) with b' in E1, E2 by lia. unfold in_use. rewrite E1, E2. apply Hfirst. lia.
  - apply wp_bind. eapply wp_brelse; [exact H1|by simpl; rewrite lookup_insert_eq|simpl; rewrite (rd_dirty _ _ Hr); apply not_elem_of_empty|].
    intros s2 H2. rewrite jv_read_eq in H2 by (apply (ready_not_held _ _ _ Hr); left; lia).
    apply (IH (b + BPB)); [done|fs_lia|fs_lia| |fs_lia|fs_lia].
    intros b' Hb' Hsz. destruct (decide (b' < b)); [apply Hlt; lia|].
    destruct (scan_bits (sb s0) b (b' - b) Hmod ltac:(lia)) as [E1 E2].
    replace (b + (b' - b)) with b' in E1, E2 by lia. unfold in_use. rewrite E1, E2. apply Hfind. lia.
Qed.

Lemma balloc_ok s0 v s : ready s0 v → room s0 v 2 → fover s0 v s →
  wp (balloc d) (λ r s',
    (r = 0 ∧ (∀ b, 0 ≤ b < sb_size (sb s0) → in_use (sb s0) (j_cur v) b) ∧ fover s0 v s') ∨
    (data_start (sb s0) ≤ r < sb_size (sb s0) ∧ ¬ in_use (sb s0) (j_cur v) r ∧
     (∀ b, 0 ≤ b < r → in_use (sb s0) (j_cur v) b) ∧ fover s0 (jv_alloc (sb s0) r v) s')) s.
Proof.
  intros Hr Hroom Hs. unfold balloc. apply wp_bind, wp_gets. destruct (fover_sb _ _ _ Hs) as (-> & _).
  destruct (lo_size _ (rd_layout _ _ Hr)). apply balloc_loop_ok; try done; try lia.
Qed.

Lemma bfree_ok s0 v s b (Q : unit → fsst → Prop) :
  ready s0 v → room s0 v 1 → fover s0 v s → data_start (sb s0) ≤ b < sb_size (sb s0) →
  in_use (sb s0) (j_cur v) b →
  (∀ s', fover s0 (jv_upd (BBLOCK b (sb s0)) (bit_clear (b mod BPB) (j_cur v (BBLOCK b (sb s0)))) v) s' → Q tt s') →
  wp (bfree d b) Q s.
Proof.
  intros Hr Hroom Hs Hb Hu HQ. pose proof (rd_layout _ _ Hr) as Hlo. pose proof (data_start_pos _ Hlo).
  pose proof (bblock_range _ Hlo b ltac:(lia)) as Hbb.
  unfold bfree. apply wp_bind, wp_gets. destruct (fover_sb _ _ _ Hs) as (-> & _).
  apply wp_bind. eapply wp_bread; [exact Hs|apply (ready_not_held _ _ _ Hr); left; lia|by eapply room_bread|].
  intros i s1 H1. apply wp_bind. eapply wp_data; [exact H1|by simpl; rewrite lookup_insert_eq|].
  simpl. unfold in_use in Hu. rewrite Hu.
  apply wp_bind. eapply wp_set; [exact H1|by simpl; rewrite lookup_insert_eq|]. intros s2 H2.
  apply wp_bind. eapply wp_log; [exact H2|by simpl; rewrite lookup_insert_eq|destruct Hroom; simpl; lia| | |].
  { destruct Hlo. lia. } { intros Ha%(rd_area _ _ Hr). lia. }
  intros s3 H3. eapply wp_brelse; [exact H3|by simpl; rewrite lookup_insert_eq|simpl; clear; set_solver|].
  intros s4 H4. apply HQ. rewrite jv_upd_eq in H4; [exact H4|apply (ready_not_held _ _ _ Hr); left; lia|].
  rewrite (rd_dirty _ _ Hr). apply not_elem_of_empty.
Qed.

End rules.

End FsBlock.
