(* ===== verification/FsInode.v ===== *)
(** * Inode contents: bmap

    [nth_block]: the block that holds the nth block of a file, through the direct
    and the indirect addresses.  [inode_wf]: the blocks of a file are data blocks
    in use, no two the same, and there is one for every part of the file below
    its size.  bmap returns the nth block, allocating it (and the indirect block)
    if need be, and leaves every other block of every file alone. *)

From S2P Require Import Prelude Bytes Spinlock Riscv ListH Sleeplock Bio Log LogCrash LogTx Journal CString Fs FsBlock.
Import Riscv Bytes Lock Journal Fs FsBlock.

Module FsInode.

Definition nth_block (x : inode) (cur : Z → bytes) (bn : Z) : Z :=
  if bn <? NDIRECT then addr_at x bn
  else if addr_at x NDIRECT =? 0 then 0
  else ind_get (cur (addr_at x NDIRECT)) (bn - NDIRECT).

Record inode_wf (y : superblock) (x : inode) (cur : Z → bytes) : Prop := {
  iw_len : length (addrs x) = Z.to_nat (NDIRECT + 1);
  iw_blk : ∀ bn, 0 ≤ bn < MAXFILE → nth_block x cur bn ≠ 0 →
    data_start y ≤ nth_block x cur bn < sb_size y ∧ in_use y cur (nth_block x cur bn) ∧
    nth_block x cur bn ≠ addr_at x NDIRECT;
  iw_ind : addr_at x NDIRECT ≠ 0 →
    data_start y ≤ addr_at x NDIRECT < sb_size y ∧ in_use y cur (addr_at x NDIRECT);
  iw_inj : ∀ bn bn', 0 ≤ bn < MAXFILE → 0 ≤ bn' < MAXFILE → nth_block x cur bn ≠ 0 →
    nth_block x cur bn = nth_block x cur bn' → bn = bn';
  iw_size : 0 ≤ isize x ≤ MAXFILE * BSIZE;
  iw_dense : ∀ bn, 0 ≤ bn → bn * BSIZE < isize x → nth_block x cur bn ≠ 0 }.

(** The fields other than the addresses and the size. *)
Definition same_meta (x x' : inode) : Prop :=
  dev x' = dev x ∧ inum x' = inum x ∧ ref x' = ref x ∧ lock x' = lock x ∧ valid x' = valid x ∧
  type x' = type x ∧ major x' = major x ∧ minor x' = minor x ∧ nlink x' = nlink x.

(** The blocks of a file. *)
Definition owned (x : inode) (cur : Z → bytes) (b : Z) : Prop :=
  b ≠ 0 ∧ (b = addr_at x NDIRECT ∨ ∃ bn, 0 ≤ bn < MAXFILE ∧ b = nth_block x cur bn).

(** Log blocks in use, plus those the indirect block may still need. *)
Definition pot (x : inode) (v : jview) : Z :=
  Z.of_nat (base.size (j_log v)) +
  (if addr_at x NDIRECT =? 0 then 2 else if bool_decide (addr_at x NDIRECT ∈ j_log v) then 0 else 1).

(** ** Lemmas *)

Lemma addr_set_eq x i a : 0 ≤ i < Z.of_nat (length (addrs x)) → addr_at (set_addr i a x) i = a.
Proof. intros Hi. unfold addr_at. simpl. by rewrite list_lookup_insert_eq by lia. Qed.

Lemma addr_set_ne x i a j : 0 ≤ i → 0 ≤ j → i ≠ j → addr_at (set_addr i a x) j = addr_at x j.
Proof. intros Hi Hj Hne. unfold addr_at. simpl. by rewrite list_lookup_insert_ne by lia. Qed.

Lemma ind_put_eq j a v : 0 ≤ j < NINDIRECT → Z.of_nat (length v) = BSIZE → 0 ≤ a < 2 ^ 32 →
  ind_get (ind_put j a v) j = a.
Proof. intros Hj Hl Ha. unfold ind_get, ind_put. rewrite get32_put32_eq by fs_lia. by apply u32_small. Qed.

Lemma ind_put_ne j a v j' : 0 ≤ j → 0 ≤ j' → j ≠ j' → ind_get (ind_put j a v) j' = ind_get v j'.
Proof. intros Hj Hj' Hne. unfold ind_get, ind_put. apply get32_put32_ne; lia. Qed.

Lemma ind_zero j : 0 ≤ j < NINDIRECT → ind_get zero_block j = 0.
Proof.
  intros Hj. unfold ind_get, get32.
  assert (sub_bytes (4 * j) 4 zero_block = replicate 4 0) as ->; [|done].
  unfold sub_bytes, zero_block. rewrite drop_replicate, take_replicate. f_equal. fs_lia.
Qed.

Lemma is_bytes_put_bytes o bs d : is_bytes bs → is_bytes d → is_bytes (put_bytes o bs d).
Proof.
  intros H1 Hd. unfold put_bytes. generalize (Z.to_nat o). induction H1 as [|b bs Hb _ IH]; intros n; simpl; [done|].
  by apply Forall_insert; [apply IH|].
Qed.

Lemma is_bytes_le n v : is_bytes (le_bytes n v).
Proof.
  revert v. induction n as [|n IH]; intros v; simpl; [constructor|].
  constructor; [apply Z.mod_pos_bound; lia|apply IH].
Qed.

Section bmap.
Context {J : Type} `{Journal J} (d : Z).
Implicit Types (s : @fsst J) (v : jview) (x : inode).

(** What bmap guarantees, for the inode [x] and the view [v] before and [x'], [v']
    after. *)
Record bmap_post s0 x v (bn r : Z) x' v' : Prop := {
  bp_wf : inode_wf (sb s0) x' (j_cur v');
  bp_ready : ready s0 v';
  bp_meta : same_meta x x' ∧ isize x' = isize x;
  bp_held : j_held v' = j_held v;
  bp_ret : r = nth_block x' (j_cur v') bn;
  bp_other : ∀ bn', 0 ≤ bn' < MAXFILE → bn' ≠ bn → nth_block x' (j_cur v') bn' = nth_block x (j_cur v) bn';
  bp_this : nth_block x (j_cur v) bn = r ∨
    (nth_block x (j_cur v) bn = 0 ∧ j_cur v' r = zero_block ∧ r ∈ j_log v');
  bp_frame : ∀ b, data_start (sb s0) ≤ b < sb_size (sb s0) → in_use (sb s0) (j_cur v) b →
    b ≠ addr_at x' NDIRECT → j_cur v' b = j_cur v b;
  bp_low : ∀ b, b < bmapstart (sb s0) → j_cur v' b = j_cur v b;
  bp_use : ∀ b, 0 ≤ b < sb_size (sb s0) → in_use (sb s0) (j_cur v) b → in_use (sb s0) (j_cur v') b;
  bp_fresh : ∀ b, 0 ≤ b < sb_size (sb s0) → in_use (sb s0) (j_cur v') b →
    in_use (sb s0) (j_cur v) b ∨ owned x' (j_cur v') b;
  bp_own : ∀ b, owned x' (j_cur v') b → owned x (j_cur v) b ∨ ¬ in_use (sb s0) (j_cur v) b;
  bp_ind : addr_at x NDIRECT ≠ 0 → addr_at x' NDIRECT = addr_at x NDIRECT;
  bp_full : r = 0 → ∀ b, 0 ≤ b < sb_size (sb s0) → in_use (sb s0) (j_cur v') b;
  bp_pot : pot x' v' ≤ pot x v + (if nth_block x (j_cur v) bn =? 0 then 2 else 0) }.

Lemma bmap_post_refl s0 x v bn : inode_wf (sb s0) x (j_cur v) → ready s0 v →
  (nth_block x (j_cur v) bn = 0 → ∀ b, 0 ≤ b < sb_size (sb s0) → in_use (sb s0) (j_cur v) b) →
  bmap_post s0 x v bn (nth_block x (j_cur v) bn) x v.
Proof. intros Hwf Hr Hfull. split; try done; auto. case_if; lia. Qed.

Lemma bmap_data y : layout y → bmapstart y < data_start y.
Proof.
  intros [H1 _ _ _]. unfold data_start. assert (0 ≤ sb_size y / BPB) by (apply Z.div_pos; fs_lia). lia.
Qed.

Lemma start_order y : layout y → 2 ≤ inodestart y < data_start y.
Proof.
  intros Hlo. pose proof (bblock_range _ Hlo 0 ltac:(destruct Hlo; lia)). destruct Hlo. lia.
Qed.

(** Allocation of a block keeps the rest of the disk. *)
Lemma alloc_frame y v r b : layout y → data_start y ≤ r < sb_size y → b ≠ r →
  data_start y ≤ b ∨ b < bmapstart y → j_cur (jv_alloc y r v) b = j_cur v b.
Proof.
  intros Hlo Hr Hne Hb. pose proof (data_start_pos _ Hlo). pose proof (bblock_range _ Hlo r ltac:(lia)).
  rewrite jv_alloc_cur. unfold alloc_disk. rewrite fn_lookup_insert_ne by done.
  rewrite fn_lookup_insert_ne; [done|]. unfold BBLOCK in *.
  assert (0 ≤ r / BPB) by (apply Z.div_pos; fs_lia). lia.
Qed.

Lemma ready_alloc s0 v r : ready s0 v → data_start (sb s0) ≤ r < sb_size (sb s0) → ready s0 (jv_alloc (sb s0) r v).
Proof.
  intros Hr Hb. pose proof (rd_layout _ _ Hr) as Hlo. pose proof (rd_ok _ _ Hr) as Hok.
  pose proof (data_start_pos _ Hlo). split; try apply Hr.
  - rewrite jv_alloc_cur. by apply alloc_ok.
  - intros b Hin. destruct (rd_held _ _ Hr b Hin) as [? ?]. split; [done|].
    rewrite jv_alloc_cur. apply alloc_in_use; try done; [lia|by right].
Qed.

Lemma alloc_use s0 v r b : ready s0 v → data_start (sb s0) ≤ r < sb_size (sb s0) → 0 ≤ b < sb_size (sb s0) →
  in_use (sb s0) (j_cur (jv_alloc (sb s0) r v)) b ↔ b = r ∨ in_use (sb s0) (j_cur v) b.
Proof. intros Hr Hb Hb'. rewrite jv_alloc_cur. apply alloc_in_use; [apply Hr|apply Hr|done|done]. Qed.

Lemma alloc_log y r v : j_log (jv_alloc y r v) = {[r]} ∪ ({[BBLOCK r y]} ∪ j_log v).
Proof. done. Qed.

Lemma alloc_log_size y r v :
  (base.size (j_log (jv_alloc y r v)) ≤ 2 + base.size (j_log v))%nat.
Proof.
  rewrite alloc_log. pose proof (size_add r ({[BBLOCK r y]} ∪ j_log v)).
  pose proof (size_add (BBLOCK r y) (j_log v)). lia.
Qed.

(** A file that got block [r] as its nth block. *)
Lemma grow_post s0 x v bn r x' v' : inode_wf (sb s0) x (j_cur v) → layout (sb s0) → ready s0 v' →
  0 ≤ bn < MAXFILE → same_meta x x' ∧ isize x' = isize x → length (addrs x') = length (addrs x) →
  j_held v' = j_held v → addr_at x' NDIRECT = addr_at x NDIRECT →
  nth_block x (j_cur v) bn = 0 → data_start (sb s0) ≤ r < sb_size (sb s0) → ¬ in_use (sb s0) (j_cur v) r →
  nth_block x' (j_cur v') bn = r →
  (∀ bn', 0 ≤ bn' < MAXFILE → bn' ≠ bn → nth_block x' (j_cur v') bn' = nth_block x (j_cur v) bn') →
  (∀ b, 0 ≤ b < sb_size (sb s0) → in_use (sb s0) (j_cur v') b ↔ b = r ∨ in_use (sb s0) (j_cur v) b) →
  j_cur v' r = zero_block → r ∈ j_log v' →
  (∀ b, data_start (sb s0) ≤ b < sb_size (sb s0) → in_use (sb s0) (j_cur v) b →
    b ≠ addr_at x' NDIRECT → j_cur v' b = j_cur v b) →
  (∀ b, b < bmapstart (sb s0) → j_cur v' b = j_cur v b) → pot x' v' ≤ pot x v + 2 →
  bmap_post s0 x v bn r x' v'.
Proof.
  intros Hwf Hlo Hr Hbn [Hm Hsz] Hlen Hheld Ei Ex Hrr Hnu En Hoth Huse Hz Hlog Hfr Hlow Hpot.
  pose proof (data_start_pos _ Hlo) as Hdp. split; try done.
  - split.
    + rewrite Hlen. apply Hwf.
    + intros bn' Hb' Hn0. rewrite Ei. destruct (decide (bn' = bn)) as [->|Hne].
      * rewrite En. split_and!; [lia|lia|apply Huse; [lia|by left]|].
        intros Er. destruct (decide (addr_at x NDIRECT = 0)); [lia|]. apply Hnu. rewrite Er. by apply (iw_ind _ _ _ Hwf).
      * rewrite Hoth in * by done. destruct (iw_blk _ _ _ Hwf bn' Hb' Hn0) as (? & ? & ?).
        split_and!; [lia|lia| |done]. apply Huse; [lia|by right].
    + rewrite Ei. intros Hn0. destruct (iw_ind _ _ _ Hwf Hn0) as [? ?]. split; [done|]. apply Huse; [lia|by right].
    + intros b1 b2 H1 H2 Hn0 Heq. destruct (decide (b1 = bn)) as [->|N1], (decide (b2 = bn)) as [->|N2]; try done.
      * rewrite En, Hoth in Heq by done. exfalso. apply Hnu. rewrite Heq. rewrite En, Heq in Hn0. by apply (iw_blk _ _ _ Hwf).
      * rewrite En, Hoth in Heq by done. exfalso. apply Hnu. rewrite <- Heq. rewrite Hoth in Hn0 by done. by apply (iw_blk _ _ _ Hwf).
      * rewrite !Hoth in Heq by done. rewrite Hoth in Hn0 by done. by apply (iw_inj _ _ _ Hwf).
    + rewrite Hsz. apply (iw_size _ _ _ Hwf).
    + intros bn' Hb' Hlt. rewrite Hsz in Hlt. destruct (decide (bn' = bn)) as [->|Hne]; [rewrite En; lia|].
      rewrite Hoth; [by apply (iw_dense _ _ _ Hwf)| |done]. pose proof (iw_size _ _ _ Hwf). split; [done|]. fs_lia.
  - by right.
  - intros b Hb Hu. apply Huse; [done|by right].
  - intros b Hb Hu. apply Huse in Hu as [->|?]; [right|by left|done]. split; [lia|]. right. exists bn. by split.
  - intros b [Hb0 [->|(bn' & Hbn' & ->)]]; [left; rewrite Ei; split; [by rewrite <- Ei|by left]|].
    destruct (decide (bn' = bn)) as [->|Hne]; [right; by rewrite En|].
    left. rewrite Hoth in * by done. split; [done|]. right. by exists bn'.
  - lia.
  - rewrite Ex. simpl. lia.
Qed.

(** A new direct block. *)
Lemma direct_post s0 x v bn r : inode_wf (sb s0) x (j_cur v) → ready s0 v →
  0 ≤ bn < NDIRECT → addr_at x bn = 0 →
  data_start (sb s0) ≤ r < sb_size (sb s0) → ¬ in_use (sb s0) (j_cur v) r →
  bmap_post s0 x v bn r (set_addr bn r x) (jv_alloc (sb s0) r v).
Proof.
  intros Hwf Hr Hbn H0 Hrr Hnu. pose proof (rd_layout _ _ Hr) as Hlo. pose proof (iw_len _ _ _ Hwf) as Hlen.
  assert (addr_at (set_addr bn r x) bn = r) as Eb by (apply addr_set_eq; rewrite Hlen; fs_lia).
  assert (∀ i, 0 ≤ i → i ≠ bn → addr_at (set_addr bn r x) i = addr_at x i) as Eo by (intros; apply addr_set_ne; lia).
  assert (addr_at (set_addr bn r x) NDIRECT = addr_at x NDIRECT) as Ei by (apply Eo; fs_lia).
  assert (∀ b, data_start (sb s0) ≤ b < sb_size (sb s0) → in_use (sb s0) (j_cur v) b →
    j_cur (jv_alloc (sb s0) r v) b = j_cur v b) as Hfr.
  { intros b Hb Hu. apply (alloc_frame _ _ _ _ Hlo Hrr); [by intros ->|left; lia]. }
  assert ((bn <? NDIRECT) = true) as Elt by (apply Z.ltb_lt; lia).
  apply grow_post; try done; [by apply ready_alloc|fs_lia|simpl; by rewrite length_insert|..].
  - unfold nth_block. by rewrite Elt.
  - unfold nth_block. by rewrite Elt.
  - intros bn' Hb' Hne. unfold nth_block. rewrite Ei. destruct (bn' <? NDIRECT); [apply Eo; lia|].
    destruct (addr_at x NDIRECT =? 0) eqn:E; bsimpl; [done|].
    destruct (iw_ind _ _ _ Hwf E) as [? ?]. by rewrite Hfr.
  - intros b Hb. by apply alloc_use.
  - rewrite jv_alloc_cur. unfold alloc_disk. by rewrite fn_lookup_insert.
  - rewrite alloc_log. set_solver.
  - intros b Hb Hu _. by apply Hfr.
  - intros b Hb. apply (alloc_frame _ _ _ _ Hlo Hrr); [|by right]. pose proof (bmap_data _ Hlo). lia.
  - unfold pot. rewrite Ei. pose proof (alloc_log_size (sb s0) r v).
    destruct (addr_at x NDIRECT =? 0); [lia|].
    repeat case_bool_decide; try lia. rewrite alloc_log in *. set_solver.
Qed.

(** A new block entered in the indirect block, which the caller has locked. *)
Lemma indirect_post s0 x v bn r : inode_wf (sb s0) x (j_cur v) → ready s0 v →
  NDIRECT ≤ bn < MAXFILE → addr_at x NDIRECT ≠ 0 → nth_block x (j_cur v) bn = 0 →
  data_start (sb s0) ≤ r < sb_size (sb s0) → ¬ in_use (sb s0) (j_cur v) r →
  let ind := addr_at x NDIRECT in
  bmap_post s0 x v bn r x (jv_upd ind (ind_put (bn - NDIRECT) r (j_cur v ind)) (jv_alloc (sb s0) r v)).
Proof.
  intros Hwf Hr Hbn Hi H0 Hrr Hnu ind. pose proof (rd_layout _ _ Hr) as Hlo. pose proof (data_start_pos _ Hlo) as Hdp.
  destruct (iw_ind _ _ _ Hwf Hi) as [Hir Hiu]. fold ind in Hir, Hiu.
  assert (ind ≠ r) as Hne by (by intros <-).
  destruct (ok_len _ _ (rd_ok _ _ Hr) ind ltac:(lia)) as [Hl Hby].
  pose proof (ready_alloc _ _ _ Hr Hrr) as Hra. destruct (lo_size _ Hlo) as [_ Hs31].
  assert (j_cur (jv_alloc (sb s0) r v) ind = j_cur v ind) as Ec by (apply (alloc_frame _ _ _ _ Hlo Hrr); [done|left; lia]).
  assert (∀ b, 0 ≤ b < sb_size (sb s0) →
    in_use (sb s0) (<[ind := ind_put (bn - NDIRECT) r (j_cur v ind)]> (j_cur (jv_alloc (sb s0) r v))) b ↔
    b = r ∨ in_use (sb s0) (j_cur v) b) as Huse.
  { intros b Hb. rewrite <- (alloc_use _ _ _ _ Hr Hrr Hb). unfold in_use.
    pose proof (bblock_range _ Hlo b Hb). by rewrite fn_lookup_insert_ne by lia. }
  assert ((bn <? NDIRECT) = false) as Elt by (apply Z.ltb_ge; lia).
  assert ((addr_at x NDIRECT =? 0) = false) as Ez by (by apply Z.eqb_neq).
  apply grow_post; try done; [|fs_lia|..]; simpl.
  - split; simpl; try apply Hra.
    + apply put_ok; [done|apply Hra|lia|unfold ind_put; by rewrite length_put32|].
      apply is_bytes_put_bytes; [apply is_bytes_le|done].
    + intros b Hb. destruct (rd_held _ _ Hr b Hb) as [? ?]. split; [done|]. apply Huse; [lia|by right].
  - unfold nth_block. rewrite Elt, Ez. fold ind. rewrite fn_lookup_insert. apply ind_put_eq; [fs_lia|done|lia].
  - intros bn' Hb' Hn. unfold nth_block. rewrite Ez. fold ind. destruct (bn' <? NDIRECT) eqn:E; bsimpl; [done|].
    rewrite fn_lookup_insert. apply ind_put_ne; lia.
  - rewrite fn_lookup_insert_ne by done. unfold alloc_disk. by rewrite fn_lookup_insert.
  - set_solver.
  - intros b Hb Hu Hn. rewrite fn_lookup_insert_ne by done. apply (alloc_frame _ _ _ _ Hlo Hrr); [by intros ->|left; lia].
  - intros b Hb. pose proof (bmap_data _ Hlo). rewrite fn_lookup_insert_ne by lia.
    apply (alloc_frame _ _ _ _ Hlo Hrr); [lia|by right].
  - unfold pot. rewrite Ez. fold ind. simpl. rewrite bool_decide_true by set_solver.
    pose proof (alloc_log_size (sb s0) r v) as Hsz. rewrite alloc_log in Hsz.
    set (L := {[r]} ∪ ({[BBLOCK r (sb s0)]} ∪ j_log v)) in *. case_bool_decide as Hin.
    + replace ({[ind]} ∪ L) with L by (unfold L; set_solver). lia.
    + pose proof (size_add ind L). lia.
Qed.

(** A new indirect block: no block of the file changes. *)
Lemma new_indirect s0 x v r : inode_wf (sb s0) x (j_cur v) → ready s0 v → addr_at x NDIRECT = 0 →
  data_start (sb s0) ≤ r < sb_size (sb s0) → ¬ in_use (sb s0) (j_cur v) r →
  let x' := set_addr NDIRECT r x in let v' := jv_alloc (sb s0) r v in
  inode_wf (sb s0) x' (j_cur v') ∧ addr_at x' NDIRECT = r ∧ ready s0 v' ∧ pot x' v' ≤ pot x v ∧
  ∀ bn, 0 ≤ bn < MAXFILE → nth_block x' (j_cur v') bn = nth_block x (j_cur v) bn.
Proof.
  intros Hwf Hr H0 Hrr Hnu x' v'. pose proof (rd_layout _ _ Hr) as Hlo. pose proof (data_start_pos _ Hlo) as Hdp.
  pose proof (iw_len _ _ _ Hwf) as Hlen.
  assert (addr_at x' NDIRECT = r) as Ei by (apply addr_set_eq; rewrite Hlen; fs_lia).
  assert (∀ bn, 0 ≤ bn < MAXFILE → nth_block x' (j_cur v') bn = nth_block x (j_cur v) bn) as Hnth.
  { intros bn Hbn. unfold nth_block. destruct (bn <? NDIRECT) eqn:E; bsimpl; [apply addr_set_ne; fs_lia|].
    rewrite H0, Ei, Z.eqb_refl. destruct (r =? 0) eqn:E0; bsimpl; [done|].
    change (j_cur v') with (alloc_disk (sb s0) r (j_cur v)). unfold alloc_disk. rewrite fn_lookup_insert.
    apply ind_zero. fs_lia. }
  assert (∀ b, 0 ≤ b < sb_size (sb s0) → in_use (sb s0) (j_cur v) b → in_use (sb s0) (j_cur v') b) as Hu.
  { intros b Hb Hin. apply (alloc_use _ _ _ _ Hr Hrr Hb). by right. }
  split_and!; [|done|by apply ready_alloc| |done].
  - split.
    + simpl. by rewrite length_insert.
    + intros bn Hbn. rewrite Hnth, Ei by done. intros Hn0. destruct (iw_blk _ _ _ Hwf bn Hbn Hn0) as (? & ? & _).
      split_and!; [lia|lia|apply Hu; [lia|done]|]. intros E. apply Hnu. by rewrite <- E.
    + rewrite Ei. intros _. split; [done|]. apply (alloc_use _ _ _ _ Hr Hrr); [lia|by left].
    + intros b1 b2 H1 H2. rewrite !Hnth by done. by apply (iw_inj _ _ _ Hwf).
    + apply (iw_size _ _ _ Hwf).
    + intros bn Hb Hlt. simpl in Hlt. pose proof (iw_size _ _ _ Hwf). rewrite Hnth by fs_lia. by apply (iw_dense _ _ _ Hwf).
  - unfold pot. rewrite Ei, H0, Z.eqb_refl. pose proof (alloc_log_size (sb s0) r v) as Hsz. fold v' in Hsz.
    destruct (r =? 0) eqn:E; bsimpl; [lia|]. rewrite bool_decide_true; [lia|]. unfold v'. rewrite alloc_log. set_solver.
Qed.

Lemma room_hold s0 v k b i : room s0 v k → room s0 (jv_hold b i v) (k - 1).
Proof.
  intros [H1 H2]. split; unfold j_used in *; simpl in *; [|lia].
  replace (dom (<[b := i]> (j_held v)) ∪ j_log v) with ({[b]} ∪ (dom (j_held v) ∪ j_log v)) by (rewrite dom_insert_L; set_solver).
  pose proof (size_add b (dom (j_held v) ∪ j_log v)). lia.
Qed.

Lemma room_alloc s0 y v k r : room s0 v k → room s0 (jv_alloc y r v) (k - 2).
Proof. intros Hr. unfold jv_alloc. replace (k - 2) with (k - 1 - 1) by lia. by do 2 apply room_upd. Qed.

Lemma room_le s0 v k k' : room s0 v k → k' ≤ k → room s0 v k'.
Proof. intros [? ?] ?. split; lia. Qed.

Lemma ready_hold s0 v b i : ready s0 v → data_start (sb s0) ≤ b < sb_size (sb s0) → in_use (sb s0) (j_cur v) b →
  ready s0 (jv_hold b i v).
Proof.
  intros Hr Hb Hu. split; simpl; try apply Hr. intros b' Hb'. rewrite dom_insert_L in Hb'.
  apply elem_of_union in Hb' as [->%elem_of_singleton|Hb']; [done|]. by apply (rd_held _ _ Hr).
Qed.

(** The view in which an entry of the locked indirect block was filled in. *)
Lemma jv_ind_eq y ind a i r v : j_held v !! ind = None → ind ∉ j_dirty v →
  jv_release ind (jv_logged ind (jv_set ind a (jv_alloc y r (jv_hold ind i v)))) = jv_upd ind a (jv_alloc y r v).
Proof.
  intros Hn Hd. unfold jv_release, jv_logged, jv_set, jv_alloc, jv_hold, jv_upd. simpl.
  rewrite delete_insert_id by done. f_equal. set_solver.
Qed.

Lemma bmap_indirect_ok s0 v s x bn : ready s0 v → room s0 v 3 → fover d s0 v s → j_held v = ∅ →
  inode_wf (sb s0) x (j_cur v) → NDIRECT ≤ bn < MAXFILE → addr_at x NDIRECT ≠ 0 →
  wp (bmap_indirect d (addr_at x NDIRECT) (bn - NDIRECT))
     (λ r s', ∃ v', bmap_post s0 x v bn r x v' ∧ fover d s0 v' s') s.
Proof.
  intros Hr Hroom Hs Hh Hwf Hbn Hi. set (ind := addr_at x NDIRECT) in *.
  destruct (iw_ind _ _ _ Hwf Hi) as [Hir Hiu]. fold ind in Hir, Hiu.
  assert (nth_block x (j_cur v) bn = ind_get (j_cur v ind) (bn - NDIRECT)) as En.
  { unfold nth_block. destruct (bn <? NDIRECT) eqn:E; bsimpl; [lia|]. fold ind.
    destruct (ind =? 0) eqn:E0; bsimpl; [done|done]. }
  assert (j_held v !! ind = None) as Hn by (by rewrite Hh).
  unfold bmap_indirect. apply wp_bind. eapply wp_bread; [exact Hs|done|by eapply room_bread|].
  intros i s1 H1. apply wp_bind. eapply wp_data; [exact H1|by simpl; rewrite lookup_insert_eq|].
  simpl. rewrite <- En. destruct (nth_block x (j_cur v) bn =? 0) eqn:E0; bsimpl.
  2:{ apply wp_bind, wp_ret, wp_bind. eapply wp_brelse; [exact H1|by simpl; rewrite lookup_insert_eq|simpl; rewrite (rd_dirty _ _ Hr); apply not_elem_of_empty|].
      intros s2 H2. rewrite jv_read_eq in H2 by done. apply wp_ret. exists v. split; [by apply bmap_post_refl|done]. }
  apply wp_bind, wp_bind. eapply wp_mono; [apply (balloc_ok d s0 (jv_hold ind i v))|].
  { by apply ready_hold. } { by apply (room_hold s0 v 3). } { exact H1. }
  intros r s2 [(-> & Hfull & H2)|(Hrr & Hnu & _ & H2)]; simpl in *.
  - apply wp_bind, wp_ret, wp_ret, wp_bind. eapply wp_brelse; [exact H2|by simpl; rewrite lookup_insert_eq|simpl; rewrite (rd_dirty _ _ Hr); apply not_elem_of_empty|].
    intros s3 H3. rewrite jv_read_eq in H3 by done. apply wp_ret. exists v. split; [|done].
    rewrite <- E0. by apply bmap_post_refl.
  - pose proof (data_start_pos _ (rd_layout _ _ Hr)). destruct (r =? 0) eqn:Er; bsimpl; [lia|]. simpl.
    assert (ind ≠ r) as Hne by (by intros <-).
    assert (j_held (jv_alloc (sb s0) r (jv_hold ind i v)) !! ind = Some i) as Hi2 by (simpl; by rewrite lookup_insert_eq).
    apply wp_bind, wp_bind. eapply wp_data; [exact H2|exact Hi2|].
    apply wp_bind. eapply wp_set; [exact H2|exact Hi2|]. intros s3 H3.
    eapply wp_log; [exact H3|exact Hi2| |destruct (rd_layout _ _ Hr); lia|intros Ha%(rd_area _ _ Hr); pose proof (start_order _ (rd_layout _ _ Hr)); lia|].
    { pose proof (alloc_log_size (sb s0) r v). destruct Hroom. simpl in *. lia. }
    intros s4 H4. apply wp_ret, wp_bind. eapply wp_brelse; [exact H4|exact Hi2|simpl; clear; set_solver|].
    intros s5 H5. apply wp_ret.
    rewrite jv_ind_eq in H5 by (done || (rewrite (rd_dirty _ _ Hr); apply not_elem_of_empty)).
    eexists. split; [|exact H5].
    rewrite jv_alloc_cur. change (j_cur (jv_hold ind i v)) with (j_cur v). rewrite <- jv_alloc_cur.
    rewrite (alloc_frame (sb s0) v r ind (rd_layout _ _ Hr) Hrr Hne ltac:(left; lia)).
    by apply indirect_post.
Qed.

Lemma bmap_post_new_indirect s0 x v r bn q x' v' :
  inode_wf (sb s0) x (j_cur v) → ready s0 v → addr_at x NDIRECT = 0 → NDIRECT ≤ bn < MAXFILE →
  data_start (sb s0) ≤ r < sb_size (sb s0) → ¬ in_use (sb s0) (j_cur v) r →
  addr_at x' NDIRECT = r →
  bmap_post s0 (set_addr NDIRECT r x) (jv_alloc (sb s0) r v) bn q x' v' → bmap_post s0 x v bn q x' v'.
Proof.
  intros Hwf Hr H0 Hbn Hrr Hnu Ei' Hp. pose proof (rd_layout _ _ Hr) as Hlo. pose proof (data_start_pos _ Hlo) as Hdp.
  destruct (new_indirect s0 x v r Hwf Hr H0 Hrr Hnu) as (Hwf1 & Ei & Hr1 & Hpot & Hnth).
  destruct Hp as [P1 P2 P3 P4 P5 P6 P7 P8 P9 P10 P11 P12 P13 P14 P15]. split; try done.
  - intros bn' Hb Hne. rewrite P6, Hnth by done. done.
  - destruct P7 as [E|E]; [left|right]; rewrite <- Hnth by fs_lia; done.
  - intros b Hb Hu Hne. rewrite P8; [|done| |done].
    + apply (alloc_frame _ _ _ _ Hlo Hrr); [by intros ->|left; lia].
    + apply (alloc_use _ _ _ _ Hr Hrr); [lia|by right].
  - intros b Hb. rewrite P9 by done. pose proof (bmap_data _ Hlo).
    apply (alloc_frame _ _ _ _ Hlo Hrr); [lia|by right].
  - intros b Hb Hu. apply P10; [done|]. apply (alloc_use _ _ _ _ Hr Hrr); [done|by right].
  - intros b Hb Hu. destruct (P11 b Hb Hu) as [Hu1|Ho]; [|by right].
    apply (alloc_use _ _ _ _ Hr Hrr) in Hu1 as [->|?]; [|by left|done]. right. split; [lia|]. by left.
  - intros b Ho. destruct (P12 b Ho) as [[Hb0 [->|(bn' & Hbn' & ->)]]|Hnu1].
    + right. by rewrite Ei.
    + left. rewrite Hnth in * by done. split; [done|]. right. by exists bn'.
    + right. intros Hu. apply Hnu1. destruct (decide (0 ≤ b < sb_size (sb s0))) as [Hb|Hb].
      * apply (alloc_use _ _ _ _ Hr Hrr Hb). by right.
      * exfalso. destruct Ho as [Hb0 [->|(bn' & Hbn' & ->)]].
        -- destruct (iw_ind _ _ _ P1 Hb0). lia.
        -- destruct (iw_blk _ _ _ P1 bn' Hbn' Hb0). lia.
  - rewrite <- (Hnth bn) by fs_lia. lia.
Qed.

Lemma ready_base s0 s1 v : sb s1 = sb s0 → jr s1 = jr s0 → ready s0 v → ready s1 v.
Proof. intros E1 E2 []. split; rewrite ?E1, ?E2; auto. Qed.

Lemma bmap_post_base s0 s1 x v bn r x' v' : sb s1 = sb s0 → jr s1 = jr s0 →
  bmap_post s0 x v bn r x' v' → bmap_post s1 x v bn r x' v'.
Proof. intros E1 E2 []. split; rewrite ?E1; auto. by eapply ready_base. Qed.

Lemma fover_set s0 v s ip x' : fover d s0 v s → fover d (upd_inode ip (λ _, x') s0) v (upd_inode ip (λ _, x') s).
Proof. apply fover_upd. Qed.

Lemma fover_same s0 v s ip : fover d s0 v s → fover d (upd_inode ip (λ _, itable s0 ip) s0) v s.
Proof.
  intros Hs. eapply fover_base; [exact Hs|done| |done..]. intros i. simpl.
  destruct (decide (i = ip)) as [->|]; [by rewrite fn_lookup_insert|by rewrite fn_lookup_insert_ne].
Qed.

(** [bmap] of a block that is there changes nothing. *)
Lemma bmap_hit s0 v s ip bn : ready s0 v → room s0 v 1 → fover d s0 v s → j_held v = ∅ →
  let x := itable s0 ip in dev x = d → inode_wf (sb s0) x (j_cur v) → 0 ≤ bn < MAXFILE →
  nth_block x (j_cur v) bn ≠ 0 →
  wp (bmap ip bn) (λ r s', r = nth_block x (j_cur v) bn ∧ fover d s0 v s') s.
Proof.
  intros Hr Hroom Hs Hh x Hd Hwf Hbn Hnz. unfold nth_block in *.
  unfold bmap. apply wp_bind, wp_gets. destruct (fover_sb _ _ _ _ Hs) as (_ & Htb & _). rewrite Htb. fold x.
  destruct (bn <? NDIRECT) eqn:Elt; bsimpl.
  { destruct (addr_at x bn =? 0) eqn:E0; bsimpl; [done|]. by apply wp_ret. }
  destruct (bn - NDIRECT <? NINDIRECT) eqn:El; bsimpl; [|fs_lia].
  destruct (addr_at x NDIRECT =? 0) eqn:E0; bsimpl; [done|].
  rewrite Hd. unfold bmap_indirect. set (ind := addr_at x NDIRECT) in *.
  assert (j_held v !! ind = None) as Hn by (by rewrite Hh).
  apply wp_bind. eapply wp_bread; [exact Hs|done|by eapply room_bread|].
  intros i s1 H1. apply wp_bind. eapply wp_data; [exact H1|by simpl; rewrite lookup_insert_eq|].
  simpl. destruct (ind_get _ _ =? 0) eqn:Eg; bsimpl; [done|]. apply wp_bind, wp_ret, wp_bind.
  eapply wp_brelse; [exact H1|by simpl; rewrite lookup_insert_eq|simpl; rewrite (rd_dirty _ _ Hr); apply not_elem_of_empty|].
  intros s2 H2. rewrite jv_read_eq in H2 by done. by apply wp_ret.
Qed.

(** [bmap] *)
Lemma bmap_ok s0 v s ip bn : ready s0 v → room s0 v 5 → fover d s0 v s → j_held v = ∅ →
  let x := itable s0 ip in dev x = d → inode_wf (sb s0) x (j_cur v) → 0 ≤ bn < MAXFILE →
  wp (bmap ip bn) (λ r s', ∃ x' v', bmap_post s0 x v bn r x' v' ∧
    fover d (upd_inode ip (λ _, x') s0) v' s') s.
Proof.
  intros Hr Hroom Hs Hh x Hd Hwf Hbn. pose proof (data_start_pos _ (rd_layout _ _ Hr)) as Hdp.
  unfold bmap. apply wp_bind, wp_gets. destruct (fover_sb _ _ _ _ Hs) as (_ & Htb & _). rewrite Htb. fold x.
  destruct (bn <? NDIRECT) eqn:Elt; bsimpl.
  - assert (nth_block x (j_cur v) bn = addr_at x bn) as En.
    { unfold nth_block. destruct (bn <? NDIRECT) eqn:E; bsimpl; [done|lia]. }
    destruct (addr_at x bn =? 0) eqn:E0; bsimpl.
    2:{ apply wp_ret. exists x, v. rewrite <- En. split; [apply bmap_post_refl; [done|done|congruence]|by apply fover_same]. }
    apply wp_bind. rewrite Hd. eapply wp_mono; [apply (balloc_ok d s0 v s Hr); [eapply room_le; [exact Hroom|lia]|done]|].
    intros r s1 [(-> & Hfull & H1)|(Hrr & Hnu & _ & H1)]; simpl.
    { apply wp_ret. exists x, v. split; [|by apply fover_same]. rewrite <- E0 at 1. rewrite <- En. by apply bmap_post_refl. }
    destruct (r =? 0) eqn:Er; bsimpl; [lia|]. apply wp_bind, wp_modify, wp_ret.
    exists (set_addr bn r x), (jv_alloc (sb s0) r v). split; [apply direct_post; try done; lia|].
    exact (fover_upd d _ _ _ ip (set_addr bn r) H1).
  - destruct (bn - NDIRECT <? NINDIRECT) eqn:El; bsimpl; [|fs_lia].
    destruct (addr_at x NDIRECT =? 0) eqn:E0; bsimpl.
    2:{ rewrite Hd. eapply wp_mono; [apply (bmap_indirect_ok s0 v s x); try done; [eapply room_le; [exact Hroom|lia]|lia]|].
        intros r s1 (v' & Hp & H1). exists x, v'. split; [done|]. by apply fover_same. }
    apply wp_bind. rewrite Hd. eapply wp_mono; [apply (balloc_ok d s0 v s Hr); [eapply room_le; [exact Hroom|lia]|done]|].
    intros r s1 [(-> & Hfull & H1)|(Hrr & Hnu & _ & H1)]; simpl.
    { apply wp_ret. exists x, v. split; [|by apply fover_same].
      assert (nth_block x (j_cur v) bn = 0) as <-; [|by apply bmap_post_refl].
      unfold nth_block. destruct (bn <? NDIRECT) eqn:E; bsimpl; [lia|]. by rewrite E0. }
    destruct (r =? 0) eqn:Er; bsimpl; [lia|]. apply wp_bind, wp_modify.
    destruct (new_indirect s0 x v r Hwf Hr E0 Hrr Hnu) as (Hwf1 & Ei & Hr1 & _).
    set (x1 := set_addr NDIRECT r x) in *. set (v1 := jv_alloc (sb s0) r v) in *.
    replace (bmap_indirect d r) with (bmap_indirect (J:=J) d (addr_at x1 NDIRECT)) by (by rewrite Ei).
    eapply wp_mono;
      [apply (bmap_indirect_ok (upd_inode ip (set_addr NDIRECT r) s0) v1 _ x1); try done|].
    + by eapply ready_base; [..|exact Hr1].
    + by apply (room_alloc s0 (sb s0) v 5).
    + by apply fover_upd.
    + lia.
    + rewrite Ei. lia.
    + intros q s2 (v' & Hp & H2). exists x1, v'. split; [|exact H2].
      apply (bmap_post_new_indirect s0 x v r); try done; [lia|]. by eapply bmap_post_base; [..|exact Hp].
Qed.

End bmap.

End FsInode.
