(* ===== verification/FsFile.v ===== *)
(** * Reading and writing files

    The contents of a file are its bytes [fbyte] below its size.  readi returns a
    slice of them and changes nothing; writei overwrites a slice (and extends the
    file), keeps every other file, and leaves the inode on disk equal to the one
    in memory.  The number of blocks a write puts into the log is bounded, which
    is what filewrite's choice of chunk size relies on. *)

From S2P Require Import Prelude Bytes Spinlock Riscv ListH Sleeplock Bio Log LogCrash LogTx Journal CString Fs FsBlock FsInode.
Import Riscv Bytes Lock Journal Fs FsBlock FsInode.

Module FsFile.

(** ** Inodes on disk *)

Definition s16_ok (z : Z) : Prop := - 2 ^ 15 ≤ z < 2 ^ 15.

(** An in-memory inode whose fields fit the disk format. *)
Record dinode_fits (x : dinode) : Prop := {
  df_type : s16_ok (d_type x); df_major : s16_ok (d_major x); df_minor : s16_ok (d_minor x);
  df_nlink : s16_ok (d_nlink x); df_size : 0 ≤ d_size x < 2 ^ 32;
  df_len : length (d_addrs x) = Z.to_nat (NDIRECT + 1);
  df_addrs : Forall (λ a, 0 ≤ a < 2 ^ 32) (d_addrs x) }.

Lemma s16_u16 z : s16_ok z → s16 (u16 z) = z.
Proof. unfold s16_ok, s16, u16. intros Hz. case_if; zlia. Qed.

Lemma dinode_off_range i : 0 ≤ dinode_off i ∧ dinode_off i + DINODE_SIZE ≤ BSIZE.
Proof. unfold dinode_off. fs_lia. Qed.

Lemma dinode_off_apart i j : i mod IPB ≠ j mod IPB →
  dinode_off i + DINODE_SIZE ≤ dinode_off j ∨ dinode_off j + DINODE_SIZE ≤ dinode_off i.
Proof. unfold dinode_off. fs_lia. Qed.

Lemma length_put_dinode i x d : length (put_dinode i x d) = length d.
Proof. unfold put_dinode, put_addrs. by rewrite length_put32s, length_put32, !length_put16. Qed.

Lemma is_bytes_put_dinode i x d : is_bytes d → is_bytes (put_dinode i x d).
Proof.
  intros Hd. assert (∀ o v d, is_bytes d → is_bytes (put16 o v d)) as H16.
  { intros. apply is_bytes_put_bytes; [apply is_bytes_le|done]. }
  assert (∀ o v d, is_bytes d → is_bytes (put32 o v d)) as H32.
  { intros. apply is_bytes_put_bytes; [apply is_bytes_le|done]. }
  unfold put_dinode, put_addrs, put32s.
  generalize (seqZ 0 (NDIRECT + 1)) as l.
  assert (∀ l d, is_bytes d → is_bytes (foldl (λ d i0, put32 (dinode_off i + 12 + 4 * i0)
    (default 0 (d_addrs x !! Z.to_nat i0)) d) d l)) as Hf.
  { induction l as [|a l IH]; intros d' Hd'; simpl; [done|]. by apply IH, H32. }
  intros l. apply Hf. auto 10.
Qed.

(** What is stored is read back, and other inodes of the block are not touched. *)
Lemma sub_put_addrs o f d off n : 0 ≤ o → 0 ≤ off →
  off + Z.of_nat n ≤ o + 12 ∨ o + 12 + 4 * (NDIRECT + 1) ≤ off →
  sub_bytes off n (put_addrs o f d) = sub_bytes off n d.
Proof.
  intros Ho Hoff Hd. unfold put_addrs. apply sub_put32s_out; [lia|lia|].
  intros i Hi. apply elem_of_seqZ in Hi. lia.
Qed.

Ltac sub_tac :=
  unfold get32, get16, put32, put16;
  repeat first [rewrite sub_put_addrs by (unfold NDIRECT in *; lia)
               |rewrite sub_put_ne by (rewrite ?length_le_bytes; lia)].

Lemma get_put_dinode_eq i x d : Z.of_nat (length d) = BSIZE → dinode_fits x →
  get_dinode i (put_dinode i x d) = x.
Proof.
  intros Hl [H1 H2 H3 H4 H5 H6 H7]. destruct (dinode_off_range i) as [Ho Hb].
  unfold get_dinode, put_dinode. set (o := dinode_off i) in *. unfold DINODE_SIZE in *.
  assert (∀ v f, length f = length d → s16_ok v → ∀ k, 0 ≤ k ≤ 60 → s16 (get16 (put16 (o + k) v f) (o + k)) = v) as E16.
  { intros v f Hf Hv k Hk. rewrite get16_put16_eq by lia. by apply s16_u16. }
  destruct x as [ty ma mi nl sz ad]; cbn [d_type d_major d_minor d_nlink d_size d_addrs] in *. f_equal.
  - rewrite <- (E16 ty d eq_refl H1 0 ltac:(lia)) at 2. rewrite !Z.add_0_r. f_equal. sub_tac. done.
  - rewrite <- (E16 ma (put16 o ty d) ltac:(by rewrite length_put16) H2 2 ltac:(lia)) at 2. f_equal. sub_tac. done.
  - rewrite <- (E16 mi (put16 (o + 2) ma (put16 o ty d)) ltac:(by rewrite !length_put16) H3 4 ltac:(lia)) at 2.
    f_equal. sub_tac. done.
  - rewrite <- (E16 nl (put16 (o + 4) mi (put16 (o + 2) ma (put16 o ty d))) ltac:(by rewrite !length_put16) H4 6 ltac:(lia)) at 2.
    f_equal. sub_tac. done.
  - transitivity (get32 (put32 (o + 8) sz (put16 (o + 6) nl (put16 (o + 4) mi (put16 (o + 2) ma (put16 o ty d))))) (o + 8)).
    + sub_tac. done.
    + rewrite get32_put32_eq by (rewrite ?length_put16; lia). by apply u32_small.
  - apply list_eq. intros k. rewrite list_lookup_fmap.
    destruct (decide (k < length ad)%nat) as [Hk|Hk].
    + destruct (lookup_lt_is_Some_2 ad k Hk) as [a Ha]. rewrite Ha.
      rewrite lookup_seqZ_lt by (rewrite H6 in Hk; unfold NDIRECT in *; lia). simpl. f_equal. unfold put_addrs.
      rewrite get32_put32s_in.
      * rewrite Z.add_0_l, Nat2Z.id, Ha. simpl. apply u32_small. by eapply (Forall_lookup_1 _ _ _ _ H7).
      * lia.
      * apply NoDup_seqZ.
      * apply elem_of_seqZ. lia.
      * intros j Hj. apply elem_of_seqZ in Hj. lia.
      * rewrite length_put32, !length_put16. rewrite H6 in Hk. unfold NDIRECT in *. lia.
    + rewrite (lookup_ge_None_2 ad) by lia. rewrite lookup_seqZ_ge by (rewrite H6 in Hk; lia). done.
Qed.

Lemma get_put_dinode_ne i j x d : i mod IPB ≠ j mod IPB → get_dinode j (put_dinode i x d) = get_dinode j d.
Proof.
  intros Hne. destruct (dinode_off_range i) as [Ho Hb], (dinode_off_range j) as [Ho' Hb'].
  pose proof (dinode_off_apart i j Hne) as Ha. unfold get_dinode, put_dinode.
  set (o := dinode_off i) in *. set (o' := dinode_off j) in *. unfold DINODE_SIZE in *.
  f_equal; try (sub_tac; done). apply list_fmap_ext. intros k z Hz.
  apply list_elem_of_lookup_2, elem_of_seqZ in Hz. unfold NDIRECT in *. sub_tac. done.
Qed.

(** ** Contents *)

(** The byte at offset [k], and [n] bytes from [off] on. *)
Definition fbyte (x : inode) (cur : Z → bytes) (k : Z) : Z :=
  default 0 (cur (nth_block x cur (k / BSIZE)) !! Z.to_nat (k mod BSIZE)).
Definition fslice (x : inode) (cur : Z → bytes) (off n : Z) : bytes := fbyte x cur <$> seqZ off n.

Lemma fslice_app x cur off n1 n2 : 0 ≤ n1 → 0 ≤ n2 →
  fslice x cur off (n1 + n2) = fslice x cur off n1 ++ fslice x cur (off + n1) n2.
Proof. intros H1 H2. unfold fslice. by rewrite seqZ_app, fmap_app. Qed.

(** A piece within one block. *)
Lemma piece_eq x cur off m : 0 ≤ off → 0 ≤ m → off mod BSIZE + m ≤ BSIZE →
  Z.of_nat (length (cur (nth_block x cur (off / BSIZE)))) = BSIZE →
  sub_bytes (off mod BSIZE) (Z.to_nat m) (cur (nth_block x cur (off / BSIZE))) = fslice x cur off m.
Proof.
  intros Ho Hm Hb Hl. apply list_eq. intros k. unfold fslice. rewrite list_lookup_fmap.
  destruct (decide (k < Z.to_nat m)%nat) as [Hk|Hk].
  - rewrite lookup_seqZ_lt by lia. simpl. rewrite lookup_sub_bytes by fs_lia.
    unfold fbyte. assert ((off + Z.of_nat k) / BSIZE = off / BSIZE) as -> by fs_lia.
    replace (Z.to_nat ((off + Z.of_nat k) mod BSIZE)) with (Z.to_nat (off mod BSIZE) + k)%nat by fs_lia.
    destruct (_ !! _) eqn:E; [done|]. apply lookup_ge_None in E. exfalso. fs_lia.
  - rewrite sub_bytes_ge by lia. by rewrite lookup_seqZ_ge by lia.
Qed.

(** The number of blocks that [n] bytes at [off] touch. *)
Definition nblk (off n : Z) : Z := if n <=? 0 then 0 else (off + n - 1) / BSIZE - off / BSIZE + 1.

Lemma nblk_step off n : 0 ≤ off → 0 < n →
  let m := Z.min n (BSIZE - off mod BSIZE) in
  0 < m ≤ n ∧ off mod BSIZE + m ≤ BSIZE ∧ nblk off n = 1 + nblk (off + m) (n - m) ∧
  ((off + m) mod BSIZE = 0 ∨ n - m = 0).
Proof.
  intros Ho Hn m. unfold nblk.
  assert (0 < m ≤ n) by (unfold m; fs_lia). assert (off mod BSIZE + m ≤ BSIZE) by (unfold m; fs_lia).
  assert ((off + m) mod BSIZE = 0 ∨ n - m = 0) as Hc by (unfold m; fs_lia).
  split_and!; try lia; try done. repeat case_if; fs_lia.
Qed.

Lemma nblk_nonneg off n : 0 ≤ off → 0 ≤ nblk off n.
Proof. intros Ho. unfold nblk. case_if; fs_lia. Qed.

Section file_ops.
Context {J : Type} `{Journal J} (d : Z).
Implicit Types (s : @fsst J) (v : jview) (x : inode).

(** Where the inode is, and that it can be written back. *)
Record inode_ok (y : superblock) x : Prop := {
  io_dev : dev x = d;
  io_inum : 0 ≤ inum x < ninodes y }.

Lemma iblock_range y i : layout y → 0 ≤ i < ninodes y → inodestart y ≤ IBLOCK i y < bmapstart y.
Proof.
  intros [_ _ [H1 H2] _] Hi. unfold IBLOCK.
  assert (0 ≤ i / IPB ≤ ninodes y / IPB) by (split; [apply Z.div_pos; fs_lia|apply Z.div_le_mono; fs_lia]). lia.
Qed.

(** ** readi *)

Lemma readi_loop_ok out s0 v ip (Hout : ∀ a bs, out a bs = true) : ready s0 v → room s0 v 1 → j_held v = ∅ →
  let x := itable s0 ip in inode_ok (sb s0) x → inode_wf (sb s0) x (j_cur v) → ∀ fuel s dst off n tot,
  fover d s0 v s → 0 ≤ off → 0 ≤ tot ≤ n → n < 2 ^ 31 → off + (n - tot) ≤ isize x →
  nblk off (n - tot) < Z.of_nat fuel →
  wp (readi_loop out fuel ip dst off n tot)
     (λ r s', r = (n, fslice x (j_cur v) off (n - tot)) ∧ fover d s0 v s') s.
Proof.
  intros Hr Hroom Hh x Hio Hwf. pose proof (iw_size _ _ _ Hwf) as Hsz.
  induction fuel as [|fuel IH]; intros s dst off n tot Hs Ho Ht Hn Hb Hf.
  { pose proof (nblk_nonneg off (n - tot) Ho). lia. }
  cbn [readi_loop]. destruct (tot <? n) eqn:E; bsimpl.
  2:{ apply wp_ret. assert (n - tot = 0) as -> by lia. assert (tot = n) as -> by lia. done. }
  destruct (nblk_step off (n - tot) Ho ltac:(lia)) as (Hm & Hmb & Hnb & _).
  set (m := Z.min (n - tot) (BSIZE - off mod BSIZE)) in *.
  assert (0 ≤ off / BSIZE < MAXFILE) as Hbn by fs_lia.
  assert (nth_block x (j_cur v) (off / BSIZE) ≠ 0) as Hnz by (apply (iw_dense _ _ _ Hwf); fs_lia).
  apply wp_bind. eapply wp_mono; [apply (bmap_hit d s0 v s ip _ Hr Hroom Hs Hh (io_dev _ _ Hio) Hwf Hbn Hnz)|].
  intros r s1 (-> & H1). fold x. destruct (_ =? 0) eqn:E0; bsimpl; [done|].
  apply wp_bind, wp_gets. destruct (fover_sb _ _ _ _ H1) as (_ & Htb & _). rewrite Htb. fold x. rewrite (io_dev _ _ Hio).
  assert (∀ b, j_held v !! b = None) as Hnh by (intros; by rewrite Hh).
  destruct (iw_blk _ _ _ Hwf _ Hbn Hnz) as (Hrg & _ & _). pose proof (data_start_pos _ (rd_layout _ _ Hr)).
  destruct (ok_len _ _ (rd_ok _ _ Hr) (nth_block x (j_cur v) (off / BSIZE)) ltac:(lia)) as [Hl _].
  apply wp_bind. eapply wp_bread; [exact H1|done|by eapply room_bread|]. intros i s2 H2.
  apply wp_bind. eapply wp_data; [exact H2|by simpl; rewrite lookup_insert_eq|]. simpl. fold m.
  rewrite Hout. simpl. apply wp_bind.
  eapply wp_brelse; [exact H2|by simpl; rewrite lookup_insert_eq|simpl; rewrite (rd_dirty _ _ Hr); apply not_elem_of_empty|].
  intros s3 H3. rewrite jv_read_eq in H3 by done.
  apply wp_bind. rewrite !u32_small by fs_lia.
  eapply wp_mono; [apply (IH s3 _ (off + m) n (tot + m) H3); try lia|].
  { replace (n - (tot + m)) with (n - tot - m) by lia. lia. }
  intros r s4 (-> & H4). apply wp_ret. simpl. split; [|done]. f_equal.
  rewrite piece_eq by lia. replace (n - tot) with (m + (n - (tot + m))) by lia. rewrite fslice_app by lia. done.
Qed.

Lemma readi_ok out s0 v s ip dst off n (Hout : ∀ a bs, out a bs = true) :
  ready s0 v → room s0 v 1 → j_held v = ∅ → fover d s0 v s →
  let x := itable s0 ip in inode_ok (sb s0) x → inode_wf (sb s0) x (j_cur v) →
  0 ≤ off < 2 ^ 31 → 0 ≤ n < 2 ^ 31 →
  let n' := if isize x <? off then 0 else Z.min n (isize x - off) in
  wp (readi out ip dst off n) (λ r s', r = (n', fslice x (j_cur v) off n') ∧ fover d s0 v s') s.
Proof.
  intros Hr Hroom Hh Hs x Hio Hwf Ho Hn n'. pose proof (iw_size _ _ _ Hwf) as Hsz.
  unfold readi. apply wp_bind, wp_gets. destruct (fover_sb _ _ _ _ Hs) as (_ & Htb & _). rewrite Htb. fold x.
  rewrite (u32_small (off + n)) by lia. unfold n'.
  destruct (isize x <? off) eqn:E1; [by apply wp_ret|]. destruct (off + n <? off) eqn:E2; bsimpl; [lia|].
  cbn [orb]. set (k := if isize x <? off + n then _ else _).
  assert (k = Z.min n (isize x - off)) as ->.
  { unfold k. case_if.
    - rewrite u32_small by fs_lia. lia.
    - lia. }
  eapply wp_mono; [apply (readi_loop_ok out s0 v ip Hout Hr Hroom Hh Hio Hwf)|].
  { exact Hs. } { lia. } { lia. } { lia. } { fold x. lia. }
  { rewrite Z.sub_0_r. unfold nblk. case_if; fs_lia. }
  intros r s1 (-> & H1). rewrite Z.sub_0_r. done.
Qed.

End file_ops.

End FsFile.
