(* ===== verification/FsWrite.v ===== *)
(** * writei

    The loop invariant [wr_inv] of writei says what the file and the disk are
    after the first [tot] bytes; each round keeps it.  [pot] (FsInode.v) counts
    the log blocks. *)

From S2P Require Import Prelude Bytes Spinlock Riscv ListH Sleeplock Bio Log LogCrash LogTx Journal CString Fs FsBlock FsInode FsFile.
Import Riscv Bytes Lock Journal Fs FsBlock FsInode FsFile.

Module FsWrite.

(** ** Lemmas: changing a block that holds no addresses *)

Lemma nth_upd x cur b dt bn : b ≠ addr_at x NDIRECT →
  nth_block x (<[b := dt]> cur) bn = nth_block x cur bn.
Proof. intros Hne. unfold nth_block. by rewrite fn_lookup_insert_ne. Qed.

Lemma owned_upd x cur b dt b' : b ≠ addr_at x NDIRECT → owned x (<[b := dt]> cur) b' ↔ owned x cur b'.
Proof.
  intros Hne. unfold owned. split; intros [H0 [E|(bn & Hbn & E)]]; (split; [done|]); auto;
    right; exists bn; rewrite nth_upd in *; auto.
Qed.

(** Not a bitmap block. *)
Definition plain (y : superblock) (b : Z) : Prop := b < bmapstart y ∨ data_start y ≤ b.

Lemma in_use_plain y cur b dt b' : layout y → plain y b → 0 ≤ b' < sb_size y →
  in_use y (<[b := dt]> cur) b' ↔ in_use y cur b'.
Proof.
  intros Hlo Hb Hb'. pose proof (bblock_range _ Hlo b' Hb') as Hr. unfold in_use. rewrite fn_lookup_insert_ne; [done|].
  assert (bmapstart y ≤ BBLOCK b' y).
  { unfold BBLOCK. assert (0 ≤ b' / BPB) by (apply Z.div_pos; fs_lia). lia. }
  destruct Hb; lia.
Qed.

Lemma fs_ok_plain y cur b dt : layout y → plain y b → Z.of_nat (length dt) = BSIZE → is_bytes dt →
  fs_ok y cur → fs_ok y (<[b := dt]> cur).
Proof.
  intros Hlo Hb Hl Hd [H1 H2]. split; intros b' Hb'.
  - destruct (decide (b' = b)) as [->|]; [by rewrite fn_lookup_insert|]. rewrite fn_lookup_insert_ne by done. by apply H1.
  - apply in_use_plain; [done|done|destruct Hlo; lia|by apply H2].
Qed.

Lemma inode_wf_upd y x cur b dt : layout y → plain y b → b ≠ addr_at x NDIRECT →
  inode_wf y x cur → inode_wf y x (<[b := dt]> cur).
Proof.
  intros Hlo Hb Hne [H1 H2 H3 H4 H5 H6]. pose proof (data_start_pos _ Hlo).
  split; try done.
  - intros bn Hbn. rewrite nth_upd by done. intros H0. destruct (H2 bn Hbn H0) as (? & ? & ?).
    split; [done|]. split; [|done]. apply in_use_plain; try done. lia.
  - intros H0. destruct (H3 H0). split; [done|]. apply in_use_plain; try done. lia.
  - intros bn bn' Hbn Hbn'. rewrite !nth_upd by done. by apply H4.
  - intros bn Hbn Hlt. rewrite nth_upd by done. by apply H6.
Qed.

(** The metadata blocks hold no file contents. *)
Lemma fbyte_upd y x cur b dt k : inode_wf y x cur → b < data_start y → 0 < b → 0 ≤ k < MAXFILE * BSIZE →
  fbyte x (<[b := dt]> cur) k = fbyte x cur k.
Proof.
  intros Hwf Hb Hb0 Hk. unfold fbyte. rewrite nth_upd.
  - destruct (decide (b = nth_block x cur (k / BSIZE))) as [E|E]; [|by rewrite fn_lookup_insert_ne].
    destruct (iw_blk _ _ _ Hwf (k / BSIZE)); [fs_lia|rewrite <- E; lia|]. exfalso. lia.
  - intros E. destruct (decide (addr_at x NDIRECT = 0)) as [E0|E0]; [lia|]. destruct (iw_ind _ _ _ Hwf E0). lia.
Qed.

Section write_ops.
Context {J : Type} `{Journal J} (d : Z).
Implicit Types (s : @fsst J) (v : jview) (x : inode).

Lemma ready_upd s0 v b dt : ready s0 v → plain (sb s0) b → Z.of_nat (length dt) = BSIZE → is_bytes dt →
  ready s0 (jv_upd b dt v).
Proof.
  intros Hr Hb Hl Hd. pose proof (rd_layout _ _ Hr) as Hlo. pose proof (data_start_pos _ Hlo).
  split; simpl; try apply Hr.
  - apply fs_ok_plain; try done. apply Hr.
  - intros b' Hb'. destruct (rd_held _ _ Hr b' Hb') as [? ?]. split; [done|]. apply in_use_plain; try done. lia.
Qed.

Lemma pot_upd x v b dt : pot x (jv_upd b dt v) ≤ pot x v + (if bool_decide (b ∈ j_log v) then 0 else 1).
Proof.
  unfold pot, jv_upd. simpl. pose proof (size_add b (j_log v)) as Hs.
  assert (b ∈ j_log v → {[b]} ∪ j_log v = j_log v) as E by set_solver.
  repeat case_bool_decide; try case_if; try rewrite E by done; try lia; set_solver.
Qed.

Lemma pot_bounds x v : Z.of_nat (base.size (j_log v)) ≤ pot x v ≤ Z.of_nat (base.size (j_log v)) + 2.
Proof. unfold pot. case_if; [lia|]. case_bool_decide; lia. Qed.

(** ** iupdate *)

Lemma iupdate_ok s0 v s ip (Q : unit → fsst → Prop) :
  ready s0 v → room s0 v 1 → j_held v = ∅ → fover d s0 v s →
  let x := itable s0 ip in inode_ok d (sb s0) x →
  let b := IBLOCK (inum x) (sb s0) in
  (∀ s', fover d s0 (jv_upd b (put_dinode (inum x) (dinode_of x) (j_cur v b)) v) s' → Q tt s') →
  wp (iupdate ip) Q s.
Proof.
  intros Hr Hroom Hh Hs x Hio b HQ. pose proof (rd_layout _ _ Hr) as Hlo.
  pose proof (iblock_range _ _ Hlo (io_inum _ _ _ Hio)) as Hb. fold b in Hb.
  unfold iupdate. apply wp_bind, wp_gets. destruct (fover_sb _ _ _ _ Hs) as (Hsb & Htb & _). rewrite Htb. fold x.
  apply wp_bind, wp_gets. rewrite Hsb, (io_dev _ _ _ Hio).
  apply (wp_update d s0 v s b (put_dinode (inum x) (dinode_of x)) Q 1); try done; [by rewrite Hh|].
  destruct Hlo. pose proof (bmap_data _ (rd_layout _ _ Hr)). lia.
Qed.

(** ** The loop *)

(** After [tot] of the bytes [D] have gone to [off] and the following offsets of
    the file that was [x0] in the view [v0]. *)
Record wr_inv s0 x0 v0 (off : Z) (D : bytes) (tot : Z) x v : Prop := {
  wi_wf : inode_wf (sb s0) x (j_cur v);
  wi_ready : ready s0 v;
  wi_held : j_held v = ∅;
  wi_meta : same_meta x0 x ∧ isize x = isize x0;
  wi_alloc : ∀ k, off ≤ k < off + tot → nth_block x (j_cur v) (k / BSIZE) ≠ 0;
  wi_data : ∀ k, 0 ≤ k → k < isize x0 ∨ off ≤ k < off + tot →
    fbyte x (j_cur v) k =
      if decide (off ≤ k < off + tot) then default 0 (D !! Z.to_nat (k - off)) else fbyte x0 (j_cur v0) k;
  wi_frame : ∀ b, data_start (sb s0) ≤ b < sb_size (sb s0) → in_use (sb s0) (j_cur v0) b →
    ¬ owned x0 (j_cur v0) b → j_cur v b = j_cur v0 b ∧ ¬ owned x (j_cur v) b;
  wi_low : ∀ b, b < bmapstart (sb s0) → j_cur v b = j_cur v0 b;
  wi_use : ∀ b, 0 ≤ b < sb_size (sb s0) → in_use (sb s0) (j_cur v0) b → in_use (sb s0) (j_cur v) b;
  wi_fresh : ∀ b, 0 ≤ b < sb_size (sb s0) → in_use (sb s0) (j_cur v) b →
    in_use (sb s0) (j_cur v0) b ∨ owned x (j_cur v) b }.

Lemma wr_inv_init s0 x v off D : inode_wf (sb s0) x (j_cur v) → ready s0 v → j_held v = ∅ →
  wr_inv s0 x v off D 0 x v.
Proof.
  intros Hwf Hr Hh. split; try done; try (intros; lia); auto.
  intros k Hk _. by rewrite decide_False by lia.
Qed.

(** bmap keeps it. *)
Lemma wr_inv_bmap s0 x0 v0 off D tot x v r x' v' :
  0 ≤ off → 0 ≤ tot → off + tot < MAXFILE * BSIZE →
  wr_inv s0 x0 v0 off D tot x v → bmap_post s0 x v ((off + tot) / BSIZE) r x' v' →
  wr_inv s0 x0 v0 off D tot x' v'.
Proof.
  intros Ho Ht Hmax Hi Hp. pose proof (rd_layout _ _ (wi_ready _ _ _ _ _ _ _ _ Hi)) as Hlo.
  pose proof (data_start_pos _ Hlo). pose proof (wi_wf _ _ _ _ _ _ _ _ Hi) as Hwf.
  assert (∀ bn, 0 ≤ bn < MAXFILE → nth_block x (j_cur v) bn ≠ 0 →
    nth_block x' (j_cur v') bn = nth_block x (j_cur v) bn ∧
    j_cur v' (nth_block x (j_cur v) bn) = j_cur v (nth_block x (j_cur v) bn)) as Hkeep.
  { intros bn Hbn Hn0. assert (nth_block x' (j_cur v') bn = nth_block x (j_cur v) bn) as E.
    { destruct (decide (bn = (off + tot) / BSIZE)) as [->|Hne]; [|by apply (bp_other _ _ _ _ _ _ _ Hp)].
      rewrite <- (bp_ret _ _ _ _ _ _ _ Hp). destruct (bp_this _ _ _ _ _ _ _ Hp) as [<-|[? _]]; done. }
    split; [done|]. destruct (iw_blk _ _ _ Hwf bn Hbn Hn0) as (Hr1 & Hu & _).
    apply (bp_frame _ _ _ _ _ _ _ Hp); [done|done|]. rewrite <- E.
    apply (iw_blk _ _ _ (bp_wf _ _ _ _ _ _ _ Hp)); [done|by rewrite E]. }
  assert (∀ k, 0 ≤ k → k < isize x0 ∨ off ≤ k < off + tot →
    0 ≤ k / BSIZE < MAXFILE ∧ nth_block x (j_cur v) (k / BSIZE) ≠ 0) as Hthere.
  { intros k Hk [Hlt|Hin].
    - destruct (wi_meta _ _ _ _ _ _ _ _ Hi) as [_ Esz]. rewrite <- Esz in Hlt.
      pose proof (iw_size _ _ _ Hwf). split; [fs_lia|]. apply (iw_dense _ _ _ Hwf); fs_lia.
    - split; [fs_lia|]. by apply (wi_alloc _ _ _ _ _ _ _ _ Hi). }
  split.
  - apply Hp.
  - apply Hp.
  - rewrite (bp_held _ _ _ _ _ _ _ Hp). apply Hi.
  - destruct (wi_meta _ _ _ _ _ _ _ _ Hi) as [M1 M2], (bp_meta _ _ _ _ _ _ _ Hp) as [M3 M4].
    unfold same_meta in *. split; [|congruence]. destruct_and!. split_and!; congruence.
  - intros k Hk. destruct (Hthere k ltac:(lia) (or_intror Hk)) as [Hbn Hn0].
    destruct (Hkeep _ Hbn Hn0) as [-> _]. done.
  - intros k Hk Hin. destruct (Hthere k Hk Hin) as [Hbn Hn0]. destruct (Hkeep _ Hbn Hn0) as [E1 E2].
    rewrite <- (wi_data _ _ _ _ _ _ _ _ Hi k Hk Hin). unfold fbyte. by rewrite E1, E2.
  - intros b Hb Hu Hno. destruct (wi_frame _ _ _ _ _ _ _ _ Hi b Hb Hu Hno) as [Ec Hno1].
    pose proof (wi_use _ _ _ _ _ _ _ _ Hi b ltac:(lia) Hu) as Hu1.
    assert (¬ owned x' (j_cur v') b) as Hno2.
    { intros Hx. by destruct (bp_own _ _ _ _ _ _ _ Hp b Hx). }
    split; [|done]. rewrite <- Ec. apply (bp_frame _ _ _ _ _ _ _ Hp); [done|done|].
    intros ->. apply Hno2. split; [lia|by left].
  - intros b Hb. rewrite (bp_low _ _ _ _ _ _ _ Hp) by done. by apply (wi_low _ _ _ _ _ _ _ _ Hi).
  - intros b Hb Hu. apply (bp_use _ _ _ _ _ _ _ Hp); [done|]. by apply (wi_use _ _ _ _ _ _ _ _ Hi).
  - intros b Hb Hu. destruct (bp_fresh _ _ _ _ _ _ _ Hp b Hb Hu) as [Hu1|]; [|by right].
    destruct (wi_fresh _ _ _ _ _ _ _ _ Hi b Hb Hu1) as [|Hown]; [by left|right].
    destruct Hown as [Hb0 [->|(bn & Hbn & ->)]].
    + split; [done|]. left. symmetry. by apply (bp_ind _ _ _ _ _ _ _ Hp).
    + destruct (Hkeep bn Hbn Hb0) as [<- _]. split; [by destruct (Hkeep bn Hbn Hb0) as [-> _]|]. right. by exists bn.
Qed.

(** The bytes of a block after a piece was stored in it. *)
Lemma lookup_put_bytes o bs l j : 0 ≤ o → o + Z.of_nat (length bs) ≤ Z.of_nat (length l) →
  put_bytes o bs l !! j =
    if decide (o ≤ Z.of_nat j < o + Z.of_nat (length bs)) then bs !! (j - Z.to_nat o)%nat else l !! j.
Proof.
  intros Ho Hl. unfold put_bytes. case_decide as Hj.
  - apply list_lookup_inserts; lia.
  - destruct (decide (Z.of_nat j < o)); [apply list_lookup_inserts_lt; lia|apply list_lookup_inserts_ge; lia].
Qed.

(** Storing the next piece keeps it. *)
Lemma wr_inv_put s0 x0 v0 off D tot x v m :
  0 ≤ off → 0 ≤ tot → 0 < m → (off + tot) mod BSIZE + m ≤ BSIZE → off + tot + m ≤ MAXFILE * BSIZE →
  tot + m ≤ Z.of_nat (length D) → is_bytes D →
  let r := nth_block x (j_cur v) ((off + tot) / BSIZE) in
  r ≠ 0 → wr_inv s0 x0 v0 off D tot x v →
  wr_inv s0 x0 v0 off D (tot + m) x
    (jv_upd r (put_bytes ((off + tot) mod BSIZE) (sub_bytes tot (Z.to_nat m) D) (j_cur v r)) v).
Proof.
  intros Ho Ht Hm Hblk Hmax HD HbD r Hr0 Hi. pose proof (wi_ready _ _ _ _ _ _ _ _ Hi) as Hr.
  pose proof (rd_layout _ _ Hr) as Hlo. pose proof (data_start_pos _ Hlo). pose proof (wi_wf _ _ _ _ _ _ _ _ Hi) as Hwf.
  assert (0 ≤ (off + tot) / BSIZE < MAXFILE) as Hbn by fs_lia.
  destruct (iw_blk _ _ _ Hwf _ Hbn Hr0) as (Hrr & Hru & Hri). fold r in Hrr, Hru, Hri.
  destruct (ok_len _ _ (rd_ok _ _ Hr) r ltac:(lia)) as [Hl Hby].
  set (o := (off + tot) mod BSIZE) in *. set (piece := sub_bytes tot (Z.to_nat m) D).
  assert (length piece = Z.to_nat m) as Hlp.
  { unfold piece, sub_bytes. rewrite length_take, length_drop. lia. }
  assert (is_bytes piece) as Hbp by (by apply Forall_take, Forall_drop).
  assert (0 ≤ o) as Hoo by (apply Z.mod_pos_bound; fs_lia).
  assert (plain (sb s0) r) as Hpl by (right; lia).
  set (dt := put_bytes o piece (j_cur v r)).
  assert (Z.of_nat (length dt) = BSIZE) as Hld by (unfold dt; by rewrite length_put_bytes).
  assert (∀ bn, nth_block x (<[r := dt]> (j_cur v)) bn = nth_block x (j_cur v) bn) as Hnth by (intros; by apply nth_upd).
  split; simpl.
  - by apply inode_wf_upd.
  - apply ready_upd; try done. by apply is_bytes_put_bytes.
  - apply Hi.
  - apply Hi.
  - intros k Hk. rewrite Hnth. destruct (decide (k < off + tot)); [apply (wi_alloc _ _ _ _ _ _ _ _ Hi); lia|].
    replace (k / BSIZE) with ((off + tot) / BSIZE) by fs_lia. done.
  - intros k Hk Hin. unfold fbyte. rewrite Hnth.
    destruct (decide (off + tot ≤ k < off + tot + m)) as [Hnew|Hold].
    + rewrite decide_True by lia. replace (k / BSIZE) with ((off + tot) / BSIZE) by fs_lia. fold r.
      rewrite fn_lookup_insert. unfold dt. rewrite lookup_put_bytes by lia. rewrite decide_True by fs_lia.
      f_equal. unfold piece. rewrite lookup_sub_bytes by fs_lia. f_equal. fs_lia.
    + assert (k < isize x0 ∨ off ≤ k < off + tot) as Hin' by lia.
      pose proof (wi_data _ _ _ _ _ _ _ _ Hi k Hk Hin') as E.
      replace (if decide (off ≤ k < off + (tot + m)) then _ else _) with
        (if decide (off ≤ k < off + tot) then default 0 (D !! Z.to_nat (k - off)) else fbyte x0 (j_cur v0) k)
        by (repeat case_decide; done || lia).
      rewrite <- E. unfold fbyte. destruct (decide (k / BSIZE = (off + tot) / BSIZE)) as [Eb|Nb].
      * rewrite Eb. fold r. rewrite fn_lookup_insert. unfold dt. rewrite lookup_put_bytes by lia.
        rewrite decide_False; [done|]. unfold o. fs_lia.
      * rewrite fn_lookup_insert_ne; [done|]. intros Er. apply Nb. symmetry.
        apply (iw_inj _ _ _ Hwf); try done. destruct (wi_meta _ _ _ _ _ _ _ _ Hi) as [_ Esz].
        pose proof (iw_size _ _ _ Hwf). fs_lia.
  - intros b Hb Hu Hno. destruct (wi_frame _ _ _ _ _ _ _ _ Hi b Hb Hu Hno) as [Ec Hno1].
    split; [|by rewrite owned_upd]. rewrite fn_lookup_insert_ne; [done|]. intros <-. apply Hno1.
    split; [lia|]. right. by exists ((off + tot) / BSIZE).
  - intros b Hb. pose proof (bmap_data _ Hlo). rewrite fn_lookup_insert_ne by lia. by apply (wi_low _ _ _ _ _ _ _ _ Hi).
  - intros b Hb Hu. apply in_use_plain; try done. by apply (wi_use _ _ _ _ _ _ _ _ Hi).
  - intros b Hb Hu. apply in_use_plain in Hu; try done. rewrite owned_upd by done. by apply (wi_fresh _ _ _ _ _ _ _ _ Hi).
Qed.

(** Changing a block in the middle of an operation. *)
Lemma wp_piece {A} s0 v s b f k (K : M (@fsst J) A) (Q : A → fsst → Prop) :
  ready s0 v → fover d s0 v s → room s0 v k → 1 ≤ k → j_held v !! b = None →
  inodestart (sb s0) ≤ b < 2 ^ 31 →
  (∀ s', fover d s0 (jv_upd b (f (j_cur v b)) v) s' → wp K Q s') →
  wp (bp ← bread d b; x ← data bp; set_data bp (f x);; log_write bp;; brelse bp;; K) Q s.
Proof.
  intros Hr Hs Hroom Hk Hn Hb HK.
  pose proof (wp_update d s0 v s b f (λ _ s', wp K Q s') k Hr Hs Hroom Hk Hn Hb HK) as Hw.
  revert Hw. unfold wp, mbind, M_bind. destruct (bread d b s) as [[bp s1]| |]; try done.
  destruct (data bp s1) as [[x s2]| |]; try done. destruct (set_data bp (f x) s2) as [[[] s3]| |]; try done.
  destruct (log_write bp s3) as [[[] s4]| |]; try done. by destruct (brelse bp s4) as [[[] s5]| |].
Qed.

(** [inp] delivers the bytes [D] found at [src]. *)
Definition delivers (inp : Z → Z → bytes * bool) (src : Z) (D : bytes) : Prop :=
  ∀ i m, 0 ≤ i → 0 ≤ m → i + m ≤ Z.of_nat (length D) → inp (u64 (src + i)) m = (sub_bytes i (Z.to_nat m) D, true).

(** The log blocks a write still needs: two for each block to go, one for a block
    that is there already. *)
Definition cost (off n : Z) : Z := 2 * nblk off n - (if (0 <? n) && negb (off mod BSIZE =? 0) then 1 else 0).

Lemma cost_step off n : 0 ≤ off → 0 < n → let m := Z.min n (BSIZE - off mod BSIZE) in
  cost off n = cost (off + m) (n - m) + (if off mod BSIZE =? 0 then 2 else 1).
Proof.
  intros Ho Hn m. destruct (nblk_step off n Ho Hn) as (Hm & _ & Hnb & Hc). fold m in Hm, Hnb, Hc.
  unfold cost. rewrite Hnb. destruct (0 <? n) eqn:E1; bsimpl; [|lia]. cbn [andb].
  assert ((0 <? n - m) && negb ((off + m) mod BSIZE =? 0) = false) as ->.
  { apply andb_false_iff. destruct Hc as [E|E]; rewrite E; [right|left]; done. }
  destruct (off mod BSIZE =? 0); simpl; lia.
Qed.

Lemma cost_nonneg off n : 0 ≤ off → 0 ≤ cost off n.
Proof.
  intros Ho. unfold cost. pose proof (nblk_nonneg off n Ho).
  assert (0 < n → 1 ≤ nblk off n) by (intros; unfold nblk; case_if; fs_lia).
  destruct (0 <? n) eqn:E; bsimpl; cbn [andb]; [destruct (negb _); lia|lia].
Qed.

Lemma writei_loop_ok inp src D s0 x0 v0 ip off n B : delivers inp src D → Z.of_nat (length D) = n → is_bytes D →
  inode_ok d (sb s0) x0 → 0 ≤ off → 0 ≤ n → off ≤ isize x0 → off + n ≤ MAXFILE * BSIZE →
  B + 5 ≤ NBUF → B + 5 ≤ j_cap (jr s0) → ∀ fuel s sb' x v tot,
  wr_inv s0 x0 v0 off D tot x v → 0 ≤ tot ≤ n → sb' = upd_inode ip (λ _, x) s0 → fover d sb' v s →
  pot x v + cost (off + tot) (n - tot) ≤ B → nblk (off + tot) (n - tot) < Z.of_nat fuel →
  wp (writei_loop inp fuel ip (u64 (src + tot)) (off + tot) n tot) (λ r s', ∃ x' v' tot',
    r = (tot', off + tot') ∧ tot ≤ tot' ≤ n ∧ wr_inv s0 x0 v0 off D tot' x' v' ∧
    fover d (upd_inode ip (λ _, x') s0) v' s' ∧ pot x' v' ≤ B ∧
    (tot' = n ∨ ∀ b, 0 ≤ b < sb_size (sb s0) → in_use (sb s0) (j_cur v') b)) s.
Proof.
  intros Hinp HlD HbD Hio Ho Hn Hoff Hmax HB1 HB2.
  induction fuel as [|fuel IH]; intros s sb' x v tot Hi Ht -> Hs Hpot Hf.
  { pose proof (nblk_nonneg (off + tot) (n - tot) ltac:(lia)). lia. }
  cbn [writei_loop]. destruct (tot <? n) eqn:E; bsimpl.
  2:{ apply wp_ret. exists x, v, tot. pose proof (cost_nonneg (off + tot) (n - tot) ltac:(lia)).
      split_and!; try done; try lia. }
  pose proof (wi_ready _ _ _ _ _ _ _ _ Hi) as Hr. pose proof (rd_layout _ _ Hr) as Hlo.
  destruct (nblk_step (off + tot) (n - tot) ltac:(lia) ltac:(lia)) as (Hm & Hmb & Hnb & _).
  pose proof (cost_step (off + tot) (n - tot) ltac:(lia) ltac:(lia)) as Hcs. cbv zeta in Hcs.
  set (m := Z.min (n - tot) (BSIZE - (off + tot) mod BSIZE)) in *.
  pose proof (cost_nonneg (off + tot + m) (n - tot - m) ltac:(lia)) as Hcn.
  assert (0 ≤ (off + tot) / BSIZE < MAXFILE) as Hbn by fs_lia.
  destruct (wi_meta _ _ _ _ _ _ _ _ Hi) as [Hmeta Hisz].
  assert (dev x = d) as Hdev by (destruct Hmeta as [-> _]; apply Hio).
  assert (itable (upd_inode ip (λ _, x) s0) ip = x) as Etb by (simpl; by rewrite fn_lookup_insert).
  (* unaligned: the block is there *)
  assert ((off + tot) mod BSIZE ≠ 0 → nth_block x (j_cur v) ((off + tot) / BSIZE) ≠ 0) as Hthere.
  { intros Hne. destruct (decide (tot = 0)) as [->|].
    - apply (iw_dense _ _ _ (wi_wf _ _ _ _ _ _ _ _ Hi)); fs_lia.
    - replace ((off + tot) / BSIZE) with ((off + tot - 1) / BSIZE) by fs_lia.
      apply (wi_alloc _ _ _ _ _ _ _ _ Hi). lia. }
  assert (∀ x' v', wr_inv s0 x0 v0 off D tot x' v' → pot x' v' ≤ B → room s0 v' 5) as Hroom.
  { intros x' v' Hi' Hp'. unfold room, j_used. rewrite (wi_held _ _ _ _ _ _ _ _ Hi'), dom_empty_L, union_empty_l_L.
    pose proof (pot_bounds x' v'). lia. }
  apply wp_bind. eapply wp_mono; [apply (bmap_ok d (upd_inode ip (λ _, x) s0) v s ip)|].
  { by eapply ready_base; [..|exact Hr]. } { apply (Hroom x v Hi). pose proof (cost_nonneg (off + tot) (n - tot) ltac:(lia)). lia. } { done. } { apply Hi. }
  { by rewrite Etb. } { rewrite Etb. apply (wi_wf _ _ _ _ _ _ _ _ Hi). } { done. }
  rewrite Etb. intros r s1 (x1 & v1 & Hp & H1).
  eapply (bmap_post_base _ s0) in Hp; [|done|done].
  assert (fover d (upd_inode ip (λ _, x1) s0) v1 s1) as H1'.
  { eapply fover_base; [exact H1|done| |done..]. intros i. simpl.
    destruct (decide (i = ip)) as [->|]; [by rewrite !fn_lookup_insert|by rewrite !fn_lookup_insert_ne]. }
  assert (wr_inv s0 x0 v0 off D tot x1 v1) as Hi1 by (eapply wr_inv_bmap; [..|exact Hi|exact Hp]; lia).
  pose proof (bp_pot _ _ _ _ _ _ _ Hp) as Hpp.
  set (a := nth_block x (j_cur v) ((off + tot) / BSIZE)) in *.
  assert (a = 0 → (off + tot) mod BSIZE =? 0 = true) as Hal.
  { intros Ha. destruct ((off + tot) mod BSIZE =? 0) eqn:E1; bsimpl; [done|]. by destruct (Hthere E1). }
  assert (pot x1 v1 ≤ B) as Hp1.
  { destruct (a =? 0) eqn:E0; bsimpl; [rewrite (Hal E0) in Hcs; lia|destruct ((off + tot) mod BSIZE =? 0); lia]. }
  destruct (r =? 0) eqn:Er; bsimpl.
  { apply wp_ret. exists x1, v1, tot. split_and!; try done; try lia. right. by apply (bp_full _ _ _ _ _ _ _ Hp). }
  apply wp_bind, wp_gets. destruct (fover_sb _ _ _ _ H1') as (_ & Htb & _). rewrite Htb. simpl. rewrite fn_lookup_insert.
  assert (dev x1 = d) as ->.
  { destruct (wi_meta _ _ _ _ _ _ _ _ Hi1) as [[-> _] _]. apply Hio. }
  pose proof (wi_ready _ _ _ _ _ _ _ _ Hi1) as Hr1. pose proof (wi_held _ _ _ _ _ _ _ _ Hi1) as Hh1.
  pose proof (Hroom _ _ Hi1 Hp1) as Hrm1.
  assert (r = nth_block x1 (j_cur v1) ((off + tot) / BSIZE)) as Ern by apply (bp_ret _ _ _ _ _ _ _ Hp).
  destruct (iw_blk _ _ _ (wi_wf _ _ _ _ _ _ _ _ Hi1) _ Hbn ltac:(by rewrite <- Ern)) as (Hrr & _).
  rewrite <- Ern in Hrr. pose proof (start_order _ Hlo).
  cbv zeta. fold m. rewrite (Hinp tot m) by lia. cbn [negb].
  set (v2 := jv_upd r (put_bytes ((off + tot) mod BSIZE) (sub_bytes tot (Z.to_nat m) D) (j_cur v1 r)) v1).
  apply (wp_piece (upd_inode ip (λ _, x1) s0) v1 s1 r (put_bytes ((off + tot) mod BSIZE) (sub_bytes tot (Z.to_nat m) D)) 5);
    [by eapply ready_base; [..|exact Hr1]|done|done|lia|by rewrite Hh1|simpl; destruct Hlo; lia|].
  fold v2. intros s5 H5.
  assert (u64 (u64 (src + tot) + m) = u64 (src + (tot + m))) as ->.
  { unfold u64. rewrite Zplus_mod_idemp_l. f_equal. lia. }
  rewrite !u32_small by fs_lia. replace (off + tot + m) with (off + (tot + m)) by lia.
  eapply wp_mono; [apply (IH s5 (upd_inode ip (λ _, x1) s0) x1 v2 (tot + m))|].
  { unfold v2. rewrite Ern. apply (wr_inv_put s0 x0 v0 off D tot x1 v1 m); try done; try lia. }
  { lia. } { done. } { exact H5. }
  { replace (n - (tot + m)) with (n - tot - m) by lia. rewrite Z.add_assoc.
    pose proof (pot_upd x1 v1 r (put_bytes ((off + tot) mod BSIZE) (sub_bytes tot (Z.to_nat m) D) (j_cur v1 r))) as Hpu.
    fold v2 in Hpu.
    destruct (a =? 0) eqn:E0; bsimpl.
    - rewrite (Hal E0) in Hcs. rewrite bool_decide_true in Hpu; [lia|].
      destruct (bp_this _ _ _ _ _ _ _ Hp) as [Ea|(_ & _ & ?)]; [|done]. fold a in Ea. congruence.
    - case_bool_decide; destruct ((off + tot) mod BSIZE =? 0); lia. }
  { replace (n - (tot + m)) with (n - tot - m) by lia. rewrite Z.add_assoc. lia. }
  intros q s6 (x' & v' & tot' & -> & Htt & Hrest). exists x', v', tot'. split; [done|]. split; [lia|exact Hrest].
Qed.

(** ** writei *)

(** The file [x'] in the view [v'] is [x] in [v] with the bytes [D] at [off]; the
    inode on disk is up to date, and nothing else has changed. *)
Record written s0 x v (off : Z) (D : bytes) x' v' : Prop := {
  wt_wf : inode_wf (sb s0) x' (j_cur v');
  wt_ready : ready s0 v';
  wt_held : j_held v' = ∅;
  wt_meta : same_meta x x';
  wt_size : isize x' = Z.max (isize x) (off + Z.of_nat (length D));
  wt_data : ∀ k, 0 ≤ k < isize x' →
    fbyte x' (j_cur v') k =
      if decide (off ≤ k < off + Z.of_nat (length D)) then default 0 (D !! Z.to_nat (k - off)) else fbyte x (j_cur v) k;
  wt_disk : dinode_fits (dinode_of x') →
    get_dinode (inum x') (j_cur v' (IBLOCK (inum x') (sb s0))) = dinode_of x';
  wt_inodes : ∀ i, 0 ≤ i < ninodes (sb s0) → i ≠ inum x →
    get_dinode i (j_cur v' (IBLOCK i (sb s0))) = get_dinode i (j_cur v (IBLOCK i (sb s0)));
  wt_others : ∀ b, data_start (sb s0) ≤ b < sb_size (sb s0) → in_use (sb s0) (j_cur v) b →
    ¬ owned x (j_cur v) b → j_cur v' b = j_cur v b ∧ in_use (sb s0) (j_cur v') b ∧ ¬ owned x' (j_cur v') b;
  wt_fresh : ∀ b, 0 ≤ b < sb_size (sb s0) → in_use (sb s0) (j_cur v') b →
    in_use (sb s0) (j_cur v) b ∨ owned x' (j_cur v') b }.

Lemma nth_size x cur bn n : nth_block (set_isize n x) cur bn = nth_block x cur bn.
Proof. done. Qed.

(** Setting the size and writing the inode back. *)
Lemma wr_finish s0 x0 v0 off D tot x v :
  0 ≤ off → 0 ≤ tot ≤ Z.of_nat (length D) → off ≤ isize x0 → off + tot ≤ MAXFILE * BSIZE → inode_ok d (sb s0) x0 →
  wr_inv s0 x0 v0 off D tot x v →
  let x' := if isize x <? off + tot then set_isize (off + tot) x else x in
  let b := IBLOCK (inum x') (sb s0) in
  written s0 x0 v0 off (take (Z.to_nat tot) D) x'
    (jv_upd b (put_dinode (inum x') (dinode_of x') (j_cur v b)) v).
Proof.
  intros Ho Ht Hoff Hmax Hio Hi x' b.
  pose proof (wi_ready _ _ _ _ _ _ _ _ Hi) as Hr. pose proof (rd_layout _ _ Hr) as Hlo.
  pose proof (wi_wf _ _ _ _ _ _ _ _ Hi) as Hwf. pose proof (data_start_pos _ Hlo). pose proof (start_order _ Hlo).
  destruct (wi_meta _ _ _ _ _ _ _ _ Hi) as [Hm Hsz].
  assert (same_meta x0 x') as Hm' by (unfold x'; case_if; done).
  assert (isize x' = Z.max (isize x0) (off + tot)) as Hsz' by (unfold x'; case_if; simpl; lia).
  assert (inum x' = inum x0) as Einum by apply Hm'.
  pose proof (iblock_range _ (inum x') Hlo ltac:(rewrite Einum; apply Hio)) as Hb. fold b in Hb.
  pose proof (bmap_data _ Hlo). assert (plain (sb s0) b) as Hpl by (left; lia).
  assert (addr_at x' NDIRECT = addr_at x NDIRECT) as Eind by (unfold x'; case_if; done).
  assert (∀ cur bn, nth_block x' cur bn = nth_block x cur bn) as Enth by (intros; unfold x'; case_if; done).
  assert (∀ cur k, fbyte x' cur k = fbyte x cur k) as Efb by (intros; unfold fbyte; by rewrite Enth).
  assert (∀ cur k, owned x' cur k ↔ owned x cur k) as Eow.
  { intros cur k. unfold owned. rewrite Eind. by setoid_rewrite Enth. }
  assert (b ≠ addr_at x NDIRECT) as Hbi.
  { intros E. destruct (decide (addr_at x NDIRECT = 0)) as [E0|E0]; [destruct Hlo; lia|].
    destruct (iw_ind _ _ _ Hwf E0). lia. }
  destruct (ok_len _ _ (rd_ok _ _ Hr) b ltac:(destruct Hlo; lia)) as [Hl Hby].
  assert (inode_wf (sb s0) x' (j_cur v)) as Hwf'.
  { destruct Hwf as [W1 W2 W3 W4 W5 W6]. split; rewrite ?Eind; try setoid_rewrite Enth; try done.
    - unfold x'; by case_if.
    - rewrite Hsz'. lia.
    - intros bn Hbn Hlt. rewrite Hsz' in Hlt. destruct (decide (bn * BSIZE < isize x)); [by apply W6|].
      pose proof (wi_alloc _ _ _ _ _ _ _ _ Hi (bn * BSIZE) ltac:(lia)) as Ha.
      by replace (bn * BSIZE / BSIZE) with bn in Ha by fs_lia. }
  assert (length (take (Z.to_nat tot) D) = Z.to_nat tot) as Hlt by (rewrite length_take; lia).
  split; simpl.
  - apply inode_wf_upd; try done. by rewrite Eind.
  - apply ready_upd; try done; [by rewrite length_put_dinode|by apply is_bytes_put_dinode].
  - apply Hi.
  - done.
  - rewrite Hlt. lia.
  - intros k Hk. rewrite Efb. rewrite Hsz' in Hk. rewrite Hlt.
    rewrite (fbyte_upd (sb s0)); [|done|lia|destruct Hlo; lia|pose proof (iw_size _ _ _ Hwf); lia].
    rewrite (wi_data _ _ _ _ _ _ _ _ Hi k) by lia. rewrite Z2Nat.id by lia.
    case_decide; [|done]. by rewrite lookup_take_lt by lia.
  - intros Hfit. rewrite fn_lookup_insert. by apply get_put_dinode_eq.
  - intros i Hir Hne. rewrite <- Einum in Hne. destruct (decide (IBLOCK i (sb s0) = b)) as [E|E].
    + rewrite E, fn_lookup_insert. rewrite get_put_dinode_ne; [rewrite (wi_low _ _ _ _ _ _ _ _ Hi); [done|lia]|].
      unfold b, IBLOCK in E. intros Em. apply Hne.
      rewrite (Z.div_mod i IPB), (Z.div_mod (inum x') IPB) by fs_lia. nia.
    + rewrite fn_lookup_insert_ne by done. pose proof (iblock_range _ i Hlo Hir).
      rewrite (wi_low _ _ _ _ _ _ _ _ Hi); [done|lia].
  - intros k Hk Hu Hno. destruct (wi_frame _ _ _ _ _ _ _ _ Hi k Hk Hu Hno) as [Ec Hno1].
    rewrite fn_lookup_insert_ne by lia. split_and!; [done| |by rewrite owned_upd, Eow by (by rewrite Eind)].
    apply in_use_plain; [done|done|lia|]. apply (wi_use _ _ _ _ _ _ _ _ Hi); [lia|done].
  - intros k Hk Hu. apply in_use_plain in Hu; try done. rewrite owned_upd, Eow by (by rewrite Eind).
    by apply (wi_fresh _ _ _ _ _ _ _ _ Hi).
Qed.

Lemma writei_ok inp s0 v s ip src off D : delivers inp src D → is_bytes D →
  ready s0 v → j_held v = ∅ → fover d s0 v s → 0 ≤ src < 2 ^ 64 →
  let x := itable s0 ip in let n := Z.of_nat (length D) in
  inode_ok d (sb s0) x → inode_wf (sb s0) x (j_cur v) →
  0 ≤ off ≤ isize x → off + n ≤ MAXFILE * BSIZE →
  room s0 v (2 + cost off n + 5) →
  wp (writei inp ip src off n) (λ r s', 0 ≤ r ≤ n ∧ ∃ x' v',
    written s0 x v off (take (Z.to_nat r) D) x' v' ∧ fover d (upd_inode ip (λ _, x') s0) v' s' ∧
    Z.of_nat (base.size (j_log v')) ≤ Z.of_nat (base.size (j_log v)) + cost off n + 3 ∧
    (r = n ∨ ∀ b, 0 ≤ b < sb_size (sb s0) → in_use (sb s0) (j_cur v') b)) s.
Proof.
  intros Hinp HbD Hr Hh Hs Hsrc x n Hio Hwf Hoff Hmax Hroom. pose proof (iw_size _ _ _ Hwf) as Hisz.
  unfold writei. apply wp_bind, wp_gets. destruct (fover_sb _ _ _ _ Hs) as (_ & Htb & _). rewrite Htb. fold x.
  rewrite (u32_small (off + n)) by fs_lia.
  destruct (isize x <? off) eqn:E1; bsimpl; [lia|]. destruct (off + n <? off) eqn:E2; bsimpl; [lia|]. cbn [orb].
  destruct (MAXFILE * BSIZE <? off + n) eqn:E3; bsimpl; [lia|].
  pose proof (pot_bounds x v) as Hpb. set (L := Z.of_nat (base.size (j_log v))) in *.
  assert (room s0 v (2 + cost off n + 5) → L + 2 + cost off n + 5 ≤ NBUF ∧ L + 2 + cost off n + 5 ≤ j_cap (jr s0)) as HB.
  { unfold room, j_used. rewrite Hh, dom_empty_L, union_empty_l_L. fold L. lia. }
  destruct (HB Hroom) as [HB1 HB2].
  apply wp_bind. pose proof (writei_loop_ok inp src D s0 x v ip off n (L + 2 + cost off n) Hinp eq_refl HbD Hio
    ltac:(lia) ltac:(lia) ltac:(lia) Hmax ltac:(lia) ltac:(lia) (Z.to_nat (n / BSIZE + 3)) s _ x v 0
    (wr_inv_init _ _ _ _ _ Hwf Hr Hh) ltac:(lia) eq_refl) as Hloop.
  rewrite !Z.add_0_r, (u64_small src), Z.sub_0_r in Hloop by lia.
  eapply wp_mono; [apply Hloop; [by apply fover_same|lia|unfold nblk; case_if; fs_lia]|]. clear Hloop.
  intros r s1 (x1 & v1 & tot & -> & Ht & Hi & H1 & Hp1 & Hfull). cbn [fst snd].
  apply wp_bind, wp_gets. destruct (fover_sb _ _ _ _ H1) as (_ & Htb1 & _). rewrite Htb1. simpl. rewrite fn_lookup_insert.
  pose proof (wr_finish s0 x v off D tot x1 v1 ltac:(lia) ltac:(lia) ltac:(lia) ltac:(lia) Hio Hi) as Hw. cbv zeta in Hw.
  set (x' := if isize x1 <? off + tot then set_isize (off + tot) x1 else x1) in *.
  apply wp_bind, (wp_mono _ (λ _, fover d (upd_inode ip (λ _, x') s0) v1)).
  { apply wp_when; intros E; unfold x'; rewrite E; [|exact H1].
    eapply fover_base; [exact (fover_upd d _ _ _ ip (set_isize (off + tot)) H1)|done| |done..].
    intros i. simpl. destruct (decide (i = ip)) as [->|]; [by rewrite !fn_lookup_insert|by rewrite !fn_lookup_insert_ne]. }
  intros [] s2 H2. apply wp_bind.
  pose proof (wt_meta _ _ _ _ _ _ _ Hw) as Hm.
  assert (itable (upd_inode ip (λ _, x') s0) ip = x') as Etb by (simpl; by rewrite fn_lookup_insert).
  pose proof (pot_bounds x1 v1).
  eapply (iupdate_ok (upd_inode ip (λ _, x') s0) v1 s2 ip); [by eapply ready_base; [..|exact (wi_ready _ _ _ _ _ _ _ _ Hi)]| |apply Hi|done| |].
  { unfold room, j_used. rewrite (wi_held _ _ _ _ _ _ _ _ Hi), dom_empty_L, union_empty_l_L. simpl.
    pose proof (cost_nonneg off n ltac:(lia)). lia. }
  { rewrite Etb. destruct Hm as (M1 & M2 & _). destruct Hio. split; simpl; congruence. }
  rewrite Etb. simpl. intros s3 H3. apply wp_ret. split; [lia|]. eexists x', _. split; [exact Hw|]. split; [exact H3|].
  split; [|done || (destruct Hfull as [|Hf]; [by left|right])].
  - simpl. pose proof (size_add (IBLOCK (inum x') (sb s0)) (j_log v1)). lia.
  - intros b Hb. pose proof (rd_layout _ _ Hr) as Hlo.
    apply in_use_plain; [done| |done|by apply Hf]. left.
    destruct Hm as (_ & E & _). rewrite E. apply iblock_range; [done|apply Hio].
Qed.

End write_ops.

End FsWrite.
