(* ===== verification/FsDir.v ===== *)
(** * Directories and paths

    A directory is a file of 16-byte entries; [dir_find] is the lookup it stands
    for.  dirlookup computes it, dirlink adds an entry to it, and skipelem cuts a
    path into its elements. *)

From S2P Require Import Prelude Bytes Spinlock Riscv ListH Sleeplock Bio Log LogCrash LogTx Journal CString Fs FsBlock FsInode FsFile FsWrite.
Import Riscv Bytes Lock Journal Fs FsBlock FsInode FsFile FsWrite.

Module FsDir.

(** ** The inode table *)

(** No inode has two entries. *)
Definition table_ok (tb : Z → inode) : Prop :=
  ∀ i j, 0 ≤ i < NINODE → 0 ≤ j < NINODE → 0 < ref (tb i) → 0 < ref (tb j) →
    dev (tb i) = dev (tb j) → inum (tb i) = inum (tb j) → i = j.

Lemma iget_scan_spec d n tb : ∀ k ip empty,
  match iget_scan k ip empty d n tb with
  | inl i => ip ≤ i < ip + Z.of_nat k ∧ 0 < ref (tb i) ∧ dev (tb i) = d ∧ inum (tb i) = n
  | inr e => (∀ i, ip ≤ i < ip + Z.of_nat k → ¬ (0 < ref (tb i) ∧ dev (tb i) = d ∧ inum (tb i) = n)) ∧
      match empty with
      | Some _ => e = empty
      | None => match e with
                | Some i => ip ≤ i < ip + Z.of_nat k ∧ ref (tb i) = 0
                | None => ∀ i, ip ≤ i < ip + Z.of_nat k → ref (tb i) ≠ 0
                end
      end
  end.
Proof.
  induction k as [|k IH]; intros ip empty; cbn [iget_scan].
  { split; [intros; lia|]. destruct empty; [done|]. intros; lia. }
  destruct ((0 <? ref (tb ip)) && (dev (tb ip) =? d) && (inum (tb ip) =? n)) eqn:E.
  { bsimpl. split_and!; lia || done. }
  assert (¬ (0 < ref (tb ip) ∧ dev (tb ip) = d ∧ inum (tb ip) = n)) as Hn.
  { intros (H1 & H2 & H3). rewrite H2, H3, !Z.eqb_refl, !andb_true_r in E. bsimpl. lia. }
  set (e' := match empty with None => _ | Some _ => _ end).
  specialize (IH (ip + 1) e'). destruct (iget_scan k (ip + 1) e' d n tb) as [i|e].
  - destruct IH as (? & ? & ? & ?). split_and!; lia || done.
  - destruct IH as [H1 H2]. split.
    + intros i Hi. destruct (decide (i = ip)) as [->|]; [done|]. apply H1. lia.
    + unfold e' in H2. destruct empty as [z|]; [done|].
      destruct (ref (tb ip) =? 0) eqn:Er; bsimpl; [subst; split; [lia|done]|].
      destruct e as [i|]; [destruct H2; split; [lia|done]|].
      intros i Hi. destruct (decide (i = ip)) as [->|]; [done|]. apply H2. lia.
Qed.

(** ** Names: the first DIRSIZ bytes, up to a nul *)

Lemma strncpy_bytes_S p n : CString.strncpy_bytes p (S n) =
  if hd 0 p =? 0 then replicate (S n) 0 else hd 0 p :: CString.strncpy_bytes (tl p) n.
Proof.
  unfold CString.strncpy_bytes. destruct p as [|a p]; [done|]. cbn [hd tl CString.strz].
  destruct (a =? 0); done.
Qed.

Lemma hd_strncpy p n : hd 0 (CString.strncpy_bytes p (S n)) = hd 0 p.
Proof. rewrite strncpy_bytes_S. destruct (hd 0 p =? 0) eqn:E; bsimpl; done. Qed.

Lemma strncmp_strncpy n : ∀ p q,
  CString.strncmp_bytes p q n = 0 ↔ CString.strncpy_bytes p n = CString.strncpy_bytes q n.
Proof.
  induction n as [|n IH]; intros p q; [split; [intros _|done]; unfold CString.strncpy_bytes; by rewrite !resize_0|].
  rewrite !strncpy_bytes_S. cbn [CString.strncmp_bytes].
  destruct (hd 0 p =? 0) eqn:Ep; [bsimpl; rewrite Ep; cbn [negb andb]|cbn [negb andb]].
  - change (0 =? 0) with true. cbn [negb andb]. destruct (hd 0 q =? 0) eqn:Eq; bsimpl.
    + rewrite Eq. done.
    + split; [lia|]. intros E. cbn [replicate] in E. exfalso; congruence.
  - destruct (hd 0 p =? hd 0 q) eqn:E; bsimpl.
    + rewrite IH, <- E, (proj2 (Z.eqb_neq _ _) Ep). split; [congruence|by intros [=]].
    + split; [lia|]. intros E'. destruct (hd 0 q =? 0) eqn:Eq; bsimpl; cbn [replicate] in E'; exfalso; congruence.
Qed.

Lemma strncpy_idem n : ∀ p, CString.strncpy_bytes (CString.strncpy_bytes p n) n = CString.strncpy_bytes p n.
Proof.
  induction n as [|n IH]; intros p; [unfold CString.strncpy_bytes; by rewrite !resize_0|].
  rewrite strncpy_bytes_S at 1. rewrite hd_strncpy, !strncpy_bytes_S. destruct (hd 0 p =? 0); [done|]. cbn [tl]. by rewrite IH.
Qed.

(** ** What a directory stands for *)

Definition dirent_at (x : inode) (cur : Z → bytes) (k : Z) : bytes := fslice x cur (DIRENT_SIZE * k) DIRENT_SIZE.

Fixpoint find_slot (p : Z → bool) (n : nat) (k : Z) : option Z :=
  match n with
  | O => None
  | S n' => if p k then Some k else find_slot p n' (k + 1)
  end.

Definition slots (x : inode) : Z := isize x / DIRENT_SIZE.
Definition entry_is (name de : bytes) : bool := negb (de_inum de =? 0) && (namecmp name (de_name de) =? 0).

(** The slot of a name, and the inode number it is bound to. *)
Definition dir_find (x : inode) (cur : Z → bytes) (name : bytes) : option Z :=
  find_slot (λ k, entry_is name (dirent_at x cur k)) (Z.to_nat (slots x)) 0.
Definition dir_lookup (x : inode) (cur : Z → bytes) (name : bytes) : option Z :=
  k ← dir_find x cur name; Some (de_inum (dirent_at x cur k)).
(** The slot dirlink fills: the first empty one, or a new one at the end. *)
Definition free_slot (x : inode) (cur : Z → bytes) : Z :=
  default (slots x) (find_slot (λ k, de_inum (dirent_at x cur k) =? 0) (Z.to_nat (slots x)) 0).

(** A directory has whole entries only. *)
Definition dir_wf (x : inode) : Prop := type x = T_DIR ∧ isize x mod DIRENT_SIZE = 0.

Lemma find_slot_Some p n : ∀ k j, find_slot p n k = Some j →
  k ≤ j < k + Z.of_nat n ∧ p j = true ∧ ∀ i, k ≤ i < j → p i = false.
Proof.
  induction n as [|n IH]; intros k j; simpl; [done|]. destruct (p k) eqn:E; [intros [= <-]; split_and!; [lia..|done|lia]|].
  intros Hj. destruct (IH _ _ Hj) as (? & ? & Hlt). split_and!; [lia..|done|].
  intros i Hi. destruct (decide (i = k)) as [->|]; [done|]. apply Hlt. lia.
Qed.

Lemma find_slot_None p n : ∀ k, find_slot p n k = None → ∀ i, k ≤ i < k + Z.of_nat n → p i = false.
Proof.
  induction n as [|n IH]; intros k; simpl; [intros; lia|]. destruct (p k) eqn:E; [done|].
  intros Hn i Hi. destruct (decide (i = k)) as [->|]; [done|]. apply (IH (k + 1)); [done|lia].
Qed.

(** The first slot of a scan is determined by its three properties. *)
Lemma find_slot_intro p n : ∀ k j, k ≤ j < k + Z.of_nat n → p j = true → (∀ i, k ≤ i < j → p i = false) →
  find_slot p n k = Some j.
Proof.
  induction n as [|n IH]; intros k j Hj Hp Hlt; [lia|]. simpl. destruct (decide (j = k)) as [->|]; [by rewrite Hp|].
  rewrite (Hlt k) by lia. apply IH; [lia|done|]. intros i Hi. apply Hlt. lia.
Qed.

Lemma find_slot_none_intro p n : ∀ k, (∀ i, k ≤ i < k + Z.of_nat n → p i = false) → find_slot p n k = None.
Proof.
  induction n as [|n IH]; intros k Hlt; [done|]. simpl. rewrite (Hlt k) by lia. apply IH. intros i Hi. apply Hlt. lia.
Qed.

(** ** Linking a name *)

Lemma mk_dirent_len i name : Z.of_nat (length (mk_dirent i name)) = DIRENT_SIZE.
Proof. unfold mk_dirent, CString.strncpy_bytes. rewrite length_app, length_le_bytes, length_resize. fs_lia. Qed.

Lemma mk_dirent_inum i name : 0 ≤ i < 2 ^ 16 → de_inum (mk_dirent i name) = i.
Proof.
  intros Hi. unfold de_inum, mk_dirent, get16, sub_bytes. change (Z.to_nat 0) with 0%nat. rewrite drop_0, take_app_length'
    by (by rewrite length_le_bytes). rewrite le_val_bytes. apply Z.mod_small. lia.
Qed.

Lemma mk_dirent_name i name : de_name (mk_dirent i name) = CString.strncpy_bytes name (Z.to_nat DIRSIZ).
Proof.
  unfold de_name, mk_dirent, sub_bytes. change (Z.to_nat 2) with 2%nat.
  rewrite drop_app_length' by (by rewrite length_le_bytes). apply take_ge.
  unfold CString.strncpy_bytes. rewrite length_resize. done.
Qed.

Lemma namecmp_sym_new i name name' : namecmp name' (de_name (mk_dirent i name)) = 0 ↔ namecmp name' name = 0.
Proof. rewrite mk_dirent_name. unfold namecmp. by rewrite !strncmp_strncpy, strncpy_idem. Qed.

Lemma is_bytes_dirent i name : is_bytes name → is_bytes (mk_dirent i name).
Proof.
  intros Hn. unfold is_bytes, mk_dirent. apply Forall_app. split; [apply is_bytes_le|].
  unfold CString.strncpy_bytes. apply Forall_resize; [lia|]. apply Forall_take.
  clear i. induction Hn as [|c l Hc _ IH]; simpl; [constructor|]. destruct (c =? 0); by constructor.
Qed.

#[local] Arguments iget_scan : simpl never.
#[local] Opaque NINODE.

Section dirs.
Context {J : Type} `{Journal J} (d : Z).
Implicit Types (s : @fsst J) (v : jview) (x : inode).

(** [iget]: an entry for the inode, with one more reference; the other entries are
    left alone.  It needs a free entry if the inode has none. *)
Definition iget_entry s (n : Z) (ip : Z) (x : inode) : Prop :=
  0 ≤ ip < NINODE ∧ dev x = d ∧ inum x = n ∧
  ((0 < ref (itable s ip) ∧ dev (itable s ip) = d ∧ inum (itable s ip) = n ∧
    x = set_ref (ref (itable s ip) + 1) (itable s ip)) ∨
   (ref (itable s ip) = 0 ∧ ref x = 1 ∧ valid x = false ∧ lock x = lock (itable s ip))).

Lemma iget_ok s n :
  ilk s = false → (∃ i, 0 ≤ i < NINODE ∧ ref (itable s i) = 0) → (∀ i, 0 ≤ i < NINODE → 0 ≤ ref (itable s i) < 2 ^ 31 - 1) →
  table_ok (itable s) →
  wp (iget d n) (λ ip s', ∃ x, iget_entry s n ip x ∧ table_ok (itable s') ∧
    s' = upd_inode ip (λ _, x) s) s.
Proof.
  intros Hl Hfree Hpos Hok. unfold iget. apply wp_bind, wp_acquire; [done|]. apply wp_bind, wp_gets.
  change (itable (lk_set true s)) with (itable s).
  pose proof (iget_scan_spec d n (itable s) (Z.to_nat NINODE) 0 None) as Hs.
  destruct (iget_scan _ _ _ _ _ _) as [ip|[ip|]].
  - destruct Hs as (Hi & Hr & Hd & Hn). apply wp_bind, wp_modify. cbn beta.
    assert (s32 (ref (itable s ip) + 1) = ref (itable s ip) + 1) as E32 by (apply s32_small; specialize (Hpos ip ltac:(lia)); lia).
    assert (upd_inode ip (λ x, set_ref (s32 (ref x + 1)) x) (lk_set true s) = upd_inode ip (λ x, set_ref (ref x + 1) x) (lk_set true s)) as ->
      by (unfold upd_inode; change (itable (lk_set true s)) with (itable s); cbv beta; by rewrite E32).
    apply wp_bind, wp_release; [done|]. apply wp_ret.
    exists (set_ref (ref (itable s ip) + 1) (itable s ip)). split_and!.
    + unfold iget_entry. split_and!; try done; try lia. left. done.
    + intros i j Hi' Hj. simpl. intros H1 H2 H3 H4. apply (Hok i j Hi' Hj); revert H1 H2 H3 H4;
        destruct (decide (i = ip)) as [->|], (decide (j = ip)) as [->|];
        rewrite ?fn_lookup_insert, ?fn_lookup_insert_ne by done; simpl; congruence || lia || done.
    + destruct s. simpl in *. by subst.
  - destruct Hs as (Hno & Hi & Hr). apply wp_bind, wp_modify, wp_bind, wp_release; [done|]. apply wp_ret.
    set (y := itable s ip).
    exists (mk_inode d n 1 (lock y) false (type y) (major y) (minor y) (nlink y) (isize y) (addrs y)).
    split; [|split; [|by destruct s; simpl in *; subst]].
    { unfold iget_entry. split_and!; try done; try lia. right. done. }
    intros i j Hi' Hj. simpl.
    destruct (decide (i = ip)) as [->|Ni], (decide (j = ip)) as [->|Nj];
      rewrite ?fn_lookup_insert, ?fn_lookup_insert_ne by done; simpl; try done.
    + intros _ H2 H3 H4. exfalso. apply (Hno j); [lia|done].
    + intros H1 _ H3 H4. exfalso. apply (Hno i); [lia|done].
    + by apply Hok.
  - destruct Hs as (_ & Hfull). destruct Hfree as (i & Hi & Hr). exfalso. apply (Hfull i); [lia|done].
Qed.

(** What dirlookup needs of the in-memory inodes: a free entry, and counts that another
    reference does not overflow. *)
Record table_ready s : Prop := {
  tr_lk : ilk s = false;
  tr_free : ∃ i, 0 ≤ i < NINODE ∧ ref (itable s i) = 0;
  tr_pos : ∀ i, 0 ≤ i < NINODE → 0 ≤ ref (itable s i) < 2 ^ 31 - 1;
  tr_ok : table_ok (itable s) }.

Lemma iget_over s0 v s n : table_ready s0 → fover d s0 v s →
  wp (iget d n) (λ ip s', ∃ y, iget_entry s0 n ip y ∧ table_ok (itable (upd_inode ip (λ _, y) s0)) ∧
    fover d (upd_inode ip (λ _, y) s0) v s') s.
Proof.
  intros [H1 H2 H3 H4] Hs. destruct (fover_sb _ _ _ _ Hs) as (_ & Htb & Hlk & _).
  eapply wp_mono; [apply iget_ok|].
  - congruence.
  - destruct H2 as (i & ? & ?). exists i. by rewrite Htb.
  - intros i Hi. rewrite Htb. auto.
  - intros i j Hi Hj. rewrite !Htb. by apply H4.
  - intros ip s' (y & He & Ht & ->). exists y. unfold iget_entry in *. rewrite Htb in He. split; [done|].
    split; [|by apply fover_upd]. intros i j Hi Hj. specialize (Ht i j Hi Hj). simpl in *.
    destruct (decide (i = ip)) as [->|], (decide (j = ip)) as [->|];
      rewrite ?fn_lookup_insert, ?fn_lookup_insert_ne, ?Htb in * by done; exact Ht.
Qed.

(** dirlookup's answer: none, or the entry's inode and offset. *)
Definition looked_up s0 v (dp : Z) (name : bytes) (r : option (Z * Z)) s' : Prop :=
  let x := itable s0 dp in
  match dir_find x (j_cur v) name with
  | None => r = None ∧ fover d s0 v s'
  | Some k => ∃ ip y, r = Some (ip, DIRENT_SIZE * k) ∧ iget_entry s0 (de_inum (dirent_at x (j_cur v) k)) ip y ∧
      table_ok (itable (upd_inode ip (λ _, y) s0)) ∧ fover d (upd_inode ip (λ _, y) s0) v s'
  end.

Section scan.
Context s0 v (dp : Z) (Hr : ready s0 v) (Hroom : room s0 v 1) (Hh : j_held v = ∅).
Let x := itable s0 dp.
Context (Hio : inode_ok d (sb s0) x) (Hwf : inode_wf (sb s0) x (j_cur v)) (Hdir : dir_wf x).

Lemma size_slots : isize x = DIRENT_SIZE * slots x ∧ 0 ≤ slots x ∧ isize x < 2 ^ 30.
Proof. destruct Hdir as [_ Hm]. pose proof (iw_size _ _ _ Hwf). unfold slots. split_and!; fs_lia. Qed.

(** One turn of the scans: the read of a whole entry. *)
Lemma wp_entry k s (Q : Z * bytes → fsst → Prop) : 0 ≤ k < slots x → fover d s0 v s →
  (∀ s', fover d s0 v s' → Q (DIRENT_SIZE, dirent_at x (j_cur v) k) s') →
  wp (readi kout dp 0 (DIRENT_SIZE * k) DIRENT_SIZE) Q s.
Proof.
  intros Hk Hs HQ. destruct size_slots as (Hsz & ? & ?).
  eapply wp_mono; [apply (readi_ok d kout s0 v s dp 0 (DIRENT_SIZE * k) DIRENT_SIZE); try done; fs_lia|].
  fold x. intros r s' [-> Hs']. destruct (isize x <? DIRENT_SIZE * k) eqn:E; bsimpl; [fs_lia|].
  rewrite Z.min_l by fs_lia. by apply HQ.
Qed.

Lemma dirlookup_loop_ok name : table_ready s0 → ∀ m fuel k s, 0 ≤ k → k + Z.of_nat m = slots x → (m < fuel)%nat → fover d s0 v s →
  find_slot (λ k, entry_is name (dirent_at x (j_cur v) k)) (Z.to_nat k) 0 = None →
  wp (dirlookup_loop fuel dp name (DIRENT_SIZE * k)) (looked_up s0 v dp name) s.
Proof.
  intros Ht. destruct size_slots as (Hsz & Hn0 & Hsm).
  induction m as [|m IH]; intros [|fuel] k s Hk Hm Hf Hs Hnone; try lia;
    cbn [dirlookup_loop]; apply wp_bind, wp_gets; destruct (fover_sb _ _ _ _ Hs) as (_ & Htb & _); rewrite Htb; fold x;
    destruct (DIRENT_SIZE * k <? isize x) eqn:E; bsimpl; try fs_lia.
  { apply wp_ret. unfold looked_up, dir_find. fold x. replace (Z.to_nat (slots x)) with (Z.to_nat k) by lia. by rewrite Hnone. }
  apply wp_bind, (wp_entry k); [lia|done|]. intros s1 Hs1. cbn [fst snd]. change (DIRENT_SIZE =? DIRENT_SIZE) with true. cbn [negb].
  set (de := dirent_at x (j_cur v) k).
  assert (u32 (DIRENT_SIZE * k + DIRENT_SIZE) = DIRENT_SIZE * (k + 1)) as -> by (rewrite u32_small; fs_lia).
  pose proof (find_slot_None _ _ _ Hnone) as Hno.
  assert (entry_is name de = false → find_slot (λ k, entry_is name (dirent_at x (j_cur v) k)) (Z.to_nat (k + 1)) 0 = None) as Hnext.
  { intros Hf'. apply find_slot_none_intro. intros i Hi. destruct (decide (i = k)) as [->|]; [done|]. apply Hno. lia. }
  destruct (de_inum de =? 0) eqn:E0; [apply IH; try lia; [done|]; apply Hnext; unfold entry_is; by rewrite E0|].
  destruct (namecmp name (de_name de) =? 0) eqn:E1; [|apply IH; try lia; [done|]; apply Hnext; unfold entry_is; by rewrite E0, E1].
  rewrite (io_dev _ _ _ Hio). apply wp_bind. eapply wp_mono; [apply (iget_over s0 v s1 (de_inum de) Ht Hs1)|].
  intros ip s2 (y & He & Hok & Hs2). apply wp_ret. unfold looked_up, dir_find. fold x.
  rewrite (find_slot_intro _ _ 0 k); [|lia|unfold entry_is; fold de; by rewrite E0, E1|].
  - exists ip, y. done.
  - intros i Hi. apply Hno. lia.
Qed.

Lemma dirlookup_ok name s : table_ready s0 → fover d s0 v s → wp (dirlookup dp name) (looked_up s0 v dp name) s.
Proof.
  intros Ht Hs. destruct (fover_sb _ _ _ _ Hs) as (_ & Htb & _). destruct size_slots as (? & ? & ?).
  unfold dirlookup. apply wp_bind, wp_gets. rewrite Htb. fold x. destruct Hdir as [-> _]. change (T_DIR =? T_DIR) with true. cbn [negb].
  apply (dirlookup_loop_ok name Ht (Z.to_nat (slots x)) _ 0); try done; unfold slots in *; fs_lia.
Qed.

Lemma dirlink_loop_ok : ∀ m fuel k s, 0 ≤ k → k + Z.of_nat m = slots x → (m < fuel)%nat → fover d s0 v s →
  find_slot (λ k, de_inum (dirent_at x (j_cur v) k) =? 0) (Z.to_nat k) 0 = None →
  wp (dirlink_loop fuel dp (DIRENT_SIZE * k)) (λ r s', r = DIRENT_SIZE * free_slot x (j_cur v) ∧ fover d s0 v s') s.
Proof.
  destruct size_slots as (Hsz & Hn0 & Hsm).
  induction m as [|m IH]; intros [|fuel] k s Hk Hm Hf Hs Hnone; try lia;
    cbn [dirlink_loop]; apply wp_bind, wp_gets; destruct (fover_sb _ _ _ _ Hs) as (_ & Htb & _); rewrite Htb; fold x;
    destruct (DIRENT_SIZE * k <? isize x) eqn:E; bsimpl; try fs_lia.
  { apply wp_ret. unfold free_slot. replace (Z.to_nat (slots x)) with (Z.to_nat k) by lia. rewrite Hnone. simpl. split; [f_equal; lia|done]. }
  apply wp_bind, (wp_entry k); [lia|done|]. intros s1 Hs1. cbn [fst snd]. change (DIRENT_SIZE =? DIRENT_SIZE) with true. cbn [negb].
  pose proof (find_slot_None _ _ _ Hnone) as Hno. destruct (de_inum (dirent_at x (j_cur v) k) =? 0) eqn:E0.
  - apply wp_ret. unfold free_slot. rewrite (find_slot_intro _ _ 0 k); [done|lia|done|]. intros i Hi. apply Hno. lia.
  - replace (DIRENT_SIZE * k + DIRENT_SIZE) with (DIRENT_SIZE * (k + 1)) by lia. apply IH; try lia; [done|].
    apply find_slot_none_intro. intros i Hi. destruct (decide (i = k)) as [->|]; [done|]. apply Hno. lia.
Qed.

End scan.

Lemma iput_after_get s0 v s n ip y : ilk s0 = false → iget_entry s0 n ip y → fover d (upd_inode ip (λ _, y) s0) v s →
  wp (iput ip) (λ _ s', fover d (upd_inode ip (λ _, set_ref (ref (itable s0 ip)) y) s0) v s') s.
Proof.
  intros Hl (_ & _ & _ & Hy) Hs. destruct (fover_sb _ _ _ _ Hs) as (_ & Htb & Hlk & _).
  unfold iput. apply wp_bind, wp_acquire; [exact (eq_trans Hlk Hl)|]. apply wp_bind, wp_gets.
  change (itable (lk_set true s) ip) with (itable s ip). rewrite Htb. simpl. rewrite fn_lookup_insert.
  assert ((ref y =? 1) && valid y && (nlink y =? 0) = false ∧ ref y - 1 = ref (itable s0 ip)) as [-> Hry].
  { destruct Hy as [(Hp & _ & _ & ->)|(Hz & H1 & H2 & _)].
    - simpl. destruct (_ + 1 =? 1) eqn:E; bsimpl; [lia|]. split; [done|lia].
    - rewrite H2, andb_false_r. split; [done|lia]. }
  apply wp_bind, wp_ret, wp_bind, wp_modify, wp_release; [done|].
  destruct Hs as ((Hj & Hc & Ha) & Hsb & _ & _ & Hp).
  split_and!; simpl; try done. intros i.
  destruct (decide (i = ip)) as [->|]; [rewrite !fn_lookup_insert, Htb; simpl; rewrite fn_lookup_insert; by rewrite Hry|].
  rewrite !fn_lookup_insert_ne by done. rewrite Htb. simpl. by rewrite fn_lookup_insert_ne.
Qed.

(** A directory with one entry more. *)
Record linked x (cur : Z → bytes) (name : bytes) (i : Z) x' (cur' : Z → bytes) : Prop := {
  ln_new : dir_lookup x' cur' name = Some i;
  ln_old : ∀ name', namecmp name' name ≠ 0 → dir_lookup x' cur' name' = dir_lookup x cur name';
  ln_dir : dir_wf x' }.

Section link.
Context s0 v (dp : Z) (name : bytes) (i : Z) (x' : inode) (v' : jview).
Let x := itable s0 dp.
Let f := free_slot x (j_cur v).
Context (Hi : 0 < i < 2 ^ 16) (Hwf : inode_wf (sb s0) x (j_cur v)) (Hdir : dir_wf x)
  (Hnone : dir_find x (j_cur v) name = None)
  (Hw : written s0 x v (DIRENT_SIZE * f) (mk_dirent i name) x' v').

Lemma free_slot_range : 0 ≤ f ≤ slots x ∧ (f < slots x → de_inum (dirent_at x (j_cur v) f) = 0) ∧
  ∀ k, 0 ≤ k < f → de_inum (dirent_at x (j_cur v) k) ≠ 0.
Proof.
  destruct (size_slots s0 v dp Hwf Hdir) as (_ & Hn & _). fold x in Hn. unfold f, free_slot. destruct (find_slot _ _ _) as [k|] eqn:E; simpl.
  - apply find_slot_Some in E as (Hk & Hz & Hlt). split_and!; [lia..| |].
    + intros _. bsimpl. done.
    + intros j Hj. specialize (Hlt j Hj). cbv beta in Hlt. bsimpl. done.
  - split_and!; [lia..|lia|]. intros k Hk. pose proof (find_slot_None _ _ _ E k ltac:(lia)) as Hz. cbv beta in Hz. bsimpl. done.
Qed.

Lemma linked_slots : slots x' = Z.max (slots x) (f + 1) ∧ isize x' = DIRENT_SIZE * slots x'.
Proof.
  destruct (size_slots s0 v dp Hwf Hdir) as (Hsz & Hn & _). fold x in Hsz, Hn. destruct free_slot_range as (Hf & _).
  pose proof (wt_size _ _ _ _ _ _ _ Hw) as Hs. rewrite mk_dirent_len in Hs.
  assert (isize x' = DIRENT_SIZE * Z.max (slots x) (f + 1)) as E by fs_lia. 
  assert (slots x' = Z.max (slots x) (f + 1)) as E'; [|split; congruence].
  unfold slots at 1. rewrite E, Z.mul_comm. by apply Z.div_mul.
Qed.

Lemma linked_dirent k : 0 ≤ k < slots x' →
  dirent_at x' (j_cur v') k = if decide (k = f) then mk_dirent i name else dirent_at x (j_cur v) k.
Proof.
  intros Hk. destruct linked_slots as (_ & Hs). destruct free_slot_range as (Hf & _).
  pose proof (mk_dirent_len i name) as Hl. unfold dirent_at, fslice. case_decide as E.
  - subst k. apply list_eq. intros j. rewrite list_lookup_fmap.
    destruct (decide (j < 16)%nat); [|rewrite lookup_seqZ_ge by fs_lia; simpl; symmetry; apply lookup_ge_None; fs_lia].
    rewrite lookup_seqZ_lt by fs_lia. simpl. rewrite (wt_data _ _ _ _ _ _ _ Hw) by fs_lia. rewrite decide_True by fs_lia.
    replace (Z.to_nat (DIRENT_SIZE * f + Z.of_nat j - DIRENT_SIZE * f)) with j by lia.
    destruct (mk_dirent i name !! j) eqn:E; [done|]. apply lookup_ge_None in E. fs_lia.
  - apply list_fmap_ext. intros j z Hz. apply lookup_seqZ in Hz as [-> Hj].
    rewrite (wt_data _ _ _ _ _ _ _ Hw) by fs_lia. rewrite decide_False; [done|]. rewrite Hl. fs_lia.
Qed.

Lemma linked_is name' k : 0 ≤ k < slots x' → entry_is name' (dirent_at x' (j_cur v') k) =
  if decide (k = f) then (namecmp name' name =? 0) else entry_is name' (dirent_at x (j_cur v) k).
Proof.
  intros Hk. rewrite linked_dirent by done. case_decide; [|done]. unfold entry_is. rewrite mk_dirent_inum by lia.
  destruct (i =? 0) eqn:E; bsimpl; [lia|]. cbn [negb andb]. apply Bool.eq_iff_eq_true. rewrite !Z.eqb_eq. apply namecmp_sym_new.
Qed.

(** An entry of the old directory is not at the slot that was filled. *)
Lemma old_slot name' k : 0 ≤ k < slots x → entry_is name' (dirent_at x (j_cur v) k) = true → k ≠ f.
Proof.
  intros Hk He ->. destruct free_slot_range as (_ & Hz & _). unfold entry_is in He. rewrite (Hz ltac:(lia)) in He. done.
Qed.

Lemma linked_ok : linked x (j_cur v) name i x' (j_cur v').
Proof.
  destruct linked_slots as (Hs & Hsz). destruct free_slot_range as (Hf & Hz & _). split.
  - unfold dir_lookup, dir_find. rewrite (find_slot_intro _ _ 0 f); simpl; [|lia| |].
    + rewrite linked_dirent by lia. rewrite decide_True by done. by rewrite mk_dirent_inum by lia.
    + rewrite linked_is by lia. rewrite decide_True by done. unfold namecmp. apply Z.eqb_eq. by apply strncmp_strncpy.
    + intros k Hk. rewrite linked_is by lia. rewrite decide_False by lia. apply (find_slot_None _ _ _ Hnone). lia.
  - intros name' Hne. unfold dir_lookup, dir_find. destruct (find_slot _ (Z.to_nat (slots x)) 0) as [k|] eqn:E.
    + apply find_slot_Some in E as (Hk & He & Hlt). pose proof (old_slot name' k ltac:(lia) He) as Hkf.
      rewrite (find_slot_intro _ _ 0 k); simpl; [by rewrite linked_dirent, decide_False by (done || lia)|lia| |].
      * by rewrite linked_is, decide_False by (done || lia).
      * intros j Hj. rewrite linked_is by lia. case_decide; [by apply Z.eqb_neq|]. by apply Hlt.
    + rewrite find_slot_none_intro; [done|]. intros j Hj. rewrite linked_is by lia.
      case_decide; [by apply Z.eqb_neq|]. apply (find_slot_None _ _ _ E). lia.
  - pose proof (wt_meta _ _ _ _ _ _ _ Hw) as Hm. destruct Hdir as [Ht _]. split; [destruct Hm as (_ & _ & _ & _ & _ & Hty & _); congruence|].
    rewrite Hsz, Z.mul_comm. by apply Z.mod_mul.
Qed.

End link.

Lemma cost_dirent k : 0 ≤ k → cost (DIRENT_SIZE * k) DIRENT_SIZE ≤ 2.
Proof.
  intros Hk. assert (nblk (DIRENT_SIZE * k) DIRENT_SIZE = 1) as E.
  { unfold nblk. change (DIRENT_SIZE <=? 0) with false. cbv iota. change DIRENT_SIZE with 16. change BSIZE with 1024.
    assert ((16 * k + 16 - 1) / 1024 = 16 * k / 1024) as ->; [|lia]. Z.to_euclidean_division_equations; lia. }
  unfold cost. rewrite E. case_if; lia.
Qed.

(** A directory that cannot take another entry: it has the size of the largest file
    and every entry is in use. *)
Definition crowded (x : inode) (cur : Z → bytes) : Prop :=
  isize x = MAXFILE * BSIZE ∧ ∀ k, 0 ≤ k < slots x → de_inum (dirent_at x cur k) ≠ 0.

Definition dirlinked s0 v (dp : Z) (name : bytes) (i r : Z) s' : Prop :=
  let x := itable s0 dp in
  match dir_find x (j_cur v) name with
  | Some _ => r = -1 ∧ ∃ ip y, ref y = ref (itable s0 ip) ∧ fover d (upd_inode ip (λ _, y) s0) v s'
  | None => ∃ x' v', fover d (upd_inode dp (λ _, x') s0) v' s' ∧ inode_wf (sb s0) x' (j_cur v') ∧ ready s0 v' ∧ j_held v' = ∅ ∧
      Z.of_nat (base.size (j_log v')) ≤ Z.of_nat (base.size (j_log v)) + 5 ∧
      ((r = 0 ∧ linked x (j_cur v) name i x' (j_cur v')) ∨
       (r = -1 ∧ ∀ b, 0 ≤ b < sb_size (sb s0) → in_use (sb s0) (j_cur v') b) ∨
       (r = -1 ∧ crowded x (j_cur v) ∧ x' = x ∧ v' = v))
  end.

(** [writei] refuses to go past the largest size of a file. *)
Lemma writei_beyond inp s0 v s ip src off n : fover d s0 v s →
  0 ≤ off ≤ isize (itable s0 ip) → 0 ≤ n → off + n < 2 ^ 32 → MAXFILE * BSIZE < off + n →
  wp (writei inp ip src off n) (λ r s', r = -1 ∧ fover d s0 v s') s.
Proof.
  intros Hs Ho Hn Hlt Hbig. unfold writei. apply wp_bind, wp_gets. destruct (fover_sb _ _ _ _ Hs) as (_ & Htb & _). rewrite Htb.
  rewrite u32_small by lia. rewrite (proj2 (Z.ltb_ge (isize _) off)), (proj2 (Z.ltb_ge (off + n) off)) by lia. simpl.
  rewrite (proj2 (Z.ltb_lt _ _) Hbig). by apply wp_ret.
Qed.

(** A free entry that does not fit into the largest file: the directory is crowded. *)
Lemma crowded_slot s0 v dp : let x := itable s0 dp in let f := free_slot x (j_cur v) in
  inode_wf (sb s0) x (j_cur v) → dir_wf x → MAXFILE * BSIZE < DIRENT_SIZE * f + DIRENT_SIZE →
  crowded x (j_cur v) ∧ DIRENT_SIZE * f = isize x.
Proof.
  intros x f Hwf Hdir Hbig. destruct (size_slots s0 v dp Hwf Hdir) as (Hsz & Hn & _). fold x in Hsz, Hn.
  destruct (free_slot_range s0 v dp Hwf Hdir) as (Hf & _ & Hused). fold x f in Hf, Hused.
  pose proof (iw_size _ _ _ Hwf) as Hmx. assert (slots x = f) as E.
  { change (MAXFILE * BSIZE) with 274432 in *. change DIRENT_SIZE with 16 in *. lia. }
  split; [split|]; [change (MAXFILE * BSIZE) with 274432 in *; change DIRENT_SIZE with 16 in *; lia|by rewrite E|by rewrite Hsz, E].
Qed.

Lemma dirlink_ok s0 v s dp name i : ready s0 v → room s0 v 9 → j_held v = ∅ → fover d s0 v s → table_ready s0 →
  let x := itable s0 dp in
  inode_ok d (sb s0) x → inode_wf (sb s0) x (j_cur v) → dir_wf x →
  is_bytes name → 0 < i < 2 ^ 16 →
  wp (dirlink dp name i) (dirlinked s0 v dp name i) s.
Proof.
  intros Hr Hroom Hh Hs Ht x Hio Hwf Hdir Hname Hi. destruct (size_slots s0 v dp Hwf Hdir) as (Hsz & Hn & Hsm). fold x in Hsz, Hn, Hsm.
  assert (room s0 v 1) as Hroom1 by (eapply room_le; [exact Hroom|lia]).
  unfold dirlink. apply wp_bind. eapply wp_mono; [apply (dirlookup_ok s0 v dp Hr Hroom1 Hh Hio Hwf Hdir name s Ht Hs)|].
  intros r s1. unfold looked_up, dirlinked. fold x. destruct (dir_find x (j_cur v) name) as [k|] eqn:E.
  { intros (ip & y & -> & He & _ & Hs1). apply wp_bind. eapply wp_mono; [apply (iput_after_get _ _ _ _ _ _ (tr_lk _ Ht) He Hs1)|].
    intros [] s2 Hs2. apply wp_ret. split; [done|]. eexists ip, _. by split; [|exact Hs2]. }
  intros [-> Hs1]. apply wp_bind, wp_gets. destruct (fover_sb _ _ _ _ Hs1) as (_ & Htb & _). rewrite Htb. fold x.
  apply wp_bind. eapply wp_mono; [apply (dirlink_loop_ok s0 v dp Hr Hroom1 Hh Hio Hwf Hdir (Z.to_nat (slots x)) _ 0 s1); try done; fold x; [lia|change (isize x / DIRENT_SIZE) with (slots x); lia]|].
  intros off s2 [-> Hs2]. fold x. destruct (free_slot_range s0 v dp Hwf Hdir) as (Hf & _). fold x in Hf.
  set (f := free_slot x (j_cur v)) in *.
  destruct (Z.lt_ge_cases (MAXFILE * BSIZE) (DIRENT_SIZE * f + DIRENT_SIZE)) as [Hbig|Hmax].
  { destruct (crowded_slot s0 v dp Hwf Hdir Hbig) as [Hcr Ef]. fold x f in Hcr, Ef. apply wp_bind. eapply wp_mono; [apply (writei_beyond _ s0 v); try done; fold x; fs_lia|].
    intros r s3 [-> Hs3]. change (negb (-1 =? DIRENT_SIZE)) with true. apply wp_ret. exists x, v.
    split_and!; [by apply fover_same|done..|lia|]. right. right. done. }
  pose proof (cost_dirent f ltac:(lia)) as Hc.
  pose proof (writei_ok d (kinp (mk_dirent i name)) s0 v s2 dp 0 (DIRENT_SIZE * f) (mk_dirent i name)) as Hwr.
  rewrite mk_dirent_len in Hwr. fold x in Hwr. apply wp_bind. eapply wp_mono; [apply Hwr; try done|].
  - intros j m Hj Hm Hjm. unfold kinp. by rewrite Z.add_0_l, u64_small by (rewrite mk_dirent_len in Hjm; fs_lia).
  - by apply is_bytes_dirent.
  - fs_lia.
  - eapply room_le; [exact Hroom|lia].
  - intros r s3 (Hrr & x' & v' & Hw & Hs3 & Hlog & Hfull).
    pose proof (wt_wf _ _ _ _ _ _ _ Hw). pose proof (wt_ready _ _ _ _ _ _ _ Hw). pose proof (wt_held _ _ _ _ _ _ _ Hw).
    destruct (r =? DIRENT_SIZE) eqn:Er; bsimpl; cbn [negb]; apply wp_ret; exists x', v'; (split_and!; [done..|lia|]).
    + left. split; [done|]. subst r. rewrite take_ge in Hw by (pose proof (mk_dirent_len i name); lia).
      exact (linked_ok s0 v dp name i x' v' Hi Hwf Hdir E Hw).
    + right. left. split; [done|]. by destruct Hfull.
Qed.

End dirs.

(** ** Paths *)

(** The elements of a path: what is between its slashes, each cut to DIRSIZ bytes. *)
Fixpoint split_slash (cur path : bytes) : list bytes :=
  let out := if bool_decide (cur = []) then [] else [take (Z.to_nat DIRSIZ) cur] in
  match path with
  | [] => out
  | c :: path' => if c =? SLASH then out ++ split_slash [] path' else split_slash (cur ++ [c]) path'
  end.
Definition elems (path : bytes) : list bytes := split_slash [] path.

(** The elements skipelem gives one after the other. *)
Fixpoint walk (fuel : nat) (path : bytes) : option (list bytes) :=
  match fuel with
  | O => None
  | S fuel' =>
      match skipelem path with
      | None => Some []
      | Some (path', name) => r ← walk fuel' path'; Some (name :: r)
      end
  end.

Lemma elems_skip path : elems (skip_slashes path) = elems path.
Proof.
  induction path as [|c path IH]; [done|]. cbn [skip_slashes]. unfold elems in *. cbn [split_slash]. destruct (c =? SLASH) eqn:E.
  - rewrite IH. done.
  - cbn [split_slash]. by rewrite E.
Qed.

Lemma skip_slashes_le path : (length (skip_slashes path) ≤ length path)%nat.
Proof. induction path as [|c path IH]; simpl; [lia|]. destruct (c =? SLASH); simpl; lia. Qed.

Lemma take_elem_ok path : ∀ cur e r, take_elem path = (e, r) → cur ++ e ≠ [] →
  split_slash cur path = take (Z.to_nat DIRSIZ) (cur ++ e) :: elems r ∧ (length e + length r = length path)%nat.
Proof.
  induction path as [|c path IH]; intros cur e r; cbn [take_elem].
  - intros [= <- <-] Hne. rewrite app_nil_r in *. cbn [split_slash]. rewrite bool_decide_false by done. done.
  - cbn [split_slash]. destruct (c =? SLASH) eqn:Ec.
    + intros [= <- <-] Hne. rewrite app_nil_r in *. rewrite bool_decide_false by done. split; [|done].
      simpl. f_equal. unfold elems. cbn [split_slash]. by rewrite Ec.
    + destruct (take_elem path) as [e' r'] eqn:Et. intros [= <- <-] Hne.
      destruct (IH (cur ++ [c]) e' r' eq_refl) as [-> Hl]; [by destruct cur|]. rewrite <- app_assoc. simpl. split; [done|lia].
Qed.

Lemma skipelem_ok path :
  match skipelem path with
  | None => elems path = []
  | Some (r, name) => elems path = name :: elems r ∧ skip_slashes r = r ∧ (length r < length path)%nat
  end.
Proof.
  unfold skipelem. rewrite <- (elems_skip path). pose proof (skip_slashes_le path) as Hle.
  assert (∀ c p, skip_slashes path = c :: p → (c =? SLASH) = false) as Hc.
  { clear. intros c p. induction path as [|c' path IH]; simpl; [done|]. destruct (c' =? SLASH) eqn:E; [done|by intros [= <- <-]]. }
  destruct (skip_slashes path) as [|c p] eqn:E; [done|]. specialize (Hc c p eq_refl).
  destruct (take_elem (c :: p)) as [e r] eqn:Et. cbn [take_elem] in Et. rewrite Hc in Et.
  destruct (take_elem p) as [e' r'] eqn:Et'. injection Et as <- <-.
  destruct (take_elem_ok (c :: p) [] (c :: e') r') as [He Hl]; [cbn [take_elem]; by rewrite Hc, Et'|done|].
  split_and!.
  - unfold elems at 1. rewrite He. simpl app. rewrite elems_skip. f_equal. case_if; [done|]. bsimpl. rewrite take_ge; [done|]. lia.
  - clear. induction r' as [|a r IH]; [done|]. simpl. destruct (a =? SLASH) eqn:E; [done|]. simpl. by rewrite E.
  - pose proof (skip_slashes_le r'). simpl in *. lia.
Qed.


End FsDir.
