(* ===== verification/FsProps.v ===== *)
(** * What the file system guarantees

    The theorems of FsBlock.v to FsDir.v put together, for a call that runs inside
    a transaction of a journal that keeps the contract of Journal.v: the block
    allocator, writing and reading a file, looking a name up and linking one.  The
    witnesses run on a small disk over the log of Log.v and the cache of Bio.v. *)

From S2P Require Import Prelude Bytes Spinlock Riscv ListH Sleeplock Bio Log LogCrash LogTx Journal CString Fs FsBlock FsInode FsFile FsWrite FsDir.
Import Riscv Bytes Lock Bio LogCrash Journal Fs FsBlock FsInode FsFile FsWrite FsDir.

Module FsProps.

Section props.
Context {J : Type} `{Journal J} (d : Z).
Implicit Types (s : @fsst J) (v : jview) (x : inode).

(** Between two file-system operations of a call: [v] is the disk the call sees. *)
Record file_sys s v : Prop := {
  fs_ready : ready s v;
  fs_rep : j_rep d (jr s) v;
  fs_held : j_held v = ∅ }.

Definition full s v : Prop := ∀ b, 0 ≤ b < sb_size (sb s) → in_use (sb s) (j_cur v) b.

Lemma file_sys_self s v : file_sys s v → fover d s v s.
Proof. intros [_ Hr _]. by apply fover_self. Qed.

Lemma file_sys_over s v s1 v' s' : file_sys s v → sb s1 = sb s → jr s1 = jr s →
  fover d s1 v' s' → ready s v' → j_held v' = ∅ → file_sys s' v'.
Proof.
  intros _ Esb Ejr ((Hr & _ & Ha) & Hsb & _) [H1 H2 H3 H4 H5] Hh. rewrite Ejr in Ha. rewrite Esb in Hsb.
  split; [|done|done]. split; rewrite ?Hsb, ?Ha; done.
Qed.

Lemma room_over s v s1 v' s' k k' : room s v k → jr s1 = jr s → fover d s1 v' s' → j_held v = ∅ → j_held v' = ∅ →
  Z.of_nat (base.size (j_log v')) + k' ≤ Z.of_nat (base.size (j_log v)) + k → room s' v' k'.
Proof.
  intros [H1 H2] Ejr ((_ & Hc & _) & _) Hh Hh' Hl. unfold room, j_used in *. rewrite Hh, dom_empty_L, union_empty_l_L in H1.
  rewrite Hh', dom_empty_L, union_empty_l_L, Hc, Ejr. lia.
Qed.

(** ** Blocks *)

Lemma bfree_fs s v b : file_sys s v → room s v 1 → data_start (sb s) ≤ b < sb_size (sb s) → in_use (sb s) (j_cur v) b →
  wp (bfree d b) (λ _ s', ∃ v', file_sys s' v' ∧ sb s' = sb s ∧
    ∀ b', 0 ≤ b' < sb_size (sb s) → in_use (sb s) (j_cur v') b' ↔ b' ≠ b ∧ in_use (sb s) (j_cur v) b') s.
Proof.
  intros Hf Hroom Hb Hu. pose proof (fs_ready _ _ Hf) as Hr. pose proof (rd_layout _ _ Hr) as Hlo. pose proof (rd_ok _ _ Hr) as Hok.
  eapply bfree_ok; [exact Hr|exact Hroom|by apply file_sys_self|done..|].
  intros s' Hs'. eexists. split; [eapply (file_sys_over s v s); [done..|exact Hs'| |apply Hf]|split; [apply Hs'|]].
  - destruct Hr as [H1 H2 H3 H4 H5]. split; try done; [by apply (free_ok _ Hlo)|]. cbn [j_held jv_upd].
    rewrite (fs_held _ _ Hf), dom_empty_L. intros b' []%not_elem_of_empty.
  - intros b' Hb'. by apply (free_in_use _ Hlo).
Qed.

(** The block allocator (balloc, bfree).  balloc returns 0 only when every
    block of the disk is in use.  Otherwise it returns a data block that was free,
    sets its bit and no other, zeroes it and leaves every other data block alone;
    freeing the block again gives back the old set of blocks in use.  balloc and
    bfree never panic. *)
Theorem block_allocator s v : file_sys s v → room s v 3 →
  wp (balloc d) (λ r s',
    (r = 0 ∧ full s v ∧ file_sys s' v) ∨
    (data_start (sb s) ≤ r < sb_size (sb s) ∧ ¬ in_use (sb s) (j_cur v) r ∧ ∃ v', file_sys s' v' ∧
     j_cur v' r = zero_block ∧
     (∀ b, 0 ≤ b < sb_size (sb s) → in_use (sb s) (j_cur v') b ↔ b = r ∨ in_use (sb s) (j_cur v) b) ∧
     (∀ b, data_start (sb s) ≤ b → b ≠ r → j_cur v' b = j_cur v b) ∧
     wp (bfree d r) (λ _ s2, ∃ v2, file_sys s2 v2 ∧
       ∀ b, 0 ≤ b < sb_size (sb s) → in_use (sb s) (j_cur v2) b ↔ in_use (sb s) (j_cur v) b) s')) s.
Proof.
  intros Hf Hroom. pose proof (fs_ready _ _ Hf) as Hr. pose proof (rd_layout _ _ Hr) as Hlo. pose proof (rd_ok _ _ Hr) as Hok.
  eapply wp_mono; [apply (balloc_ok d s v s Hr); [eapply room_le; [exact Hroom|lia]|by apply file_sys_self]|].
  intros r s1 [(-> & Hfull & H1)|(Hrr & Hnu & _ & H1)].
  { left. split_and!; [done|done|]. by eapply (file_sys_over s v s); [..|apply Hf]. }
  right. split_and!; [lia..|done|]. set (v1 := jv_alloc (sb s) r v) in *.
  assert (ready s v1) as Hr1.
  { destruct Hr as [Ha Hb Hc Hd He]. split; try done; [by apply (alloc_ok _ Hlo)|]. cbn [j_held v1 jv_alloc jv_upd].
    rewrite (fs_held _ _ Hf), dom_empty_L. intros b' []%not_elem_of_empty. }
  assert (file_sys s1 v1) as Hf1 by (eapply (file_sys_over s v s); [done..|exact Hr1|apply Hf]).
  assert (room s1 v1 1) as Hroom1.
  { eapply (room_over s v s v1 s1 3 1); try done; try apply Hf. pose proof (size_add r ({[BBLOCK r (sb s)]} ∪ j_log v)).
    pose proof (size_add (BBLOCK r (sb s)) (j_log v)). cbn [j_log v1 jv_alloc jv_upd]. lia. }
  pose proof (data_start_pos _ Hlo). pose proof (bblock_range _ Hlo r ltac:(lia)).
  destruct (fover_sb _ _ _ _ H1) as (Esb & _).
  assert (∀ b, 0 ≤ b < sb_size (sb s) → in_use (sb s) (j_cur v1) b ↔ b = r ∨ in_use (sb s) (j_cur v) b) as Hiu
    by (intros b Hb; by apply (alloc_in_use _ Hlo)).
  exists v1. split_and!; [done|apply fn_lookup_insert|done| |].
  - intros b Hb Hne. cbn [j_cur v1 jv_alloc jv_upd]. rewrite !fn_lookup_insert_ne by lia. done.
  - eapply wp_mono; [apply (bfree_fs s1 v1 r Hf1 Hroom1); rewrite Esb; [lia|apply Hiu; [lia|by left]]|].
    intros [] s2 (v2 & Hf2 & _ & Hu2). rewrite Esb in Hu2. exists v2. split; [done|]. intros b Hb. rewrite Hu2, Hiu by done.
    split; [tauto|]. intros Hb'. split; [|tauto]. intros ->. done.
Qed.

(** ** Files *)

(** A file that shares no block with [x] keeps its contents. *)
Lemma written_other s x v off D x' v' z : written s x v off D x' v' → inode_wf (sb s) z (j_cur v) →
  (∀ b, owned z (j_cur v) b → ¬ owned x (j_cur v) b) → 
  ∀ k, 0 ≤ k < isize z → fbyte z (j_cur v') k = fbyte z (j_cur v) k.
Proof.
  intros Hw Hz Hdis k Hk. pose proof (iw_size _ _ _ Hz) as Hsz.
  assert (0 ≤ k / BSIZE < MAXFILE) as Hbn by fs_lia.
  assert (nth_block z (j_cur v) (k / BSIZE) ≠ 0) as Hnz by (apply (iw_dense _ _ _ Hz); fs_lia).
  assert (∀ b, owned z (j_cur v) b → data_start (sb s) ≤ b < sb_size (sb s) → in_use (sb s) (j_cur v) b → j_cur v' b = j_cur v b) as Hsame.
  { intros b Ho Hb Hu. exact (proj1 (wt_others _ _ _ _ _ _ _ Hw b Hb Hu (Hdis b Ho))). }
  destruct (iw_blk _ _ _ Hz _ Hbn Hnz) as (Hr & Hu & _).
  assert (nth_block z (j_cur v') (k / BSIZE) = nth_block z (j_cur v) (k / BSIZE)) as E.
  { unfold nth_block in *. destruct (k / BSIZE <? NDIRECT); [done|].
    destruct (addr_at z NDIRECT =? 0) eqn:E0; [done|]. bsimpl. destruct (iw_ind _ _ _ Hz E0) as (? & ?).
    rewrite Hsame; try done. split; [done|by left]. }
  unfold fbyte. rewrite E. f_equal. f_equal. apply Hsame; try done. split; [done|]. right. by exists (k / BSIZE).
Qed.

Lemma written_slice s x v off D x' v' : written s x v off D x' v' → 0 ≤ off →
  fslice x' (j_cur v') off (Z.of_nat (length D)) = D.
Proof.
  intros Hw Ho. pose proof (wt_size _ _ _ _ _ _ _ Hw) as Hs. unfold fslice. apply list_eq. intros j. rewrite list_lookup_fmap.
  destruct (decide (j < length D)%nat) as [Hj|].
  - rewrite lookup_seqZ_lt by lia. simpl. rewrite (wt_data _ _ _ _ _ _ _ Hw) by lia. rewrite decide_True by lia.
    replace (Z.to_nat (off + Z.of_nat j - off)) with j by lia. by destruct (lookup_lt_is_Some_2 D j Hj) as [? ->].
  - rewrite lookup_seqZ_ge by lia. symmetry. apply lookup_ge_None. lia.
Qed.

(** [C3] Writing a file (writei) and reading it back (readi).  In a transaction with
    room for two blocks per data block and a few more, writei of [n] bytes stores
    the first [r] of them, all of them unless the disk is full; the file grows as
    needed; readi of the range gives the bytes back; no other byte of the file, no
    file with other blocks and no other inode on the disk changes; and the
    transaction grows by at most [cost off n + 3] blocks. *)
Theorem write_read inp out s v ip src dst off D : file_sys s v →
  let x := itable s ip in let n := Z.of_nat (length D) in
  inode_ok d (sb s) x → inode_wf (sb s) x (j_cur v) → delivers inp src D → is_bytes D → 0 ≤ src < 2 ^ 64 →
  (∀ a bs, out a bs = true) → 0 ≤ off ≤ isize x → off + n ≤ MAXFILE * BSIZE → room s v (cost off n + 7) →
  wp (writei inp ip src off n) (λ r s', 0 ≤ r ≤ n ∧ ∃ v', let x' := itable s' ip in
    file_sys s' v' ∧ (r = n ∨ full s v') ∧ inode_wf (sb s) x' (j_cur v') ∧
    isize x' = Z.max (isize x) (off + r) ∧ same_meta x x' ∧
    Z.of_nat (base.size (j_log v')) ≤ Z.of_nat (base.size (j_log v)) + cost off n + 3 ∧
    wp (readi out ip dst off r) (λ q s'', q = (r, take (Z.to_nat r) D) ∧ file_sys s'' v') s' ∧
    (∀ k, 0 ≤ k < isize x → k < off ∨ off + r ≤ k → fbyte x' (j_cur v') k = fbyte x (j_cur v) k) ∧
    (∀ z, inode_wf (sb s) z (j_cur v) → (∀ b, owned z (j_cur v) b → ¬ owned x (j_cur v) b) →
      ∀ k, 0 ≤ k < isize z → fbyte z (j_cur v') k = fbyte z (j_cur v) k) ∧
    (∀ i, 0 ≤ i < ninodes (sb s) → i ≠ inum x →
      get_dinode i (j_cur v' (IBLOCK i (sb s))) = get_dinode i (j_cur v (IBLOCK i (sb s))))) s.
Proof.
  intros Hf x n Hio Hwf Hinp HD Hsrc Hout Hoff Hmax Hroom. pose proof (iw_size _ _ _ Hwf) as Hsz.
  eapply wp_mono; [apply (writei_ok d inp s v s ip src off D Hinp HD (fs_ready _ _ Hf) (fs_held _ _ Hf) (file_sys_self _ _ Hf) Hsrc Hio Hwf Hoff Hmax)|].
  { eapply room_le; [exact Hroom|fold n; lia]. }
  fold x n. intros r s1 (Hr & x' & v' & Hw & Hs1 & Hlog & Hfull). split; [done|]. exists v'.
  assert (file_sys s1 v') as Hf1 by (by eapply (file_sys_over s v (upd_inode ip (λ _, x') s)); try done; apply Hw).
  destruct (fover_sb _ _ _ _ Hs1) as (Esb & Etb & _). simpl in Esb. rewrite (Etb ip). simpl. rewrite fn_lookup_insert.
  pose proof (wt_size _ _ _ _ _ _ _ Hw) as Hsz'. assert (Z.of_nat (length (take (Z.to_nat r) D)) = r) as El by (rewrite length_take; lia).
  rewrite El in Hsz'. pose proof (wt_data _ _ _ _ _ _ _ Hw) as Hdat. rewrite El in Hdat.
  split_and!; try done; try apply Hw.
  - assert (room s1 v' 1) as Hroom1.
    { eapply (room_over s v (upd_inode ip (λ _, x') s) v' s1 (cost off n + 7)); try done; [apply Hf|apply Hw|lia]. }
    pose proof (readi_ok d out s1 v' s1 ip dst off r Hout (fs_ready _ _ Hf1) Hroom1 (fs_held _ _ Hf1) (file_sys_self _ _ Hf1)) as Hrd.
    rewrite (Etb ip) in Hrd. simpl in Hrd. rewrite fn_lookup_insert, Esb in Hrd.
    eapply wp_mono; [apply Hrd|].
    + destruct Hio as [H1 H2]. destruct (wt_meta _ _ _ _ _ _ _ Hw) as (E1 & E2 & _). split; congruence.
    + apply Hw.
    + fs_lia.
    + fs_lia.
    + intros q s2 [-> Hs2]. destruct (isize x' <? off) eqn:E; bsimpl; [lia|]. rewrite Z.min_l by lia.
      split; [|eapply (file_sys_over s1 v' s1); try done; apply Hf1]. f_equal. rewrite <- El at 1. by eapply written_slice; [|lia].
  - intros k Hk Hko. rewrite Hdat by lia. rewrite decide_False by lia. done.
  - intros z Hz Hdis. by eapply written_other.
Qed.

(** ** Directories *)

(** [C21] Looking a name up (dirlookup, iget).  dirlookup returns no inode exactly
    when no entry of the directory in use has the name.  Otherwise it returns an
    in-memory inode for the number the first such entry holds, with one more
    reference than before; every other in-memory inode is as it was, no inode gets
    a second entry in the table, and the disk does not change. *)
Theorem dirlookup_correct s v dp name : file_sys s v → room s v 1 → table_ready s →
  let x := itable s dp in
  inode_ok d (sb s) x → inode_wf (sb s) x (j_cur v) → dir_wf x →
  wp (dirlookup dp name) (λ r s', file_sys s' v ∧ table_ok (itable s') ∧
    match dir_lookup x (j_cur v) name, r with
    | None, None => ∀ j, itable s' j = itable s j
    | Some n, Some (ip, off) => 0 ≤ ip < NINODE ∧ dev (itable s' ip) = d ∧ inum (itable s' ip) = n ∧
        ref (itable s' ip) = ref (itable s ip) + 1 ∧ (∀ j, j ≠ ip → itable s' j = itable s j) ∧
        dir_find x (j_cur v) name = Some (off / DIRENT_SIZE)
    | _, _ => False
    end) s.
Proof.
  intros Hf Hroom Ht x Hio Hwf Hdir.
  eapply wp_mono; [apply (dirlookup_ok d s v dp (fs_ready _ _ Hf) Hroom (fs_held _ _ Hf) Hio Hwf Hdir name s Ht (file_sys_self _ _ Hf))|].
  intros r s'. unfold looked_up, dir_lookup. fold x. destruct (dir_find x (j_cur v) name) as [k|] eqn:E; simpl.
  - intros (ip & y & -> & He & Hok & Hs'). destruct (fover_sb _ _ _ _ Hs') as (_ & Etb & _). simpl in Etb.
    split; [eapply (file_sys_over s v (upd_inode ip (λ _, y) s)); try done; apply Hf|].
    split; [intros i j Hi Hj; rewrite !Etb; exact (Hok i j Hi Hj)|].
    rewrite (Etb ip), fn_lookup_insert. destruct He as (Hip & Hd & Hn & Hy). split_and!; try done; try lia.
    + destruct Hy as [(_ & _ & _ & ->)|(Hz & H1 & _)]; [done|lia].
    + intros j Hj. by rewrite Etb, fn_lookup_insert_ne.
    + f_equal. rewrite Z.mul_comm. symmetry. by apply Z.div_mul.
  - intros [-> Hs']. destruct (fover_sb _ _ _ _ Hs') as (_ & Etb & _).
    split; [eapply (file_sys_over s v s); try done; apply Hf|]. split; [|done].
    intros i j Hi Hj. rewrite !Etb. by apply (tr_ok _ Ht).
Qed.

(** [C20] Linking a name (dirlink), in a transaction with room for nine blocks.  If the directory has the name already, dirlink
    fails and the disk does not change.  Otherwise it adds the entry: a lookup of
    the name gives the new inode number, a lookup of any other name what it gave
    before, and the directory consists of whole entries still.  Otherwise it fails, and
    that only when the disk is full or when the directory already has the largest size
    of a file and no unused entry, in which case nothing changes.  The transaction
    grows by at most five blocks. *)
Theorem dirlink_correct s v dp name i : file_sys s v → room s v 9 → table_ready s →
  let x := itable s dp in
  inode_ok d (sb s) x → inode_wf (sb s) x (j_cur v) → dir_wf x →
  is_bytes name → 0 < i < 2 ^ 16 →
  wp (dirlink dp name i) (λ r s',
    match dir_lookup x (j_cur v) name with
    | Some _ => r = -1 ∧ file_sys s' v
    | None => ∃ v', file_sys s' v' ∧ inode_wf (sb s) (itable s' dp) (j_cur v') ∧
        Z.of_nat (base.size (j_log v')) ≤ Z.of_nat (base.size (j_log v)) + 5 ∧
        ((r = 0 ∧ linked x (j_cur v) name i (itable s' dp) (j_cur v')) ∨ (r = -1 ∧ full s v') ∨
         (r = -1 ∧ crowded x (j_cur v) ∧ itable s' dp = x ∧ v' = v))
    end) s.
Proof.
  intros Hf Hroom Ht x Hio Hwf Hdir Hn Hi.
  eapply wp_mono; [apply (dirlink_ok d s v s dp name i (fs_ready _ _ Hf) Hroom (fs_held _ _ Hf) (file_sys_self _ _ Hf) Ht Hio Hwf Hdir Hn Hi)|].
  intros r s'. unfold dirlinked, dir_lookup. fold x. destruct (dir_find x (j_cur v) name) as [k|]; simpl.
  - intros (-> & ip & y & _ & Hs'). split; [done|]. eapply (file_sys_over s v (upd_inode ip (λ _, y) s)); try done; apply Hf.
  - intros (x' & v' & Hs' & Hwf' & Hr' & Hh' & Hlog & Hor). exists v'. destruct (fover_sb _ _ _ _ Hs') as (_ & Etb & _). simpl in Etb.
    rewrite (Etb dp), fn_lookup_insert. split_and!; try done.
    eapply (file_sys_over s v (upd_inode dp (λ _, x') s)); try done.
Qed.

End props.

(** Cutting a path into its elements (skipelem).  Called again and again as
    namex does, skipelem gives the non-empty pieces between the slashes of the
    path, each cut to DIRSIZ bytes, and stops. *)
Theorem path_elements path : walk (S (length path)) path = Some (elems path).
Proof.
  assert (∀ n path, (length path < n)%nat → walk n path = Some (elems path)) as Hw; [|by apply Hw; lia].
  clear path. induction n as [|n IH]; intros path Hl; [lia|]. cbn [walk]. pose proof (skipelem_ok path) as Hs.
  destruct (skipelem path) as [[r name]|]; [|by rewrite Hs]. destruct Hs as (-> & _ & Hlt). rewrite IH by lia. done.
Qed.

(** ** Witnesses *)

(** A disk of 40 blocks: log 2..31, inodes 32..33, bitmap 34, data 35..39; the
    directory of entry 0 of the inode table, inode 1, has the entry b for inode 5. *)
Definition demo_sb : superblock := mk_sb FSMAGIC 40 5 16 30 2 32 34.
Definition pad_block (l : bytes) : bytes := l ++ replicate (Z.to_nat (BSIZE - Z.of_nat (length l))) 0.
Definition demo_fs_disk : Z → bytes := λ b,
  pad_block (if b =? 32 then replicate 64 0 ++ [1; 0; 0; 0; 0; 0; 1; 0; 16; 0; 0; 0; 35]
             else if b =? 34 then [255; 255; 255; 255; 15] else if b =? 35 then [5; 0; 98] else []).
Definition demo_inode (i : Z) : inode :=
  if i =? 0 then mk_inode 1 1 1 (Sleeplock.mk_sleeplock 1 7) true T_DIR 0 0 1 16 (35 :: replicate 12 0)
  else mk_inode 0 0 0 (Sleeplock.mk_sleeplock 0 0) false 0 0 0 0 0 (replicate 13 0).
Definition demo_view : jview := mk_jview demo_fs_disk ∅ ∅ ∅.
Definition demo_fs (l : @Log.logst Bio.bst) : @fsst Log.logst := mk_fsst l demo_sb demo_inode false 7.

Lemma pad_block_ok l : Z.of_nat (length l) ≤ BSIZE → is_bytes l → Z.of_nat (length (pad_block l)) = BSIZE ∧ is_bytes (pad_block l).
Proof.
  intros Hl Hb. unfold pad_block, is_bytes. rewrite length_app, length_replicate, Forall_app. split_and!; [lia|done|].
  apply Forall_replicate. lia.
Qed.

Lemma demo_blocks b : Z.of_nat (length (demo_fs_disk b)) = BSIZE ∧ is_bytes (demo_fs_disk b).
Proof. unfold demo_fs_disk. repeat case_if; (apply pad_block_ok; [vm_compute; discriminate|]); repeat constructor; lia. Qed.

Lemma demo_meta b : 0 ≤ b < 35 → in_use demo_sb demo_fs_disk b.
Proof.
  intros Hb. assert (forallb (λ b, negb (bit_free (demo_fs_disk 34) b)) (seqZ 0 35) = true) as Ha by (vm_compute; reflexivity).
  rewrite forallb_forall in Ha. specialize (Ha b). rewrite <- list_elem_of_In, elem_of_seqZ in Ha. specialize (Ha ltac:(lia)).
  apply negb_true_iff in Ha. unfold in_use. assert (BBLOCK b demo_sb = 34) as -> by (unfold BBLOCK; cbn [demo_sb bmapstart]; fs_lia).
  assert (b mod BPB = b) as -> by (apply Z.mod_small; fs_lia). exact Ha.
Qed.

Definition demo_bview : bview := mk_view demo_fs_disk demo_fs_disk ∅ ∅ [].

Lemma demo_idle : ∃ c, LogTx.idle (LogTx.demo_log c) demo_bview.
Proof.
  destruct (LogTx.demo_booted demo_fs_disk) as (c & _ & Hb). exists c.
  assert (hdr_n 2 demo_fs_disk = 0) as H0 by (vm_compute; reflexivity).
  split; try apply Hb; try done. split; [vm_compute; reflexivity|simpl; rewrite H0; vm_compute; split; [split|]; discriminate|].
  simpl. rewrite H0. lia.
Qed.

Lemma demo_transaction : ∃ l, file_sys 1 (demo_fs l) demo_view ∧ room (demo_fs l) demo_view 9.
Proof.
  destruct demo_idle as (c & Hi). set (bv := demo_bview) in Hi.
  assert (wp Log.begin_op (λ _ l, LogTx.in_tx (LogTx.demo_log c) bv [] l) (LogTx.demo_log c)) as Hw
    by (apply (LogTx.begin_tx _ bv); [exact Hi|done]).
  destruct (wp_inv _ _ _ Hw) as ([] & l & _ & [Ht Hlk Ho Hcm (Ed & Es & Ez) Hn]). exists l.
  assert (lcap l = 29) as Hcap by (unfold lcap; rewrite Ez; reflexivity).
  split; [split|].
  - split; try done.
    + split; [intros b _; apply demo_blocks|intros b Hb'; by apply demo_meta].
    + intros b. cbn. rewrite Es, Ez. cbn. lia.
  - split_and!; [exact Ed|exact Hlk|cbn; lia|done|]. eexists. split; [exact (conj Ht I)|]. split_and!; try done. intros b. right. right. done.
  - done.
  - split; [done|]. change (Z.of_nat 0 + 9 ≤ lcap l). rewrite Hcap. lia.
Qed.

Lemma demo_nth bn : nth_block (demo_inode 0) demo_fs_disk bn = if (Z.to_nat bn =? 0)%nat then 35 else 0.
Proof.
  assert (∀ k, addr_at (demo_inode 0) k = if (Z.to_nat k =? 0)%nat then 35 else 0) as Ha.
  { intros k. unfold addr_at, demo_inode. cbn [addrs]. change (0 =? 0) with true. cbn [addrs].
    destruct (Z.to_nat k) as [|j]; [done|]. change ((35 :: replicate 12 0) !! S j) with (replicate 12 0 !! j). 
    destruct (decide (j < 12)%nat); [by rewrite lookup_replicate_2|by rewrite lookup_ge_None_2 by (rewrite length_replicate; lia)]. }
  unfold nth_block. rewrite !Ha. destruct (Z.ltb_spec bn NDIRECT); [done|]. change (Z.to_nat NDIRECT =? 0)%nat with false.
  cbn iota. rewrite Z.eqb_refl. destruct (Z.to_nat bn) eqn:E; [fs_lia|done].
Qed.

Lemma demo_inode_wf : inode_ok 1 demo_sb (demo_inode 0) ∧ inode_wf demo_sb (demo_inode 0) demo_fs_disk ∧ dir_wf (demo_inode 0).
Proof.
  split; [split; vm_compute; [done|split; [discriminate|done]]|]. split; [|done].
  assert (addr_at (demo_inode 0) NDIRECT = 0) as Hn by done.
  split; try setoid_rewrite demo_nth; rewrite ?Hn.
  - done.
  - intros bn _. destruct (Z.to_nat bn); [|done]. intros _. split_and!; vm_compute; try discriminate; done.
  - done.
  - intros bn bn' H1 H2. destruct (Z.to_nat bn) eqn:E1, (Z.to_nat bn') eqn:E2; simpl; try done. lia.
  - vm_compute. split; discriminate.
  - intros bn H1 H2. cbn in H2. assert (bn = 0) as -> by fs_lia. done.
Qed.

Lemma demo_lookup_b : dir_lookup (demo_inode 0) (j_cur demo_view) [98] = Some 5.
Proof. vm_compute. reflexivity. Qed.

Lemma demo_find_b : dir_find (demo_inode 0) (j_cur demo_view) [98] = Some 0.
Proof. vm_compute. reflexivity. Qed.

Lemma demo_lookup_a : dir_lookup (demo_inode 0) (j_cur demo_view) [97] = None.
Proof. vm_compute. reflexivity. Qed.

(** The inode in memory is the one on the disk. *)
Lemma demo_synced : get_dinode 1 (demo_fs_disk (IBLOCK 1 demo_sb)) = dinode_of (demo_inode 0).
Proof. vm_compute. reflexivity. Qed.

Lemma demo_table l : table_ready (demo_fs l).
Proof.
  split; [done|exists 1; by vm_compute| |].
  - intros i _. cbn. unfold demo_inode. by destruct (i =? 0).
  - intros i j _ _. cbn. unfold demo_inode. destruct (i =? 0) eqn:E1, (j =? 0) eqn:E2; cbn; intros; bsimpl; lia.
Qed.

Lemma block_allocator_witness : ∃ l, file_sys 1 (demo_fs l) demo_view ∧
  wp (balloc 1) (λ r s',
    (r = 0 ∧ full (demo_fs l) demo_view ∧ file_sys 1 s' demo_view) ∨
    (35 ≤ r < 40 ∧ ¬ in_use demo_sb demo_fs_disk r ∧ ∃ v', file_sys 1 s' v' ∧ j_cur v' r = zero_block ∧
     (∀ b, 0 ≤ b < 40 → in_use demo_sb (j_cur v') b ↔ b = r ∨ in_use demo_sb demo_fs_disk b) ∧
     (∀ b, 35 ≤ b → b ≠ r → j_cur v' b = demo_fs_disk b) ∧
     wp (bfree 1 r) (λ _ s2, ∃ v2, file_sys 1 s2 v2 ∧
       ∀ b, 0 ≤ b < 40 → in_use demo_sb (j_cur v2) b ↔ in_use demo_sb demo_fs_disk b) s')) (demo_fs l).
Proof.
  destruct demo_transaction as (l & Hf & Hroom). exists l. split; [exact Hf|].
  refine (block_allocator 1 (demo_fs l) demo_view Hf _). eapply room_le; [exact Hroom|lia].
Defined.

(** Two bytes, written at the start of the file. *)
Lemma write_read_witness : ∃ l, wp (writei (kinp [104; 105]) 0 0 0 2) (λ r s', 0 ≤ r ≤ 2 ∧ ∃ v',
    file_sys 1 s' v' ∧ (r = 2 ∨ full (demo_fs l) v') ∧ isize (itable s' 0) = Z.max 16 (0 + r) ∧
    wp (readi kout 0 0 0 r) (λ q s'', q = (r, take (Z.to_nat r) [104; 105]) ∧ file_sys 1 s'' v') s') (demo_fs l).
Proof.
  destruct demo_transaction as (l & Hf & Hroom). exists l. destruct demo_inode_wf as (Hio & Hwf & _).
  eapply wp_mono; [apply (write_read 1 (kinp [104; 105]) kout (demo_fs l) demo_view 0 0 0 0 [104; 105] Hf Hio Hwf)|].
  - intros i m Hi Hm Him. cbn [length] in Him. unfold kinp. by rewrite Z.add_0_l, u64_small by lia.
  - repeat constructor; lia.
  - lia.
  - done.
  - vm_compute. split; discriminate.
  - vm_compute. discriminate.
  - exact Hroom.
  - intros r s' (Hr & v' & H1 & H2 & _ & H3 & _ & _ & H4 & _). split; [exact Hr|]. exists v'. exact (conj H1 (conj H2 (conj H3 H4))).
Defined.

(** A name that is in the directory, and one that is not. *)
Lemma dirlookup_correct_witness : ∃ l,
  wp (dirlookup 0 [98]) (λ r s', file_sys 1 s' demo_view ∧
    match r with Some (ip, off) => inum (itable s' ip) = 5 ∧ off / DIRENT_SIZE = 0 | None => False end) (demo_fs l) ∧
  wp (dirlookup 0 [97]) (λ r s', file_sys 1 s' demo_view ∧ match r with Some _ => False | None => True end) (demo_fs l).
Proof.
  destruct demo_transaction as (l & Hf & Hroom). exists l. destruct demo_inode_wf as (Hio & Hwf & Hdir).
  assert (Hd := λ name, dirlookup_correct 1 (demo_fs l) demo_view 0 name Hf (room_le _ _ _ 1 Hroom ltac:(lia)) (demo_table l) Hio Hwf Hdir).
  split.
  - eapply wp_mono; [exact (Hd [98])|]. intros r s' (H1 & _ & H3). split; [exact H1|].
    change (itable (demo_fs l) 0) with (demo_inode 0) in H3. rewrite demo_lookup_b in H3. destruct r as [[ip off]|]; [|exact H3].
    destruct H3 as (_ & _ & H3 & _ & _ & H4). split; [exact H3|]. change (itable (demo_fs l) 0) with (demo_inode 0) in H4. rewrite demo_find_b in H4. by injection H4 as <-.
  - eapply wp_mono; [exact (Hd [97])|]. intros r s' (H1 & _ & H3). split; [exact H1|].
    change (itable (demo_fs l) 0) with (demo_inode 0) in H3. rewrite demo_lookup_a in H3. destruct r as [[]|]; [exact H3|exact I].
Defined.

Lemma dirlink_correct_witness : ∃ l, wp (dirlink 0 [97] 5) (λ r s', ∃ v', file_sys 1 s' v' ∧
  ((r = 0 ∧ dir_lookup (itable s' 0) (j_cur v') [97] = Some 5) ∨ (r = -1 ∧ full (demo_fs l) v'))) (demo_fs l).
Proof.
  destruct demo_transaction as (l & Hf & Hroom). exists l. destruct demo_inode_wf as (Hio & Hwf & Hdir).
  eapply wp_mono; [apply (dirlink_correct 1 (demo_fs l) demo_view 0 [97] 5 Hf Hroom (demo_table l) Hio Hwf Hdir)|].
  - repeat constructor; lia.
  - lia.
  - intros r s' Hp. change (itable (demo_fs l) 0) with (demo_inode 0) in Hp. rewrite demo_lookup_a in Hp. destruct Hp as (v' & H1 & _ & _ & H4). exists v'. split; [exact H1|].
    destruct H4 as [[-> H4]|H4]; [left; exact (conj eq_refl (ln_new _ _ _ _ _ _ H4))|destruct H4 as [H4|(_ & [Hsz _] & _)]; [right; exact H4|vm_compute in Hsz; discriminate Hsz]].
Defined.

End FsProps.
