(* ===== verification/Pipe.v ===== *)
(** * kernel/pipe.c: pipes

    The ring buffer with its 32-bit counters, and the calls on it.  A call that
    finds the pipe full or empty sleeps with the lock released; [pipewrite_turn]
    and [piperead_turn] are what a call does from taking (or re-taking) the lock
    until it sleeps or returns.  [src] and [dst] stand for the caller's memory as
    copyin and copyout reach it (VmCopy.v): the byte at an index, if it is
    mapped, and whether a byte can be stored there.  [killed] gives the value
    of killed(pr) each time the code asks, since another CPU may set it while the
    pipe's lock is held. *)

From S2P Require Import Prelude.

Module Pipe.

Definition PIPESIZE : Z := 512.

Record pipe := mk_pipe {
  data : Z → Z; nread : Z; nwrite : Z; readopen : bool; writeopen : bool }.

(** The pipe [pipealloc] sets up in a page with contents [d]. *)
Definition pipe_init (d : Z → Z) : pipe := mk_pipe d 0 0 true true.

(** The channel a call sleeps on or wakes up: the address of the counter. *)
Inductive chan := NREAD | NWRITE.

(** How a turn ends. *)
Inductive turn := Returned (r : Z) | Sleeps (c : chan) (i : Z).

(** [pi->data[pi->nwrite++ % PIPESIZE] = ch] *)
Definition push (ch : Z) (p : pipe) : pipe :=
  mk_pipe (<[nwrite p mod PIPESIZE := ch]> (data p)) (nread p) (u32 (nwrite p + 1)) (readopen p) (writeopen p).

(** [ch = pi->data[pi->nread++ % PIPESIZE]] *)
Definition pop (p : pipe) : Z * pipe :=
  (data p (nread p mod PIPESIZE),
   mk_pipe (data p) (u32 (nread p + 1)) (nwrite p) (readopen p) (writeopen p)).

Inductive wexit := WFail | WFull (i : Z) | WDone (i : Z).

(** [pipewrite]'s loop with [k = n - i] bytes to go. *)
Fixpoint write_loop (src : Z → option Z) (killed : Z → bool) (k : nat) (i : Z) (p : pipe) : wexit * pipe :=
  match k with
  | O => (WDone i, p)
  | S k' =>
      if negb (readopen p) || killed i then (WFail, p)
      else if nwrite p =? u32 (nread p + PIPESIZE) then (WFull i, p)
      else
        match src i with
        | None => (WDone i, p)
        | Some ch => write_loop src killed k' (i + 1) (push ch p)
        end
  end.

(** One turn of [pipewrite(pi, addr, n)], [i] bytes done; the channels it wakes. *)
Definition pipewrite_turn (src : Z → option Z) (killed : Z → bool) (n i : Z) (p : pipe) :
    turn * list chan * pipe :=
  match write_loop src killed (Z.to_nat (n - i)) i p with
  | (WFail, p') => (Returned (-1), [], p')
  | (WFull i', p') => (Sleeps NWRITE i', [NREAD], p')
  | (WDone i', p') => (Returned i', [NREAD], p')
  end.

(** [piperead]'s copying loop: the count, the bytes taken, the bytes delivered. *)
Fixpoint read_loop (dst : Z → bool) (k : nat) (i : Z) (p : pipe) : Z * list Z * pipe :=
  match k with
  | O => (i, [], p)
  | S k' =>
      if nread p =? nwrite p then (i, [], p)
      else
        let '(ch, p') := pop p in
        if dst i then
          let '(i', bs, p'') := read_loop dst k' (i + 1) p' in (i', ch :: bs, p'')
        else (i, [ch], p')
  end.

(** One turn of [piperead(pi, addr, n)]; the bytes it takes out of the pipe. *)
Definition piperead_turn (dst : Z → bool) (killed : bool) (n : Z) (p : pipe) :
    turn * list chan * list Z * pipe :=
  if (nread p =? nwrite p) && writeopen p then
    if killed then (Returned (-1), [], [], p) else (Sleeps NREAD 0, [], [], p)
  else
    let '(i, bs, p') := read_loop dst (Z.to_nat n) 0 p in (Returned i, [NWRITE], bs, p').

(** [pipeclose(pi, writable)]; the flag tells whether it frees the pipe's page. *)
Definition pipeclose (writable : bool) (p : pipe) : list chan * bool * pipe :=
  let p' := if writable then mk_pipe (data p) (nread p) (nwrite p) (readopen p) false
            else mk_pipe (data p) (nread p) (nwrite p) false (writeopen p) in
  ([if writable then NREAD else NWRITE], negb (readopen p') && negb (writeopen p'), p').

(** ** The bytes in the pipe *)

Definition count (p : pipe) : Z := u32 (nwrite p - nread p).

Definition queue (p : pipe) : list Z :=
  (λ j, data p (u32 (nread p + j) mod PIPESIZE)) <$> seqZ 0 (count p).

Record pipe_wf (p : pipe) : Prop := {
  wf_nread : 0 ≤ nread p < 2 ^ 32;
  wf_nwrite : 0 ≤ nwrite p < 2 ^ 32;
  wf_count : count p ≤ PIPESIZE }.

(** ** Lemmas *)

Lemma full_iff p : pipe_wf p → (nwrite p =? u32 (nread p + PIPESIZE)) = (count p =? PIPESIZE).
Proof.
  intros [H1 H2 H3]. unfold count, u32, PIPESIZE in *.
  destruct (nwrite p =? _) eqn:E1, (_ =? 512) eqn:E2; try done; bsimpl; exfalso; zlia.
Qed.

Lemma empty_iff p : pipe_wf p → (nread p =? nwrite p) = (count p =? 0).
Proof.
  intros [H1 H2 H3]. unfold count, u32 in *.
  destruct (nread p =? _) eqn:E1, (_ =? 0) eqn:E2; try done; bsimpl; exfalso; zlia.
Qed.

Lemma length_queue p : Z.of_nat (length (queue p)) = count p.
Proof. unfold queue. rewrite length_fmap, length_seqZ. pose proof (u32_range (nwrite p - nread p)). unfold count. lia. Qed.

(** A ring index: 512 divides 2^32, so wrapped counters index consistently. *)
Lemma ring_index x : u32 x mod PIPESIZE = x mod PIPESIZE.
Proof. unfold u32, PIPESIZE. zlia. Qed.

Lemma push_ok ch p : pipe_wf p → count p < PIPESIZE →
  pipe_wf (push ch p) ∧ queue (push ch p) = queue p ++ [ch].
Proof.
  intros Hwf Hlt. assert (count (push ch p) = count p + 1) as Hc.
  { destruct Hwf. unfold count, push, u32, PIPESIZE in *. simpl. zlia. }
  split.
  - destruct Hwf. split; simpl; [done|apply u32_range|]. rewrite Hc. lia.
  - unfold queue. rewrite Hc. pose proof (u32_range (nwrite p - nread p)) as Hr. fold (count p) in Hr.
    rewrite seqZ_app, fmap_app by lia. f_equal.
    + apply list_fmap_ext. intros k j Hj. apply list_elem_of_lookup_2, elem_of_seqZ in Hj. simpl.
      rewrite fn_lookup_insert_ne; [done|]. rewrite ring_index.
      destruct Hwf. unfold count, u32, PIPESIZE in *. zlia.
    + rewrite (seqZ_cons _ 1), seqZ_nil by lia. simpl. f_equal. rewrite ring_index.
      replace ((nread p + (0 + count p)) mod PIPESIZE) with (nwrite p mod PIPESIZE); [by rewrite fn_lookup_insert|].
      destruct Hwf. unfold count, u32, PIPESIZE in *. zlia.
Qed.

Lemma pop_ok p : pipe_wf p → 0 < count p →
  pipe_wf (pop p).2 ∧ queue p = (pop p).1 :: queue (pop p).2.
Proof.
  intros Hwf Hlt. assert (count (pop p).2 = count p - 1) as Hc.
  { destruct Hwf. unfold count, pop, u32, PIPESIZE in *. simpl. zlia. }
  split.
  - destruct Hwf. split; [apply u32_range|done|]. rewrite Hc. lia.
  - unfold queue. rewrite Hc, (seqZ_cons 0 (count p)) by lia. simpl. f_equal.
    + rewrite Z.add_0_r, ring_index. done.
    + replace (Z.pred (count p)) with (count p - 1) by lia.
      rewrite <- (fmap_add_seqZ 1 0), <- list_fmap_compose. apply list_fmap_ext. intros k j _. simpl.
      rewrite !ring_index. unfold u32, PIPESIZE. f_equal. zlia.
Qed.

(** What the loops do to the queue. *)
Lemma write_loop_ok src killed : ∀ k i p, pipe_wf p →
  ∃ bs, queue (write_loop src killed k i p).2 = queue p ++ bs ∧ pipe_wf (write_loop src killed k i p).2 ∧
    readopen (write_loop src killed k i p).2 = readopen p ∧
    writeopen (write_loop src killed k i p).2 = writeopen p ∧
    (∀ j b, bs !! j = Some b → src (i + Z.of_nat j) = Some b) ∧
    match (write_loop src killed k i p).1 with
    | WFail => readopen p = false ∨ killed (i + Z.of_nat (length bs)) = true
    | WFull i' => i' = i + Z.of_nat (length bs) ∧ readopen p = true ∧
        count (write_loop src killed k i p).2 = PIPESIZE ∧ i' < i + Z.of_nat k
    | WDone i' => i' = i + Z.of_nat (length bs) ∧ (i' = i + Z.of_nat k ∨ src i' = None)
    end.
Proof.
  induction k as [|k IH]; intros i p Hwf; simpl.
  { exists []. rewrite app_nil_r. split_and!; try done; simpl; lia. }
  case_if.
  { exists []. rewrite app_nil_r. simpl. split_and!; try done. rewrite Z.add_0_r.
    match goal with Hg : _ || _ = true |- _ => apply orb_true_iff in Hg as [Hg|Hg]; bsimpl; tauto end. }
  match goal with Hg : killed i = false |- _ => clear Hg end.
  rewrite full_iff by done. case_if.
  { exists []. rewrite app_nil_r. simpl. split_and!; try done; lia. }
  destruct (src i) as [ch|] eqn:Es.
  2:{ exists []. rewrite app_nil_r. simpl. split_and!; try done; [lia|right; by rewrite ?Z.add_0_r]. }
  pose proof (wf_count _ Hwf). destruct (push_ok ch p Hwf ltac:(lia)) as [Hwf' Hq].
  destruct (IH (i + 1) (push ch p) Hwf') as (bs & Hb & Hw & Hr & Hwo & Hsrc & He).
  exists (ch :: bs). rewrite Hb, Hq, <- app_assoc. split_and!; try done.
  - intros [|j] b Hj; simpl in Hj; simplify_eq; [by rewrite Z.add_0_r|].
    rewrite <- (Hsrc j b Hj). f_equal. lia.
  - destruct (write_loop src killed k (i + 1) (push ch p)).1; simpl in *.
    + by replace (i + Z.of_nat (S (length bs))) with (i + 1 + Z.of_nat (length bs)) by lia.
    + destruct He as (-> & ? & ? & ?). split_and!; try done; lia.
    + destruct He as (-> & [E|E]); (split; [lia|]); [left; lia|by right].
Qed.

Lemma read_loop_ok dst : ∀ k i p, pipe_wf p →
  let '(i', bs, p') := read_loop dst k i p in
  queue p = bs ++ queue p' ∧ pipe_wf p' ∧ readopen p' = readopen p ∧ writeopen p' = writeopen p ∧
  i ≤ i' ≤ i + Z.of_nat k ∧
  ((i' = i + Z.of_nat (length bs) ∧ (i' = i + Z.of_nat k ∨ count p' = 0)) ∨
   (i' + 1 = i + Z.of_nat (length bs) ∧ dst i' = false)).
Proof.
  induction k as [|k IH]; intros i p Hwf; simpl.
  { split_and!; try done; [lia..|]. left. simpl. lia. }
  rewrite empty_iff by done. case_if.
  { split_and!; try done; [lia..|]. left. simpl. split; [lia|by right]. }
  destruct (pop_ok p Hwf) as [Hwf' Hq].
  { pose proof (u32_range (nwrite p - nread p)). unfold count in *. lia. }
  destruct (dst i) eqn:Ed.
  - specialize (IH (i + 1) _ Hwf'). simpl in *.
    destruct (read_loop dst k (i + 1) _) as [[i' bs] p']. destruct IH as (Hb & Hw & Hr & Hwo & Hi & He).
    rewrite Hq, Hb. split_and!; try done; try lia. simpl.
    destruct He as [(E & E')|(E & E')]; [left; split; [lia|]|right; split; [lia|done]].
    destruct E'; [left; lia|by right].
  - simpl in *. split_and!; try done; [lia..|]. right. split; [simpl; lia|done].
Qed.

(** A call that is killed after [bs] bytes, with room for them. *)
Lemma write_loop_killed src killed bs : ∀ k i p, pipe_wf p → (length bs < k)%nat → count p + Z.of_nat (length bs) ≤ PIPESIZE → readopen p = true →
  (∀ j b, bs !! j = Some b → src (i + Z.of_nat j) = Some b ∧ killed (i + Z.of_nat j) = false) → killed (i + Z.of_nat (length bs)) = true →
  (write_loop src killed k i p).1 = WFail ∧ queue (write_loop src killed k i p).2 = queue p ++ bs.
Proof.
  induction bs as [|b bs IH]; intros [|k] i p Hwf Hk Hc Ho Hsrc Hkill; simpl in *; try lia.
  - rewrite Z.add_0_r in Hkill. rewrite Ho, Hkill. simpl. by rewrite app_nil_r.
  - destruct (Hsrc 0%nat b eq_refl) as [Hs Hn]. rewrite Z.add_0_r in Hs, Hn. rewrite Ho, Hn, Hs. simpl.
    rewrite full_iff, (proj2 (Z.eqb_neq _ _)) by (done || lia). destruct (push_ok b p Hwf ltac:(lia)) as [Hwf' Hq].
    assert (Hc' : count (push b p) = count p + 1) by (rewrite <- !length_queue, Hq, length_app; simpl; lia).
    destruct (IH k (i + 1) (push b p)) as [E1 E2]; [done|lia|lia|done| |by replace (i + 1 + Z.of_nat (length bs)) with (i + Z.of_nat (S (length bs))) by lia|].
    + intros j c Hj. replace (i + 1 + Z.of_nat j) with (i + Z.of_nat (S j)) by lia. by apply Hsrc.
    + split; [done|]. by rewrite E2, Hq, <- app_assoc.
Qed.

(** ** Pipes shared by several processes

    [wsleep] and [rsleep] are the processes asleep on [&pi->nwrite] and
    [&pi->nread].  A process that is not asleep may start a call or continue one
    it was woken in; [inb] and [outb] are the histories of the bytes that went
    into the pipe and came out of it.  A process may be killed at any time: killed(pr)
    turns true between two bytes, and a sleeper is woken.  [cut] records that bytes were
    put in by a call that was then killed, with no wakeup of the readers since. *)

Record sys := mk_sys {
  pi : pipe; wsleep : gset Z; rsleep : gset Z; inb : list Z; outb : list Z; cut : bool }.

Definition wakes (cs : list chan) (c : chan) : bool :=
  existsb (λ x, match x, c with NREAD, NREAD | NWRITE, NWRITE => true | _, _ => false end) cs.
Definition wake (cs : list chan) (c : chan) (X : gset Z) : gset Z := if wakes cs c then ∅ else X.

Definition asleep (t : Z) (e : turn) (c : chan) : gset Z :=
  match e, c with
  | Sleeps NREAD _, NREAD | Sleeps NWRITE _, NWRITE => {[t]}
  | _, _ => ∅
  end.

Inductive pstep : sys → sys → Prop :=
  | pipe_write s t src killed n i e cs p' bs :
      t ∉ wsleep s → t ∉ rsleep s → writeopen (pi s) = true →
      pipewrite_turn src killed n i (pi s) = (e, cs, p') → queue p' = queue (pi s) ++ bs →
      pstep s (mk_sys p' (wake cs NWRITE (wsleep s) ∪ asleep t e NWRITE)
                 (wake cs NREAD (rsleep s) ∪ asleep t e NREAD) (inb s ++ bs) (outb s)
                 (negb (wakes cs NREAD) && (cut s || negb (bool_decide (bs = [])))))
  | pipe_read s t dst killed n e cs bs p' :
      t ∉ wsleep s → t ∉ rsleep s → readopen (pi s) = true →
      piperead_turn dst killed n (pi s) = (e, cs, bs, p') →
      pstep s (mk_sys p' (wake cs NWRITE (wsleep s) ∪ asleep t e NWRITE)
                 (wake cs NREAD (rsleep s) ∪ asleep t e NREAD) (inb s) (outb s ++ bs) (cut s))
  | pipe_close s (w : bool) cs b p' :
      (if w then writeopen (pi s) else readopen (pi s)) = true →
      pipeclose w (pi s) = (cs, b, p') →
      pstep s (mk_sys p' (wake cs NWRITE (wsleep s)) (wake cs NREAD (rsleep s)) (inb s) (outb s) (negb (wakes cs NREAD) && cut s))
  | pipe_kill s t : pstep s (mk_sys (pi s) (wsleep s ∖ {[t]}) (rsleep s ∖ {[t]}) (inb s) (outb s) (cut s)).







(** ** Properties *)

(** [C31] A pipe is a bounded FIFO queue of at most PIPESIZE bytes, also when the
    32-bit counters wrap around.  A turn of pipewrite appends the caller's bytes
    from index i on, in order, and either fails (no reader, or killed), or sleeps
    because the queue is full, or returns the count after all n bytes or at the
    first byte that cannot be copied in.  A turn of piperead takes bytes from the
    front; the count it returns is the number taken, or one less if the last one
    could not be copied out; it sleeps only if the queue is empty and a writer
    is left. *)
Theorem pipe_is_fifo src killed dst kb n i p (Hwf : pipe_wf p) (Hi : 0 ≤ i ≤ n) :
  (let '(e, _, p') := pipewrite_turn src killed n i p in
   pipe_wf p' ∧ ∃ bs, queue p' = queue p ++ bs ∧ Z.of_nat (length (queue p')) ≤ PIPESIZE ∧
     (∀ j b, bs !! j = Some b → src (i + Z.of_nat j) = Some b) ∧
     let i' := i + Z.of_nat (length bs) in
     match e with
     | Returned r => (r = -1 ∧ (readopen p = false ∨ killed i' = true)) ∨ (r = i' ∧ (r = n ∨ src r = None))
     | Sleeps c k => c = NWRITE ∧ k = i' ∧ k < n ∧ Z.of_nat (length (queue p')) = PIPESIZE ∧ readopen p = true
     end) ∧
  (let '(e, _, bs, p') := piperead_turn dst kb n p in
   pipe_wf p' ∧ queue p = bs ++ queue p' ∧
   match e with
   | Returned r =>
       (r = -1 ∧ kb = true ∧ queue p = [] ∧ bs = []) ∨
       (0 ≤ r ≤ n ∧ ((r = Z.of_nat (length bs) ∧ (r = n ∨ queue p' = [])) ∨
                     (r + 1 = Z.of_nat (length bs) ∧ dst r = false)))
   | Sleeps c _ => c = NREAD ∧ queue p = [] ∧ writeopen p = true ∧ bs = [] ∧ p' = p
   end).
Proof.
  assert (∀ q, count q = 0 → queue q = []) as H0.
  { intros q Hq. apply nil_length_inv. pose proof (length_queue q). lia. }
  split.
  - unfold pipewrite_turn.
    destruct (write_loop_ok src killed (Z.to_nat (n - i)) i p Hwf) as (bs & Hq & Hwf' & _ & _ & Hs & He).
    destruct (write_loop _ _ _ _ _) as [x p']. simpl in *.
    assert (Z.of_nat (length (queue p')) ≤ PIPESIZE) by (rewrite length_queue; apply Hwf').
    destruct x; (split; [done|]); exists bs; (split; [done|]); (split; [done|]); (split; [done|]).
    + left. done.
    + destruct He as (-> & ? & ? & ?). split_and!; try done; [lia|by rewrite length_queue].
    + right. destruct He as (-> & He). split; [done|]. destruct He; [left; lia|by right].
  - unfold piperead_turn. rewrite empty_iff by done.
    destruct ((count p =? 0) && writeopen p) eqn:Hb; bsimpl.
    { destruct kb; (split; [done|]); (split; [done|]); [left|]; split_and!; auto. }
    pose proof (read_loop_ok dst (Z.to_nat n) 0 p Hwf) as Hl.
    destruct (read_loop _ _ _ _) as [[r bs] p']. destruct Hl as (Hq & Hwf' & _ & _ & Hr & He).
    split; [done|]. split; [done|]. right. split; [lia|]. destruct He as [(E & E')|(E & E')]; [left|by right].
    split; [lia|]. destruct E'; [left; lia|right; auto].
Qed.


(** [C40] A kill in the middle of pipewrite loses a wakeup.  From any state of the pipe
    with room and a reader, a writer whose process is killed by another CPU after it
    has put in the bytes [bs], with more to go, returns -1 and wakes nobody: the bytes
    stay in the pipe, and the readers that were asleep sleep on. *)
Theorem pipe_kill_loses_wakeup s t src killed n i bs : pipe_wf (pi s) → readopen (pi s) = true → writeopen (pi s) = true →
  t ∉ wsleep s → t ∉ rsleep s → bs ≠ [] → Z.of_nat (length bs) < n - i → count (pi s) + Z.of_nat (length bs) ≤ PIPESIZE →
  (∀ j b, bs !! j = Some b → src (i + Z.of_nat j) = Some b ∧ killed (i + Z.of_nat j) = false) → killed (i + Z.of_nat (length bs)) = true →
  ∃ s', pipewrite_turn src killed n i (pi s) = (Returned (-1), [], pi s') ∧ pstep s s' ∧
    queue (pi s') = queue (pi s) ++ bs ∧ rsleep s' = rsleep s ∧ cut s' = true.
Proof.
  intros Hwf Ho Hwo Ht1 Ht2 Hbs Hn Hc Hsrc Hk.
  destruct (write_loop_killed src killed bs (Z.to_nat (n - i)) i (pi s)) as [E1 E2]; [done|lia|done..|].
  destruct (write_loop src killed (Z.to_nat (n - i)) i (pi s)) as [x p'] eqn:E. simpl in *. subst x.
  assert (Et : pipewrite_turn src killed n i (pi s) = (Returned (-1), [], p')) by (unfold pipewrite_turn; by rewrite E).
  eexists. split; [|split; [exact (pipe_write s t src killed n i _ _ p' bs Ht1 Ht2 Hwo Et E2)|]]; [exact Et|].
  simpl. unfold wake. simpl. rewrite bool_decide_false, orb_true_r, union_empty_r_L by done. done.
Qed.

(** ** Witnesses *)

(** A pipe whose counters are about to wrap. *)
Definition demo_pipe : pipe := mk_pipe (λ _, 0) (2 ^ 32 - 2) (2 ^ 32 - 2) true true.
Definition demo_src (i : Z) : option Z := if i <? 600 then Some (i mod 256) else None.

Lemma demo_pipe_wf : pipe_wf demo_pipe.
Proof. split; vm_compute; [split; [discriminate|reflexivity]..|discriminate]. Qed.

Lemma pipe_is_fifo_witness :
  let '(e, _, p') := pipewrite_turn demo_src (λ _, false) 5 0 demo_pipe in
  e = Returned 5 ∧ queue p' = [0; 1; 2; 3; 4] ∧ nwrite p' = 3 ∧ pipe_wf p'.
Proof.
  destruct (pipe_is_fifo demo_src (λ _, false) (λ _, true) false 5 0 demo_pipe demo_pipe_wf ltac:(lia)) as [Hw _].
  vm_compute (pipewrite_turn _ _ _ _ _) in *. destruct Hw as [Hwf _]. split_and!; [reflexivity..|exact Hwf].
Defined.


(** Process 2 sleeps in piperead; process 1 is killed after its first two bytes. *)
Lemma pipe_kill_loses_wakeup_witness : ∃ s',
  pstep (mk_sys demo_pipe ∅ {[2]} [] [] false) s' ∧ queue (pi s') = [0; 1] ∧ rsleep s' = {[2]}.
Proof.
  destruct (pipe_kill_loses_wakeup (mk_sys demo_pipe ∅ {[2]} [] [] false) 1 demo_src (λ i, 2 <=? i) 5 0 [0; 1] demo_pipe_wf) as (s' & _ & H1 & H2 & H3 & _);
    [reflexivity|reflexivity|set_solver|set_solver|done|simpl; lia|vm_compute; discriminate| |reflexivity|].
  - intros [|[|j]] b; intros [= <-]; by split.
  - exists s'. split; [exact H1|]. split; [exact H2|exact H3].
Defined.

End Pipe.
