(* ===== verification/Kernel.v ===== *)
(** * The kernel's state

    The tables of file.c and proc.c on top of the components below them: physical
    memory (Kalloc.v, Vm.v), the file system with its log and buffer cache (Fs.v,
    Log.v, Bio.v) and the pipes (Pipe.v).  [kern] is the state one CPU works on
    while it runs the process [me]; code that has to wait for another process
    stops there ([Block]).

    Objects of the kernel that are not in [mem] (the contents of a buffer, a local
    variable) are copied to and from user space by way of the address [kobj],
    where the object lies in kernel memory. *)

From S2P Require Import Prelude Mem Bytes CString Spinlock Riscv Kalloc Vm ListH Sleeplock Bio Log Journal Fs Pipe.
Import Riscv Bytes Journal.

Module Kernel.

(** [enum] of struct file, and struct file itself; [fip] is an index of itable and
    [fpipe] the address of the pipe's page. *)
Inductive fdtype := FD_NONE | FD_PIPE | FD_INODE | FD_DEVICE.
Record file := mk_file {
  ftype : fdtype; fref : Z; readable : bool; writable : bool; fpipe : Z; fip : Z; foff : Z; fmajor : Z }.

#[export] Instance fdtype_dec : EqDecision fdtype.
Proof. solve_decision. Defined.

Definition set_fref (r : Z) (f : file) : file :=
  mk_file (ftype f) r (readable f) (writable f) (fpipe f) (fip f) (foff f) (fmajor f).
Definition set_ftype (t : fdtype) (f : file) : file :=
  mk_file t (fref f) (readable f) (writable f) (fpipe f) (fip f) (foff f) (fmajor f).
Definition set_foff (o : Z) (f : file) : file :=
  mk_file (ftype f) (fref f) (readable f) (writable f) (fpipe f) (fip f) o (fmajor f).

(** [enum procstate] *)
Inductive procstate := UNUSED | USED | SLEEPING | RUNNABLE | RUNNING | ZOMBIE.

#[export] Instance procstate_dec : EqDecision procstate.
Proof. solve_decision. Defined.

(** What a process sleeps on: no channel (the null pointer), a struct proc, or
    another address. *)
Inductive channel := NoChan | ChProc (p : Z) | ChAddr (a : Z).

#[export] Instance channel_dec : EqDecision channel.
Proof. solve_decision. Defined.

(** [struct proc]; processes, files and inodes are named by their index in their
    table, [None] is the null pointer.  [trapframe] and [pagetable] are addresses
    of pages; [context] is the saved registers from [ra] on. *)
Record proc := mk_proc {
  state : procstate; chan : channel; killed : bool; xstate : Z; pid : Z;
  parent : option Z; kstack : Z; sz : Z; pagetable : Z; trapframe : Z; context : list Z;
  ofile : Z → option Z; cwd : option Z; name : bytes }.

Definition set_state (x : procstate) (p : proc) : proc :=
  mk_proc x (chan p) (killed p) (xstate p) (pid p) (parent p) (kstack p) (sz p) (pagetable p) (trapframe p) (context p) (ofile p) (cwd p) (name p).
Definition set_chan (x : channel) (p : proc) : proc :=
  mk_proc (state p) x (killed p) (xstate p) (pid p) (parent p) (kstack p) (sz p) (pagetable p) (trapframe p) (context p) (ofile p) (cwd p) (name p).
Definition set_killed (x : bool) (p : proc) : proc :=
  mk_proc (state p) (chan p) x (xstate p) (pid p) (parent p) (kstack p) (sz p) (pagetable p) (trapframe p) (context p) (ofile p) (cwd p) (name p).
Definition set_xstate (x : Z) (p : proc) : proc :=
  mk_proc (state p) (chan p) (killed p) x (pid p) (parent p) (kstack p) (sz p) (pagetable p) (trapframe p) (context p) (ofile p) (cwd p) (name p).
Definition set_pid (x : Z) (p : proc) : proc :=
  mk_proc (state p) (chan p) (killed p) (xstate p) x (parent p) (kstack p) (sz p) (pagetable p) (trapframe p) (context p) (ofile p) (cwd p) (name p).
Definition set_parent (x : option Z) (p : proc) : proc :=
  mk_proc (state p) (chan p) (killed p) (xstate p) (pid p) x (kstack p) (sz p) (pagetable p) (trapframe p) (context p) (ofile p) (cwd p) (name p).
Definition set_kstack (x : Z) (p : proc) : proc :=
  mk_proc (state p) (chan p) (killed p) (xstate p) (pid p) (parent p) x (sz p) (pagetable p) (trapframe p) (context p) (ofile p) (cwd p) (name p).
Definition set_sz (x : Z) (p : proc) : proc :=
  mk_proc (state p) (chan p) (killed p) (xstate p) (pid p) (parent p) (kstack p) x (pagetable p) (trapframe p) (context p) (ofile p) (cwd p) (name p).
Definition set_pagetable (x : Z) (p : proc) : proc :=
  mk_proc (state p) (chan p) (killed p) (xstate p) (pid p) (parent p) (kstack p) (sz p) x (trapframe p) (context p) (ofile p) (cwd p) (name p).
Definition set_trapframe (x : Z) (p : proc) : proc :=
  mk_proc (state p) (chan p) (killed p) (xstate p) (pid p) (parent p) (kstack p) (sz p) (pagetable p) x (context p) (ofile p) (cwd p) (name p).
Definition set_context (x : list Z) (p : proc) : proc :=
  mk_proc (state p) (chan p) (killed p) (xstate p) (pid p) (parent p) (kstack p) (sz p) (pagetable p) (trapframe p) x (ofile p) (cwd p) (name p).
Definition set_ofile (fd : Z) (x : option Z) (p : proc) : proc :=
  mk_proc (state p) (chan p) (killed p) (xstate p) (pid p) (parent p) (kstack p) (sz p) (pagetable p) (trapframe p) (context p) (<[fd := x]> (ofile p)) (cwd p) (name p).
Definition set_cwd (x : option Z) (p : proc) : proc :=
  mk_proc (state p) (chan p) (killed p) (xstate p) (pid p) (parent p) (kstack p) (sz p) (pagetable p) (trapframe p) (context p) (ofile p) x (name p).
Definition set_name (x : bytes) (p : proc) : proc :=
  mk_proc (state p) (chan p) (killed p) (xstate p) (pid p) (parent p) (kstack p) (sz p) (pagetable p) (trapframe p) (context p) (ofile p) (cwd p) x.

(** Offsets in [struct trapframe]. *)
Definition TF_epc : Z := 24.
Definition TF_sp : Z := 48.
Definition TF_a0 : Z := 112.
Definition TF_a1 : Z := 120.
Definition TF_a7 : Z := 168.
Definition TF_SIZE : Z := 288.

(** The spin locks of this level; [LProc p] is [proc[p].lock]. *)
Inductive klock := LFtable | LPid | LWait | LTicks | LProc (p : Z).

#[export] Instance klock_dec : EqDecision klock.
Proof. solve_decision. Defined.

(** Addresses the linker and the compiler choose. *)
Class KernelObjects := { kobj : Z; forkret_addr : Z }.

Section kernel.
Context {S : Type} `{BC : Bio.BlockCache S}.

Record kern := mk_kern {
  kk : Kalloc.kst; kfs : @Fs.fsst (@Log.logst S); ftable : Z → file; pipes : Z → Pipe.pipe;
  procs : Z → proc; nextpid : Z; initproc : option Z; ticks : Z;
  kcpu : Spinlock.cpu; kheld : list klock; me : Z }.

Definition set_kk (k : Kalloc.kst) (s : kern) : kern :=
  mk_kern k (kfs s) (ftable s) (pipes s) (procs s) (nextpid s) (initproc s) (ticks s) (kcpu s) (kheld s) (me s).
Definition set_kfs (f : Fs.fsst) (s : kern) : kern :=
  mk_kern (kk s) f (ftable s) (pipes s) (procs s) (nextpid s) (initproc s) (ticks s) (kcpu s) (kheld s) (me s).
Definition set_pipe (a : Z) (p : Pipe.pipe) (s : kern) : kern :=
  mk_kern (kk s) (kfs s) (ftable s) (<[a := p]> (pipes s)) (procs s) (nextpid s) (initproc s) (ticks s) (kcpu s) (kheld s) (me s).
Definition set_cpu_held (c : Spinlock.cpu) (l : list klock) (s : kern) : kern :=
  mk_kern (kk s) (kfs s) (ftable s) (pipes s) (procs s) (nextpid s) (initproc s) (ticks s) c l (me s).
Definition set_nextpid (n : Z) (s : kern) : kern :=
  mk_kern (kk s) (kfs s) (ftable s) (pipes s) (procs s) n (initproc s) (ticks s) (kcpu s) (kheld s) (me s).
Definition set_initproc (p : option Z) (s : kern) : kern :=
  mk_kern (kk s) (kfs s) (ftable s) (pipes s) (procs s) (nextpid s) p (ticks s) (kcpu s) (kheld s) (me s).
Definition set_ticks (n : Z) (s : kern) : kern :=
  mk_kern (kk s) (kfs s) (ftable s) (pipes s) (procs s) (nextpid s) (initproc s) n (kcpu s) (kheld s) (me s).
Definition upd_file (f : Z) (g : file → file) (s : kern) : kern :=
  mk_kern (kk s) (kfs s) (<[f := g (ftable s f)]> (ftable s)) (pipes s) (procs s) (nextpid s) (initproc s) (ticks s) (kcpu s) (kheld s) (me s).
Definition upd_proc (p : Z) (g : proc → proc) (s : kern) : kern :=
  mk_kern (kk s) (kfs s) (ftable s) (pipes s) (<[p := g (procs s p)]> (procs s)) (nextpid s) (initproc s) (ticks s) (kcpu s) (kheld s) (me s).

(** The routines of the components below, on their part of the state. *)
Definition onk {A} (m : M Kalloc.kst A) : M kern A := λ s,
  match m (kk s) with
  | Ret (a, k) => Ret (a, set_kk k s)
  | Panic msg => Panic msg
  | Block => Block
  end.
Definition onfs {A} (m : M (@Fs.fsst (@Log.logst S)) A) : M kern A := λ s,
  match m (kfs s) with
  | Ret (a, f) => Ret (a, set_kfs f s)
  | Panic msg => Panic msg
  | Block => Block
  end.
Definition onlog {A} (m : M (@Log.logst S) A) : M (@Fs.fsst (@Log.logst S)) A := λ s,
  match m (Fs.jr s) with
  | Ret (a, l) => Ret (a, Fs.set_jr l s)
  | Panic msg => Panic msg
  | Block => Block
  end.
Definition begin_op : M kern unit := onfs (onlog Log.begin_op).
Definition end_op : M kern unit := onfs (onlog Log.end_op).

(** acquire and release of the locks of this level on this CPU (Spinlock.v). *)
Definition holding (l : klock) : M kern bool := gets (λ s, bool_decide (l ∈ kheld s)).

Definition acquire (l : klock) : M kern unit := λ s,
  if bool_decide (l ∈ kheld s) then Panic "acquire"
  else Ret (tt, set_cpu_held (Spinlock.push_off (kcpu s)) (l :: kheld s) s).

Definition release (l : klock) : M kern unit := λ s,
  if bool_decide (l ∈ kheld s) then
    match Spinlock.pop_off (kcpu s) with
    | Ret c => Ret (tt, set_cpu_held c (without l (kheld s)) s)
    | Panic msg => Panic msg
    | Block => Block
    end
  else Panic "release".

Definition myproc : M kern proc := gets (λ s, procs s (me s)).
Definition set_me (g : proc → proc) : M kern unit := modify (λ s, upd_proc (me s) g s).

(** ** Copying between the kernel and the process *)

Definition stbytes (a : Z) (bs : bytes) (m : mem) : mem :=
  foldr (λ p m, st8 (a + p.1) p.2 m) m (zip (seqZ 0 (Z.of_nat (length bs))) bs).

Context `{KernelImage} `{KernelObjects}.

Definition copyout (pt dst : Z) (bs : bytes) : M Kalloc.kst Z :=
  modify (Kalloc.set_mem (stbytes kobj bs));; Vm.copyout pt dst kobj (Z.of_nat (length bs)).
Definition copyin (pt src n : Z) : M Kalloc.kst (Z * bytes) :=
  r ← Vm.copyin pt kobj src n; m ← gets Kalloc.kmem; mret (r, ldbytes m kobj (Z.to_nat n)).

(** Whether [either_copyout(1, a, ..)] of the bytes succeeds. *)
Definition user_out (pt : Z) (k : Kalloc.kst) : Z → bytes → bool := λ a bs,
  match copyout pt a bs k with Ret (r, _) => r =? 0 | _ => false end.

(** The longest prefix of [n] bytes from [a] that copyin can fetch. *)
Fixpoint fetchable (pt : Z) (k : Kalloc.kst) (a : Z) (n : nat) : bytes :=
  match copyin pt a (Z.of_nat n) k with
  | Ret ((r, bs), _) => if r =? 0 then bs else match n with O => [] | Datatypes.S n' => fetchable pt k a n' end
  | _ => []
  end.
(** The bytes [either_copyin(.., 1, a, n)] stores, and whether it succeeds. *)
Definition user_inp (pt : Z) (k : Kalloc.kst) : Z → Z → bytes * bool := λ a n,
  let bs := fetchable pt k a (Z.to_nat n) in (bs, Z.of_nat (length bs) =? n).

(** [readi(ip, 1, dst, off, n)] and [writei(ip, 1, src, off, n)] for the process:
    the pieces readi delivers go to consecutive addresses. *)
Definition readi_user (ip dst off n : Z) : M kern Z :=
  p ← myproc;
  k ← gets kk;
  r ← onfs (Fs.readi (user_out (pagetable p) k) ip dst off n);
  onk (copyout (pagetable p) dst (r.2));;
  mret (r.1).
Definition writei_user (ip src off n : Z) : M kern Z :=
  p ← myproc;
  k ← gets kk;
  onfs (Fs.writei (user_inp (pagetable p) k) ip src off n).

End kernel.

End Kernel.
