(* ===== verification/Proc.v ===== *)
(** * kernel/proc.c: the process table

    Allocating and freeing a process, switching, sleeping and waking, killing.
    [swtch] (swtch.S) saves this process's registers and runs others until it is
    scheduled again: it is a parameter, the effect of everything that happens
    meanwhile.  The changes the code makes to a struct proc under its lock are
    definitions of their own ([wakeup_one], [kill_one], ...), used by the routines
    here and by the interleaving semantics of ProcInv.v and ProcSleep.v. *)

From S2P Require Import Prelude Mem Bytes CString Spinlock Riscv Kalloc Vm ListH Sleeplock Bio Log Journal Fs Pipe Kernel.
Import Riscv Bytes Kernel.

Module Proc.

(** ** Changes to one struct proc, made with its lock held *)

Definition init_one (i : Z) (p : proc) : proc := set_kstack (KSTACK i) (set_state UNUSED p).
Definition used_one (n : Z) (p : proc) : proc := set_state USED (set_pid n p).
Definition wakeup_one (c : channel) (p : proc) : proc :=
  if bool_decide (state p = SLEEPING) && bool_decide (chan p = c) then set_state RUNNABLE p else p.
Definition kill_one (p : proc) : proc :=
  let p := set_killed true p in
  if bool_decide (state p = SLEEPING) then set_state RUNNABLE p else p.
Definition sleep_one (c : channel) (p : proc) : proc := set_state SLEEPING (set_chan c p).
Definition zombie_one (status : Z) (p : proc) : proc := set_state ZOMBIE (set_xstate status p).

(** [freeproc] on the fields, after the pages are freed. *)
Definition clear_one (p : proc) : proc :=
  let p := set_pid 0 (set_sz 0 p) in
  let p := set_name (<[0%nat := 0]> (name p)) (set_parent None p) in
  let p := set_xstate 0 (set_killed false (set_chan NoChan p)) in
  set_state UNUSED p.

Section proc.
Context {S : Type} `{BC : Bio.BlockCache S} `{KernelImage} `{KernelObjects}.
Context (swtch : M (@kern S) unit).
Notation K := (@kern S).

Definition procinit : M K unit :=
  modify (λ s, set_cpu_held (kcpu s) [] s);;
  for_range 0 (Z.to_nat NPROC) (λ p, modify (upd_proc p (init_one p))).

Definition allocpid : M K Z :=
  acquire LPid;;
  pid ← gets nextpid;
  modify (set_nextpid (s32 (pid + 1)));;
  release LPid;;
  mret pid.

Definition freeproc (p : Z) : M K unit :=
  x ← gets (λ s, procs s p);
  when (negb (trapframe x =? 0)) (onk (Kalloc.kfree (trapframe x)));;
  modify (upd_proc p (set_trapframe 0));;
  when (negb (pagetable x =? 0)) (onk (Vm.proc_freepagetable (pagetable x) (sz x)));;
  modify (upd_proc p (set_pagetable 0));;
  modify (upd_proc p clear_one).

(** [allocproc]'s search: the process found, with its lock held. *)
Fixpoint allocproc_scan (k : nat) (p : Z) : M K (option Z) :=
  match k with
  | O => mret None
  | Datatypes.S k' =>
      acquire (LProc p);;
      x ← gets (λ s, procs s p);
      if bool_decide (state x = UNUSED) then mret (Some p)
      else release (LProc p);; allocproc_scan k' (p + 1)
  end.

Definition allocproc : M K (option Z) :=
  r ← allocproc_scan (Z.to_nat NPROC) 0;
  match r with
  | None => mret None
  | Some p =>
      n ← allocpid;
      modify (upd_proc p (used_one n));;
      tf ← onk Kalloc.kalloc;
      modify (upd_proc p (set_trapframe tf));;
      if tf =? 0 then freeproc p;; release (LProc p);; mret None
      else
        pt ← onk (Vm.proc_pagetable tf);
        modify (upd_proc p (set_pagetable pt));;
        if pt =? 0 then freeproc p;; release (LProc p);; mret None
        else
          x ← gets (λ s, procs s p);
          modify (upd_proc p (set_context (forkret_addr :: u64 (kstack x + PGSIZE) :: replicate 12 0)));;
          mret (Some p)
  end.

Definition growproc (n : Z) : M K Z :=
  p ← myproc;
  r ← onk (Vm.growproc (pagetable p) (sz p) n);
  set_me (set_sz (r.2));;
  mret (r.1).

(** ** Switching *)

Definition sched : M K unit :=
  s ← gets id;
  let p := procs s (me s) in
  if negb (bool_decide (LProc (me s) ∈ kheld s)) then panic "sched p->lock"
  else if negb (Spinlock.noff (kcpu s) =? 1) then panic "sched locks"
  else if bool_decide (state p = RUNNING) then panic "sched running"
  else if Spinlock.intr_get (kcpu s) then panic "sched interruptible"
  else
    let intena := Spinlock.intena (kcpu s) in
    swtch;;
    modify (λ s, set_cpu_held (Spinlock.mk_cpu (Spinlock.noff (kcpu s)) intena (Spinlock.intr (kcpu s))) (kheld s) s).

Definition yield : M K unit :=
  i ← gets me;
  acquire (LProc i);;
  set_me (set_state RUNNABLE);;
  sched;;
  release (LProc i).

Definition sleep (c : channel) (lk : klock) : M K unit :=
  i ← gets me;
  acquire (LProc i);;
  release lk;;
  set_me (sleep_one c);;
  sched;;
  set_me (set_chan NoChan);;
  release (LProc i);;
  acquire lk.

Definition wakeup (c : channel) : M K unit :=
  i ← gets me;
  for_range 0 (Z.to_nat NPROC) (λ p,
    when (negb (p =? i)) (acquire (LProc p);; modify (upd_proc p (wakeup_one c));; release (LProc p))).

(** One turn of the loop of [scheduler] on this CPU, without a process ([me] is
    -1): whether it ran [p]. *)
Definition NOPROC : Z := -1.
Definition set_current (p : Z) (s : K) : K :=
  mk_kern (kk s) (kfs s) (ftable s) (pipes s) (procs s) (nextpid s) (initproc s) (ticks s) (kcpu s) (kheld s) p.

Definition schedule_one (p : Z) : M K bool :=
  acquire (LProc p);;
  x ← gets (λ s, procs s p);
  found ← (if bool_decide (state x = RUNNABLE) then
             modify (upd_proc p (set_state RUNNING));;
             modify (set_current p);;
             swtch;;
             modify (set_current NOPROC);;
             mret true
           else mret false);
  release (LProc p);;
  mret found.

(** A pass over the table: whether any process ran. *)
Fixpoint scheduler_pass (k : nat) (p : Z) (found : bool) : M K bool :=
  match k with
  | O => mret found
  | Datatypes.S k' => f ← schedule_one p; scheduler_pass k' (p + 1) (found || f)
  end.
Definition scheduler_round : M K bool :=
  modify (λ s, set_cpu_held (Spinlock.intr_on (kcpu s)) (kheld s) s);;
  scheduler_pass (Z.to_nat NPROC) 0 false.

(** ** Killing *)

Fixpoint kill_scan (k : nat) (p n : Z) : M K Z :=
  match k with
  | O => mret (-1)
  | Datatypes.S k' =>
      acquire (LProc p);;
      x ← gets (λ s, procs s p);
      if pid x =? n then modify (upd_proc p kill_one);; release (LProc p);; mret 0
      else release (LProc p);; kill_scan k' (p + 1) n
  end.
Definition kill (n : Z) : M K Z := kill_scan (Z.to_nat NPROC) 0 n.

Definition setkilled (p : Z) : M K unit :=
  acquire (LProc p);; modify (upd_proc p (set_killed true));; release (LProc p).

Definition killed_of (p : Z) : M K bool :=
  acquire (LProc p);;
  k ← gets (λ s, killed (procs s p));
  release (LProc p);;
  mret k.

(** ** Either-way copies *)

Definition either_copyout (user_dst : bool) (dst : Z) (bs : bytes) : M K Z :=
  p ← myproc;
  if user_dst then onk (copyout (pagetable p) dst bs)
  else onk (modify (Kalloc.set_mem (stbytes dst bs)));; mret 0.

Definition either_copyin (user_src : bool) (src n : Z) : M K (Z * bytes) :=
  p ← myproc;
  if user_src then onk (copyin (pagetable p) src n)
  else m ← gets (λ s, Kalloc.kmem (kk s)); mret (0, ldbytes m src (Z.to_nat n)).

(** ** Parents *)

(** [reparent(p)]: its children go to init, which is woken for each. *)
Definition reparent (p : Z) : M K unit :=
  for_range 0 (Z.to_nat NPROC) (λ pp,
    x ← gets (λ s, procs s pp);
    when (bool_decide (parent x = Some p))
      (i ← gets initproc;
       modify (upd_proc pp (set_parent i));;
       wakeup (default NoChan (ChProc <$> i)))).

End proc.

End Proc.
