(* ===== verification/File.v ===== *)
(** * kernel/file.c: open files, and the pipes behind them

    The file table with its reference counts, and reading, writing and closing an
    open file by its type.  [fileclose] is cut at the release of ftable.lock: what
    it does under the lock, and what it does with a file nobody has open any more.
    [pipealloc] and the calls of pipe.c on a pipe of the kernel are here too. *)

From S2P Require Import Prelude Mem Bytes CString Spinlock Riscv Kalloc Vm ListH Sleeplock Bio Log Journal Fs Pipe Kernel Proc.
Import Riscv Bytes Journal Kernel Proc.

Module File.

(** The drivers in [devsw]. *)
Class Devices (K : Type) := {
  dev_read : Z → option (bool → Z → Z → M K Z);
  dev_write : Z → option (bool → Z → Z → M K Z) }.

Section file.
Context {S : Type} `{BC : Bio.BlockCache S} `{KernelImage} `{KernelObjects} `{Devices (@kern S)}.
Notation K := (@kern S).

(** ** The file table *)

Definition fileinit : M K unit := modify (λ s, set_cpu_held (kcpu s) (without LFtable (kheld s)) s).

Fixpoint filealloc_scan (k : nat) (f : Z) : M K (option Z) :=
  match k with
  | O => mret None
  | Datatypes.S k' =>
      x ← gets (λ s, ftable s f);
      if fref x =? 0 then modify (upd_file f (set_fref 1));; mret (Some f) else filealloc_scan k' (f + 1)
  end.
Definition filealloc : M K (option Z) :=
  acquire LFtable;;
  r ← filealloc_scan (Z.to_nat NFILE) 0;
  release LFtable;;
  mret r.

Definition filedup (f : Z) : M K Z :=
  acquire LFtable;;
  x ← gets (λ s, ftable s f);
  if fref x <? 1 then panic "filedup"
  else
    modify (upd_file f (set_fref (s32 (fref x + 1))));;
    release LFtable;;
    mret f.

(** [fileclose] under the lock: the file as it was, if this was the last reference. *)
Definition fileclose_table (f : Z) : M K (option file) :=
  acquire LFtable;;
  x ← gets (λ s, ftable s f);
  if fref x <? 1 then panic "fileclose"
  else
    modify (upd_file f (set_fref (fref x - 1)));;
    if 0 <? fref x - 1 then release LFtable;; mret None
    else
      ff ← gets (λ s, ftable s f);
      modify (upd_file f (λ y, set_ftype FD_NONE (set_fref 0 y)));;
      release LFtable;;
      mret (Some ff).

(** ** Pipes *)

(** The addresses of [nread] and [nwrite] in the pipe at [pi]. *)
Definition pipe_chan (pi : Z) (c : Pipe.chan) : channel :=
  ChAddr (match c with Pipe.NREAD => pi + 536 | Pipe.NWRITE => pi + 540 end).
Definition wake_all (pi : Z) (cs : list Pipe.chan) : M K unit :=
  foldr (λ c m, wakeup (pipe_chan pi c);; m) (mret tt) cs.

Definition pipewrite (pi addr n : Z) : M K Z :=
  s ← gets id;
  p ← myproc;
  let src i := match copyin (pagetable p) (u64 (addr + i)) 1 (kk s) with
               | Ret ((r, bs), _) => if r =? -1 then None else Some (hd 0 bs)
               | _ => None
               end in
  match Pipe.pipewrite_turn src (λ _, killed p) n 0 (pipes s pi) with
  | (Pipe.Returned r, cs, q) => modify (set_pipe pi q);; wake_all pi cs;; mret r
  | (Pipe.Sleeps _ _, _, _) => block
  end.

Definition piperead (pi addr n : Z) : M K Z :=
  s ← gets id;
  p ← myproc;
  let dst i := user_out (pagetable p) (kk s) (u64 (addr + i)) [0] in
  match Pipe.piperead_turn dst (killed p) n (pipes s pi) with
  | (Pipe.Returned r, cs, bs, q) =>
      modify (set_pipe pi q);;
      onk (copyout (pagetable p) addr (take (Z.to_nat r) bs));;
      wake_all pi cs;;
      mret r
  | (Pipe.Sleeps _ _, _, _, _) => block
  end.

Definition pipeclose (pi : Z) (writable : bool) : M K unit :=
  q ← gets (λ s, pipes s pi);
  let '(cs, free, q') := Pipe.pipeclose writable q in
  modify (set_pipe pi q');;
  wake_all pi cs;;
  when free (onk (Kalloc.kfree pi)).

(** ** Closing *)

Definition fileclose_last (ff : file) : M K unit :=
  match ftype ff with
  | FD_PIPE => pipeclose (fpipe ff) (writable ff)
  | FD_INODE | FD_DEVICE => begin_op;; onfs (Fs.iput (fip ff));; end_op
  | FD_NONE => mret tt
  end.
Definition fileclose (f : Z) : M K unit :=
  r ← fileclose_table f;
  match r with
  | None => mret tt
  | Some ff => fileclose_last ff
  end.

Definition pipealloc : M K (option (Z * Z)) :=
  f0 ← filealloc;
  match f0 with
  | None => mret None
  | Some f0 =>
      f1 ← filealloc;
      match f1 with
      | None => fileclose f0;; mret None
      | Some f1 =>
          pi ← onk Kalloc.kalloc;
          if pi =? 0 then fileclose f0;; fileclose f1;; mret None
          else
            m ← gets (λ s, Kalloc.kmem (kk s));
            modify (set_pipe pi (Pipe.pipe_init (λ i, ld8 m (pi + 24 + i))));;
            modify (upd_file f0 (λ f, mk_file FD_PIPE (fref f) true false pi (fip f) (foff f) (fmajor f)));;
            modify (upd_file f1 (λ f, mk_file FD_PIPE (fref f) false true pi (fip f) (foff f) (fmajor f)));;
            mret (Some (f0, f1))
      end
  end.

(** ** Metadata, reading, writing *)

(** [struct stat] in memory; the four bytes of padding are what the stack holds. *)
Definition stat_bytes (st : Fs.stat) (m : mem) : bytes :=
  le_bytes 4 (Fs.st_dev st) ++ le_bytes 4 (Fs.st_ino st) ++ le_bytes 2 (Fs.st_type st) ++ le_bytes 2 (Fs.st_nlink st) ++
  ldbytes m (kobj + 12) 4 ++ le_bytes 8 (Fs.st_size st).

Definition filestat (f addr : Z) : M K Z :=
  p ← myproc;
  x ← gets (λ s, ftable s f);
  match ftype x with
  | FD_INODE | FD_DEVICE =>
      onfs (Fs.ilock (fip x));;
      st ← onfs (Fs.stati (fip x));
      onfs (Fs.iunlock (fip x));;
      m ← gets (λ s, Kalloc.kmem (kk s));
      r ← onk (copyout (pagetable p) addr (stat_bytes st m));
      if r <? 0 then mret (-1) else mret 0
  | _ => mret (-1)
  end.

Definition fileread (f addr n : Z) : M K Z :=
  x ← gets (λ s, ftable s f);
  if negb (readable x) then mret (-1)
  else
    match ftype x with
    | FD_PIPE => piperead (fpipe x) addr n
    | FD_DEVICE =>
        if (fmajor x <? 0) || (NDEV <=? fmajor x) then mret (-1)
        else match dev_read (fmajor x) with
             | None => mret (-1)
             | Some read => read true addr n
             end
    | FD_INODE =>
        onfs (Fs.ilock (fip x));;
        r ← readi_user (fip x) addr (foff x) (u32 n);
        when (0 <? s32 r) (modify (upd_file f (λ y, set_foff (u32 (foff y + r)) y)));;
        onfs (Fs.iunlock (fip x));;
        mret (s32 r)
    | FD_NONE => panic "fileread"
    end.

(** The most one transaction writes. *)
Definition max_write : Z := ((MAXOPBLOCKS - 1 - 1 - 2) / 2) * Fs.BSIZE.

(** The loop of [filewrite]; it returns [i]. *)
Fixpoint filewrite_loop (fuel : nat) (f ip addr i n : Z) : M K Z :=
  match fuel with
  | O => block
  | Datatypes.S fuel' =>
      if i <? n then
        let n1 := if max_write <? n - i then max_write else n - i in
        begin_op;;
        onfs (Fs.ilock ip);;
        x ← gets (λ s, ftable s f);
        r ← writei_user ip (u64 (addr + i)) (foff x) n1;
        when (0 <? s32 r) (modify (upd_file f (λ y, set_foff (u32 (foff y + r)) y)));;
        onfs (Fs.iunlock ip);;
        end_op;;
        if negb (s32 r =? n1) then mret i
        else filewrite_loop fuel' f ip addr (i + s32 r) n
      else mret i
  end.

Definition filewrite (f addr n : Z) : M K Z :=
  x ← gets (λ s, ftable s f);
  if negb (writable x) then mret (-1)
  else
    match ftype x with
    | FD_PIPE => pipewrite (fpipe x) addr n
    | FD_DEVICE =>
        if (fmajor x <? 0) || (NDEV <=? fmajor x) then mret (-1)
        else match dev_write (fmajor x) with
             | None => mret (-1)
             | Some write => write true addr n
             end
    | FD_INODE =>
        i ← filewrite_loop (Z.to_nat (n / max_write + 2)) f (fip x) addr 0 n;
        mret (if i =? n then n else -1)
    | FD_NONE => panic "filewrite"
    end.

End file.

End File.
