(* ===== verification/FileRefs.v ===== *)
(** * The file table's reference counts

    Any number of processes hold references to open files; each takes a file from
    the table (filealloc), duplicates a reference it holds (filedup) or gives one
    up (fileclose).  Each of the three runs under ftable.lock, so a run of the
    system is a sequence of such operations in any order. *)

From S2P Require Import Prelude Mem Bytes CString Spinlock Riscv Kalloc Vm ListH Sleeplock Bio Log Journal Fs Pipe Kernel Proc File.
Import Riscv Bytes Journal Kernel Proc File.

Module FileRefs.

(** ** Locks of the kernel's level *)

Definition cpu_ok (c : Spinlock.cpu) : Prop := 0 ≤ Spinlock.noff c ∧ (0 < Spinlock.noff c → Spinlock.intr c = false).

Lemma pop_push c : cpu_ok c → ∃ c', Spinlock.pop_off (Spinlock.push_off c) = Ret c' ∧ cpu_ok c'.
Proof.
  intros [H1 H2]. unfold Spinlock.push_off, Spinlock.pop_off, Spinlock.intr_get, Spinlock.intr_off, cpu_ok in *.
  destruct c as [n ie it]. simpl in *. destruct (n =? 0) eqn:E; bsimpl; simpl.
  - subst n. simpl. destruct it; simpl; eexists; split; try done; simpl; lia.
  - rewrite (proj2 (Z.ltb_ge _ _)) by lia. replace (n + 1 - 1) with n by lia.
    rewrite (proj2 (Z.eqb_neq _ _)) by done. simpl. eexists; split; [done|]. simpl. split; [done|done].
Qed.

Section locks.
Context {S : Type}.
Notation K := (@kern S).
Implicit Types s : K.

(** The locks are free for this CPU. *)
Definition unlocked (l : klock) s : Prop := l ∉ kheld s ∧ cpu_ok (kcpu s).

Lemma wp_kacquire l s (Q : unit → K → Prop) : l ∉ kheld s →
  Q tt (set_cpu_held (Spinlock.push_off (kcpu s)) (l :: kheld s) s) → wp (acquire l) Q s.
Proof. intros Hl HQ. unfold wp, acquire. by rewrite bool_decide_false. Qed.

Lemma wp_krelease l s c ls (Q : unit → K → Prop) : kcpu s = Spinlock.push_off c → kheld s = l :: ls → l ∉ ls → cpu_ok c →
  (∀ c', cpu_ok c' → Q tt (set_cpu_held c' ls s)) → wp (release l) Q s.
Proof.
  intros Hc Hh Hn Hok HQ. unfold wp, release. rewrite Hh, bool_decide_true by constructor. rewrite Hc.
  destruct (pop_push c Hok) as (c' & -> & Hc'). unfold without. rewrite filter_cons_False by naive_solver.
  fold (without l ls). rewrite without_id by done. by apply HQ.
Qed.
End locks.

(** ** Clients of the table *)

Inductive fop := FAlloc | FDup (f : Z) | FClose (f : Z).

(** A file is taken from the table, or given back to it. *)
Inductive fevent := Taken (f : Z) | Closed (f : Z).

#[export] Instance fevent_dec : EqDecision fevent.
Proof. solve_decision. Defined.

(** One reference less. *)
Fixpoint remove_one (f : Z) (hs : list Z) : list Z :=
  match hs with
  | [] => []
  | g :: hs' => if g =? f then hs' else g :: remove_one f hs'
  end.

Section clients.
Context {S : Type}.
Notation K := (@kern S).
Implicit Types (s : K) (hs : list Z) (es : list fevent).

(** One operation, by a client that holds the reference it names: the references
    held after it, and what happened to the table. *)
Definition run_fop (o : fop) hs : M K (list Z * list fevent) :=
  match o with
  | FAlloc => r ← filealloc; mret (match r with Some f => (f :: hs, [Taken f]) | None => (hs, []) end)
  | FDup f => g ← filedup f; mret (g :: hs, [])
  | FClose f =>
      r ← fileclose_table f;
      mret (remove_one f hs, match r with Some _ => [Closed f] | None => [] end)
  end.

Definition allowed (o : fop) hs : Prop :=
  match o with FAlloc => True | FDup f => f ∈ hs ∧ Z.of_nat (length hs) < 2 ^ 31 - 1 | FClose f => f ∈ hs end.

Fixpoint run_fops (os : list fop) hs es : M K (list Z * list fevent) :=
  match os with
  | [] => mret (hs, es)
  | o :: os' => r ← run_fop o hs; run_fops os' (r.1) (es ++ r.2)
  end.

(** Every client names references that are held when its turn comes. *)
Fixpoint all_allowed (os : list fop) hs s : Prop :=
  match os with
  | [] => True
  | o :: os' => allowed o hs ∧ match run_fop o hs s with Ret ((hs', _), s') => all_allowed os' hs' s' | _ => True end
  end.

Definition occ (f : Z) hs : Z := Z.of_nat (length (filter (λ g, g = f) hs)).
Definition ecount (e : fevent) es : Z := Z.of_nat (length (filter (λ g, g = e) es)).

(** ** The counts *)

Lemma occ_cons f g hs : occ f (g :: hs) = (if g =? f then 1 else 0) + occ f hs.
Proof.
  unfold occ. destruct (g =? f) eqn:E; bsimpl; [rewrite filter_cons_True by done|rewrite filter_cons_False by done]; simpl length; lia.
Qed.

Lemma occ_nonneg f hs : 0 ≤ occ f hs.
Proof. unfold occ. lia. Qed.

Lemma occ_le f hs : occ f hs ≤ Z.of_nat (length hs).
Proof. unfold occ. pose proof (length_filter (λ g, g = f) hs). lia. Qed.

Lemma occ_in f hs : f ∈ hs → 1 ≤ occ f hs.
Proof.
  induction hs as [|g hs IH]; [by intros ?%not_elem_of_nil|]. rewrite elem_of_cons, occ_cons. pose proof (occ_nonneg f hs).
  intros [->|Hin]; [rewrite Z.eqb_refl; lia|]. specialize (IH Hin). destruct (g =? f); lia.
Qed.

Lemma occ_notin f hs : f ∉ hs → occ f hs = 0.
Proof.
  induction hs as [|g hs IH]; [done|]. intros [Hg Hin]%not_elem_of_cons. rewrite occ_cons, IH by done.
  rewrite (proj2 (Z.eqb_neq _ _)) by congruence. done.
Qed.

Lemma occ_remove f g hs : f ∈ hs → occ g (remove_one f hs) = occ g hs - (if f =? g then 1 else 0).
Proof.
  induction hs as [|h hs IH]; [by intros ?%not_elem_of_nil|]. rewrite elem_of_cons. intros Hin. cbn [remove_one].
  destruct (h =? f) eqn:E; bsimpl; rewrite ?occ_cons.
  - subst h. lia.
  - destruct Hin as [->|Hin]; [done|]. rewrite IH by done. lia.
Qed.

Lemma remove_in f g hs : g ∈ remove_one f hs → g ∈ hs.
Proof.
  induction hs as [|h hs IH]; [done|]. cbn [remove_one]. destruct (h =? f); rewrite ?elem_of_cons; [by right|].
  intros [->|Hg]; [by left|right; auto].
Qed.

Lemma ecount_snoc e es e' : ecount e (es ++ [e']) = ecount e es + (if bool_decide (e' = e) then 1 else 0).
Proof.
  unfold ecount. rewrite filter_app, length_app. case_bool_decide; [rewrite filter_cons_True by done|rewrite filter_cons_False by done];
    rewrite filter_nil; simpl length; lia.
Qed.

(** [fref] of a file is the number of references to it; a file was taken once more
    than it was closed as long as anybody holds it. *)
Record finv hs es s : Prop := {
  fi_lock : unlocked LFtable s;
  fi_range : ∀ f, f ∈ hs → 0 ≤ f < NFILE;
  fi_ref : ∀ f, 0 ≤ f < NFILE → fref (ftable s f) = occ f hs;
  fi_events : ∀ f, ecount (Taken f) es = ecount (Closed f) es + (if occ f hs =? 0 then 0 else 1) }.

Lemma filealloc_scan_ok s (Q : option Z → K → Prop) : ∀ k f,
  (∀ g, f ≤ g < f + Z.of_nat k → fref (ftable s g) = 0 → Q (Some g) (upd_file g (set_fref 1) s)) →
  ((∀ g, f ≤ g < f + Z.of_nat k → fref (ftable s g) ≠ 0) → Q None s) →
  wp (filealloc_scan k f) Q s.
Proof.
  induction k as [|k IH]; intros f H1 H2; cbn [filealloc_scan]; [apply wp_ret, H2; lia|].
  apply wp_bind, wp_gets. destruct (fref (ftable s f) =? 0) eqn:E; bsimpl.
  - apply wp_bind, wp_modify, wp_ret. apply H1; [lia|done].
  - apply IH; [intros g Hg; apply H1; lia|]. intros Hn. apply H2. intros g Hg. destruct (decide (g = f)) as [->|]; [done|]. apply Hn. lia.
Qed.

Lemma finv_cpu hs es s s' c : finv hs es s → cpu_ok c → (∀ f, ftable s' f = ftable s f) → kheld s' = kheld s → finv hs es (set_cpu_held c (kheld s) s').
Proof. intros [H1 H2 H3 H4] Hc Hf Hh. split; try done. - by split; [apply H1|]. - intros f Hr. simpl. rewrite Hf. auto. Qed.

#[local] Opaque NFILE.
#[local] Arguments filealloc_scan : simpl never.

Lemma alloc_fop hs es s : finv hs es s →
  wp (run_fop FAlloc hs) (λ r s', finv (r.1) (es ++ r.2) s' ∧
    ((r.2 = [] ∧ ∀ f, 0 ≤ f < NFILE → f ∈ hs) ∨ ∃ f, r = (f :: hs, [Taken f]) ∧ f ∉ hs)) s.
Proof.
  intros Hi. destruct (fi_lock _ _ _ Hi) as [Hl Hc]. cbn [run_fop]. unfold filealloc.
  apply wp_bind, wp_bind, wp_kacquire; [done|]. apply wp_bind. apply filealloc_scan_ok; cbn [ftable set_cpu_held].
  - intros g Hg Hz. apply wp_bind. eapply (wp_krelease LFtable _ (kcpu s) (kheld s)); try done. intros c' Hc'.
    apply wp_ret, wp_ret. cbn [fst snd]. assert (0 ≤ g < NFILE) as Hr by lia. rewrite (fi_ref _ _ _ Hi) in Hz by done.
    assert (g ∉ hs) as Hn by (intros Hin%occ_in; lia). split; [|right; by exists g]. split.
    + done.
    + intros f [->|Hf]%elem_of_cons; [done|]. by apply (fi_range _ _ _ Hi).
    + intros f Hf. simpl. rewrite occ_cons. destruct (g =? f) eqn:E; bsimpl.
      * subst f. rewrite fn_lookup_insert. simpl. lia.
      * rewrite fn_lookup_insert_ne by done. by rewrite (fi_ref _ _ _ Hi).
    + intros f. rewrite !ecount_snoc, occ_cons. pose proof (fi_events _ _ _ Hi f) as He. pose proof (occ_nonneg f hs).
      rewrite (bool_decide_false (Taken g = Closed f)) by done. case_bool_decide as E.
      * simplify_eq. rewrite Z.eqb_refl, Hz in *. simpl in *. lia.
      * destruct (g =? f) eqn:E'; bsimpl; [by subst|]. rewrite Z.add_0_l. lia.
  - intros Hfull. apply wp_bind. eapply (wp_krelease LFtable _ (kcpu s) (kheld s)); try done. intros c' Hc'.
    apply wp_ret, wp_ret. cbn [fst snd]. rewrite app_nil_r. split; [by apply (finv_cpu hs es s s)|]. left. split; [done|].
    intros f Hf. specialize (Hfull f ltac:(lia)). rewrite (fi_ref _ _ _ Hi) in Hfull by done.
    destruct (decide (f ∈ hs)); [done|]. exfalso. by apply Hfull, occ_notin.
Qed.

Lemma dup_fop f hs es s : finv hs es s → f ∈ hs → Z.of_nat (length hs) < 2 ^ 31 - 1 → wp (run_fop (FDup f) hs) (λ r s', finv (r.1) (es ++ r.2) s') s.
Proof.
  intros Hi Hin Hmax. destruct (fi_lock _ _ _ Hi) as [Hl Hc]. pose proof (fi_range _ _ _ Hi f Hin) as Hr. pose proof (occ_in _ _ Hin).
  pose proof (occ_le f hs). cbn [run_fop]. unfold filedup. apply wp_bind, wp_bind, wp_kacquire; [done|]. apply wp_bind, wp_gets. cbn [ftable set_cpu_held].
  rewrite (fi_ref _ _ _ Hi) by done. destruct (occ f hs <? 1) eqn:E; bsimpl; [lia|].
  apply wp_bind, wp_modify, wp_bind. eapply (wp_krelease LFtable _ (kcpu s) (kheld s)); try done. intros c' Hc'.
  apply wp_ret, wp_ret. cbn [fst snd]. rewrite app_nil_r. split.
  - done.
  - intros g [->|Hg]%elem_of_cons; [done|]. by apply (fi_range _ _ _ Hi).
  - intros g Hg. simpl. rewrite occ_cons. destruct (f =? g) eqn:E'; bsimpl.
    + subst g. rewrite fn_lookup_insert. simpl. rewrite s32_small by lia. lia.
    + rewrite fn_lookup_insert_ne by done. by rewrite (fi_ref _ _ _ Hi).
  - intros g. rewrite occ_cons, (fi_events _ _ _ Hi g). f_equal. destruct (f =? g) eqn:E'; bsimpl; [|done].
    subst g. rewrite !(proj2 (Z.eqb_neq _ _)) by lia. done.
Qed.

Lemma close_fop f hs es s : finv hs es s → f ∈ hs →
  wp (run_fop (FClose f) hs) (λ r s', finv (r.1) (es ++ r.2) s' ∧ (r.2 = [Closed f] ↔ occ f hs = 1)) s.
Proof.
  intros Hi Hin. destruct (fi_lock _ _ _ Hi) as [Hl Hc]. pose proof (fi_range _ _ _ Hi f Hin) as Hr. pose proof (occ_in _ _ Hin).
  cbn [run_fop]. unfold fileclose_table. apply wp_bind, wp_bind, wp_kacquire; [done|]. apply wp_bind, wp_gets. cbn [ftable set_cpu_held].
  rewrite (fi_ref _ _ _ Hi) by done. destruct (occ f hs <? 1) eqn:E; bsimpl; [lia|]. apply wp_bind, wp_modify.
  assert (∀ s' (es' : list fevent) c', cpu_ok c' → kheld s' = kheld s → fref (ftable s' f) = occ f hs - 1 → (∀ g, g ≠ f → ftable s' g = ftable s g) →
    (∀ g, ecount (Taken g) es' = ecount (Closed g) es' + (if occ g hs - (if f =? g then 1 else 0) =? 0 then 0 else 1)) →
    finv (remove_one f hs) es' (set_cpu_held c' (kheld s) s')) as Hfin.
  { intros s' es' c' Hc' Hh Hf Hg He. split; [by split|intros g Hg'%remove_in; by apply (fi_range _ _ _ Hi)| |].
    - intros g Hgr. simpl. rewrite occ_remove by done. destruct (f =? g) eqn:E'; bsimpl; [by subst|].
      rewrite Hg by done. rewrite (fi_ref _ _ _ Hi) by done. lia.
    - intros g. by rewrite occ_remove. }
  destruct (0 <? occ f hs - 1) eqn:E'; bsimpl.
  - apply wp_bind. eapply (wp_krelease LFtable _ (kcpu s) (kheld s)); try done. intros c' Hc'.
    apply wp_ret, wp_ret. cbn [fst snd]. rewrite app_nil_r. split; [|split; [done|lia]].
    apply (Hfin (upd_file f (set_fref (occ f hs - 1)) s)); try done; simpl.
    + by rewrite fn_lookup_insert.
    + intros g Hg. by rewrite fn_lookup_insert_ne.
    + intros g. rewrite (fi_events _ _ _ Hi g). f_equal. destruct (f =? g) eqn:Eg; bsimpl; [|by rewrite Z.sub_0_r].
      subst g. rewrite !(proj2 (Z.eqb_neq _ _)) by lia. done.
  - apply wp_bind, wp_gets, wp_bind, wp_modify, wp_bind.
    eapply (wp_krelease LFtable _ (kcpu s) (kheld s)); try done. intros c' Hc'.
    apply wp_ret, wp_ret. cbn [fst snd]. split; [|split; [lia|done]].
    apply (Hfin (upd_file f (λ y, set_ftype FD_NONE (set_fref 0 y)) (upd_file f (set_fref (occ f hs - 1)) s))); try done; simpl.
    + rewrite fn_lookup_insert. simpl. lia.
    + intros g Hg. by rewrite !fn_lookup_insert_ne.
    + intros g. rewrite !ecount_snoc, (fi_events _ _ _ Hi g). rewrite (bool_decide_false (Closed f = Taken g)) by done.
      destruct (f =? g) eqn:Eg; bsimpl.
      * subst g. rewrite bool_decide_true by done. rewrite (proj2 (Z.eqb_neq _ _)) by lia. rewrite (proj2 (Z.eqb_eq _ _)) by lia. lia.
      * rewrite bool_decide_false by naive_solver. rewrite Z.sub_0_r. lia.
Qed.

Lemma run_fop_ok o hs es s : finv hs es s → allowed o hs → wp (run_fop o hs) (λ r s', finv (r.1) (es ++ r.2) s') s.
Proof.
  intros Hi Ha. destruct o as [|f|f].
  - eapply wp_mono; [by apply alloc_fop|]. by intros r s' [? _].
  - destruct Ha. by apply dup_fop.
  - eapply wp_mono; [by apply (close_fop f hs es)|]. by intros r s' [? _].
Qed.

(** [C16] Reference counts of open files (filealloc, filedup, fileclose).  Start from
    any table in which each file's count is the number of references held.  However
    the processes' operations are ordered, as long as each duplicates or closes only
    references it holds and fewer than 2^31 are held, none of them panics, each count stays the number of
    references held, and a file is given back to the table exactly once for each
    time it was taken from it and nobody holds it any more. *)
Theorem file_references os hs es s : finv hs es s → all_allowed os hs s →
  wp (run_fops os hs es) (λ r s', let '(hs', es') := r in
    (∀ f, 0 ≤ f < NFILE → fref (ftable s' f) = occ f hs') ∧
    (∀ f, ecount (Taken f) es' = ecount (Closed f) es' + (if occ f hs' =? 0 then 0 else 1)) ∧ finv hs' es' s') s.
Proof.
  revert hs es s. induction os as [|o os IH]; intros hs es s Hi Ha; cbn [run_fops].
  { apply wp_ret. split_and!; [apply Hi|apply Hi|done]. }
  destruct Ha as [Ho Ha]. apply wp_bind. pose proof (run_fop_ok o hs es s Hi Ho) as Hw.
  destruct (wp_inv _ _ _ Hw) as ([hs' es'] & s' & E & Hi'). rewrite E in Ha. eapply wp_eq; [exact E|]. by apply IH.
Qed.

End clients.

(** ** Witness *)

(** An empty table on an idle CPU; the rest of the state plays no role. *)
Definition no_file : file := mk_file FD_NONE 0 false false 0 0 0 0.
Definition no_proc : proc := mk_proc UNUSED NoChan false 0 0 None 0 0 0 0 [] (λ _, None) None [].
Definition demo_kern : @kern unit :=
  mk_kern (Kalloc.mk_kst ∅ 0 false)
    (Fs.mk_fsst (Log.mk_logst tt false 0 0 0 false 0 0 []) (Fs.mk_sb 0 0 0 0 0 0 0 0)
       (λ _, Fs.mk_inode 0 0 0 (Sleeplock.mk_sleeplock 0 0) false 0 0 0 0 0 []) false 0)
    (λ _, no_file) (λ _, Pipe.pipe_init (λ _, 0)) (λ _, no_proc) 1 None 0 (Spinlock.mk_cpu 0 false true) [] 0.

Definition demo_fops : list fop := [FAlloc; FDup 0; FAlloc; FClose 0; FClose 0; FAlloc].

Lemma file_references_witness : wp (run_fops demo_fops [] []) (λ r s', let '(hs', es') := r in
    (∀ f, 0 ≤ f < NFILE → fref (ftable s' f) = occ f hs') ∧
    (∀ f, ecount (Taken f) es' = ecount (Closed f) es' + (if occ f hs' =? 0 then 0 else 1)) ∧ finv hs' es' s') demo_kern.
Proof.
  apply (file_references demo_fops [] [] demo_kern).
  - split; [split; [apply not_elem_of_nil|split; [vm_compute; discriminate|done]]|by intros f ?%not_elem_of_nil|done|done].
  - vm_compute. repeat constructor.
Defined.

End FileRefs.
