(* ===== verification/ProcInv.v ===== *)
(** * The process table under every interleaving

    A run of the system as a sequence of the changes proc.c makes to the table,
    each under the lock that protects it: [p->lock] for the state of [p],
    [wait_lock] for the parents (exit holds it from reparenting its children to
    becoming a zombie).  Any number of CPUs take these steps in any order. *)

From S2P Require Import Prelude Mem Bytes Riscv Kernel Proc.
Import Riscv Kernel Proc.

Module ProcInv.

(** The table, the process each CPU runs, [nextpid], and init.  [born] is no variable
    of the program: it counts the pids that allocpid has given out since boot. *)
Record psys := mk_psys { ps : Z → proc; on_cpu : nat → option Z; npid : Z; init : Z; born : Z }.

Definition upd (p : Z) (g : proc → proc) (s : psys) : psys :=
  mk_psys (<[p := g (ps s p)]> (ps s)) (on_cpu s) (npid s) (init s) (born s).
Definition place (c : nat) (r : option Z) (s : psys) : psys :=
  mk_psys (ps s) (<[c := r]> (on_cpu s)) (npid s) (init s) (born s).
Definition take_pid (s : psys) : psys := mk_psys (ps s) (on_cpu s) (s32 (npid s + 1)) (init s) (born s + 1).

(** [reparent(p)] on one entry of the table. *)
Definition reparent_one (p i : Z) (x : proc) : proc :=
  if bool_decide (parent x = Some p) then set_parent (Some i) x else x.
Definition reparent_all (p : Z) (s : psys) : psys :=
  mk_psys (λ pp, reparent_one p (init s) (ps s pp)) (on_cpu s) (npid s) (init s) (born s).

(** A process number. *)
Definition in_table (p : Z) : Prop := 0 ≤ p < NPROC.

Inductive pstep (s : psys) : psys → Prop :=
  (* allocproc *)
  | St_alloc p : in_table p → state (ps s p) = UNUSED →
      pstep s (take_pid (upd p (used_one (npid s)) s))
  (* freeproc of a process that was never made runnable (allocproc, fork) *)
  | St_undo p : in_table p → state (ps s p) = USED → parent (ps s p) = None → pstep s (upd p clear_one s)
  (* fork: np->parent = p *)
  | St_adopt c p np : on_cpu s c = Some p → in_table np → state (ps s np) = USED → parent (ps s np) = None →
      pstep s (upd np (set_parent (Some p)) s)
  (* fork: np->state = RUNNABLE *)
  | St_ready np p : in_table np → state (ps s np) = USED → parent (ps s np) = Some p → pstep s (upd np (set_state RUNNABLE) s)
  (* scheduler *)
  | St_run c p : on_cpu s c = None → in_table p → state (ps s p) = RUNNABLE →
      pstep s (place c (Some p) (upd p (set_state RUNNING) s))
  (* yield, sleep: up to the switch to the scheduler *)
  | St_yield c p : on_cpu s c = Some p → pstep s (place c None (upd p (set_state RUNNABLE) s))
  | St_sleep c p ch : on_cpu s c = Some p → pstep s (place c None (upd p (sleep_one ch) s))
  (* sleep, after it is scheduled again *)
  | St_awake c p : on_cpu s c = Some p → pstep s (upd p (set_chan NoChan) s)
  (* wakeup, kill, setkilled: their turn at entry p *)
  | St_wakeup p ch : in_table p → pstep s (upd p (wakeup_one ch) s)
  | St_kill p : in_table p → pstep s (upd p kill_one s)
  | St_setkilled p : in_table p → pstep s (upd p (set_killed true) s)
  (* exit *)
  | St_exit c p status : on_cpu s c = Some p → p ≠ init s →
      pstep s (place c None (upd p (zombie_one status) (reparent_all p s)))
  (* wait: freeproc of a zombie child *)
  | St_reap c p q : on_cpu s c = Some p → in_table q → parent (ps s q) = Some p → state (ps s q) = ZOMBIE →
      pstep s (upd q clear_one s).

(** ** The invariant *)

Definition started (x : proc) : Prop := state x ≠ UNUSED ∧ state x ≠ USED.
Definition alive (x : proc) : Prop := started x ∧ state x ≠ ZOMBIE.

Record pinv (s : psys) : Prop := {
  pi_cpu : ∀ c p, on_cpu s c = Some p → in_table p ∧ state (ps s p) = RUNNING;
  pi_run : ∀ p, state (ps s p) = RUNNING → in_table p → ∃ c, on_cpu s c = Some p;
  pi_once : ∀ c c' p, on_cpu s c = Some p → on_cpu s c' = Some p → c = c';
  pi_pid : ∀ p, in_table p → state (ps s p) ≠ UNUSED → born s < 2 ^ 31 → 0 < pid (ps s p) ≤ born s;
  pi_uniq : ∀ p q, in_table p → in_table q → state (ps s p) ≠ UNUSED → state (ps s q) ≠ UNUSED →
    pid (ps s p) = pid (ps s q) → born s < 2 ^ 31 → p = q;
  pi_parent : ∀ p q, in_table p → parent (ps s p) = Some q → in_table q ∧ alive (ps s q);
  pi_child : ∀ p, in_table p → started (ps s p) → p = init s ∨ ∃ q, parent (ps s p) = Some q;
  pi_unused : ∀ p, in_table p → state (ps s p) = UNUSED → parent (ps s p) = None;
  pi_init : in_table (init s) ∧ alive (ps s (init s)) ∧ parent (ps s (init s)) = None;
  pi_npid : npid s = s32 (born s + 1) ∧ 0 ≤ born s }.

(** ** Preservation *)

Lemma s32_mod x : s32 x mod 2 ^ 32 = x mod 2 ^ 32.
Proof. unfold s32. cbv zeta. case_if; [apply Z.mod_mod; lia|]. rewrite Zminus_mod, Z_mod_same_full, Z.sub_0_r, !Z.mod_mod by lia. done. Qed.

Lemma s32_add_l x y : s32 (s32 x + y) = s32 (x + y).
Proof.
  assert ((s32 x + y) mod 2 ^ 32 = (x + y) mod 2 ^ 32) as E by (rewrite Zplus_mod, s32_mod; symmetry; apply Zplus_mod).
  unfold s32 at 1 3. by rewrite E.
Qed.

(** A change of one entry that keeps its pid and parent, moves its state between
    the live ones and leaves the CPUs alone. *)
Definition live_change (x y : proc) : Prop :=
  pid y = pid x ∧ parent y = parent x ∧ (state y = state x ∨ (state x = SLEEPING ∧ state y = RUNNABLE)).

Lemma tab_upd_eq p g s : ps (upd p g s) p = g (ps s p).
Proof. simpl. by rewrite fn_lookup_insert. Qed.
Lemma tab_upd_ne p g s q : q ≠ p → ps (upd p g s) q = ps s q.
Proof. intros. simpl. by rewrite fn_lookup_insert_ne. Qed.

Lemma pinv_live p g s : pinv s → live_change (ps s p) (g (ps s p)) → pinv (upd p g s).
Proof.
  intros Hi (Hp & Hpar & Hst).
  assert (∀ q, pid (ps (upd p g s) q) = pid (ps s q) ∧ parent (ps (upd p g s) q) = parent (ps s q) ∧
    (state (ps (upd p g s) q) = state (ps s q) ∨ (state (ps s q) = SLEEPING ∧ state (ps (upd p g s) q) = RUNNABLE))) as Hq.
  { intros q. destruct (decide (q = p)) as [->|]; [by rewrite tab_upd_eq|rewrite tab_upd_ne by done; auto]. }
  assert (∀ q, state (ps (upd p g s) q) = RUNNING ↔ state (ps s q) = RUNNING) as Hrun.
  { intros q. destruct (Hq q) as (_ & _ & [->|[-> ->]]); [done|by split]. }
  assert (∀ q, state (ps (upd p g s) q) ≠ UNUSED ↔ state (ps s q) ≠ UNUSED) as Hun.
  { intros q. destruct (Hq q) as (_ & _ & [->|[-> ->]]); [done|by split]. }
  assert (∀ q, alive (ps (upd p g s) q) ↔ alive (ps s q)) as Hal.
  { intros q. unfold alive, started. destruct (Hq q) as (_ & _ & [->|[-> ->]]); [done|by split]. }
  assert (∀ q, started (ps (upd p g s) q) ↔ started (ps s q)) as Hstd.
  { intros q. unfold started. destruct (Hq q) as (_ & _ & [->|[-> ->]]); [done|by split]. }
  split.
  - intros c q Hc. rewrite Hrun. by apply (pi_cpu _ Hi) in Hc.
  - intros q. rewrite Hrun. apply (pi_run _ Hi).
  - apply Hi.
  - intros q Hr. rewrite Hun, (proj1 (Hq q)). by apply (pi_pid _ Hi).
  - intros q q' Hr Hr'. rewrite !Hun, (proj1 (Hq q)), (proj1 (Hq q')). by apply (pi_uniq _ Hi).
  - intros q q' Hr. rewrite (proj1 (proj2 (Hq q))), Hal. by apply (pi_parent _ Hi).
  - intros q Hr. rewrite Hstd, (proj1 (proj2 (Hq q))). by apply (pi_child _ Hi).
  - intros q Hr Hu. rewrite (proj1 (proj2 (Hq q))). apply (pi_unused _ Hi); [done|].
    destruct (decide (state (ps s q) = UNUSED)) as [|Hn]; [done|]. by apply Hun in Hn.
  - destruct (pi_init _ Hi) as (H1 & H2 & H3). change (init (upd p g s)) with (init s). rewrite Hal, (proj1 (proj2 (Hq _))). done.
  - apply Hi.
Qed.

(** Case analysis on whether an entry or a CPU is the one that changes. *)
Ltac by_entry :=
  repeat match goal with
  | |- context [<[?p := _]> _ ?q] => destruct (decide (q = p)) as [->|?]; [rewrite !fn_lookup_insert|rewrite !fn_lookup_insert_ne by done]
  | H : context [<[?p := _]> _ ?q] |- _ => destruct (decide (q = p)) as [->|?]; [rewrite !fn_lookup_insert in H|rewrite !fn_lookup_insert_ne in H by done]
  end.

Section moves.
Context (s : psys) (Hi : pinv s).

(** A parent is neither unused, nor new, nor a zombie. *)
Lemma not_parent p q : in_table q → parent (ps s q) = Some p → ¬ alive (ps s p) → False.
Proof. intros Hq Hp Hn. by destruct (pi_parent _ Hi q p Hq Hp). Qed.

Lemma alloc_inv p : in_table p → state (ps s p) = UNUSED → pinv (take_pid (upd p (used_one (npid s)) s)).
Proof.
  intros Hp Hu. destruct (pi_npid _ Hi) as [Enp Hb0]. pose proof (pi_unused _ Hi p Hp Hu) as Hpar.
  assert (born s + 1 < 2 ^ 31 → npid s = born s + 1) as En by (intros; rewrite Enp; apply s32_small; lia).
  assert (∀ c, on_cpu s c ≠ Some p) as Hoff by (intros c Hc; apply (pi_cpu _ Hi) in Hc as [_ Hc]; congruence).
  assert (¬ alive (ps s p)) as Hna by (intros [[? _] _]; done).
  split; unfold take_pid, upd; cbn [ps on_cpu npid init born].
  - intros c q Hc. destruct (decide (q = p)) as [->|]; [by apply Hoff in Hc|]. rewrite fn_lookup_insert_ne by done. by apply (pi_cpu _ Hi c).
  - intros q. by_entry; [done|]. apply (pi_run _ Hi).
  - apply (pi_once _ Hi).
  - intros q Hq. by_entry; [simpl; lia|]. intros Hs Hb. pose proof (pi_pid _ Hi q Hq Hs). lia.
  - intros q q' Hq Hq'. by_entry; simpl; intros H1 H2 E Hb; try done.
    + pose proof (pi_pid _ Hi q' Hq' H2). lia.
    + pose proof (pi_pid _ Hi q Hq H1). lia.
    + apply (pi_uniq _ Hi); try done. lia.
  - intros q q' Hq. destruct (decide (q = p)) as [->|]; [rewrite fn_lookup_insert; simpl; congruence|]. rewrite fn_lookup_insert_ne by done.
    intros Hpq. destruct (pi_parent _ Hi q q' Hq Hpq) as [Hr Ha]. split; [done|]. rewrite fn_lookup_insert_ne; [done|]. by intros ->.
  - intros q Hq. by_entry; [by intros [_ []]|]. by apply (pi_child _ Hi).
  - intros q Hq. by_entry; [done|]. by apply (pi_unused _ Hi).
  - destruct (pi_init _ Hi) as (H1 & H2 & H3). rewrite fn_lookup_insert_ne; [done|]. by intros ->.
  - split; [|lia]. rewrite Enp. apply s32_add_l.
Qed.

Lemma clear_inv p : in_table p → (∀ q, in_table q → parent (ps s q) ≠ Some p) → (∀ c, on_cpu s c ≠ Some p) → p ≠ init s → pinv (upd p clear_one s).
Proof.
  intros Hp Hnc Hoff Hni. split; unfold upd; cbn [ps on_cpu npid init born].
  - intros c q Hc. destruct (decide (q = p)) as [->|]; [by apply Hoff in Hc|]. rewrite fn_lookup_insert_ne by done. by apply (pi_cpu _ Hi c).
  - intros q. by_entry; [done|]. apply (pi_run _ Hi).
  - apply (pi_once _ Hi).
  - intros q Hq. by_entry; [done|]. by apply (pi_pid _ Hi).
  - intros q q' Hq Hq'. by_entry; simpl; intros H1 H2 E; try done. by apply (pi_uniq _ Hi).
  - intros q q' Hq. destruct (decide (q = p)) as [->|]; [rewrite fn_lookup_insert; done|]. rewrite fn_lookup_insert_ne by done.
    intros Hpq. destruct (pi_parent _ Hi q q' Hq Hpq) as [Hr Ha]. split; [done|]. rewrite fn_lookup_insert_ne; [done|].
    intros ->. by apply (Hnc q).
  - intros q Hq. by_entry; [by intros []|]. by apply (pi_child _ Hi).
  - intros q Hq. by_entry; [done|]. by apply (pi_unused _ Hi).
  - rewrite fn_lookup_insert_ne by done. apply Hi.
  - apply Hi.
Qed.

Lemma adopt_inv c p np : on_cpu s c = Some p → in_table np → state (ps s np) = USED → parent (ps s np) = None →
  pinv (upd np (set_parent (Some p)) s).
Proof.
  intros Hc Hnp Hu Hpar. destruct (pi_cpu _ Hi c p Hc) as [Hp Hrun].
  assert (∀ q, state (ps (upd np (set_parent (Some p)) s) q) = state (ps s q) ∧ pid (ps (upd np (set_parent (Some p)) s) q) = pid (ps s q)) as Hq.
  { intros q. destruct (decide (q = np)) as [->|]; [by rewrite tab_upd_eq|by rewrite tab_upd_ne]. }
  split; cbn [on_cpu npid init born upd].
  - intros c' q Hc'. rewrite (proj1 (Hq q)). by apply (pi_cpu _ Hi c').
  - intros q. rewrite (proj1 (Hq q)). apply (pi_run _ Hi).
  - apply (pi_once _ Hi).
  - intros q. rewrite (proj1 (Hq q)), (proj2 (Hq q)). apply (pi_pid _ Hi).
  - intros q q'. rewrite !(proj1 (Hq _)), !(proj2 (Hq _)). apply (pi_uniq _ Hi).
  - intros q q' Hqt. unfold alive, started. rewrite !(proj1 (Hq _)). destruct (decide (q = np)) as [->|].
    + rewrite tab_upd_eq. simpl. intros [= <-]. rewrite Hrun. done.
    + rewrite tab_upd_ne by done. by apply (pi_parent _ Hi).
  - intros q Hqt. unfold started. rewrite !(proj1 (Hq _)). destruct (decide (q = np)) as [->|].
    + rewrite tab_upd_eq. simpl. right. eauto.
    + rewrite tab_upd_ne by done. by apply (pi_child _ Hi).
  - intros q Hqt. rewrite (proj1 (Hq q)). destruct (decide (q = np)) as [->|]; [congruence|]. rewrite tab_upd_ne by done. by apply (pi_unused _ Hi).
  - destruct (pi_init _ Hi) as (H1 & H2 & H3). unfold alive, started. rewrite (proj1 (Hq _)). split_and!; try done; try apply H1; try apply H2.
    rewrite tab_upd_ne; [done|]. intros <-. destruct H2 as [[_ ?] _]. done.
  - apply (pi_npid _ Hi).
Qed.

(** An entry that is not alive can be cleared. *)
Lemma free_inv p : in_table p → ¬ alive (ps s p) → pinv (upd p clear_one s).
Proof.
  intros Hp Hna. apply clear_inv; [done| | |].
  - intros q Hq Hpar. by apply (not_parent p q).
  - intros c Hc. apply (pi_cpu _ Hi) in Hc as [_ Hc]. apply Hna. unfold alive, started. by rewrite Hc.
  - intros ->. by destruct (pi_init _ Hi) as (_ & ? & _).
Qed.

(** A change of the state of one entry that keeps it alive or makes it so, together
    with the CPU it runs on. *)
Lemma state_inv p g oc : in_table p → pid (g (ps s p)) = pid (ps s p) → parent (g (ps s p)) = parent (ps s p) → state (ps s p) ≠ UNUSED →
  alive (g (ps s p)) → (alive (ps s p) ∨ parent (ps s p) ≠ None) →
  (∀ c q, oc c = Some q → (q = p → state (g (ps s p)) = RUNNING) ∧ (q ≠ p → on_cpu s c = Some q)) →
  (∀ c q, q ≠ p → on_cpu s c = Some q → oc c = Some q) →
  (state (g (ps s p)) = RUNNING → ∃ c, oc c = Some p) → (∀ c c', oc c = Some p → oc c' = Some p → c = c') →
  pinv (mk_psys (ps (upd p g s)) oc (npid s) (init s) (born s)).
Proof.
  intros Hp Epid Epar Hus Hal Hpar Hoc Hoc' Hrun Honce.
  assert (∀ q, in_table q → alive (ps s q) → alive (ps (upd p g s) q)) as Hal'.
  { intros q Hq Ha. destruct (decide (q = p)) as [->|]; [by rewrite tab_upd_eq|by rewrite tab_upd_ne]. }
  assert (∀ q, parent (ps (upd p g s) q) = parent (ps s q) ∧ pid (ps (upd p g s) q) = pid (ps s q)) as Hq.
  { intros q. destruct (decide (q = p)) as [->|]; [by rewrite tab_upd_eq|by rewrite tab_upd_ne]. }
  assert (∀ q, state (ps (upd p g s) q) ≠ UNUSED → state (ps s q) ≠ UNUSED) as Hun.
  { intros q. destruct (decide (q = p)) as [->|]; [done|by rewrite tab_upd_ne]. }
  split; cbn [ps on_cpu npid init born].
  - intros c q Hc. destruct (Hoc c q Hc) as [H1 H2]. destruct (decide (q = p)) as [->|].
    + rewrite tab_upd_eq. auto.
    + rewrite tab_upd_ne by done. apply (pi_cpu _ Hi c). auto.
  - intros q. destruct (decide (q = p)) as [->|]; [rewrite tab_upd_eq; auto|]. rewrite tab_upd_ne by done.
    intros Hr Hqt. destruct (pi_run _ Hi q Hr Hqt) as [c Hc]. exists c. auto.
  - intros c c' q Hc Hc'. destruct (decide (q = p)) as [->|]; [eauto|]. apply (pi_once _ Hi c c' q); apply Hoc; done.
  - intros q Hqt Hs. rewrite (proj2 (Hq q)). by apply (pi_pid _ Hi), Hun.
  - intros q q' Hqt Hqt' H1 H2. rewrite !(proj2 (Hq _)). apply (pi_uniq _ Hi); auto.
  - intros q q' Hqt. rewrite (proj1 (Hq q)). intros Hpq. destruct (pi_parent _ Hi q q' Hqt Hpq). auto.
  - intros q Hqt Hst. rewrite (proj1 (Hq q)). destruct (decide (q = p)) as [->|].
    + destruct Hpar as [Ha|Hn]; [apply (pi_child _ Hi p Hp); apply Ha|]. right. destruct (parent (ps s p)) as [r|]; [by exists r|done].
    + rewrite tab_upd_ne in Hst by done. by apply (pi_child _ Hi).
  - intros q Hqt Hu. rewrite (proj1 (Hq q)). apply (pi_unused _ Hi q Hqt). destruct (decide (q = p)) as [->|].
    + rewrite tab_upd_eq in Hu. destruct Hal as [[? _] _]. done.
    + by rewrite tab_upd_ne in Hu.
  - destruct (pi_init _ Hi) as (H1 & H2 & H3). rewrite (proj1 (Hq _)). auto.
  - apply (pi_npid _ Hi).
Qed.

Lemma ready_inv np p : in_table np → state (ps s np) = USED → parent (ps s np) = Some p → pinv (upd np (set_state RUNNABLE) s).
Proof.
  intros Hnp Hu Hpar. apply (state_inv np (set_state RUNNABLE) (on_cpu s)); try done.
  - congruence.
  - right. congruence.
  - intros c q Hc. split; [|done]. intros ->. apply (pi_cpu _ Hi) in Hc as [_ Hc]. congruence.
  - intros c c'. apply (pi_once _ Hi).
Qed.

Lemma run_inv c p : on_cpu s c = None → in_table p → state (ps s p) = RUNNABLE → pinv (place c (Some p) (upd p (set_state RUNNING) s)).
Proof.
  intros Hc Hp Hst. assert (∀ c', on_cpu s c' ≠ Some p) as Hoff by (intros c' Hc'; apply (pi_cpu _ Hi) in Hc' as [_ ?]; congruence).
  apply (state_inv p (set_state RUNNING) (<[c := Some p]> (on_cpu s))); try done.
  - congruence.
  - left. unfold alive, started. by rewrite Hst.
  - intros c' q Hc'. split; [done|]. intros Hne. revert Hc'. by_entry; [|done]. congruence.
  - intros c' q Hne Hc'. by_entry; [congruence|done].
  - intros _. exists c. by rewrite fn_lookup_insert.
  - intros c1 c2. by_entry; intros H1 H2; try done; by apply Hoff in H1 || by apply Hoff in H2.
Qed.

Lemma leave_inv c p g : on_cpu s c = Some p → pid (g (ps s p)) = pid (ps s p) → parent (g (ps s p)) = parent (ps s p) →
  alive (g (ps s p)) → state (g (ps s p)) ≠ RUNNING → pinv (place c None (upd p g s)).
Proof.
  intros Hc E1 E2 Hal Hnr. destruct (pi_cpu _ Hi c p Hc) as [Hp Hst].
  apply (state_inv p g (<[c := None]> (on_cpu s))); try done.
  - congruence.
  - left. unfold alive, started. by rewrite Hst.
  - intros c' q. by_entry; [done|]. intros Hc'. split; [|done]. intros ->. by pose proof (pi_once _ Hi c' c p Hc' Hc).
  - intros c' q Hne Hc'. by_entry; [congruence|done].
  - intros c1 c2. by_entry; intros H1 H2; try done. by apply (pi_once _ Hi c1 c2 p).
Qed.

End moves.

(** [exit]: its children go to init, then it is a zombie, which nobody has for a
    parent. *)
Lemma reparent_inv s p : pinv s → p ≠ init s → pinv (reparent_all p s) ∧ ∀ q, in_table q → parent (ps (reparent_all p s) q) ≠ Some p.
Proof.
  intros Hi Hni. destruct (pi_init _ Hi) as (Hin & Hal & Hip).
  assert (∀ q, state (ps (reparent_all p s) q) = state (ps s q) ∧ pid (ps (reparent_all p s) q) = pid (ps s q) ∧
    parent (ps (reparent_all p s) q) = if decide (parent (ps s q) = Some p) then Some (init s) else parent (ps s q)) as Hq.
  { intros q. simpl. unfold reparent_one. case_decide; [by rewrite bool_decide_true|by rewrite bool_decide_false]. }
  split; [split; cbn [on_cpu npid init born reparent_all]|].
  - intros c q Hc. rewrite (proj1 (Hq q)). by apply (pi_cpu _ Hi c).
  - intros q. rewrite (proj1 (Hq q)). apply (pi_run _ Hi).
  - apply (pi_once _ Hi).
  - intros q. rewrite (proj1 (Hq q)), (proj1 (proj2 (Hq q))). apply (pi_pid _ Hi).
  - intros q q'. rewrite !(proj1 (Hq _)), !(proj1 (proj2 (Hq _))). apply (pi_uniq _ Hi).
  - intros q q' Hqt. unfold alive, started. rewrite !(proj1 (Hq _)), (proj2 (proj2 (Hq q))). case_decide; [intros [= <-]; done|]. by apply (pi_parent _ Hi).
  - intros q Hqt. unfold started. rewrite !(proj1 (Hq _)), (proj2 (proj2 (Hq q))). intros Hst. case_decide; [right; eauto|]. by apply (pi_child _ Hi).
  - intros q Hqt. rewrite (proj1 (Hq q)), (proj2 (proj2 (Hq q))). intros Hu. rewrite (pi_unused _ Hi q Hqt Hu). done.
  - unfold alive, started. rewrite (proj1 (Hq _)), (proj2 (proj2 (Hq _))), Hip. done.
  - apply (pi_npid _ Hi).
  - intros q Hqt. rewrite (proj2 (proj2 (Hq q))). case_decide; [|done]. by intros [= ?].
Qed.

Lemma exit_inv s c p status : pinv s → on_cpu s c = Some p → p ≠ init s →
  pinv (place c None (upd p (zombie_one status) (reparent_all p s))).
Proof.
  intros Hi0 Hc Hni. destruct (reparent_inv s p Hi0 Hni) as [Hi Hnc]. set (s1 := reparent_all p s) in *.
  change (on_cpu s1 c = Some p) in Hc. change (p ≠ init s1) in Hni. clearbody s1. clear s Hi0.
  destruct (pi_cpu _ Hi c p Hc) as [Hp Hst].
  split; unfold place, upd; cbn [ps on_cpu npid init born].
  - intros c' q. by_entry; try done. + intros Hc'. by pose proof (pi_once _ Hi c' c p Hc' Hc). + apply (pi_cpu _ Hi).
  - intros q. by_entry; [done|]. intros Hr Hqt. destruct (pi_run _ Hi q Hr Hqt) as [c' Hc']. exists c'. by_entry; [congruence|done].
  - intros c1 c2 q. by_entry; try done. apply (pi_once _ Hi).
  - intros q Hqt. by_entry; [|by apply (pi_pid _ Hi)]. intros _. apply (pi_pid _ Hi p Hp). congruence.
  - intros q q' Hqt Hqt'. by_entry; simpl; intros H1 H2 E; try done; apply (pi_uniq _ Hi); try done; congruence.
  - intros q q' Hqt. assert (parent (<[p := zombie_one status (ps s1 p)]> (ps s1) q) = parent (ps s1 q)) as -> by (by by_entry).
    intros Hpq. destruct (pi_parent _ Hi q q' Hqt Hpq). split; [done|]. rewrite fn_lookup_insert_ne; [done|]. intros ->. by apply (Hnc q).
  - intros q Hqt. by_entry; [|by apply (pi_child _ Hi)]. intros _. simpl. apply (pi_child _ Hi p Hp). unfold started. by rewrite Hst.
  - intros q Hqt. by_entry; [done|by apply (pi_unused _ Hi)].
  - rewrite fn_lookup_insert_ne by done. apply (pi_init _ Hi).
  - apply (pi_npid _ Hi).
Qed.

Lemma pstep_inv s s' : pinv s → pstep s s' → pinv s'.
Proof.
  intros Hi Hst. destruct Hst.
  - by apply alloc_inv.
  - apply free_inv; [done..|]. intros [[_ ?] _]. done.
  - by eapply adopt_inv.
  - by eapply ready_inv.
  - by apply run_inv.
  - by apply leave_inv.
  - by apply leave_inv.
  - apply pinv_live; [done|]. by split_and!; [..|left].
  - apply pinv_live; [done|]. unfold live_change, wakeup_one.
    destruct (bool_decide _) eqn:E; simpl; [bsimpl; case_bool_decide; simpl; tauto|tauto].
  - apply pinv_live; [done|]. unfold live_change, kill_one. simpl. case_bool_decide; simpl; tauto.
  - apply pinv_live; [done|]. by split_and!; [..|left].
  - by apply exit_inv.
  - apply free_inv; [done..|]. intros [_ ?]. done.
Qed.

(** What userinit leaves: init is runnable, the other entries are unused. *)
Definition first_process (s : psys) : Prop :=
  in_table (init s) ∧ state (ps s (init s)) = RUNNABLE ∧ pid (ps s (init s)) = 1 ∧ npid s = 2 ∧ born s = 1 ∧
  (∀ p, in_table p → parent (ps s p) = None ∧ (p ≠ init s → state (ps s p) = UNUSED)) ∧ ∀ c, on_cpu s c = None.

Lemma first_inv s : first_process s → pinv s.
Proof.
  intros (Hin & Hst & Hpid & Hn & Hb & Hrest & Hcpu).
  assert (∀ p, in_table p → state (ps s p) ≠ UNUSED → p = init s) as Hone.
  { intros p Hp Hu. destruct (decide (p = init s)); [done|]. exfalso. by apply Hu, Hrest. }
  split.
  - intros c p. by rewrite Hcpu.
  - intros p Hr Hp. pose proof (Hone p Hp ltac:(congruence)). congruence.
  - intros c c' p. by rewrite Hcpu.
  - intros p Hp Hu. rewrite (Hone p Hp Hu). lia.
  - intros p q Hp Hq Hu Hu' _. rewrite (Hone p Hp Hu). by rewrite (Hone q Hq Hu').
  - intros p q Hp Hpar. destruct (Hrest p Hp) as [? _]. congruence.
  - intros p Hp [Hu _]. left. auto.
  - intros p Hp _. by apply Hrest.
  - split; [done|]. split; [|by apply Hrest]. unfold alive, started. by rewrite Hst.
  - rewrite Hn, Hb. done.
Qed.

(** [C4] The process table.  In every state the system can reach after the first
    process is set up, under every interleaving of allocproc, fork, the scheduler,
    yield, sleep, wakeup, kill, exit and wait on any number of CPUs: a process runs
    on at most one CPU, and on one exactly if its state says so; no two processes in
    the table have the same pid, as long as fewer than 2^31 pids have been given out
    since boot ([nextpid] is an int that wraps around after that); and every zombie has a parent that is alive, in
    whose table scan wait finds it. *)
Theorem process_table s0 s : first_process s0 → rtc pstep s0 s →
  (∀ c c' p, on_cpu s c = Some p → on_cpu s c' = Some p → c = c') ∧
  (∀ p, in_table p → state (ps s p) = RUNNING ↔ ∃ c, on_cpu s c = Some p) ∧
  (born s < 2 ^ 31 → ∀ p q, in_table p → in_table q → state (ps s p) ≠ UNUSED → state (ps s q) ≠ UNUSED →
    pid (ps s p) = pid (ps s q) → p = q) ∧
  (∀ p, in_table p → state (ps s p) = ZOMBIE → ∃ q, in_table q ∧ parent (ps s p) = Some q ∧ alive (ps s q)).
Proof.
  intros Hf Hs. assert (pinv s) as Hi.
  { apply first_inv in Hf. induction Hs; [done|]. apply IHHs. by eapply pstep_inv. }
  split_and!.
  - apply (pi_once _ Hi).
  - intros p Hp. split; [intros Hr; by apply (pi_run _ Hi)|]. intros [c Hc]. by apply (pi_cpu _ Hi c).
  - intros Hb p q. intros. by apply (pi_uniq _ Hi).
  - intros p Hp Hz. destruct (pi_child _ Hi p Hp) as [->|[q Hq]]; [unfold started; by rewrite Hz| |].
    + destruct (pi_init _ Hi) as (_ & [_ ?] & _). done.
    + destruct (pi_parent _ Hi p q Hp Hq). by exists q.
Qed.

(** ** Witness *)

Definition demo_table : Z → proc := λ p,
  mk_proc (if p =? 0 then RUNNABLE else UNUSED) NoChan false 0 (if p =? 0 then 1 else 0) None 0 0 0 0 [] (λ _, None) None [].
Definition demo_sys : psys := mk_psys demo_table (λ _, None) 2 0 1.

(** init runs on CPU 0 and forks process 1, which runs on CPU 1 and exits. *)
Definition demo_end : psys :=
  let s := place 0 (Some 0) (upd 0 (set_state RUNNING) demo_sys) in
  let s := take_pid (upd 1 (used_one (npid s)) s) in
  let s := upd 1 (set_state RUNNABLE) (upd 1 (set_parent (Some 0)) s) in
  let s := place 1 (Some 1) (upd 1 (set_state RUNNING) s) in
  place 1 None (upd 1 (zombie_one 7) (reparent_all 1 s)).

Lemma demo_run : rtc pstep demo_sys demo_end.
Proof.
  eapply rtc_l; [apply (St_run demo_sys 0 0); vm_compute; (done || split; done || (split; [discriminate|done]))|].
  eapply rtc_l; [apply (St_alloc _ 1); vm_compute; (done || (split; [discriminate|done]))|].
  eapply rtc_l; [apply (St_adopt _ 0 0 1); vm_compute; (done || (split; [discriminate|done]))|].
  eapply rtc_l; [apply (St_ready _ 1 0); vm_compute; (done || (split; [discriminate|done]))|].
  eapply rtc_l; [apply (St_run _ 1 1); vm_compute; (done || (split; [discriminate|done]))|].
  eapply rtc_l; [apply (St_exit _ 1 1 7); vm_compute; (done || discriminate)|]. apply rtc_refl.
Qed.

Lemma process_table_witness : first_process demo_sys ∧ state (ps demo_end 1) = ZOMBIE ∧
  ∃ q, in_table q ∧ parent (ps demo_end 1) = Some q ∧ alive (ps demo_end q).
Proof.
  assert (first_process demo_sys) as Hf.
  { split_and!; try (vm_compute; done). intros p _. cbn. split; [done|]. intros Hne.
    destruct (p =? 0) eqn:E; [bsimpl; by subst|done]. }
  assert (state (ps demo_end 1) = ZOMBIE) as Hz by (vm_compute; reflexivity).
  split; [exact Hf|]. split; [exact Hz|].
  apply (process_table demo_sys demo_end Hf demo_run); [vm_compute; split; [discriminate|reflexivity]|exact Hz].
Defined.

End ProcInv.
