(* ===== verification/ProcSleep.v ===== *)
(** * sleep and wakeup lose no wakeup

    Processes share data under a lock [lk].  A process that needs a condition on
    the data takes the lock and calls sleep(chan, lk) for as long as the condition
    does not hold; a process that makes it hold calls wakeup(chan) before it
    releases the lock.  The steps are those of sleep and wakeup in proc.c, cut at
    every acquire and release of [lk] and of a process's lock, and interleave
    freely; kill may interrupt a sleep. *)

From S2P Require Import Prelude Mem Bytes Riscv Kernel Proc.
Import Riscv Kernel Proc.

Module ProcSleep.

(** Where a process is. *)
Inductive pc :=
  | Idle                (* not using the data *)
  | Have                (* holds lk *)
  | SleepBoth           (* sleep: holds p->lock and still lk *)
  | SleepOwn            (* sleep: has released lk *)
  | Asleep              (* sleep: in sched(), p->lock released by the scheduler *)
  | Woken               (* sleep: sched() has returned, p->lock held *)
  | Retake              (* sleep: p->lock released, about to take lk *)
  | Wakeup (k : Z)      (* wakeup, with lk: about to lock entry k *)
  | WakeupAt (k : Z).   (* wakeup, with lk: entry k locked *)

Record sys := mk_sys {
  ps : Z → proc; pcs : Z → pc; lk : option Z; plk : Z → option Z; cond : bool }.

Definition at_pc (p : Z) (c : pc) (s : sys) : sys := mk_sys (ps s) (<[p := c]> (pcs s)) (lk s) (plk s) (cond s).
Definition set_lk (o : option Z) (s : sys) : sys := mk_sys (ps s) (pcs s) o (plk s) (cond s).
Definition set_plk (p : Z) (o : option Z) (s : sys) : sys := mk_sys (ps s) (pcs s) (lk s) (<[p := o]> (plk s)) (cond s).
Definition set_cond (b : bool) (s : sys) : sys := mk_sys (ps s) (pcs s) (lk s) (plk s) b.
Definition upd (p : Z) (g : proc → proc) (s : sys) : sys := mk_sys (<[p := g (ps s p)]> (ps s)) (pcs s) (lk s) (plk s) (cond s).

Definition in_table (p : Z) : Prop := 0 ≤ p < NPROC.

Section sleep.
Context (ch : channel).

Inductive step (s : sys) : sys → Prop :=
  | S_take p : in_table p → pcs s p = Idle → lk s = None → step s (at_pc p Have (set_lk (Some p) s))
  (* the condition holds: go on, change the data, release lk *)
  | S_pass p b : pcs s p = Have → cond s = true → step s (at_pc p Idle (set_lk None (set_cond b s)))
  (* sleep: acquire(&p->lock); release(lk); p->chan = chan, p->state = SLEEPING, sched() *)
  | S_sleep p : pcs s p = Have → cond s = false → plk s p = None → step s (at_pc p SleepBoth (set_plk p (Some p) s))
  | S_drop p : pcs s p = SleepBoth → step s (at_pc p SleepOwn (set_lk None s))
  | S_switch p : pcs s p = SleepOwn → step s (at_pc p Asleep (set_plk p None (upd p (sleep_one ch) s)))
  (* the scheduler runs it again; p->chan = 0; release(&p->lock); acquire(lk) *)
  | S_run p : pcs s p = Asleep → state (ps s p) = RUNNABLE → plk s p = None →
      step s (at_pc p Woken (set_plk p (Some p) (upd p (set_state RUNNING) s)))
  | S_tidy p : pcs s p = Woken → step s (at_pc p Retake (set_plk p None (upd p (set_chan NoChan) s)))
  | S_retake p : pcs s p = Retake → lk s = None → step s (at_pc p Have (set_lk (Some p) s))
  (* the condition is made to hold; wakeup(chan) *)
  | S_signal p : pcs s p = Have → step s (at_pc p (Wakeup 0) (set_cond true s))
  | S_skip p : pcs s p = Wakeup p → step s (at_pc p (Wakeup (p + 1)) s)
  | S_entry p k : pcs s p = Wakeup k → 0 ≤ k < NPROC → k ≠ p → plk s k = None →
      step s (at_pc p (WakeupAt k) (set_plk k (Some p) s))
  | S_wake p k : pcs s p = WakeupAt k → step s (at_pc p (Wakeup (k + 1)) (set_plk k None (upd k (wakeup_one ch) s)))
  | S_done p : pcs s p = Wakeup NPROC → step s (at_pc p Idle (set_lk None s))
  (* kill, by a process outside *)
  | S_kill p : plk s p = None → step s (upd p kill_one s).

(** A wakeup that has not come past entry [p]. *)
Definition pending (p : Z) (s : sys) : Prop := ∃ w k, (pcs s w = Wakeup k ∨ pcs s w = WakeupAt k) ∧ k ≤ p.

Definition with_lk (c : pc) : Prop :=
  match c with Have | SleepBoth | Wakeup _ | WakeupAt _ => True | _ => False end.

Definition asleep (p : Z) (s : sys) : Prop := pcs s p = Asleep ∧ state (ps s p) = SLEEPING.

Record inv (s : sys) : Prop := {
  i_lk : ∀ p, with_lk (pcs s p) ↔ lk s = Some p;
  i_own : ∀ p, pcs s p = SleepBoth ∨ pcs s p = SleepOwn ∨ pcs s p = Woken → plk s p = Some p;
  i_entry : ∀ w k, pcs s w = WakeupAt k → plk s k = Some w;
  i_cond : ∀ p, pcs s p = SleepBoth → cond s = false;
  i_chan : ∀ p, pcs s p = Asleep → chan (ps s p) = ch;
  i_tab : ∀ p, pcs s p ≠ Idle → in_table p;
  i_pend : ∀ p, cond s = true → pcs s p = SleepOwn ∨ asleep p s → pending p s }.

(** ** Preservation *)

Ltac at_entry q p :=
  destruct (decide (q = p)) as [->|?]; [rewrite ?fn_lookup_insert in *|rewrite ?fn_lookup_insert_ne in * by done].
Ltac step_cases Hst := destruct Hst; cbn [ps pcs lk plk cond at_pc set_lk set_plk set_cond upd] in *.

Section preserved.
Context (s s' : sys) (Hi : inv s) (Hst : step s s').

Lemma lk_step : ∀ q, with_lk (pcs s' q) ↔ lk s' = Some q.
Proof.
  intros q. pose proof (i_lk _ Hi q) as Hq. step_cases Hst; try exact Hq;
    pose proof (i_lk _ Hi p) as Hp; rewrite H in Hp || rewrite H0 in Hp; cbn [with_lk] in Hp; at_entry q p; cbn [with_lk]; naive_solver.
Qed.

Lemma own_step : ∀ q, pcs s' q = SleepBoth ∨ pcs s' q = SleepOwn ∨ pcs s' q = Woken → plk s' q = Some q.
Proof.
  intros q. pose proof (i_own _ Hi q) as Hq. step_cases Hst; try exact Hq; at_entry q p; try naive_solver.
  - intros Hor. destruct (decide (q = k)) as [->|]; [|rewrite fn_lookup_insert_ne by done; auto]. by specialize (Hq Hor); congruence.
  - intros Hor. destruct (decide (q = k)) as [->|]; [|rewrite fn_lookup_insert_ne by done; auto].
    pose proof (i_entry _ Hi p k H). specialize (Hq Hor). congruence.
Qed.

Lemma entry_step : ∀ w j, pcs s' w = WakeupAt j → plk s' j = Some w.
Proof.
  intros w j. pose proof (i_entry _ Hi w j) as Hw. step_cases Hst; try exact Hw; at_entry w p; try naive_solver.
  - intros Hj. specialize (Hw Hj). at_entry j p; congruence.
  - intros Hj. specialize (Hw Hj). pose proof (i_own _ Hi p). at_entry j p; naive_solver.
  - intros Hj. specialize (Hw Hj). at_entry j p; congruence.
  - intros Hj. specialize (Hw Hj). pose proof (i_own _ Hi p). at_entry j p; naive_solver.
  - intros [= <-]. by rewrite fn_lookup_insert.
  - intros Hj. specialize (Hw Hj). at_entry j k; congruence.
  - intros Hj. specialize (Hw Hj). pose proof (i_entry _ Hi p k H). at_entry j k; congruence.
Qed.

Lemma cond_step : ∀ q, pcs s' q = SleepBoth → cond s' = false.
Proof.
  intros q. pose proof (i_cond _ Hi q) as Hq. step_cases Hst; try exact Hq; at_entry q p; try naive_solver.
  - intros Hb. pose proof (i_lk _ Hi q) as H1. pose proof (i_lk _ Hi p) as H2. rewrite Hb in H1. rewrite H in H2. naive_solver.
  - intros Hb. pose proof (i_lk _ Hi q) as H1. pose proof (i_lk _ Hi p) as H2. rewrite Hb in H1. rewrite H in H2. naive_solver.
Qed.

Lemma chan_step : ∀ q, pcs s' q = Asleep → chan (ps s' q) = ch.
Proof.
  intros q. pose proof (i_chan _ Hi q) as Hq. step_cases Hst; try exact Hq; at_entry q p; try naive_solver.
  - intros Ha. specialize (Hq Ha). at_entry q k; [|done]. unfold wakeup_one. case_match; done.
  - intros Ha. specialize (Hq Ha). unfold kill_one. case_match; done.
Qed.

Lemma tab_step : ∀ q, pcs s' q ≠ Idle → in_table q.
Proof.
  intros q. pose proof (i_tab _ Hi q) as Hq. step_cases Hst; try exact Hq; at_entry q p; try done; intros _; apply Hq; congruence.
Qed.

(** A wakeup under way is moved along, not lost, by a step of another process. *)
Lemma pending_keep q : pending q s → (∀ w k, pcs s w = Wakeup k ∨ pcs s w = WakeupAt k → pcs s' w = pcs s w) → pending q s'.
Proof. intros (w & k & Hw & Hk) Hsame. exists w, k. split; [|done]. by rewrite (Hsame w k Hw). Qed.

(** The process in wakeup holds the lock. *)
Lemma waker_holds w k : pcs s w = Wakeup k ∨ pcs s w = WakeupAt k → lk s = Some w.
Proof. intros [E|E]; apply (i_lk _ Hi); by rewrite E. Qed.

(** A step of a process that is not in wakeup keeps every wakeup pending. *)
Lemma pending_other p c q : (∀ k, pcs s p ≠ Wakeup k) → (∀ k, pcs s p ≠ WakeupAt k) → pcs s' = <[p := c]> (pcs s) → pending q s → pending q s'.
Proof.
  intros H1 H2 E Hq. apply (pending_keep q Hq). intros w k Hw. rewrite E. rewrite fn_lookup_insert_ne; [done|]. intros ->. naive_solver.
Qed.

(** The only wakeup there is moves on to entry [k']. *)
Lemma pending_moved p q k' : (∀ k, pcs s p = Wakeup k ∨ pcs s p = WakeupAt k → k ≤ q → k' ≤ q) → with_lk (pcs s p) →
  (pcs s' p = Wakeup k' ∨ pcs s' p = WakeupAt k') → pending q s → pending q s'.
Proof.
  intros Hk Hp Hp' (w & k & Hw & Hle). exists p, k'. split; [done|].
  pose proof (waker_holds w k Hw) as E1. apply (i_lk _ Hi) in Hp. assert (w = p) as -> by congruence. eauto.
Qed.

End preserved.

Lemma no_waker s p q : inv s → with_lk (pcs s p) → (∀ k, pcs s p ≠ Wakeup k) → (∀ k, pcs s p ≠ WakeupAt k) → ¬ pending q s.
Proof.
  intros Hi Hp H1 H2 (w & k & Hw & _). pose proof (waker_holds s Hi w k Hw) as E. apply (i_lk _ Hi) in Hp.
  assert (w = p) as -> by congruence. naive_solver.
Qed.

Lemma pend_step s s' : inv s → step s s' → ∀ q, cond s' = true → pcs s' q = SleepOwn ∨ asleep q s' → pending q s'.
Proof.
  intros Hi Hst q Hc Hq. pose proof (i_pend _ Hi q) as Hp. unfold asleep in *. inversion Hst; subst s';
    cbn [ps pcs lk plk cond at_pc set_lk set_plk set_cond upd] in *.
  - apply (pending_other s _ p Have); try done; [congruence..|]. apply Hp; [done|]. at_entry q p; naive_solver.
  - exfalso. apply (no_waker s p q Hi); [by rewrite H|congruence..|]. apply Hp; [done|]. at_entry q p; naive_solver.
  - congruence.
  - apply (pending_other s _ p SleepOwn); try done; [congruence..|]. apply Hp; [done|]. at_entry q p; [|naive_solver].
    pose proof (i_cond _ Hi p H). congruence.
  - apply (pending_other s _ p Asleep); try done; [congruence..|]. apply Hp; [done|]. at_entry q p; [by left|naive_solver].
  - apply (pending_other s _ p Woken); try done; [congruence..|]. apply Hp; [done|]. at_entry q p; naive_solver.
  - apply (pending_other s _ p Retake); try done; [congruence..|]. apply Hp; [done|]. at_entry q p; naive_solver.
  - apply (pending_other s _ p Have); try done; [congruence..|]. apply Hp; [done|]. at_entry q p; naive_solver.
  - exists p, 0. cbn [pcs at_pc]. rewrite fn_lookup_insert. split; [by left|]. at_entry q p; [naive_solver|].
    destruct (i_tab _ Hi q); [|lia]. naive_solver congruence.
  - at_entry q p; [naive_solver|]. apply (pending_moved s _ Hi p q (p + 1)); cbn [pcs at_pc]; rewrite ?fn_lookup_insert; [|by rewrite H|by left|by apply Hp].
    intros k [E|E] Hle; rewrite H in E; simplify_eq; lia.
  - at_entry q p; [naive_solver|]. apply (pending_moved s _ Hi p q k); cbn [pcs at_pc]; rewrite ?fn_lookup_insert; [|by rewrite H|by right|by apply Hp].
    intros k' [E|E] Hle; rewrite H in E; simplify_eq; lia.
  - at_entry q p; [naive_solver|]. pose proof (i_entry _ Hi p k H) as He. destruct (decide (q = k)) as [->|Hne].
    + exfalso. destruct Hq as [Hq|[Hq Hs]]; [pose proof (i_own _ Hi k ltac:(by auto)); congruence|].
      rewrite fn_lookup_insert in Hs. pose proof (i_chan _ Hi k Hq) as Hch. unfold wakeup_one in Hs. rewrite (bool_decide_true _ Hch) in Hs.
      destruct (decide (state (ps s k) = SLEEPING)); [rewrite bool_decide_true in Hs by done; done|].
      rewrite bool_decide_false in Hs by done. done.
    + rewrite fn_lookup_insert_ne in Hq by done.
      apply (pending_moved s _ Hi p q (k + 1)); cbn [pcs at_pc]; rewrite ?fn_lookup_insert; [|by rewrite H|by left|by apply Hp].
      intros k' [E|E] Hle; rewrite H in E; simplify_eq; lia.
  - exfalso. at_entry q p; [naive_solver|]. destruct (Hp Hc Hq) as (w & k & Hw & Hle).
    assert (lk s = Some p) as E1 by (apply (i_lk _ Hi); by rewrite H). pose proof (waker_holds s Hi w k Hw). assert (w = p) as -> by congruence.
    destruct (i_tab _ Hi q); [naive_solver congruence|]. destruct Hw as [E|E]; rewrite H in E; simplify_eq; lia.
  - assert (pending q s) as (w & k & Hw & Hle); [|by exists w, k]. apply Hp; [done|]. destruct Hq as [Hq|[Hq Hs]]; [by left|]. right. split; [done|].
    at_entry q p; [|done]. revert Hs. unfold kill_one. simpl. case_bool_decide; simpl; done.
Qed.

Lemma step_inv s s' : inv s → step s s' → inv s'.
Proof.
  intros Hi Hst. split; [by apply (lk_step s)|by apply (own_step s)|by apply (entry_step s)|by apply (cond_step s)|
    by apply (chan_step s)|by apply (tab_step s)|by apply (pend_step s)].
Qed.

(** Nobody uses the data or holds a lock yet. *)
Definition start (s : sys) : Prop := (∀ p, pcs s p = Idle) ∧ lk s = None ∧ ∀ p, plk s p = None.

(** [C5] sleep and wakeup.  Under every interleaving of processes that wait for a
    condition with sleep(chan, lk) and processes that make it hold and call
    wakeup(chan) with the lock held: a process that is asleep although the
    condition holds is still ahead of a wakeup that is under way; so whenever the
    lock is free, nobody sleeps while the condition holds. *)
Theorem sleep_wakeup_safe s0 s : start s0 → rtc step s0 s →
  (∀ p, cond s = true → asleep p s → pending p s) ∧ (lk s = None → cond s = true → ∀ p, ¬ asleep p s).
Proof.
  intros (H1 & H2 & H3) Hs. assert (inv s) as Hi.
  { assert (inv s0) as H0.
    { split; intros p; try (rewrite H1; naive_solver); try (intros k; rewrite H1; naive_solver). intros _. unfold asleep. rewrite H1. naive_solver. }
    clear H1 H2 H3. induction Hs; [done|]. apply IHHs. by eapply step_inv. }
  assert (∀ p, cond s = true → asleep p s → pending p s) as Hp by (intros p Hc Ha; apply (i_pend _ Hi); auto).
  split; [done|]. intros Hl Hc p Ha. destruct (Hp p Hc Ha) as (w & k & Hw & _). pose proof (waker_holds s Hi w k Hw). congruence.
Qed.

End sleep.

(** ** Witness *)

Definition demo_proc : proc := mk_proc RUNNING NoChan false 0 1 None 0 0 0 0 [] (λ _, None) None [].
Definition demo_start : sys := mk_sys (λ _, demo_proc) (λ _, Idle) None (λ _, None) false.

(** Process 1 goes to sleep; process 0 makes the condition hold. *)
Definition demo_mid : sys :=
  let s := at_pc 1 Have (set_lk (Some 1) demo_start) in
  let s := at_pc 1 SleepOwn (set_lk None (at_pc 1 SleepBoth (set_plk 1 (Some 1) s))) in
  let s := at_pc 1 Asleep (set_plk 1 None (upd 1 (sleep_one (ChAddr 8)) s)) in
  at_pc 0 (Wakeup 0) (set_cond true (at_pc 0 Have (set_lk (Some 0) s))).

Lemma demo_sleeps : rtc (step (ChAddr 8)) demo_start demo_mid.
Proof.
  eapply rtc_l; [apply (S_take _ _ 1); vm_compute; (done || (split; [discriminate|done]))|].
  eapply rtc_l; [apply (S_sleep _ _ 1); vm_compute; done|].
  eapply rtc_l; [apply (S_drop _ _ 1); vm_compute; done|].
  eapply rtc_l; [apply (S_switch _ _ 1); vm_compute; done|].
  eapply rtc_l; [apply (S_take _ _ 0); vm_compute; (done || (split; [discriminate|done]))|].
  eapply rtc_l; [apply (S_signal _ _ 0); vm_compute; done|]. apply rtc_refl.
Qed.

Lemma sleep_wakeup_safe_witness : asleep 1 demo_mid ∧ cond demo_mid = true ∧ pending 1 demo_mid.
Proof.
  assert (asleep 1 demo_mid) as Ha by (vm_compute; split; reflexivity).
  split; [exact Ha|]. split; [reflexivity|].
  refine (proj1 (sleep_wakeup_safe (ChAddr 8) demo_start demo_mid _ demo_sleeps) 1 eq_refl Ha). repeat split.
Defined.

End ProcSleep.
