(* ===== verification/FileLog.v ===== *)
(** * filewrite keeps to its reservation

    filewrite cuts a long write into transactions of at most [max_write] bytes, so
    that each stays within the MAXOPBLOCKS blocks begin_op reserves for it. *)

From S2P Require Import Prelude Bytes Spinlock Riscv ListH Sleeplock Bio Log LogCrash LogTx Journal CString Fs FsBlock FsInode FsFile FsWrite FsDir FsProps Kalloc Vm Pipe Kernel Proc File.
Import Riscv Bytes Lock Bio LogCrash Journal Fs FsBlock FsInode FsFile FsWrite FsDir FsProps.

Module FileLog.

(** At most four blocks are touched, and if it is four the first one exists. *)
Lemma cost_chunk off n : 0 ≤ off → 0 ≤ n ≤ File.max_write → cost off n + 3 ≤ MAXOPBLOCKS.
Proof.
  intros Ho Hn. change File.max_write with 3072 in Hn. change MAXOPBLOCKS with 10. unfold cost, nblk.
  change BSIZE with 1024. destruct (n <=? 0) eqn:E0; bsimpl.
  { destruct (0 <? n) eqn:E; bsimpl; [lia|]. simpl. lia. }
  destruct (0 <? n) eqn:E; bsimpl; [|lia]. cbn [andb]. destruct (off mod 1024 =? 0) eqn:E1; bsimpl; cbn [negb].
  - Z.to_euclidean_division_equations. lia.
  - Z.to_euclidean_division_equations. lia.
Qed.

(** [C25] The transactions of filewrite.  Whatever the offset, the file and the free
    blocks of the disk, the writei of one turn of filewrite's loop, of at most
    [max_write] bytes, adds at most MAXOPBLOCKS blocks to the log: the number
    begin_op reserves for each operation. *)
Theorem filewrite_reservation {J : Type} `{Journal J} d inp (s : @fsst J) v ip src off D : file_sys d s v →
  let x := itable s ip in let n := Z.of_nat (length D) in
  inode_ok d (sb s) x → inode_wf (sb s) x (j_cur v) → delivers inp src D → is_bytes D → 0 ≤ src < 2 ^ 64 →
  0 ≤ off ≤ isize x → off + n ≤ MAXFILE * BSIZE → n ≤ File.max_write → room s v (cost off n + 7) →
  wp (writei inp ip src off n) (λ r s', 0 ≤ r ≤ n ∧ ∃ v', file_sys d s' v' ∧ (r = n ∨ full s v') ∧
    Z.of_nat (base.size (j_log v')) ≤ Z.of_nat (base.size (j_log v)) + MAXOPBLOCKS) s.
Proof.
  intros Hf x n Hio Hwf Hinp HD Hsrc Hoff Hmax Hn Hroom. pose proof (cost_chunk off n ltac:(lia) ltac:(lia)) as Hc.
  eapply wp_mono; [apply (writei_ok d inp s v s ip src off D Hinp HD (fs_ready _ _ _ Hf) (fs_held _ _ _ Hf) (file_sys_self _ _ _ Hf) Hsrc Hio Hwf Hoff Hmax)|].
  { eapply room_le; [exact Hroom|fold n; lia]. }
  fold x n. intros r s1 (Hr & x' & v' & Hw & Hs1 & Hlog & Hfull). split; [done|]. exists v'. split_and!.
  - by eapply (file_sys_over d s v (upd_inode ip (λ _, x') s)); try done; apply Hw.
  - destruct Hfull as [Hr'|Hfull]; [by left|by right].
  - lia.
Qed.

Lemma filewrite_reservation_witness : ∃ l, wp (writei (kinp [104; 105]) 0 0 0 2) (λ r s', 0 ≤ r ≤ 2 ∧ ∃ v',
    file_sys 1 s' v' ∧ (r = 2 ∨ full (demo_fs l) v') ∧ Z.of_nat (base.size (j_log v')) ≤ 0 + MAXOPBLOCKS) (demo_fs l).
Proof.
  destruct demo_transaction as (l & Hf & Hroom). exists l. destruct demo_inode_wf as (Hio & Hwf & _).
  apply (filewrite_reservation 1 (kinp [104; 105]) (demo_fs l) demo_view 0 0 0 [104; 105] Hf Hio Hwf).
  - intros i m Hi Hm Him. cbn [length] in Him. unfold kinp. by rewrite Z.add_0_l, u64_small by lia.
  - repeat constructor; lia.
  - lia.
  - vm_compute. split; discriminate.
  - vm_compute. discriminate.
  - vm_compute. discriminate.
  - exact Hroom.
Defined.

End FileLog.
