(* ===== verification/FsCrash.v ===== *)
(** * Writing a file survives a crash

    The whole storage stack together: a write of a file in a transaction of its own,
    as filewrite makes it, over the file system (Fs.v), the log (Log.v) and any
    block cache that keeps the contract of Bio.v. *)

From S2P Require Import Prelude Mem Bytes Spinlock Riscv ListH Sleeplock Bio Log LogCrash LogTx Journal CString Fs FsBlock FsInode FsFile FsWrite FsDir FsProps Kalloc Vm Pipe Kernel.
Import Riscv Bytes Lock Bio LogCrash LogTx Journal Fs FsBlock FsInode FsFile FsWrite FsDir FsProps.

Module FsCrash.

Section crash.
Context {S : Type} `{BlockCache S}.
Notation F := (@fsst (@Log.logst S)).

(** One turn of the loop of [filewrite]: what [writei] returned, and [f->off]. *)
Definition write_tx (inp : Z → Z → bytes * bool) (ip src off n : Z) : M F (Z * Z) :=
  Kernel.onlog Log.begin_op;;
  ilock ip;;
  r ← writei inp ip src off n;
  let off' := if 0 <? s32 r then u32 (off + r) else off in
  iunlock ip;;
  Kernel.onlog Log.end_op;;
  mret (r, off').

Lemma wp_onlog {A} (m : M (@Log.logst S) A) (s : F) (Q : A → F → Prop) :
  wp m (λ a l, Q a (set_jr l s)) (jr s) → wp (Kernel.onlog m) Q s.
Proof. unfold wp, Kernel.onlog. by destruct (m (jr s)) as [[a l]| |]. Qed.

(** Nothing on the disk, and nothing about the log but its contents, has changed
    since the transaction of this log began. *)
Definition since (l : @Log.logst S) (v : bview) : disk → writes → Z → Z → Z → bool → Prop := λ D T st sz o c,
  D = v_disk v ∧ T = v_trace v ∧ st = Log.start l ∧ sz = Log.size l ∧ o = 1 ∧ c = false.

(** A file system whose log is idle. *)
Record fs_idle (d : Z) (s : F) (v : bview) : Prop := {
  fi_idle : idle (jr s) v;
  fi_dev : Log.ldev (jr s) = d;
  fi_layout : layout (sb s);
  fi_ok : fs_ok (sb s) (v_cur v);
  fi_area : Log.start (jr s) + Log.size (jr s) ≤ inodestart (sb s) }.

Lemma begin_ready d s v l s' : fs_idle d s v → in_tx (jr s) v [] l → jr s' = l → sb s' = sb s →
  let J := log_journal_at (since (jr s) v) in let v0 := mk_jview (v_cur v) ∅ ∅ ∅ in
  ready (H:=J) s' v0 ∧ fover (H:=J) d s' v0 s'.
Proof.
  intros [Hi Hd Hlo Hok Ha] [Ht Hlk Ho Hcm (Ed & Es & Ez) _] El Esb J v0. split.
  - split; rewrite ?Esb; try done. intros b. rewrite El. simpl. rewrite Es, Ez. lia.
  - apply (fover_self (H:=J)). rewrite El. simpl. split_and!; [congruence|done|lia|done|].
    eexists. split; [split; [exact Ht|]|]; [done|]. split_and!; try done. intros b. right. right. simpl. by eapply idle_clean.
Qed.

(** Locking an inode that is in memory, and unlocking it. *)
Lemma ilock_cached ip (s : F) (Q : unit → F → Prop) :
  1 ≤ ref (itable s ip) → valid (itable s ip) = true → Sleeplock.locked (lock (itable s ip)) = 0 →
  Q tt (upd_inode ip (set_ilock (Sleeplock.mk_sleeplock 1 (mypid s))) s) → wp (ilock ip) Q s.
Proof.
  intros Hr Hv Hl HQ. unfold ilock. apply wp_bind, wp_gets. rewrite (proj2 (Z.ltb_ge _ _)) by lia.
  apply wp_bind. unfold wp, acquiresleep, Sleeplock.acquiresleep. rewrite Hl. simpl (negb _).
  apply wp_bind, wp_gets. cbn [itable upd_inode]. rewrite fn_lookup_insert. cbn [valid set_ilock]. rewrite Hv. by apply wp_ret.
Qed.

Lemma iunlock_held ip (s : F) (Q : unit → F → Prop) :
  1 ≤ ref (itable s ip) → lock (itable s ip) = Sleeplock.mk_sleeplock 1 (mypid s) →
  Q tt (upd_inode ip (λ x, set_ilock (Sleeplock.releasesleep (lock x)) x) s) → wp (iunlock ip) Q s.
Proof.
  intros Hr Hl HQ. unfold iunlock, holdingsleep, releasesleep. apply wp_bind, wp_gets. apply wp_bind, wp_gets.
  unfold Sleeplock.holdingsleep. rewrite Hl. simpl (Sleeplock.pid _). rewrite Z.eqb_refl, (proj2 (Z.ltb_ge _ _)) by lia.
  simpl. by apply wp_modify.
Qed.

(** The commit of an open transaction, from the view of the file system. *)
Lemma end_atomic d l v l' v' : lrep (since l v) d l' v' → j_held v' = ∅ →
  wp Log.end_op (λ _ l'', ∃ v'' ws, idle l'' v'' ∧ v_trace v'' = v_trace v ++ ws ∧
    (∀ b, off_log (Log.start l) (Log.size l) b → v_disk v'' b = j_cur v' b) ∧
    all_or_nothing (S:=S) d (Log.start l) (Log.size l) (v_disk v) (j_cur v') ws) l'.
Proof.
  intros (Hd & Hlk & _ & _ & bv & [Ht (ED & ET & Es & Ez & Eo & Ec)] & Hc & Hh & Hp & _) Hh'.
  eapply wp_mono; [apply (end_open l' bv Ht); [by rewrite Hh|done..]|].
  intros [] l'' (v'' & ws & Hi & _ & Es2 & Ez2 & Hdk & Htr & Hat). rewrite ED, Es, Ez in *. exists v'', ws.
  split_and!; [done|by rewrite Htr, ET| |by eapply atomic_boot].
  intros b Hb. rewrite Hdk, (committed_disk _ _ _ _ _ _ Hat); [apply Hc| |done]. rewrite <- Hdk, <- Es2. apply Hi.
Qed.

(** The lock is no part of what a file holds. *)
Lemma wf_ilock y x cur l : inode_wf y x cur → inode_wf y (set_ilock l x) cur.
Proof. by intros []. Qed.

(** The room of a fresh transaction. *)
Lemma begin_room (s s' : F) v l k : in_tx (jr s) v [] l → jr s' = l → k ≤ lcap (jr s) →
  room (H:=log_journal_at (since (jr s) v)) s' (mk_jview (v_cur v) ∅ ∅ ∅) k.
Proof.
  intros [_ _ _ _ (_ & _ & Ez) _] El Hk. assert (lcap l = lcap (jr s)) as Ecap by (unfold lcap; by rewrite Ez).
  split.
  - unfold j_used. simpl. rewrite dom_empty_L, union_empty_l_L, size_empty. unfold lcap in Hk. lia.
  - change (Z.of_nat (base.size (∅ : gset Z)) + k ≤ lcap (jr s')). rewrite El, size_empty. lia.
Qed.

(** ** Files as the disk holds them *)

(** What a reader who starts from the disk [D] alone sees of inode [i]: the dinode
    loaded into a fresh entry of the inode table, and the bytes up to its size. *)
Definition disk_inode (y : superblock) (D : disk) (i : Z) : inode :=
  load_inode (get_dinode i (D (IBLOCK i y))) (mk_inode 0 i 0 (Sleeplock.mk_sleeplock 0 0) false 0 0 0 0 0 []).
Definition disk_file (y : superblock) (D : disk) (i : Z) : bytes :=
  let x := disk_inode y D i in fslice x D 0 (isize x).

Lemma disk_file_of y D i x : get_dinode i (D (IBLOCK i y)) = dinode_of x → disk_file y D i = fslice x D 0 (isize x).
Proof. unfold disk_file, disk_inode. by intros ->. Qed.

(** The disks agree off the log, and so on what the file holds. *)
Lemma disk_file_ext y D D' i x : layout y → 0 ≤ i < ninodes y → get_dinode i (D (IBLOCK i y)) = dinode_of x →
  inode_wf y x D → (∀ b, inodestart y ≤ b → D' b = D b) → disk_file y D' i = disk_file y D i.
Proof.
  intros Hlo Hi Hsy Hwf Hb. destruct (iblock_range y i Hlo Hi) as [Hib _].
  assert (inodestart y ≤ data_start y) as Hds.
  { destruct Hlo as [Hz _ [Hn1 Hn2] _]. unfold data_start. assert (0 ≤ ninodes y / IPB) by fs_lia. fs_lia. }
  rewrite (disk_file_of _ _ _ _ Hsy), (disk_file_of _ _ _ x) by (by rewrite Hb). apply list_fmap_ext.
  intros j k Hk. apply lookup_seqZ in Hk as [-> Hj]. pose proof (iw_size _ _ _ Hwf) as Hsz. rewrite Z.add_0_l. set (k := Z.of_nat j) in *.
  assert (0 ≤ k / BSIZE < MAXFILE) as Hbn by fs_lia.
  assert (nth_block x D (k / BSIZE) ≠ 0) as Hnz by (apply (iw_dense _ _ _ Hwf); fs_lia).
  destruct (iw_blk _ _ _ Hwf _ Hbn Hnz) as (Hr & _). unfold fbyte.
  assert (nth_block x D' (k / BSIZE) = nth_block x D (k / BSIZE)) as E.
  { unfold nth_block in *. destruct (k / BSIZE <? NDIRECT); [done|]. destruct (addr_at x NDIRECT =? 0) eqn:E0; [done|].
    bsimpl. destruct (iw_ind _ _ _ Hwf E0). by rewrite Hb by lia. }
  by rewrite E, Hb by lia.
Qed.

Lemma wf_ext y x D D' : (∀ b, D' b = D b) → inode_wf y x D → inode_wf y x D'.
Proof.
  intros E [H1 H2 H3 H4 H5 H6]. assert (∀ bn, nth_block x D' bn = nth_block x D bn) as En by (intros bn; unfold nth_block; by rewrite E).
  split; try setoid_rewrite En; unfold in_use; try setoid_rewrite E; done.
Qed.

Lemma s16_fits z : s16_ok (s16 z).
Proof. unfold s16_ok, s16. case_if; zlia. Qed.

(** A well-formed inode whose dinode came from the disk can be written back to it. *)
Lemma wf_fits y x x' i b cur : layout y → get_dinode i b = dinode_of x → same_meta x x' → inode_wf y x' cur → dinode_fits (dinode_of x').
Proof.
  intros Hlo Hsy (_ & _ & _ & _ & _ & E1 & E2 & E3 & E4) Hwf. unfold get_dinode, dinode_of in Hsy.
  pose proof (lo_size _ Hlo) as Hz. pose proof (iw_size _ _ _ Hwf) as Hs. pose proof (iw_len _ _ _ Hwf) as Hl.
  assert (0 ≤ data_start y) as Hd.
  { destruct Hlo as [_ ? [? ?] _]. unfold data_start. assert (0 ≤ ninodes y / IPB) by fs_lia. fs_lia. }
  injection Hsy as H1 H2 H3 H4 _ _. split; cbn [dinode_of d_type d_major d_minor d_nlink d_size d_addrs];
    [rewrite E1, <- H1; apply s16_fits|rewrite E2, <- H2; apply s16_fits|rewrite E3, <- H3; apply s16_fits|
     rewrite E4, <- H4; apply s16_fits|fs_lia|done|].
  apply Forall_lookup. intros j a Ha. pose proof (lookup_lt_Some _ _ _ Ha) as Hj.
  assert (addr_at x' (Z.of_nat j) = a) as Ea by (unfold addr_at; by rewrite Nat2Z.id, Ha).
  destruct (decide (a = 0)) as [->|Hne]; [lia|]. destruct (decide (Z.of_nat j = NDIRECT)) as [En|Hn].
  - rewrite En in Ea. destruct (iw_ind _ _ _ Hwf) as [? _]; [by rewrite Ea|]. lia.
  - assert (nth_block x' cur (Z.of_nat j) = a) as En.
    { unfold nth_block. by rewrite (proj2 (Z.ltb_lt (Z.of_nat j) NDIRECT)) by fs_lia. }
    destruct (iw_blk _ _ _ Hwf (Z.of_nat j)) as [? _]; [fs_lia|by rewrite En|]. lia.
Qed.

(** The file after a write, as a list of bytes. *)
Lemma written_file {J} `{!Journal J} (s : @fsst J) x v off D x' v' : written s x v off D x' v' → 0 ≤ off ≤ isize x → 0 ≤ isize x →
  let old := fslice x (j_cur v) 0 (isize x) in
  fslice x' (j_cur v') 0 (isize x') = take (Z.to_nat off) old ++ D ++ drop (Z.to_nat off + length D) old.
Proof.
  intros Hw Ho Hx old. assert (length old = Z.to_nat (isize x)) as Hlo by (unfold old, fslice; by rewrite length_fmap, length_seqZ).
  pose proof (wt_size _ _ _ _ _ _ _ Hw) as Hs.
  assert (∀ j, (j < Z.to_nat (isize x))%nat → old !! j = Some (fbyte x (j_cur v) (Z.of_nat j))) as Hold.
  { intros j Hj. unfold old, fslice. rewrite list_lookup_fmap, lookup_seqZ_lt by lia. simpl. by rewrite Z.add_0_l. }
  apply list_eq. intros j. destruct (decide (j < Z.to_nat (isize x'))%nat) as [Hj|Hj].
  - unfold fslice at 1. rewrite list_lookup_fmap, lookup_seqZ_lt by lia. simpl. rewrite Z.add_0_l, (wt_data _ _ _ _ _ _ _ Hw) by lia.
    destruct (decide (j < Z.to_nat off)%nat) as [H1|H1].
    { rewrite decide_False by lia. rewrite lookup_app_l by (rewrite length_take; lia). by rewrite lookup_take_lt, Hold by lia. }
    rewrite lookup_app_r by (rewrite length_take; lia). rewrite length_take, Nat.min_l by lia.
    destruct (decide (j < Z.to_nat off + length D)%nat) as [H2|H2].
    + rewrite decide_True by lia. rewrite lookup_app_l by lia. replace (Z.to_nat (Z.of_nat j - off)) with (j - Z.to_nat off)%nat by lia.
      by destruct (lookup_lt_is_Some_2 D (j - Z.to_nat off)) as [? ->]; [lia|].
    + rewrite decide_False by lia. rewrite lookup_app_r by lia. rewrite lookup_drop.
      replace (Z.to_nat off + length D + (j - Z.to_nat off - length D))%nat with j by lia. by rewrite Hold by lia.
  - rewrite !lookup_ge_None_2; [done| |]; [rewrite !length_app, length_take, length_drop; lia|].
    unfold fslice. rewrite length_fmap, length_seqZ. lia.
Qed.

(** A crash during the writes [ws], seen by a reader of inode [i]: after recovery the
    file is the one of [D] or the one of [D'], and the latter from some write on. *)
Definition file_all_or_nothing (d st sz : Z) (y : superblock) (i : Z) (D D' : disk) (ws : writes) : Prop :=
  ∃ k0, (k0 ≤ length ws)%nat ∧
  ∀ k (l : @Log.logst S) v, booted d (apply_writes (take k ws) D) l v →
    wp (Log.initlog d st sz) (λ _ l', ∃ v', idle l' v' ∧
      disk_file y (v_disk v') i = if decide (k < k0)%nat then disk_file y D i else disk_file y D' i) l.

Lemma atomic_file d st sz y i x x' (D D' : disk) ws : layout y → 0 ≤ i < ninodes y → st + sz ≤ inodestart y →
  get_dinode i (D (IBLOCK i y)) = dinode_of x → inode_wf y x D →
  get_dinode i (D' (IBLOCK i y)) = dinode_of x' → inode_wf y x' D' →
  all_or_nothing (S:=S) d st sz D D' ws → file_all_or_nothing d st sz y i D D' ws.
Proof.
  intros Hlo Hi Ha Hx Hwf Hx' Hwf' (k0 & Hk0 & Hat). exists k0. split; [done|]. intros k l v Hb.
  eapply wp_mono; [exact (Hat k l v Hb)|]. intros [] l' (v' & Hid & Hd). exists v'. split; [done|].
  assert (∀ b, inodestart y ≤ b → off_log st sz b) as Hoff by (unfold off_log; lia).
  case_decide; [apply (disk_file_ext y D _ i x)|apply (disk_file_ext y D' _ i x')]; try done; intros b Hb'; by rewrite Hd by (by apply Hoff).
Qed.

(** A written file, as the disk holds it once the transaction is in place. *)
Lemma written_on_disk `{!Journal (@Log.logst S)} d st sz (s : F) (D0 : disk) L x v off D x' v' ws :
  let y := sb s in let i := inum x in let old := disk_file y D0 i in
  layout y → 0 ≤ i < ninodes y → st + sz ≤ inodestart y → (∀ b, j_cur v b = D0 b) →
  inode_wf y x (j_cur v) → get_dinode i (D0 (IBLOCK i y)) = dinode_of x → 0 ≤ off ≤ isize x →
  written s (set_ilock L x) v off D x' v' → all_or_nothing (S:=S) d st sz D0 (j_cur v') ws →
  get_dinode i (j_cur v' (IBLOCK i y)) = dinode_of x' ∧
  (∀ j, 0 ≤ j < ninodes y → j ≠ i → get_dinode j (j_cur v' (IBLOCK j y)) = get_dinode j (D0 (IBLOCK j y))) ∧
  disk_file y (j_cur v') i = take (Z.to_nat off) old ++ D ++ drop (Z.to_nat off + length D) old ∧
  file_all_or_nothing d st sz y i D0 (j_cur v') ws.
Proof.
  intros y i old Hlo Hi Ha Heq Hwf Hsy Hoff Hw Hat. pose proof (wt_wf _ _ _ _ _ _ _ Hw) as Hwf'.
  pose proof (wt_meta _ _ _ _ _ _ _ Hw) as Hm. assert (Hin := proj1 (proj2 Hm)). cbn in Hin.
  assert (get_dinode i (j_cur v' (IBLOCK i y)) = dinode_of x') as Hnew.
  { unfold i. rewrite <- Hin. apply (wt_disk _ _ _ _ _ _ _ Hw). by eapply (wf_fits _ (set_ilock L x)); [exact Hlo|exact Hsy|exact Hm|]. }
  assert (inode_wf y x D0) as Hwf0 by (eapply wf_ext; [|exact Hwf]; done). split_and!; [done| | |].
  - intros j Hj Hne. etransitivity; [exact (wt_inodes _ _ _ _ _ _ _ Hw j Hj Hne)|]. by rewrite Heq.
  - assert (old = fslice (set_ilock L x) (j_cur v) 0 (isize (set_ilock L x))) as ->.
    { unfold old. rewrite <- (disk_file_ext y D0 (j_cur v) i x) by done. apply disk_file_of. by rewrite Heq. }
    rewrite (disk_file_of _ _ _ _ Hnew). apply (written_file s); [exact Hw|exact Hoff|cbn; lia].
  - by apply (atomic_file d st sz y i x x').
Qed.

(** [C2] A file write survives a crash.  With an idle log that has room for the blocks of
    the write and the inode in memory and unlocked, one turn of filewrite's loop (begin_op, ilock, writei, iunlock, end_op)
    returns; it stores the first [r] bytes given, all of them unless the disk is full,
    advances the offset by [r], and leaves the inode unlocked.  After it the disk, off
    the log, is [D1].  There the dinode is the inode in memory, the dinodes of the other
    files are the old ones, and the file, found from the disk alone, consists of the old
    bytes up to the offset, the [r] bytes, and the old bytes after them.  If the machine
    crashes after any number of the disk writes made on the way and recovers, the disk
    is the old one or [D1], and [D1] once the call has returned; so the file that is
    read from it is the old or the new one, whole.  The inode in memory is assumed to
    agree with its dinode before the call, as it does whenever it is not locked. *)
Theorem file_write_atomic d inp (s : F) v ip src off D : fs_idle d s v →
  let x := itable s ip in let n := Z.of_nat (length D) in let l := jr s in
  1 ≤ ref x → valid x = true → Sleeplock.locked (lock x) = 0 →
  inode_ok d (sb s) x → inode_wf (sb s) x (v_cur v) → get_dinode (inum x) (v_disk v (IBLOCK (inum x) (sb s))) = dinode_of x →
  delivers inp src D → is_bytes D → 0 ≤ src < 2 ^ 64 →
  0 ≤ off ≤ isize x → off + n ≤ MAXFILE * BSIZE → cost off n + 7 ≤ lcap l →
  wp (write_tx inp ip src off n) (λ '(r, off') s', 0 ≤ r ≤ n ∧ off' = off + r ∧ ∃ v' ws D1, let x' := itable s' ip in
    idle (jr s') v' ∧ v_trace v' = v_trace v ++ ws ∧
    (∀ b, off_log (Log.start l) (Log.size l) b → v_disk v' b = D1 b) ∧
    (r = n ∨ ∀ b, 0 ≤ b < sb_size (sb s) → in_use (sb s) D1 b) ∧
    isize x' = Z.max (isize x) (off + r) ∧ fslice x' D1 off r = take (Z.to_nat r) D ∧
    (∀ k, 0 ≤ k < isize x → k < off ∨ off + r ≤ k → fbyte x' D1 k = fbyte x (v_cur v) k) ∧
    Sleeplock.locked (lock x') = 0 ∧
    all_or_nothing (S:=S) d (Log.start l) (Log.size l) (v_disk v) D1 ws ∧
    let y := sb s in let i := inum x in let old := disk_file y (v_disk v) i in
    get_dinode i (D1 (IBLOCK i y)) = dinode_of x' ∧
    (∀ j, 0 ≤ j < ninodes y → j ≠ i → get_dinode j (D1 (IBLOCK j y)) = get_dinode j (v_disk v (IBLOCK j y))) ∧
    disk_file y D1 i = take (Z.to_nat off) old ++ take (Z.to_nat r) D ++ drop (Z.to_nat (off + r)) old ∧
    file_all_or_nothing d (Log.start l) (Log.size l) y i (v_disk v) D1 ws) s.
Proof.
  intros Hf x n l Href Hval Hlk Hio Hwf Hsy Hinp HD Hsrc Hoff Hmax Hcap. pose proof (fi_idle _ _ _ Hf) as Hi.
  unfold write_tx. apply wp_bind, wp_onlog. apply (begin_tx _ v); [exact Hi|]. intros l1 Htx.
  apply wp_bind, ilock_cached; [exact Href|exact Hval|exact Hlk|].
  set (L := Sleeplock.mk_sleeplock 1 _). set (s1 := upd_inode ip (set_ilock L) (set_jr l1 s)).
  assert (itable s1 ip = set_ilock L x) as E1 by (cbn; by rewrite fn_lookup_insert).
  destruct (begin_ready d s v l1 s1 Hf Htx eq_refl eq_refl) as [Hr Hs].
  assert (Hroom := begin_room s s1 v l1 (2 + cost off n + 5) Htx eq_refl ltac:(change (lcap (jr s)) with (lcap l); lia)).
  set (J := log_journal_at (since (jr s) v)) in *. set (v0 := mk_jview (v_cur v) ∅ ∅ ∅) in *.
  apply wp_bind. change (writei (H:=log_journal) inp ip src off n) with (writei (H:=J) inp ip src off n).
  eapply wp_mono; [apply (writei_ok (H:=J) d inp s1 v0 s1 ip src off D Hinp HD Hr eq_refl Hs Hsrc); rewrite ?E1; try done|].
  { by destruct Hio. }
  { by apply wf_ilock. }
  rewrite E1. intros r s2 (Hrr & x' & v' & Hw & Hs2 & _ & Hfull). fold n in Hrr, Hw, Hfull.
  destruct (fover_sb _ _ _ _ Hs2) as (_ & Etb & _ & Epid).
  assert (itable s2 ip = x') as E2 by (rewrite (Etb ip); cbn; by rewrite fn_lookup_insert).
  destruct (wt_meta _ _ _ _ _ _ _ Hw) as (_ & _ & Eref & Elk & _).
  apply wp_bind, iunlock_held; rewrite ?E2; [rewrite Eref; exact Href|by rewrite Elk, Epid|].
  apply wp_bind, wp_onlog. eapply wp_mono; [apply (end_atomic d (jr s) v _ v'); [apply Hs2|apply Hw]|].
  intros [] l2 (v2 & ws & Hi2 & Htr & Hdk & Hat). apply wp_ret. split; [done|].
  assert (off + r ≤ 274432) as Hbig by (etransitivity; [|exact Hmax]; lia). split.
  { rewrite s32_small by lia. destruct (Z.ltb_spec 0 r); [apply Z.mod_small; lia|lia]. }
  exists v2, ws, (j_cur v'). cbn [itable set_jr jr upd_inode]. rewrite fn_lookup_insert, E2.
  assert (Z.of_nat (length (take (Z.to_nat r) D)) = r) as El by (rewrite length_take; fold n; lia).
  pose proof (wt_size _ _ _ _ _ _ _ Hw) as Hsz. pose proof (wt_data _ _ _ _ _ _ _ Hw) as Hdat. rewrite El in Hsz, Hdat.
  destruct (written_on_disk d (Log.start l) (Log.size l) s1 (v_disk v) L x v0 off (take (Z.to_nat r) D) x' v' ws) as (Hd1 & Hd2 & Hd3 & Hd4); try done.
  { apply Hf. }
  { apply Hio. }
  { apply Hf. }
  { intros b. by eapply idle_clean. }
  replace (Z.to_nat (off + r)) with (Z.to_nat off + length (take (Z.to_nat r) D))%nat by lia.
  split_and!; try done.
  - change (fslice x' (j_cur v') off r = take (Z.to_nat r) D). rewrite <- El at 1. eapply (written_slice (H:=J)); [exact Hw|lia].
  - intros k Hk Hko. change (fbyte x' (j_cur v') k = fbyte x (v_cur v) k). cbn in Hsz. rewrite Hdat by (rewrite Hsz; cbn; lia).
    by rewrite decide_False by lia.
Qed.

End crash.

(** ** Witness *)

Lemma demo_fs_idle c : idle (LogTx.demo_log c) demo_bview → fs_idle 1 (demo_fs (LogTx.demo_log c)) demo_bview.
Proof.
  intros Hi. split; try done.
  - split; [intros b _; apply demo_blocks|intros b Hb; by apply demo_meta].
Qed.

(** Two bytes, written at the start of the file of the demo disk. *)
Definition demo_unlocked (l : @Log.logst bst) : @fsst (@Log.logst bst) :=
  upd_inode 0 (set_ilock (Sleeplock.mk_sleeplock 0 0)) (demo_fs l).

Lemma demo_unlocked_idle c : idle (LogTx.demo_log c) demo_bview → fs_idle 1 (demo_unlocked (LogTx.demo_log c)) demo_bview.
Proof. intros Hi. by destruct (demo_fs_idle c Hi). Qed.

Lemma file_write_atomic_witness : ∃ c, wp (write_tx (kinp [104; 105]) 0 0 0 2) (λ '(r, off') s', 0 ≤ r ≤ 2 ∧ off' = r ∧ ∃ v' ws D1,
    idle (jr s') v' ∧ v_trace v' = ws ∧ fslice (itable s' 0) D1 0 r = take (Z.to_nat r) [104; 105] ∧
    all_or_nothing (S:=bst) 1 2 30 demo_fs_disk D1 ws ∧
    disk_file demo_sb D1 1 = take (Z.to_nat r) [104; 105] ++ drop (Z.to_nat r) (disk_file demo_sb demo_fs_disk 1) ∧
    file_all_or_nothing (S:=bst) 1 2 30 demo_sb 1 demo_fs_disk D1 ws) (demo_unlocked (LogTx.demo_log c)).
Proof.
  destruct demo_idle as (c & Hi). exists c. destruct demo_inode_wf as (Hio & Hwf & _).
  eapply wp_mono; [apply (file_write_atomic 1 (kinp [104; 105]) (demo_unlocked (LogTx.demo_log c)) demo_bview 0 0 0 [104; 105] (demo_unlocked_idle c Hi))|].
  - vm_compute. discriminate.
  - reflexivity.
  - reflexivity.
  - by destruct Hio.
  - by apply wf_ilock.
  - exact demo_synced.
  - intros i m Hi' Hm Him. cbn [length] in Him. unfold kinp. by rewrite Z.add_0_l, u64_small by lia.
  - repeat constructor; lia.
  - lia.
  - vm_compute. split; discriminate.
  - vm_compute. discriminate.
  - vm_compute. discriminate.
  - intros [r off'] s' (Hr & Ho & v' & ws & D1 & H1 & H2 & _ & _ & _ & H3 & _ & _ & H4 & _ & _ & H5 & H6). split; [exact Hr|]. split; [exact Ho|]. exists v', ws, D1.
    exact (conj H1 (conj H2 (conj H3 (conj H4 (conj H5 H6))))).
Defined.

End FsCrash.
