(* ===== verification/Fork.v ===== *)
(** * kernel/proc.c: the life of a process

    userinit, fork, exit and wait, over the process table (Proc.v), memory (Vm.v)
    and the open files (File.v). *)

From S2P Require Import Prelude Mem Bytes CString Spinlock Riscv Kalloc Vm ListH Sleeplock Bio Log Journal Fs Pipe Kernel Proc File.
Import Riscv Bytes Journal Kernel Proc File.

Module Fork.

(** The code of the first process. *)
Definition initcode : bytes := [
  0x17; 0x05; 0x00; 0x00; 0x13; 0x05; 0x45; 0x02;
  0x97; 0x05; 0x00; 0x00; 0x93; 0x85; 0x35; 0x02;
  0x93; 0x08; 0x70; 0x00; 0x73; 0x00; 0x00; 0x00;
  0x93; 0x08; 0x20; 0x00; 0x73; 0x00; 0x00; 0x00;
  0xef; 0xf0; 0x9f; 0xff; 0x2f; 0x69; 0x6e; 0x69;
  0x74; 0x00; 0x00; 0x24; 0x00; 0x00; 0x00; 0x00;
  0x00; 0x00; 0x00; 0x00 ].

(** [safestrcpy(p->name, s, 16)]: the name up to 15 bytes, then a nul; the bytes
    after it stay. *)
Definition copy_name (s old : bytes) : bytes :=
  let t := take 15 (CString.strz s) ++ [0] in t ++ drop (length t) old.

Definition initcode_name : bytes := [105; 110; 105; 116; 99; 111; 100; 101].

Section fork.
Context {S : Type} `{BC : Bio.BlockCache S} `{KernelImage} `{KernelObjects} `{Devices (@kern S)}.
Context (swtch : M (@kern S) unit).
Notation K := (@kern S).

Definition tf_store (p off v : Z) : M K unit :=
  x ← gets (λ s, procs s p);
  onk (modify (Kalloc.set_mem (st64 (trapframe x + off) v))).

Definition userinit : M K unit :=
  r ← allocproc;
  modify (set_initproc r);;
  match r with
  | None => block (* a fault: p is null *)
  | Some p =>
      x ← gets (λ s, procs s p);
      onk (modify (Kalloc.set_mem (stbytes kobj initcode)));;
      onk (Vm.uvmfirst (pagetable x) kobj (Z.of_nat (length initcode)));;
      modify (upd_proc p (set_sz PGSIZE));;
      tf_store p TF_epc 0;;
      tf_store p TF_sp PGSIZE;;
      modify (upd_proc p (λ y, set_name (copy_name initcode_name (name y)) y));;
      c ← gets (λ s, cwd (procs s (me s)));
      ip ← onfs (Fs.namei (default 0 c) [Fs.SLASH]);
      modify (upd_proc p (set_cwd ip));;
      modify (upd_proc p (set_state RUNNABLE));;
      release (LProc p)
  end.

(** [np->ofile[i] = filedup(p->ofile[i])] for the open descriptors. *)
Definition dup_files (p : proc) (np : Z) : M K unit :=
  for_range 0 (Z.to_nat NOFILE) (λ i,
    match ofile p i with
    | None => mret tt
    | Some f => g ← filedup f; modify (upd_proc np (set_ofile i (Some g)))
    end).

Definition fork : M K Z :=
  i ← gets me;
  p ← myproc;
  r ← allocproc;
  match r with
  | None => mret (-1)
  | Some np =>
      x ← gets (λ s, procs s np);
      r ← onk (Vm.uvmcopy (pagetable p) (pagetable x) (sz p));
      if r <? 0 then freeproc np;; release (LProc np);; mret (-1)
      else
        modify (upd_proc np (set_sz (sz p)));;
        onk (modify (Kalloc.set_mem (CString.memmove (trapframe x) (trapframe p) TF_SIZE)));;
        tf_store np TF_a0 0;;
        dup_files p np;;
        c ← onfs (Fs.idup (default 0 (cwd p)));
        modify (upd_proc np (set_cwd (Some c)));;
        modify (upd_proc np (λ y, set_name (copy_name (name p) (name y)) y));;
        y ← gets (λ s, procs s np);
        release (LProc np);;
        acquire LWait;;
        modify (upd_proc np (set_parent (Some i)));;
        release LWait;;
        acquire (LProc np);;
        modify (upd_proc np (set_state RUNNABLE));;
        release (LProc np);;
        mret (pid y)
  end.

Definition close_files (i : Z) : M K unit :=
  for_range 0 (Z.to_nat NOFILE) (λ fd,
    p ← gets (λ s, procs s i);
    match ofile p fd with
    | None => mret tt
    | Some f => fileclose f;; modify (upd_proc i (set_ofile fd None))
    end).

Definition exit (status : Z) : M K unit :=
  i ← gets me;
  ip ← gets initproc;
  if bool_decide (ip = Some i) then panic "init exiting"
  else
    close_files i;;
    p ← myproc;
    begin_op;;
    onfs (Fs.iput (default 0 (cwd p)));;
    end_op;;
    set_me (set_cwd None);;
    acquire LWait;;
    reparent i;;
    p ← myproc;
    wakeup (default NoChan (ChProc <$> parent p));;
    acquire (LProc i);;
    set_me (zombie_one status);;
    release LWait;;
    sched swtch;;
    panic "zombie exit".

(** [wait]'s scan of the table from [pp] on: the value to return, or whether there
    are children. *)
Fixpoint wait_scan (k : nat) (pp : Z) (havekids : bool) (addr : Z) : M K (Z + bool) :=
  match k with
  | O => mret (inr havekids)
  | Datatypes.S k' =>
      i ← gets me;
      p ← myproc;
      x ← gets (λ s, procs s pp);
      if bool_decide (parent x = Some i) then
        acquire (LProc pp);;
        x ← gets (λ s, procs s pp);
        if bool_decide (state x = ZOMBIE) then
          r ← (if negb (addr =? 0) then onk (copyout (pagetable p) addr (le_bytes 4 (xstate x))) else mret 0 : M K Z);
          if r <? 0 then release (LProc pp);; release LWait;; mret (inl (-1))
          else freeproc pp;; release (LProc pp);; release LWait;; mret (inl (pid x))
        else release (LProc pp);; wait_scan k' (pp + 1) true addr
      else wait_scan k' (pp + 1) havekids addr
  end.

(** [wait]'s loop; each turn but the last ends in a sleep. *)
Fixpoint wait_loop (fuel : nat) (addr : Z) : M K Z :=
  match fuel with
  | O => block
  | Datatypes.S fuel' =>
      r ← wait_scan (Z.to_nat NPROC) 0 false addr;
      match r with
      | inl v => mret v
      | inr havekids =>
          i ← gets me;
          k ← (if (havekids : bool) then killed_of i else mret true : M K bool);
          if (k : bool) then release LWait;; mret (-1)
          else sleep swtch (ChProc i) LWait;; wait_loop fuel' addr
      end
  end.
Definition wait (fuel : nat) (addr : Z) : M K Z :=
  acquire LWait;; wait_loop fuel addr.

(** [forkret], up to the return to user space; [first] is its static variable. *)
Definition forkret (first : bool) : M K bool :=
  i ← gets me;
  release (LProc i);;
  when first (onfs (Fs.fsinit (λ d x, Log.initlog d (Fs.logstart x) (Fs.nlog x)) ROOTDEV));;
  mret false.

End fork.

End Fork.
