(* ===== verification/ForkSpec.v ===== *)
(** * fork

    What fork does as a whole: the new entry of the process table (Proc.v), the copy of
    memory (VmProc.v), the trap frame, the open files (File.v) and the working
    directory (Fs.v), or the way back when memory runs out. *)

From S2P Require Import Prelude Mem Bytes CString Spinlock Riscv Kalloc Vm VmSpec VmUser VmProc ListH Sleeplock Bio Log Journal Fs Pipe Kernel Proc File FileRefs ProcInv Fork.
Import Riscv Bytes Kernel Proc File Fork Kalloc Vm VmSpec VmUser VmProc.

Module ForkSpec.

(** ** Locks, and the parts of the kernel *)

(** [n] calls of [push_off] are pending. *)
Definition cpu_at (n : Z) (c : Spinlock.cpu) : Prop := 0 ≤ n ∧ Spinlock.noff c = n ∧ (0 < n → Spinlock.intr c = false).

Lemma push_at n c : cpu_at n c → cpu_at (n + 1) (Spinlock.push_off c).
Proof.
  intros (H1 & H2 & H3). unfold cpu_at, Spinlock.push_off, Spinlock.intr_off, Spinlock.intr_get. destruct c as [k ie it]. simpl in *.
  destruct (k =? 0); simpl; split_and!; try lia; done.
Qed.

Lemma pop_at n c : cpu_at (n + 1) c → 0 ≤ n → ∃ c', Spinlock.pop_off c = Ret c' ∧ cpu_at n c'.
Proof.
  intros (H1 & H2 & H3) Hn. unfold cpu_at, Spinlock.pop_off, Spinlock.intr_on, Spinlock.intr_get. destruct c as [k ie it]. simpl in *.
  rewrite H3 by lia. rewrite (proj2 (Z.ltb_ge k 1)) by lia. eexists. split; [done|].
  destruct ((k - 1 =? 0) && ie) eqn:E; bsimpl; simpl; split_and!; try lia; done.
Qed.

Section kernel.
Context {S : Type} `{BC : Bio.BlockCache S}.
Notation K := (@kern S).
Implicit Types s : K.

Lemma wp_lock l n s (Q : unit → K → Prop) : l ∉ kheld s → cpu_at n (kcpu s) →
  (∀ c, cpu_at (n + 1) c → Q tt (set_cpu_held c (l :: kheld s) s)) → wp (acquire l) Q s.
Proof. intros Hl Hc HQ. unfold wp, acquire. rewrite bool_decide_false by done. by apply HQ, push_at. Qed.

Lemma wp_unlock l ls n s (Q : unit → K → Prop) : kheld s = l :: ls → l ∉ ls → cpu_at (n + 1) (kcpu s) → 0 ≤ n →
  (∀ c, cpu_at n c → Q tt (set_cpu_held c ls s)) → wp (release l) Q s.
Proof.
  intros Hh Hl Hc Hn HQ. unfold wp, release. rewrite Hh, bool_decide_true by constructor. destruct (pop_at n _ Hc Hn) as (c' & -> & Hc').
  unfold without. rewrite filter_cons_False by naive_solver. fold (without l ls). rewrite without_id by done. by apply HQ.
Qed.

Lemma wp_onk {A} (m : M Kalloc.kst A) s (Q : A → K → Prop) : wp m (λ a k, Q a (set_kk k s)) (kk s) → wp (onk m) Q s.
Proof. unfold wp, onk. by destruct (m (kk s)) as [[a k]| |]. Qed.

Lemma wp_onfs {A} (m : M (@Fs.fsst (@Log.logst S)) A) s (Q : A → K → Prop) : wp m (λ a f, Q a (set_kfs f s)) (kfs s) → wp (onfs m) Q s.
Proof. unfold wp, onfs. by destruct (m (kfs s)) as [[a k]| |]. Qed.

(** The state with another memory, process table, [nextpid] and locks. *)
Definition moved (k : Kalloc.kst) (pr : Z → proc) (n : Z) (c : Spinlock.cpu) (ls : list Kernel.klock) s : K :=
  mk_kern k (kfs s) (ftable s) (pipes s) pr n (initproc s) (ticks s) c ls (me s).

Context `{KernelImage} `{KernelObjects}.

(** ** The process table *)

Notation in_table := ProcInv.in_table.

(** A free entry owns nothing. *)
Definition clean (x : proc) : Prop :=
  trapframe x = 0 ∧ pagetable x = 0 ∧ sz x = 0 ∧ (∀ fd, ofile x fd = None) ∧ parent x = None.
Definition table_clean (pr : Z → proc) : Prop := ∀ p, in_table p → state (pr p) = UNUSED → clean (pr p).

Definition table_full (pr : Z → proc) : Prop := ∀ p, in_table p → state (pr p) ≠ UNUSED.

Lemma allocproc_scan_ok k : ∀ p s, kheld s = [] → cpu_at 0 (kcpu s) → 0 ≤ p → p + Z.of_nat k = NPROC →
  wp (allocproc_scan k p) (λ r s', ∃ c,
    match r with
    | None => s' = set_cpu_held c [] s ∧ cpu_at 0 c ∧ ∀ q, p ≤ q < NPROC → state (procs s q) ≠ UNUSED
    | Some q => s' = set_cpu_held c [LProc q] s ∧ cpu_at 1 c ∧ in_table q ∧ state (procs s q) = UNUSED
    end) s.
Proof.
  induction k as [|k IH]; intros p s Hh Hc Hp Hk; cbn [allocproc_scan].
  { apply wp_ret. exists (kcpu s). split_and!; [|done|lia]. destruct s. simpl in *. by rewrite Hh. }
  apply wp_bind, (wp_lock _ 0); [rewrite Hh; apply not_elem_of_nil|done|]. rewrite Hh. intros c1 Hc1. apply wp_bind, wp_gets. simpl.
  case_bool_decide as E; [apply wp_ret; exists c1; split_and!; try done; unfold ProcInv.in_table; lia|].
  apply wp_bind, (wp_unlock _ [] 0); [done|apply not_elem_of_nil|done|lia|]. intros c2 Hc2. eapply wp_mono; [apply IH; simpl; try done; lia|].
  intros r s' (c & Hr). exists c. destruct r as [q|]; [done|]. destruct Hr as (-> & Hc' & Hq). split_and!; try done.
  intros q Hq'. destruct (decide (q = p)) as [->|]; [done|]. apply Hq. lia.
Qed.

Lemma allocpid_ok p s : kheld s = [LProc p] → cpu_at 1 (kcpu s) →
  wp allocpid (λ r s', r = nextpid s ∧ ∃ c, cpu_at 1 c ∧ s' = moved (kk s) (procs s) (s32 (nextpid s + 1)) c [LProc p] s) s.
Proof.
  intros Hh Hc. unfold allocpid. apply wp_bind, (wp_lock _ 1); [rewrite Hh; by intros ?%list_elem_of_singleton|done|]. intros c1 Hc1. rewrite Hh.
  apply wp_bind, wp_gets, wp_bind, wp_modify, wp_bind, (wp_unlock _ [LProc p] 1); [done|by intros ?%list_elem_of_singleton|done|lia|].
  intros c2 Hc2. apply wp_ret. split; [done|]. by exists c2.
Qed.

(** A table in which the entry [p] is [y] and the others are as before. *)
Definition only (p : Z) (y : proc) (pr pr' : Z → proc) : Prop := pr' p = y ∧ ∀ q, q ≠ p → pr' q = pr q.

Lemma only_upd p g pr pr' y : only p y pr pr' → only p (g y) pr (<[p := g (pr' p)]> pr').
Proof. intros [E Hn]. split; [by rewrite fn_lookup_insert, E|]. intros q Hq. rewrite fn_lookup_insert_ne by done. by apply Hn. Qed.

Lemma only_refl p pr : only p (pr p) pr pr.
Proof. done. Qed.

(** What the entry [x] owns besides the free pages [fl]. *)
Inductive owns (k : kst) (fl : list Z) (x : proc) : list Z → Prop :=
  | Owns_nothing : free_pages k fl → trapframe x = 0 → pagetable x = 0 → owns k fl x []
  | Owns_frame : free_pages k fl → page_ok (trapframe x) → trapframe x ∉ fl → pagetable x = 0 → owns k fl x [trapframe x]
  | Owns_table nd : user_rep k (pagetable x) nd fl [] (proc_hi (trapframe x)) → page_ok (trapframe x) → trapframe x ∉ fl ++ pages nd →
      pagetable x ≠ 0 → sz x = 0 → owns k fl x (trapframe x :: pages nd).

Definition cleared (x : proc) : proc := clear_one (set_pagetable 0 (set_trapframe 0 x)).

Lemma moved_moved k pr n c ls k' pr' n' c' ls' s : moved k' pr' n' c' ls' (moved k pr n c ls s) = moved k' pr' n' c' ls' s.
Proof. done. Qed.

Lemma freeproc_ok p s fl pgs : owns (kk s) fl (procs s p) pgs →
  wp (freeproc p) (λ _ s', ∃ k pr fl', s' = moved k pr (nextpid s) (kcpu s) (kheld s) s ∧ free_pages k fl' ∧ fl' ≡ₚ pgs ++ fl ∧
    same_off (pgs ++ fl) (kmem (kk s)) (kmem k) ∧ only p (cleared (procs s p)) (procs s) pr) s.
Proof.
  intros Ho. unfold freeproc. apply wp_bind, wp_gets. set (x := procs s p) in *.
  assert (Hpr : ∀ pr, only p (set_trapframe 0 x) (procs s) pr → only p (cleared x) (procs s) (<[p := clear_one (<[p := set_pagetable 0 (pr p)]> pr p)]> (<[p := set_pagetable 0 (pr p)]> pr))).
  { intros pr H1. apply (only_upd p clear_one), (only_upd p (set_pagetable 0)), H1. }
  assert (H1 : only p (set_trapframe 0 x) (procs s) (<[p := set_trapframe 0 (procs s p)]> (procs s))) by (apply (only_upd p (set_trapframe 0)), only_refl).
  inversion Ho as [Hf E1 E2|Hf Htf Hn E2|nd Hu Htf Hn E2 E3]; subst pgs.
  - rewrite E1, E2. change (negb (0 =? 0)) with false. apply wp_bind, wp_ret, wp_bind, wp_modify, wp_bind, wp_ret, wp_bind, wp_modify, wp_modify.
    eexists _, _, fl. split_and!; [reflexivity|exact Hf|done|apply same_off_refl|by apply Hpr].
  - pose proof (page_bounds _ Htf). rewrite (proj2 (Z.eqb_neq (trapframe x) 0)), E2 by lia. change (negb (0 =? 0)) with false. cbn [negb when].
    apply wp_bind, wp_onk. eapply wp_mono; [by apply kfree_spec|]. intros [] k1 [Hf1 Hoff1]. apply wp_bind, wp_modify, wp_bind, wp_ret, wp_bind, wp_modify, wp_modify.
    eexists _, _, (trapframe x :: fl). split_and!; [reflexivity|exact Hf1|done|eapply same_off_mono; [|exact Hoff1]; set_solver|by apply Hpr].
  - pose proof (page_bounds _ Htf). rewrite (proj2 (Z.eqb_neq (trapframe x) 0)), (proj2 (Z.eqb_neq (pagetable x) 0)) by lia. cbn [negb when].
    apply wp_bind, wp_onk. eapply wp_mono; [eapply user_kfree; [exact Hu|done|]|]; [done|]. intros [] k1 [Hu1 Hoff1]. apply wp_bind, wp_modify, wp_bind, wp_onk.
    rewrite E3. eapply wp_mono; [eapply (proc_freepagetable_spec _ _ _ _ [] _ 0); [exact Hu1|done|done|done]|].
    intros [] k2 (fl2 & Hf2 & Hp2 & Hoff2). apply wp_bind, wp_modify, wp_modify.
    eexists _, _, fl2. split_and!; [reflexivity|exact Hf2| | |by apply Hpr].
    + rewrite Hp2. simpl. constructor. apply Permutation_app_comm.
    + eapply same_off_trans; [eapply same_off_mono; [|exact Hoff1]; set_solver|]. eapply same_off_mono; [|exact Hoff2]. set_solver.
Qed.

(** The context a new process starts with: in forkret, on its kernel stack. *)
Definition first_context (x : proc) : list Z := forkret_addr :: u64 (kstack x + PGSIZE) :: replicate 12 0.
Definition newborn (n tf pt : Z) (x : proc) : proc :=
  let y := set_pagetable pt (set_trapframe tf (used_one n x)) in set_context (first_context y) y.

Definition allocproc_post (fl : list Z) s (r : option Z) (s' : K) : Prop :=
  match r with
  | None => ∃ k pr n c fl', s' = moved k pr n c [] s ∧ cpu_at 0 c ∧ free_pages k fl' ∧ fl' ≡ₚ fl ∧ same_off fl (kmem (kk s)) (kmem k) ∧
      (∀ q, in_table q → pr q = procs s q ∨ state (procs s q) = UNUSED ∧ state (pr q) = UNUSED ∧ clean (pr q)) ∧
      (table_full (procs s) ∨ (length fl ≤ 6)%nat)
  | Some np => ∃ k pr c tf pt nd fl', s' = moved k pr (s32 (nextpid s + 1)) c [LProc np] s ∧ cpu_at 1 c ∧
      in_table np ∧ state (procs s np) = UNUSED ∧ only np (newborn (nextpid s) tf pt (procs s np)) (procs s) pr ∧
      page_ok tf ∧ pt ≠ 0 ∧ user_rep k pt nd fl' [] (proc_hi tf) ∧ fl ≡ₚ tf :: fl' ++ pages nd ∧ same_off fl (kmem (kk s)) (kmem k) ∧ (size nd ≤ 5)%nat
  end.

Lemma cleared_clean x y : clean x → (∀ fd, ofile y fd = ofile x fd) → clean (cleared y).
Proof. intros (H1 & H2 & H3 & H4 & H5) Ho. split_and!; try done. intros fd. simpl. by rewrite Ho. Qed.

Lemma allocproc_ok s fl : kheld s = [] → cpu_at 0 (kcpu s) → free_pages (kk s) fl → table_clean (procs s) →
  wp allocproc (allocproc_post fl s) s.
Proof.
  intros Hh Hc Hf Hcl. unfold allocproc. apply wp_bind. eapply wp_mono; [apply allocproc_scan_ok; [done|done|lia|done]|].
  intros [p|] s1 (c1 & Hr); [|destruct Hr as (-> & Hc1 & Hq); apply wp_ret; exists (kk s), (procs s), (nextpid s), c1, fl; split_and!; try done; [intros; by left|left; exact Hq]].
  destruct Hr as (-> & Hc1 & Hp & Hu). pose proof (Hcl p Hp Hu) as Hclp. set (x := procs s p) in *.
  apply wp_bind. eapply wp_mono; [by apply (allocpid_ok p)|]. intros n s2 [-> (c2 & Hc2 & ->)]. apply wp_bind, wp_modify, wp_bind, wp_onk.
  (* giving up: the entry is cleared, its lock released *)
  assert (Hgive : ∀ k pr c y fl1 pgs, cpu_at 1 c → only p y (procs s) pr → owns k fl1 y pgs → (∀ fd, ofile y fd = ofile x fd) → parent y = None →
    pgs ++ fl1 ≡ₚ fl → same_off fl (kmem (kk s)) (kmem k) → (length fl ≤ 6)%nat →
    wp (freeproc p;; release (LProc p);; mret None) (allocproc_post fl s) (moved k pr (s32 (nextpid s + 1)) c [LProc p] s)).
  { intros k pr c y fl1 pgs Hc' [Ey Hq] Ho Hof Hpar Hperm Hoff Hshort. apply wp_bind. eapply wp_mono; [eapply freeproc_ok; cbn [kk procs moved]; rewrite Ey; exact Ho|].
    intros [] s4 (k4 & pr4 & fl4 & -> & Hf4 & Hp4 & Hoff4 & [E4 Hq4]). cbn [kk procs moved nextpid kcpu kheld] in *. rewrite moved_moved in *.
    apply wp_bind, (wp_unlock _ [] 0); [done|apply not_elem_of_nil|done|lia|]. intros c5 Hc5. apply wp_ret.
    exists k4, pr4, (s32 (nextpid s + 1)), c5, fl4. split_and!; try done; [by rewrite Hp4| | |by right].
    - eapply same_off_trans; [exact Hoff|]. by eapply same_off_perm.
    - intros q Hq'. destruct (decide (q = p)) as [->|Hne]; [|left; rewrite Hq4, Hq; done]. right. rewrite E4, Ey. split_and!; [done|done|by eapply cleared_clean]. }
  eapply wp_mono; [by apply kalloc_spec|]. cbn [kk moved set_cpu_held upd_proc]. intros tf k1 Hk. apply wp_bind, wp_modify.
  destruct fl as [|p0 fl].
  - destruct Hk as [-> ->]. change (0 =? 0) with true. cbv iota.
    eapply (Hgive (kk s) _ c2 (set_trapframe 0 (used_one (nextpid s) x)) [] []); [done| |by apply Owns_nothing; try done; apply Hclp|done|apply Hclp|done|apply same_off_refl|simpl; lia].
    apply (only_upd p (set_trapframe 0)), (only_upd p (used_one (nextpid s))), only_refl.
  - destruct Hk as (-> & Hf1 & Hoff1 & _). destruct Hf as (_ & _ & Hnd & Hok). apply Forall_cons in Hok as [Hp0 Hok]. apply NoDup_cons in Hnd as [Hn0 Hnd].
    pose proof (page_bounds _ Hp0). rewrite (proj2 (Z.eqb_neq p0 0)) by lia. apply wp_bind, wp_onk. cbn [kk set_kk upd_proc moved].
    eapply wp_mono; [by apply proc_pagetable_all_or_nothing|]. intros pt k2 [Hres Hoff2]. apply wp_bind, wp_modify.
    assert (Hoff : same_off (p0 :: fl) (kmem (kk s)) (kmem k2)) by (eapply same_off_trans; [eapply same_off_mono; [|exact Hoff1]; set_solver|eapply same_off_mono; [|exact Hoff2]; set_solver]).
    assert (Honly : only p (set_pagetable pt (set_trapframe p0 (used_one (nextpid s) x))) (procs s)
      (<[p := set_pagetable pt (<[p := set_trapframe p0 (<[p := used_one (nextpid s) x]> (procs s) p)]> (<[p := used_one (nextpid s) x]> (procs s)) p)]> (<[p := set_trapframe p0 (<[p := used_one (nextpid s) x]> (procs s) p)]> (<[p := used_one (nextpid s) x]> (procs s))))).
    { apply (only_upd p (set_pagetable pt)), (only_upd p (set_trapframe p0)), (only_upd p (used_one (nextpid s))), only_refl. }
    destruct Hres as [(-> & Hshort & fl' & Hf2 & Hp2)|(Hpt & nd & fl' & Hu2 & Hp2 & Hsn)].
    + change (0 =? 0) with true. cbv iota.
      eapply (Hgive k2 _ c2 _ fl' [p0]); [done|exact Honly|apply Owns_frame; try done; simpl; by rewrite Hp2|done|apply Hclp|by rewrite Hp2|exact Hoff|simpl; lia].
    + rewrite (proj2 (Z.eqb_neq pt 0)) by done. apply wp_bind, wp_gets, wp_bind, wp_modify, wp_ret.
      cbn [procs set_kk upd_proc moved kk set_cpu_held]. destruct Honly as [Ey Hq]. 
      eexists k2, _, c2, p0, pt, nd, fl'. split_and!; [reflexivity|done|done|done| |done|done|done|by rewrite Hp2|done|done].
      split; [rewrite fn_lookup_insert; unfold newborn, first_context; cbv zeta; cbn [procs upd_proc set_kk moved]; by rewrite !fn_lookup_insert|intros q Hne; rewrite fn_lookup_insert_ne by done; by apply Hq].
Qed.

(** ** The open files *)

Context `{Devices K}.

Definition state_of (k : kst) (f : @Fs.fsst (@Log.logst S)) (ft : Z → file) (pr : Z → proc) (n : Z) (c : Spinlock.cpu) (ls : list Kernel.klock) s : K :=
  mk_kern k f ft (pipes s) pr n (initproc s) (ticks s) c ls (me s).

Definition with_files (g : Z → option Z) (x : proc) : proc :=
  mk_proc (state x) (chan x) (killed x) (xstate x) (pid x) (parent x) (kstack x) (sz x) (pagetable x) (trapframe x) (context x) g (cwd x) (name x).

(** The files open in [x] at descriptors below [n]. *)
Definition files_below (n : Z) (x : proc) : list Z := omap (ofile x) (seqZ 0 n).

Lemma files_below_S n x : 0 ≤ n → files_below (n + 1) x = files_below n x ++ match ofile x n with Some f => [f] | None => [] end.
Proof.
  intros Hn. unfold files_below. rewrite seqZ_app, omap_app by lia. by f_equal.
Qed.

Lemma length_below n x : Z.of_nat (length (files_below n x)) ≤ Z.max 0 n.
Proof.
  unfold files_below. assert (∀ l, (length (omap (ofile x) l) ≤ length l)%nat) as Hl.
  { induction l as [|a l IH]; [done|]. cbn [omap list_omap length]. destruct (ofile x a); cbn [length]; lia. }
  pose proof (Hl (seqZ 0 n)) as Hn. rewrite length_seqZ in Hn. lia.
Qed.

Lemma occ_snoc f l g : FileRefs.occ f (l ++ [g]) = FileRefs.occ f l + (if g =? f then 1 else 0).
Proof.
  induction l as [|a l IH]; cbn [app]; rewrite !FileRefs.occ_cons; [lia|]. rewrite IH. lia.
Qed.

Definition more_refs (l : list Z) (ft ft' : Z → file) : Prop := ∀ f, ft' f = set_fref (fref (ft f) + FileRefs.occ f l) (ft f).

Lemma filedup_ok f s ls : kheld s = ls → LFtable ∉ ls → cpu_at 1 (kcpu s) → 1 ≤ fref (ftable s f) < 2 ^ 31 - 1 →
  wp (filedup f) (λ r s', r = f ∧ ∃ c, cpu_at 1 c ∧
    s' = state_of (kk s) (kfs s) (<[f := set_fref (fref (ftable s f) + 1) (ftable s f)]> (ftable s)) (procs s) (nextpid s) c ls s) s.
Proof.
  intros Hh Hl Hc Hf. unfold filedup. apply wp_bind, (wp_lock _ 1); [by rewrite Hh|done|]. intros c1 Hc1. rewrite Hh. apply wp_bind, wp_gets. simpl.
  rewrite (proj2 (Z.ltb_ge _ 1)), s32_small by lia. apply wp_bind, wp_modify, wp_bind, (wp_unlock _ ls 1); [done|done|done|lia|].
  intros c2 Hc2. apply wp_ret. split; [done|]. by exists c2.
Qed.

Lemma dup_files_ok p np s : kheld s = [LProc np] → cpu_at 1 (kcpu s) → (∀ fd, ofile (procs s np) fd = None) →
  (∀ fd f, 0 ≤ fd < NOFILE → ofile p fd = Some f → 1 ≤ fref (ftable s f) < 2 ^ 31 - NOFILE) →
  wp (dup_files p np) (λ _ s', ∃ ft pr c y, s' = state_of (kk s) (kfs s) ft pr (nextpid s) c [LProc np] s ∧ cpu_at 1 c ∧
    more_refs (files_below NOFILE p) (ftable s) ft ∧ only np y (procs s) pr ∧ y = with_files (ofile y) (procs s np) ∧
    ∀ fd, ofile y fd = if (0 <=? fd) && (fd <? NOFILE) then ofile p fd else None) s.
Proof.
  intros Hh Hc Hnone Href. unfold dup_files.
  set (I := λ (j : Z) (s' : K), ∃ ft pr c y, s' = state_of (kk s) (kfs s) ft pr (nextpid s) c [LProc np] s ∧ cpu_at 1 c ∧
    more_refs (files_below j p) (ftable s) ft ∧ only np y (procs s) pr ∧ y = with_files (ofile y) (procs s np) ∧
    ∀ fd, ofile y fd = if (0 <=? fd) && (fd <? j) then ofile p fd else None).
  change NOFILE with (0 + Z.of_nat (Z.to_nat NOFILE)) at 2 3. apply (wp_for_range I).
  - exists (ftable s), (procs s), (kcpu s), (procs s np). split_and!; try done.
    + destruct s. simpl in *. by rewrite Hh.
    + intros f. change (files_below 0 p) with (@nil Z). unfold FileRefs.occ. simpl. rewrite Z.add_0_r. by destruct (ftable s f).
    + by destruct (procs s np).
    + intros fd. rewrite Hnone. destruct (0 <=? fd) eqn:?, (fd <? 0) eqn:?; bsimpl; done || lia.
  - intros j s1 Hj (ft & pr & c & y & -> & Hc1 & Hft & Hy & Ey & Hof). assert (0 ≤ j < NOFILE) as Hj' by (change NOFILE with 200 in *; lia).
    destruct (ofile p j) as [f|] eqn:E.
    + apply wp_bind. eapply wp_mono; [eapply (filedup_ok f _ [LProc np]); [done|by intros ?%list_elem_of_singleton|done|]|].
      { simpl. rewrite Hft. simpl. pose proof (Href j f Hj' E). pose proof (FileRefs.occ_nonneg f (files_below j p)). pose proof (FileRefs.occ_le f (files_below j p)).
        pose proof (length_below j p). change NOFILE with 200 in *. lia. }
      intros g s2 [-> (c2 & Hc2 & ->)]. apply wp_modify. eexists _, _, c2, (set_ofile j (Some f) y). split_and!; [reflexivity|done| |apply (only_upd np (set_ofile j (Some f))), Hy| |].
      * intros f'. cbn [ftable state_of upd_proc]. rewrite files_below_S, E by lia. rewrite occ_snoc. destruct (decide (f = f')) as [<-|Hne].
        -- rewrite fn_lookup_insert, Hft, Z.eqb_refl. simpl. unfold set_fref. f_equal. simpl. lia.
        -- rewrite fn_lookup_insert_ne, Hft by done. rewrite (proj2 (Z.eqb_neq f f')) by done. f_equal. lia.
      * rewrite Ey at 1. done.
      * intros fd. simpl. destruct (decide (j = fd)) as [<-|Hne].
        -- rewrite fn_lookup_insert, E. by rewrite (proj2 (Z.leb_le 0 j)), (proj2 (Z.ltb_lt j (j + 1))) by lia.
        -- rewrite fn_lookup_insert_ne, Hof by done. destruct (0 <=? fd), (fd <? j) eqn:?, (fd <? j + 1) eqn:?; bsimpl; done || lia.
    + apply wp_ret. exists ft, pr, c, y. split_and!; try done.
      * rewrite files_below_S, E by lia. by rewrite app_nil_r.
      * intros fd. rewrite Hof. destruct (decide (j = fd)) as [<-|Hne]; [rewrite E; by repeat case_match|].
        destruct (0 <=? fd), (fd <? j) eqn:?, (fd <? j + 1) eqn:?; bsimpl; done || lia.
Qed.

(** ** fork *)

(** The process that calls fork: its memory is [us], its table pages [nd]. *)
Record fork_ready (nd : gmap (list Z) Z) (fl : list Z) (us : list (Z * Z)) s : Prop := {
  fr_locks : kheld s = [] ∧ cpu_at 0 (kcpu s) ∧ Fs.ilk (kfs s) = false;
  fr_me : in_table (me s) ∧ state (procs s (me s)) = RUNNING;
  fr_rep : user_rep (kk s) (pagetable (procs s (me s))) nd fl us (proc_hi (trapframe (procs s (me s))));
  fr_size : length us = npg (sz (procs s (me s))) ∧ 0 ≤ sz (procs s (me s)) ≤ TRAPFRAME;
  fr_frame : page_ok (trapframe (procs s (me s))) ∧ trapframe (procs s (me s)) ∉ fl;
  fr_table : table_clean (procs s);
  fr_files : ∀ fd f, 0 ≤ fd < NOFILE → ofile (procs s (me s)) fd = Some f → 1 ≤ fref (ftable s f) < 2 ^ 31 - NOFILE;
  fr_cwd : ∃ cw, cwd (procs s (me s)) = Some cw ∧ 0 ≤ Fs.ref (Fs.itable (kfs s) cw) < 2 ^ 31 - 1 }.

(** The child [np], with its pages [usn] and table pages [nd]. *)
Record child (fl : list Z) (us : list (Z * Z)) s (s' : K) (np : Z) (nd : gmap (list Z) Z) (fl' : list Z) (usn : list (Z * Z)) : Prop := {
  ch_new : in_table np ∧ state (procs s np) = UNUSED;
  ch_state : state (procs s' np) = RUNNABLE ∧ pid (procs s' np) = nextpid s ∧ parent (procs s' np) = Some (me s);
  ch_start : context (procs s' np) = first_context (procs s' np);
  ch_mem : sz (procs s' np) = sz (procs s (me s)) ∧ length usn = length us ∧ copied (kk s) (kk s') us usn ∧
    user_rep (kk s') (pagetable (procs s' np)) nd fl' usn (proc_hi (trapframe (procs s' np)));
  ch_pages : fl ≡ₚ trapframe (procs s' np) :: usn.*1 ++ fl' ++ pages nd;
  ch_regs : ∀ o, 0 ≤ o < TF_SIZE → ld8 (kmem (kk s')) (trapframe (procs s' np) + o) =
    if (TF_a0 <=? o) && (o <? TF_a0 + 8) then 0 else ld8 (kmem (kk s)) (trapframe (procs s (me s)) + o);
  ch_files : (∀ fd, ofile (procs s' np) fd = if (0 <=? fd) && (fd <? NOFILE) then ofile (procs s (me s)) fd else None) ∧
    more_refs (files_below NOFILE (procs s (me s))) (ftable s) (ftable s');
  ch_cwd : cwd (procs s' np) = cwd (procs s (me s)) ∧
    ∀ ip, Fs.itable (kfs s') ip = if bool_decide (cwd (procs s (me s)) = Some ip) then Fs.set_ref (Fs.ref (Fs.itable (kfs s) ip) + 1) (Fs.itable (kfs s) ip) else Fs.itable (kfs s) ip;
  ch_name : name (procs s' np) = copy_name (name (procs s (me s))) (name (procs s np));
  ch_others : ∀ q, q ≠ np → procs s' q = procs s q }.

(** No child: everything is as it was, but for the order of the free list and pids. *)
Record no_child (fl : list Z) s (s' : K) : Prop := {
  nc_free : ∃ fl', free_pages (kk s') fl' ∧ fl' ≡ₚ fl;
  nc_same : ftable s' = ftable s ∧ kfs s' = kfs s;
  nc_table : ∀ q, in_table q → procs s' q = procs s q ∨ state (procs s q) = UNUSED ∧ state (procs s' q) = UNUSED ∧ clean (procs s' q) }.

(** A table with the pages of another's free list given away. *)
Lemma user_rep_shrink k k' root nd fl fl' us hi : user_rep k root nd fl us hi → free_pages k' fl' → fl' ⊆ fl →
  same_off fl (kmem k) (kmem k') → user_rep k' root nd fl' us hi.
Proof.
  intros (Hrep & Hnd & Hrest) Hf Hsub Hoff. pose proof Hrep as [Hok _]. apply vm_pages_ok in Hok. rewrite Forall_forall in Hok.
  pose proof Hnd as (Hnu & Hdu & Hn2)%NoDup_app. pose proof Hn2 as (_ & Hd2 & Hn3)%NoDup_app.
  assert (Hn' : NoDup (fl' ++ pages nd)) by (apply NoDup_app; split_and!; [apply Hf|intros p Hp; by apply Hd2, Hsub|done]).
  split_and!; [|apply NoDup_app; split_and!; [done| |done]|apply Hrest..].
  - eapply as_rep_frame; [exact Hrep|done|done|]. intros p b Hp Hb. apply Hoff. intros q Hq Hqb.
    assert (p = q) as <-; [|by apply (Hd2 p)]. eapply page_disjoint; [| |done|done]; apply Hok; rewrite elem_of_app; tauto.
  - intros p Hp. specialize (Hdu p Hp). rewrite elem_of_app in *. intros [?|?]; apply Hdu; [left; by apply Hsub|by right].
Qed.

Lemma ld8_stn_zero w : ∀ a m b, a ≤ b < a + Z.of_nat w → ld8 (stn w a 0 m) b = 0.
Proof.
  induction w as [|w IH]; intros a m b Hb; [lia|]. cbn [stn]. destruct (decide (b = a)) as [->|Hne].
  - rewrite ld8_stn by lia. by rewrite ld8_st8_eq.
  - apply IH. lia.
Qed.

(** The child's registers: the parent's, but [a0]. *)
Lemma frame_copied k root nd fl us hi tf tfp : user_rep k root nd fl us hi → page_ok tf → page_ok tfp → tf ∉ us.*1 ++ fl ++ pages nd →
  let k' := set_mem (st64 (tf + TF_a0) 0) (set_mem (CString.memmove tf tfp TF_SIZE) k) in
  user_rep k' root nd fl us hi ∧ same_off [tf] (kmem k) (kmem k') ∧
  ∀ o, 0 ≤ o < TF_SIZE → ld8 (kmem k') (tf + o) = if (TF_a0 <=? o) && (o <? TF_a0 + 8) then 0 else ld8 (kmem k) (tfp + o).
Proof.
  intros Hu Htf Htfp Hn k'. rewrite elem_of_app in Hn.
  assert (Hm1 : same_off [tf] (kmem k) (CString.memmove tf tfp TF_SIZE (kmem k))).
  { apply same_off_page. intros b Hb. apply CString.memmove_out; unfold TF_SIZE; lia. }
  assert (Hm2 : ∀ m, same_off [tf] m (st64 (tf + TF_a0) 0 m)).
  { intros m. apply same_off_page. intros b Hb. apply ld8_st64_ne. unfold TF_a0. lia. }
  split_and!.
  - apply (user_rep_other _ _ _ _ _ _ _ tf); [apply (user_rep_other _ _ _ _ _ _ _ tf); [done|done|tauto|done]|done|tauto|apply Hm2].
  - eapply same_off_trans; [exact Hm1|apply Hm2].
  - intros o Ho. unfold k'. cbn [kmem set_mem]. destruct ((TF_a0 <=? o) && (o <? TF_a0 + 8)) eqn:E.
    + bsimpl. apply (ld8_stn_zero 8). lia.
    + rewrite ld8_st64_ne by (destruct (TF_a0 <=? o) eqn:?; bsimpl; lia). rewrite CString.memmove_in by lia. f_equal. lia.
Qed.

Lemma copied_frame k0 k k' us usn ps : copied k0 k us usn → same_off ps (kmem k) (kmem k') → Forall page_ok ps →
  (∀ q, q ∈ usn.*1 → page_ok q ∧ q ∉ ps) → copied k0 k' us usn.
Proof.
  intros Hc Hoff Hps Hq j q f Hj. destruct (Hc j q f Hj) as (p & g & Hm1 & Hm2 & Hm3). exists p, g. split; [exact Hm1|]. split; [exact Hm2|]. rewrite <- Hm3.
  apply (list_elem_of_lookup_2), (list_elem_of_fmap_2 fst) in Hj. destruct (Hq q Hj). by eapply page_bytes_same_off.
Qed.

(** From here on the entry [np] has been allocated, with the trap frame [tf] and the
    table [pt]. *)
Section allocated.
Context (nd : gmap (list Z) Z) (fl : list Z) (us : list (Z * Z)) (s : K) (Hr : fork_ready nd fl us s).
Context (np tf pt : Z) (k1 : kst) (pr1 : Z → proc) (c1 : Spinlock.cpu) (ndn : gmap (list Z) Z) (fl1 : list Z).
Context (Hnp : in_table np) (Hun : state (procs s np) = UNUSED) (Hpt : pt ≠ 0).
Let p := procs s (me s).
Let y := newborn (nextpid s) tf pt (procs s np).
Context (Hy : only np y (procs s) pr1) (Hu1 : user_rep k1 pt ndn fl1 [] (proc_hi tf)).
Context (Hp1 : fl ≡ₚ tf :: fl1 ++ pages ndn) (Hoff1 : same_off fl (kmem (kk s)) (kmem k1)).

Lemma free_now : NoDup fl ∧ Forall page_ok fl.
Proof using Hr. destruct (fr_rep _ _ _ _ Hr) as (((Hf & _) & _) & _). split; apply Hf. Qed.

Lemma new_pages : page_ok tf ∧ tf ∉ fl1 ++ pages ndn ∧ ∀ q, q ∈ fl1 ++ pages ndn → q ∈ fl.
Proof using Hr Hp1.
  destruct free_now as [Hn Ho]. rewrite Hp1 in Hn, Ho. apply NoDup_cons in Hn as [Hn _]. apply Forall_cons in Ho as [Ho _].
  split_and!; [done|done|]. intros q Hq. rewrite Hp1. by constructor.
Qed.

(** The parent's pages are none of those that are given away. *)
Lemma parent_apart q : q ∈ us.*1 ++ pages nd → q ∉ fl.
Proof using Hr.
  destruct (fr_rep _ _ _ _ Hr) as (_ & (_ & Hdu & (_ & Hdf & _)%NoDup_app)%NoDup_app & _). intros [Hq|Hq]%elem_of_app Hf.
  - apply (Hdu q Hq). rewrite elem_of_app. by left.
  - by apply (Hdf q).
Qed.

Lemma parent_kept : user_rep k1 (pagetable p) nd fl1 us (proc_hi (trapframe p)).
Proof using Hr Hu1 Hp1 Hoff1.
  eapply user_rep_shrink; [apply (fr_rep _ _ _ _ Hr)|apply Hu1| |exact Hoff1]. intros q Hq. apply new_pages. rewrite elem_of_app. by left.
Qed.

Context (k2 : kst) (nd2 : gmap (list Z) Z) (fl2 : list Z) (usn : list (Z * Z)).
Context (Hu2 : user_rep k2 pt nd2 fl2 usn (proc_hi tf)) (Hp2 : usn.*1 ++ fl2 ++ pages nd2 ≡ₚ fl1 ++ pages ndn).
Context (Hoff2 : same_off (fl1 ++ pages ndn) (kmem k1) (kmem k2)).

Lemma copy_off : same_off fl (kmem (kk s)) (kmem k2) ∧ tf ∉ usn.*1 ++ fl2 ++ pages nd2.
Proof using Hr Hp1 Hoff1 Hp2 Hoff2.
  destruct new_pages as (_ & Hn & Hin). split; [|by rewrite Hp2]. eapply same_off_trans; [exact Hoff1|]. by eapply same_off_mono.
Qed.

(** No memory for the copy: the child is given up. *)
Lemma fork_undo c : cpu_at 1 c → usn = [] →
  wp (freeproc np;; release (LProc np);; mret (-1)) (λ r s', kheld s' = [] ∧ cpu_at 0 (kcpu s') ∧ same_off fl (kmem (kk s)) (kmem (kk s')) ∧
    r = -1 ∧ no_child fl s s') (moved k2 pr1 (s32 (nextpid s + 1)) c [LProc np] s).
Proof using Hr Hnp Hun Hpt Hy Hp1 Hoff1 Hu2 Hp2 Hoff2.
  intros Hc Eusn. destruct Hy as [Ey Hoth], copy_off as [Hoff12 Htf2], new_pages as (Htf & _).
  pose proof Hu2 as Hu. pose proof Hp2 as Hp. rewrite Eusn in Hu, Hp, Htf2.
  pose proof (fr_table _ _ _ _ Hr np Hnp Hun) as (_ & _ & Hsz0 & Hof0 & Hpar0).
  apply wp_bind. eapply wp_mono; [eapply (freeproc_ok np _ fl2 (tf :: pages nd2))|].
  { cbn [kk procs moved]. rewrite Ey. apply (Owns_table k2 fl2 y nd2); [exact Hu|exact Htf|exact Htf2|done|done]. }
  intros [] s3 (k3 & pr3 & fl3 & -> & Hf3 & Hp3 & Hoff3 & [E3 Hq3]). cbn [kk procs moved nextpid kcpu kheld] in *. rewrite Ey in *.
  apply wp_bind, (wp_unlock _ [] 0); [done|apply not_elem_of_nil|done|lia|]. intros c4 Hc4. apply wp_ret.
  assert (Hall : (tf :: pages nd2) ++ fl2 ≡ₚ fl) by (rewrite Hp1; simpl; constructor; rewrite <- Hp; simpl; apply Permutation_app_comm).
  split_and!; [done|done| |done|].
  - eapply same_off_trans; [exact Hoff12|]. by eapply same_off_perm.
  - split; cbn [kk procs moved ftable kfs set_cpu_held]; [exists fl3; split; [done|by rewrite Hp3]|done|].
    intros q Hq. destruct (decide (q = np)) as [->|Hqn]; [|left; by rewrite Hq3, Hoth]. right. rewrite E3. split_and!; try done.
Qed.

(** The child's pages hold the bytes the parent's had when fork was called. *)
Lemma copied_from_start k3 : copied k1 k2 us usn → same_off [tf] (kmem k2) (kmem k3) → copied (kk s) k3 us usn.
Proof using Hr Hp1 Hoff1 Hu2 Hp2 Hoff2.
  intros Hcp Hoff3. destruct copy_off as [_ Htf2], new_pages as (Htf & _), (fr_rep _ _ _ _ Hr) as (_ & _ & Huok & _), free_now as [_ Hfok].
  eapply (copied_frame _ k2 _ _ _ [tf]); [|exact Hoff3|by constructor|].
  - intros j q g Hj. destruct (Hcp j q g Hj) as (a & b & E1 & E2 & E3). exists a, b. split; [exact E1|]. split; [exact E2|]. rewrite E3.
    apply list_elem_of_lookup_2 in E1. rewrite Forall_forall in Huok. destruct (Huok _ E1) as [Ha _]. apply (list_elem_of_fmap_2 fst) in E1.
    eapply page_bytes_same_off; [exact Hoff1|exact Ha|exact Hfok|]. apply parent_apart. rewrite elem_of_app. by left.
  - intros q Hq. split; [|intros ->%list_elem_of_singleton; apply Htf2; rewrite elem_of_app; by left].
    destruct Hu2 as (_ & _ & Hok2 & _). rewrite Forall_forall in Hok2. apply list_elem_of_fmap in Hq as (a & -> & Ha). apply (Hok2 a Ha).
Qed.

(** What the rest of fork makes of the entry, once the files are duplicated. *)
Definition grown (cw : Z) (y4 : proc) : proc :=
  let z := set_cwd (Some cw) y4 in
  set_state RUNNABLE (set_parent (Some (me s)) (set_name (copy_name (name p) (name z)) z)).

(** The child is complete. *)
Lemma child_made cw k3 s9 y4 : cwd p = Some cw → kk s9 = k3 → copied k1 k2 us usn → length usn = length us →
  k3 = set_mem (st64 (tf + TF_a0) 0) (set_mem (CString.memmove tf (trapframe p) TF_SIZE) k2) →
  y4 = with_files (ofile y4) (set_sz (sz p) y) → only np (grown cw y4) (procs s) (procs s9) →
  (∀ fd, ofile y4 fd = if (0 <=? fd) && (fd <? NOFILE) then ofile p fd else None) → more_refs (files_below NOFILE p) (ftable s) (ftable s9) →
  0 ≤ Fs.ref (Fs.itable (kfs s) cw) < 2 ^ 31 - 1 →
  (∀ ip, Fs.itable (kfs s9) ip = <[cw := Fs.set_ref (s32 (Fs.ref (Fs.itable (kfs s) cw) + 1)) (Fs.itable (kfs s) cw)]> (Fs.itable (kfs s)) ip) →
  same_off fl (kmem (kk s)) (kmem (kk s9)) ∧ child fl us s s9 np nd2 fl2 usn.
Proof using Hr Hnp Hun Hp1 Hoff1 Hu2 Hp2 Hoff2.
  intros Ecw Hk9 Hcp Hl2 Ek3 Hy4 [Ez Hoth9] Hof4 Hft Hcw Hit. rewrite s32_small in Hit by lia. destruct copy_off as [Hoff12 Htf2], new_pages as (Htf & _), free_now as [_ Hfok], (fr_frame _ _ _ _ Hr) as [Htfp Htfn].
  destruct (frame_copied k2 pt nd2 fl2 usn (proc_hi tf) tf (trapframe p)) as (Hu3 & Hoff3 & Hregs); [exact Hu2|done|done|done|]. rewrite <- Ek3 in Hu3, Hoff3, Hregs.
  assert (Etf : trapframe (procs s9 np) = tf) by (by rewrite Ez, Hy4). rewrite Hk9.
  split; [eapply same_off_trans; [exact Hoff12|]; eapply same_off_mono; [|exact Hoff3]; intros q ->%list_elem_of_singleton; rewrite Hp1; by constructor|].
  split; rewrite ?Etf, ?Hk9; fold p.
  - done.
  - rewrite Ez, Hy4. done.
  - rewrite Ez, Hy4. done.
  - rewrite Ez, Hy4. split_and!; [done|done|by apply copied_from_start|exact Hu3].
  - rewrite Hp1. constructor. by rewrite Hp2.
  - intros o Ho. rewrite Hregs by done. destruct (_ && _); [done|]. apply Hoff12. intros q Hq Hb. rewrite Forall_forall in Hfok.
    apply Htfn. fold p. replace (trapframe p) with q; [done|]. eapply page_disjoint; [by apply Hfok|exact Htfp|exact Hb|]. unfold in_page, TF_SIZE in *. fold p. lia.
  - rewrite Ez. split; [exact Hof4|exact Hft].
  - rewrite Ez, Ecw. split; [done|]. intros ip. rewrite Hit. case_bool_decide as Eip; [injection Eip as ->; by rewrite fn_lookup_insert|].
    rewrite fn_lookup_insert_ne by congruence. done.
  - rewrite Ez, Hy4. done.
  - exact Hoth9.
Qed.

End allocated.

(** [C12] fork as a whole (allocproc, uvmcopy, filedup, idup, freeproc).  For a process
    whose memory, open files and working directory are in order (with reference counts
    that are not about to overflow an int), fork does not panic
    and leaves no lock held, and everything in memory that was not free is as it was.
    Either it returns the next pid, and there is one new runnable child of the caller:
    it has a copy of every page in pages of its own, the caller's registers but for a0,
    which is 0, the same open files, each with the reference counted, and the same
    directory.  Or it returns -1, with the files, the directory and every free page as
    before, and the table without a child; that happens only if the table is full or
    there are at most six pages, and three for each page of the caller, left. *)
Theorem fork_correct nd fl us s : fork_ready nd fl us s →
  wp fork (λ r s', kheld s' = [] ∧ cpu_at 0 (kcpu s') ∧ same_off fl (kmem (kk s)) (kmem (kk s')) ∧
    (r = -1 ∧ (table_full (procs s) ∨ (length fl ≤ 6 + 3 * length us)%nat) ∧ no_child fl s s' ∨ r = nextpid s ∧ ∃ np nd' fl' usn, child fl us s s' np nd' fl' usn)) s.
Proof.
  intros Hr. destruct (fr_locks _ _ _ _ Hr) as (Hh & Hc & Hilk), (fr_size _ _ _ _ Hr) as [Hlen Hsz], (fr_cwd _ _ _ _ Hr) as (cw & Ecw & Hcw).
  pose proof (fr_files _ _ _ _ Hr) as Hfiles. unfold fork. apply wp_bind, wp_gets, wp_bind, wp_gets. set (p := procs s (me s)) in *.
  apply wp_bind. eapply wp_mono; [eapply (allocproc_ok s fl); [done|done|apply (fr_rep _ _ _ _ Hr)|apply Hr]|]. intros [np|] s1 Hpost.
  2:{ destruct Hpost as (k & pr & n & c & fl' & -> & Hc1 & Hf1 & Hp1 & Hoff1 & Htab & Hwhy). apply wp_ret. split_and!; [done|done|exact Hoff1|].
      left. split; [done|]. split; [destruct Hwhy as [|]; [by left|right; lia]|]. split; [by exists fl'|done|exact Htab]. }
  destruct Hpost as (k1 & pr1 & c1 & tf & pt & ndn & fl1 & -> & Hc1 & Hnp & Hun & Hy & _ & Hpt & Hu1 & Hp1 & Hoff1 & Hsn).
  pose proof Hy as [Ey Hoth]. pose proof (fr_table _ _ _ _ Hr np Hnp Hun) as (_ & _ & _ & Hof0 & _).
  set (y := newborn (nextpid s) tf pt (procs s np)) in *. apply wp_bind, wp_gets. cbn [procs moved]. rewrite Ey. apply wp_bind, wp_onk. cbn [kk moved].
  eapply wp_mono; [eapply (uvmcopy_spec k1 _ _ nd ndn fl1 us); [by eapply parent_kept|exact Hu1|exact Hlen|exact Hsz|]|].
  { intros q Hq Hq'. eapply (parent_apart nd fl us s Hr q Hq). by eapply (new_pages nd fl us s Hr). }
  intros r k2 (nd2 & fl2 & usn & Hu2 & _ & Hp2 & Hoff2 & _ & Hres). destruct Hres as [(-> & Hl2 & Hcp)|(-> & Eusn & Hshort)].
  2:{ apply Permutation_length in Hp1 as Hl1. simpl in Hl1. rewrite length_app, length_pages in Hl1. change (-1 <? 0) with true. cbv iota. eapply wp_mono; [by eapply (fork_undo nd fl us s Hr np tf pt k1 pr1 ndn fl1 Hnp Hun Hpt Hy Hp1 Hoff1 k2 nd2 fl2 usn Hu2 Hp2 Hoff2)|].
      intros r s' (? & ? & ? & ? & ?). split_and!; try done. left. split; [done|]. split; [right; lia|done]. }
  change (0 <? 0) with false. cbv iota. apply wp_bind, wp_modify, wp_bind, wp_onk, wp_modify, wp_bind. unfold tf_store. apply wp_bind, wp_gets.
  cbn [procs kk set_kk upd_proc moved]. rewrite fn_lookup_insert, Ey. cbn [trapframe set_sz]. change (trapframe y) with tf. apply wp_onk, wp_modify.
  set (k3 := set_mem (st64 _ _) _). set (pr2 := <[np := set_sz (sz p) (pr1 np)]> pr1).
  assert (Ey2 : pr2 np = set_sz (sz p) y) by (unfold pr2; by rewrite fn_lookup_insert, Ey).
  match goal with |- wp ?a ?Q _ => change (wp a Q (moved k3 pr2 (s32 (nextpid s + 1)) c1 [LProc np] s)) end.
  apply wp_bind. eapply wp_mono; [eapply (dup_files_ok p np); cbn [procs kheld kcpu ftable moved]; [done|done|by rewrite Ey2|exact Hfiles]|].
  intros [] s4 (ft & pr4 & c4 & y4 & -> & Hc4 & Hft & [Ey4 Hoth4] & Hy4 & Hof4). cbn [kk kfs ftable procs nextpid moved] in *. rewrite Ey2 in Hy4.
  assert (Hy4' : only np y4 (procs s) pr4).
  { split; [done|]. intros q Hq. rewrite Hoth4 by done. unfold pr2. rewrite fn_lookup_insert_ne by done. by apply Hoth. }
  rewrite Ecw. cbn [default]. apply wp_bind, wp_onfs. unfold Fs.idup. apply wp_bind, Lock.wp_acquire; [exact Hilk|]. apply wp_bind, wp_modify, wp_bind, Lock.wp_release; [done|]. apply wp_ret.
  apply wp_bind, wp_modify, wp_bind, wp_modify, wp_bind, wp_gets, wp_bind, (wp_unlock _ [] 0); [done|apply not_elem_of_nil|done|lia|]. intros c5 Hc5.
  apply wp_bind, (wp_lock _ 0); [apply not_elem_of_nil|done|]. intros c6 Hc6. apply wp_bind, wp_modify, wp_bind, (wp_unlock _ [] 0); [done|apply not_elem_of_nil|done|lia|]. intros c7 Hc7.
  apply wp_bind, (wp_lock _ 0); [apply not_elem_of_nil|done|]. intros c8 Hc8. apply wp_bind, wp_modify, wp_bind, (wp_unlock _ [] 0); [done|apply not_elem_of_nil|done|lia|]. intros c9 Hc9. apply wp_ret.
  change (id cw) with cw. set (s9 := set_cpu_held c9 [] _). set (rd := procs _ np).
  assert (Hrd : pid rd = nextpid s).
  { unfold rd. cbn [procs upd_proc set_kfs]. rewrite !fn_lookup_insert. cbn [pid set_name set_cwd]. change (pid (pr4 np) = nextpid s). by rewrite Ey4, Hy4. }
  destruct (child_made nd fl us s Hr np tf pt k1 ndn fl1 Hnp Hun Hp1 Hoff1 k2 nd2 fl2 usn Hu2 Hp2 Hoff2 cw k3 s9 y4) as [Hoff9 Hch]; try done.
  - exact (only_upd np (set_state RUNNABLE) _ _ _ (only_upd np (set_parent (Some (me s))) _ _ _ (only_upd np (λ y0, set_name (copy_name (name p) (name y0)) y0) _ _ _ (only_upd np (set_cwd (Some cw)) _ _ _ Hy4')))).
  - split_and!; [done|done|exact Hoff9|]. right. split; [done|]. by exists np, nd2, fl2, usn.
Qed.

End kernel.

(** ** A machine with one process *)

Module Demo.

(** Fourteen pages of RAM, just enough for two processes of a page. *)
Definition image : KernelImage.
Proof.
  refine (@Build_KernelImage (PHYSTOP - 14 * PGSIZE) (KERNBASE + 8192) (KERNBASE + 4096) _ _ _ _ _ _ _ _); vm_compute; first [done|reflexivity].
Defined.
#[local] Existing Instance image.
Definition objects : KernelObjects := {| kobj := KERNBASE + 12288; forkret_addr := KERNBASE + 4200 |}.
#[local] Existing Instance objects.

(** A trap frame, a table and one page. *)
Definition boot : M kst (Z * Z * Z) :=
  kinit;; tf ← kalloc; pt ← proc_pagetable tf;
  if pt =? 0 then mret (tf, pt, 0) else r ← uvmalloc pt 0 PGSIZE PTE_W; mret (tf, pt, r).

Definition final (o : outcome (Z * Z * Z * kst)) : kst := match o with Ret (_, k) => k | _ => mk_kst ∅ 0 false end.
Definition booted : kst := final (boot (mk_kst ∅ 0 false)).
Definition frame : Z := PHYSTOP - PGSIZE.
Definition table : Z := PHYSTOP - 2 * PGSIZE.

Definition shell : proc := mk_proc RUNNING NoChan false 0 1 None 0 PGSIZE table frame [] (λ fd, if fd =? 0 then Some 3 else None) (Some 1) [115; 104].

Definition start_at (m : kst) : @kern unit :=
  let k := FileRefs.demo_kern in
  mk_kern m (kfs k) (λ f, if f =? 3 then mk_file FD_INODE 1 true true 0 1 0 0 else FileRefs.no_file) (pipes k)
    (λ p, if p =? 0 then shell else FileRefs.no_proc) 2 (Some 0) 0 (Spinlock.mk_cpu 0 false true) [] 0.
Definition start : @kern unit := start_at booted.

Lemma boot_runs : match boot (mk_kst ∅ 0 false) with Ret (r, _) => r = (frame, table, PGSIZE) | _ => False end.
Proof. vm_compute. reflexivity. Qed.

Lemma fork_runs : match fork start with Ret (r, _) => r = 2 | _ => False end.
Proof. vm_compute. reflexivity. Qed.

Definition boot_post (x : Z * Z * Z) (k : kst) : Prop := let '(tf, pt, r) := x in tf = frame → pt ≠ 0 → r = PGSIZE →
  ∃ nd fl us, user_rep k pt nd fl us (proc_hi tf) ∧ length us = npg PGSIZE ∧ tf ∉ fl.

Lemma boot_spec : wp boot boot_post (mk_kst ∅ 0 false).
Proof.
  unfold boot, boot_post. apply wp_bind. eapply wp_mono; [by apply kinit_spec|]. intros [] k0 [H0 _].
  assert (E : rev all_pages = frame :: tail (rev all_pages)) by (vm_compute; reflexivity). rewrite E in H0.
  apply wp_bind. eapply wp_mono; [by apply kalloc_spec|]. intros tf k1 (-> & H1 & _).
  destruct H0 as (_ & _ & [Hn _]%NoDup_cons & [Hok _]%Forall_cons).
  apply wp_bind. eapply wp_mono; [by apply proc_pagetable_all_or_nothing|]. intros pt k2 [[[-> _]|(Hpt & nd & fl & Hu & Hp & _)] _].
  { by apply wp_ret. }
  rewrite (proj2 (Z.eqb_neq pt 0)) by done.
  apply wp_bind. eapply wp_mono; [eapply (uvmalloc_spec _ _ nd fl [] (proc_hi frame) 0 PGSIZE); [exact Hu|reflexivity|split; [lia|vm_compute; discriminate]|vm_compute; discriminate|split; [vm_compute; discriminate|reflexivity]]|]. intros r k3 (nd3 & fl3 & new & Hu3 & Hp3 & _ & Hr).
  apply wp_ret. intros _ _ ->. destruct Hr as [(_ & _ & Hl)|[? _]]; [|done]. exists nd3, fl3, new. split_and!; [done|done|].
  intros Hin. apply Hn. rewrite <- Hp, <- Hp3, !elem_of_app. auto.
Qed.

Lemma start_at_ready m nd fl us : user_rep m table nd fl us (proc_hi frame) → length us = npg PGSIZE → frame ∉ fl →
  fork_ready nd fl us (start_at m).
Proof.
  intros Hu Hl Hn. split; cbn [start_at procs me kk kheld kcpu ftable].
  - by split.
  - done.
  - exact Hu.
  - split; [exact Hl|]. vm_compute. split; discriminate.
  - split; [|exact Hn]. vm_compute. split_and!; discriminate || reflexivity.
  - intros q _. cbn. destruct (q =? 0); done.
  - intros fd f _. cbn. destruct (fd =? 0); [|done]. by intros [= <-].
  - by eexists.
Qed.

Lemma final_ready (m : M kst (Z * Z * Z)) k0 : wp m boot_post k0 →
  match m k0 with Ret (r, _) => r = (frame, table, PGSIZE) | _ => False end → ∃ nd fl us, fork_ready nd fl us (start_at (final (m k0))).
Proof.
  unfold wp. destruct (m k0) as [[r k]| |]; [|done|done]. intros Hb ->. destruct Hb as (nd & fl & us & Hu & Hl & Hn); [reflexivity|vm_compute; discriminate|reflexivity|].
  exists nd, fl, us. by apply start_at_ready.
Qed.

Lemma start_ready : ∃ nd fl us, fork_ready nd fl us start.
Proof. exact (final_ready boot _ boot_spec boot_runs). Qed.

Lemma fork_correct_witness : ∃ nd fl us, fork_ready nd fl us start ∧
  ∃ s', fork start = Ret (2, s') ∧ ∃ np nd' fl' usn, child fl us start s' np nd' fl' usn.
Proof.
  destruct start_ready as (nd & fl & us & Hr). exists nd, fl, us. split; [exact Hr|].
  destruct (wp_inv _ _ _ (fork_correct nd fl us start Hr)) as (r & s' & Ef & _ & _ & _ & Hc).
  assert (E2 : r = 2) by (pose proof fork_runs as He; rewrite Ef in He; exact He). subst r.
  exists s'. split; [exact Ef|]. destruct Hc as [[E _]|[_ Hc]]; [discriminate E|exact Hc].
Defined.

End Demo.
End ForkSpec.
