(* ===== verification/Initcode.v ===== *)
(** * user/initcode.S and the bytes of it in kernel/proc.c

    The first process has its code as an array of bytes, [initcode] of proc.c.  Here the
    bytes are decoded, compared with the assembly in initcode.S, and run. *)

From S2P Require Import Prelude Mem Bytes CString Spinlock Riscv Kalloc Vm ListH Sleeplock Bio Log Journal Fs Pipe Kernel Proc File Fork.
Import Riscv Bytes Fork.

Module Initcode.

(** ** The instructions *)

Inductive insn := AUIPC (rd imm : Z) | ADDI (rd rs imm : Z) | ECALL | JAL (rd imm : Z) | Illegal.

Definition field (w lo n : Z) : Z := Z.land (Z.shiftr w lo) (Z.ones n).
Definition sext (n x : Z) : Z := if x <? 2 ^ (n - 1) then x else x - 2 ^ n.

Definition decode (w : Z) : insn :=
  let op := field w 0 7 in
  let rd := field w 7 5 in
  let rs := field w 15 5 in
  if op =? 0x17 then AUIPC rd (sext 32 (Z.shiftl (field w 12 20) 12))
  else if (op =? 0x13) && (field w 12 3 =? 0) then ADDI rd rs (sext 12 (field w 20 12))
  else if w =? 0x73 then ECALL
  else if op =? 0x6f then
    JAL rd (sext 21 (Z.lor (Z.lor (Z.shiftl (field w 31 1) 20) (Z.shiftl (field w 12 8) 12)) (Z.lor (Z.shiftl (field w 20 1) 11) (Z.shiftl (field w 21 10) 1))))
  else Illegal.

(** A little-endian number at [a] of a memory image. *)
Fixpoint le (bs : bytes) : Z := match bs with [] => 0 | b :: bs' => b + 256 * le bs' end.
Definition word (n : nat) (mem : bytes) (a : Z) : Z := le (take n (drop (Z.to_nat a) mem)).

Record ust := mk_ust { upc : Z; ureg : Z → Z }.
Definition wreg (rd v : Z) (s : ust) : ust := mk_ust (u64 (upc s + 4)) (if rd =? 0 then ureg s else <[rd := u64 v]> (ureg s)).

(** One instruction; [None]: a system call or a fault. *)
Definition ustep (mem : bytes) (s : ust) : option ust :=
  match decode (word 4 mem (upc s)) with
  | AUIPC rd imm => Some (wreg rd (upc s + imm) s)
  | ADDI rd rs imm => Some (wreg rd ((if rs =? 0 then 0 else ureg s rs) + imm) s)
  | JAL rd imm => Some (mk_ust (u64 (upc s + imm)) (ureg (wreg rd (upc s + 4) s)))
  | ECALL | Illegal => None
  end.
Definition at_ecall (mem : bytes) (s : ust) : Prop := decode (word 4 mem (upc s)) = ECALL.

Definition A0 : Z := 10.
Definition A1 : Z := 11.
Definition A7 : Z := 17.
Definition RA : Z := 1.

(** ** initcode.S *)

Notation SYS_exec := 7.
Notation SYS_exit := 2.

Inductive label := L_exit | L_init | L_argv.
#[local] Instance label_eq_dec : EqDecision label.
Proof. solve_decision. Defined.
Inductive asm := La (rd : Z) (l : label) | Li (rd n : Z) | Ecall | Jal (l : label).
#[local] Instance asm_eq_dec : EqDecision asm.
Proof. solve_decision. Defined.

(** A line of the file: a label, an instruction, or a directive; .quad has a label or 0. *)
Inductive line := Label (l : label) | Code (x : asm) | String_ (b : bytes) | P2align (n : Z) | Quad (l : option label).
#[local] Instance line_eq_dec : EqDecision line.
Proof. solve_decision. Defined.

(** "/init\0" with the nul that .string adds. *)
Definition init_string : bytes := [47; 105; 110; 105; 116; 0; 0].
Definition initcode_S : list line :=
  [Code (La A0 L_init); Code (La A1 L_argv); Code (Li A7 SYS_exec); Code Ecall;
   Label L_exit; Code (Li A7 SYS_exit); Code Ecall; Code (Jal L_exit);
   Label L_init; String_ init_string;
   P2align 2; Label L_argv; Quad (Some L_init); Quad None].

(** The file without its alignment directives. *)
Definition unaligned (l : list line) : list line := omap (λ x, match x with P2align _ => None | _ => Some x end) l.
Definition code (l : list line) : list asm := omap (λ x, match x with Code y => Some y | _ => None end) l.

(** The bytes a line takes at address [a], and the address of a label. *)
Definition extent (a : Z) (x : line) : Z :=
  match x with
  | Label _ => 0
  | Code (La _ _) => 8
  | Code _ => 4
  | String_ b => Z.of_nat (length b)
  | P2align n => (- a) mod 2 ^ n
  | Quad _ => 8
  end.
Fixpoint locate (l : list line) (a : Z) (which : label) : Z :=
  match l with
  | [] => a
  | x :: l' => if bool_decide (x = Label which) then a else locate l' (a + extent a x) which
  end.

(** The bytes of the data directives, from address [a] on. *)
Fixpoint data_bytes (addr : label → Z) (a : Z) (l : list line) : bytes :=
  match l with
  | [] => []
  | x :: l' =>
      match x with
      | String_ b => b
      | P2align _ => replicate (Z.to_nat (extent a x)) 0
      | Quad q => le_bytes 8 (match q with Some m => addr m | None => 0 end)
      | Label _ | Code _ => []
      end ++ data_bytes addr (a + extent a x) l'
  end.

(** The instructions for one line at address [a]: [la] is two. *)
Definition assemble1 (addr : label → Z) (a : Z) (x : asm) : list insn :=
  match x with
  | La rd l => [AUIPC rd 0; ADDI rd rd (addr l - a)]
  | Li rd n => [ADDI rd 0 n]
  | Ecall => [ECALL]
  | Jal l => [JAL RA (addr l - a)]
  end.
Fixpoint assemble (addr : label → Z) (a : Z) (l : list asm) : list insn :=
  match l with
  | [] => []
  | x :: l' => let c := assemble1 addr a x in c ++ assemble addr (a + 4 * Z.of_nat (length c)) l'
  end.
Definition disassemble (code : bytes) (n : nat) : list insn := map (λ i, decode (word 4 code (4 * Z.of_nat i))) (seq 0 n).

(** The addresses in the array: the vector follows the string without padding. *)
Definition addr (l : label) : Z := match l with L_exit => 24 | L_init => 36 | L_argv => 43 end.

(** The page as userinit leaves it. *)
Definition page : bytes := initcode ++ replicate (Z.to_nat PGSIZE - length initcode) 0.

Fixpoint cstring (fuel : nat) (mem : bytes) (a : Z) : bytes :=
  match fuel with
  | O => []
  | S fuel' => match mem !! Z.to_nat a with Some b => if b =? 0 then [] else b :: cstring fuel' mem (a + 1) | None => [] end
  end.

(** The first instructions, with any registers. *)
Lemma run_exec r : nsteps (λ s s', ustep page s = Some s') 5 (mk_ust 0 r) (mk_ust 20 (<[A7 := SYS_exec]> (<[A1 := 43]> (<[A1 := 8]> (<[A0 := 36]> (<[A0 := 0]> r)))))).
Proof. do 5 (eapply nsteps_l; [vm_compute; reflexivity|]). constructor. Qed.
Lemma run_exit r : nsteps (λ s s', ustep page s = Some s') 1 (mk_ust 24 r) (mk_ust 28 (<[A7 := SYS_exit]> r)).
Proof. eapply nsteps_l; [vm_compute; reflexivity|]. constructor. Qed.

Lemma run_again r : nsteps (λ s s', ustep page s = Some s') 1 (mk_ust 32 r) (mk_ust 24 (<[RA := 36]> r)).
Proof. eapply nsteps_l; [vm_compute; reflexivity|]. constructor. Qed.

(** [C30] The code of the first process.  The bytes in proc.c are what initcode.S gives
    without its .p2align directive: the instructions, the string at 36 and the vector at
    43 right behind it (the last bytes, which are 0, are the page's, not the array's);
    with the directive, as the file has it, the vector would be at 44.  In the page that userinit makes, they call exec with the path /init and
    the vector [/init, 0], whatever the registers are at the start; should exec return,
    they call exit, and again whenever that returns. *)
Theorem initcode_runs r :
  (∀ l, locate (unaligned initcode_S) 0 l = addr l) ∧ locate initcode_S 0 L_argv = 44 ∧
  disassemble initcode 9 = assemble addr 0 (code initcode_S) ∧ take 7 (drop 36 initcode) = init_string ∧
  take 23 (drop 36 page) = data_bytes addr 0 (unaligned initcode_S) ∧
  (∃ s, nsteps (λ s s', ustep page s = Some s') 5 (mk_ust 0 r) s ∧ at_ecall page s ∧ ureg s A7 = SYS_exec ∧
     cstring 128 page (ureg s A0) = [47; 105; 110; 105; 116] ∧ word 8 page (ureg s A1) = ureg s A0 ∧ word 8 page (ureg s A1 + 8) = 0 ∧
     u64 (upc s + 4) = addr L_exit) ∧
  (∃ s, nsteps (λ s s', ustep page s = Some s') 1 (mk_ust (addr L_exit) r) s ∧ at_ecall page s ∧ ureg s A7 = SYS_exit ∧
     ∃ s', nsteps (λ s s', ustep page s = Some s') 1 (mk_ust (u64 (upc s + 4)) r) s' ∧ upc s' = addr L_exit).
Proof.
  split; [by intros []|]. split; [done|]. split; [vm_compute; reflexivity|]. split; [reflexivity|].
  split; [vm_compute; reflexivity|]. split.
  - eexists. split; [apply run_exec|]. split_and!; vm_compute; reflexivity.
  - eexists. split; [apply run_exit|]. split; [vm_compute; reflexivity|]. split; [reflexivity|]. eexists. split; [apply run_again|reflexivity].
Qed.

End Initcode.
