(* ===== verification/Syscall.v ===== *)
(** * kernel/syscall.c and kernel/sysproc.c: arguments, and the calls on processes

    Fetching the arguments of a system call from the process (its trapframe and
    its memory), and the system calls on processes and time. *)

From S2P Require Import Prelude Mem Bytes CString Spinlock Riscv Kalloc Vm ListH Sleeplock Bio Log Journal Fs Pipe Kernel Proc File Fork.
Import Riscv Bytes Journal Kernel Proc File Fork.

Module Syscall.

Section syscall.
Context {S : Type} `{BC : Bio.BlockCache S} `{KernelImage} `{KernelObjects} `{Devices (@kern S)}.
Context (swtch : M (@kern S) unit).
Notation K := (@kern S).

(** ** Arguments *)

(** The word fetched, or none for -1. *)
Definition fetchaddr (addr : Z) : M K (option Z) :=
  p ← myproc;
  if (sz p <=? addr) || (sz p <? u64 (addr + 8)) then mret None
  else
    r ← onk (copyin (pagetable p) addr 8);
    if negb (r.1 =? 0) then mret None else mret (Some (le_val (r.2))).

(** The string left in the buffer at [kobj], or none for -1. *)
Definition fetchstr_to (buf addr max : Z) : M K (option bytes) :=
  p ← myproc;
  r ← onk (Vm.copyinstr (pagetable p) buf addr max);
  if r <? 0 then mret None
  else m ← gets (λ s, Kalloc.kmem (kk s)); mret (Some (CString.strz (ldbytes m buf (Z.to_nat max)))).
Definition fetchstr (addr max : Z) : M K (option bytes) := fetchstr_to kobj addr max.

Definition argraw (n : Z) : M K Z :=
  p ← myproc;
  if (0 <=? n) && (n <=? 5) then gets (λ s, ld64 (Kalloc.kmem (kk s)) (trapframe p + TF_a0 + 8 * n))
  else panic "argraw".

Definition argint (n : Z) : M K Z := x ← argraw n; mret (s32 x).
Definition argaddr (n : Z) : M K Z := argraw n.
Definition argstr (n max : Z) : M K (option bytes) := addr ← argaddr n; fetchstr addr max.

(** ** sysproc.c *)

Definition sys_exit : M K Z := n ← argint 0; exit swtch n;; mret 0.
Definition sys_getpid : M K Z := p ← myproc; mret (pid p).
Definition sys_fork : M K Z := fork.
Definition sys_wait (fuel : nat) : M K Z := p ← argaddr 0; wait swtch fuel p.
Definition sys_sbrk : M K Z :=
  n ← argint 0;
  p ← myproc;
  let addr := sz p in
  r ← growproc n;
  if r <? 0 then mret (-1) else mret addr.

(** [sys_sleep]'s loop; each turn but the last ends in a sleep. *)
Definition CH_ticks : channel := ChAddr 0.
Fixpoint sys_sleep_loop (fuel : nat) (ticks0 n : Z) : M K Z :=
  match fuel with
  | O => block
  | Datatypes.S fuel' =>
      t ← gets ticks;
      if u32 (t - ticks0) <? n then
        i ← gets me;
        k ← killed_of i;
        if (k : bool) then release LTicks;; mret (-1)
        else sleep swtch CH_ticks LTicks;; sys_sleep_loop fuel' ticks0 n
      else release LTicks;; mret 0
  end.
Definition sys_sleep (fuel : nat) : M K Z :=
  n ← argint 0;
  let n := if n <? 0 then 0 else n in
  acquire LTicks;;
  ticks0 ← gets ticks;
  sys_sleep_loop fuel ticks0 n.

Definition sys_kill : M K Z := n ← argint 0; kill n.
Definition sys_uptime : M K Z :=
  acquire LTicks;;
  xticks ← gets ticks;
  release LTicks;;
  mret xticks.

End syscall.

End Syscall.
