(* ===== verification/Exec.v ===== *)
(** * kernel/exec.c: running a program

    The ELF header and the program headers are read from the file as bytes; their
    fields are at the offsets of struct elfhdr and struct proghdr.  [exec] builds
    the new image in a page table of its own and commits to it at the end. *)

From S2P Require Import Prelude Mem Bytes CString Spinlock Riscv Kalloc Vm ListH Sleeplock Bio Log Journal Fs Pipe Kernel Proc File Fork Syscall.
Import Riscv Bytes Journal Kernel Proc File Fork.

Module Exec.

Notation ELF_MAGIC := 0x464C457F.
Notation ELF_PROG_LOAD := 1.
Notation ELFHDR_SIZE := 64.
Notation PROGHDR_SIZE := 56.

Definition get64 (l : bytes) (off : Z) : Z := le_val (sub_bytes off 8 l).

(** The fields of struct elfhdr and struct proghdr that exec reads. *)
Record elfhdr := mk_elfhdr { elf_magic : Z; elf_entry : Z; elf_phoff : Z; elf_phnum : Z }.
Definition elfhdr_of (h : bytes) : elfhdr := mk_elfhdr (get32 h 0) (get64 h 24) (get64 h 32) (get16 h 56).
Record proghdr := mk_proghdr { ph_type : Z; ph_flags : Z; ph_off : Z; ph_vaddr : Z; ph_filesz : Z; ph_memsz : Z }.
Definition proghdr_of (h : bytes) : proghdr := mk_proghdr (get32 h 0) (get32 h 4) (get64 h 8) (get64 h 16) (get64 h 32) (get64 h 40).

Definition flags2perm (flags : Z) : Z :=
  let perm := if negb (Z.land flags 0x1 =? 0) then PTE_X else 0 in
  if negb (Z.land flags 0x2 =? 0) then Z.lor perm PTE_W else perm.

(** [for(last=s=path; *s; s++) if( *s == '/') last = s+1;] *)
Fixpoint last_elem (last path : bytes) : bytes :=
  match path with
  | [] => last
  | c :: path' => last_elem (if c =? Fs.SLASH then path' else last) path'
  end.

Section exec.
Context {S : Type} `{BC : Bio.BlockCache S} `{KernelImage} `{KernelObjects} `{Devices (@kern S)}.
Notation K := (@kern S).

Fixpoint loadseg_loop (fuel : nat) (pagetable va ip offset i sz : Z) : M K Z :=
  match fuel with
  | O => block
  | Datatypes.S fuel' =>
      if i <? sz then
        pa ← onk (Vm.walkaddr pagetable (u64 (va + i)));
        if pa =? 0 then panic "loadseg: address should exist"
        else
          let n := if sz - i <? PGSIZE then sz - i else PGSIZE in
          r ← onfs (Fs.readi Fs.kout ip pa (u32 (offset + i)) n);
          onk (modify (Kalloc.set_mem (stbytes pa (r.2))));;
          if negb (r.1 =? n) then mret (-1)
          else loadseg_loop fuel' pagetable va ip offset (u32 (i + PGSIZE)) sz
      else mret 0
  end.
Definition loadseg (pagetable va ip offset sz : Z) : M K Z :=
  loadseg_loop (Z.to_nat (sz / PGSIZE + 2)) pagetable va ip offset 0 sz.

(** [exec]'s loop over the program headers, [k] to go: whether all went well, and
    the size reached. *)
Fixpoint load_segments (k : nat) (pagetable ip off sz : Z) : M K (bool * Z) :=
  match k with
  | O => mret (true, sz)
  | Datatypes.S k' =>
      r ← onfs (Fs.readi Fs.kout ip 0 (u32 off) PROGHDR_SIZE);
      let ph := proghdr_of (r.2) in
      if negb (r.1 =? PROGHDR_SIZE) then mret (false, sz)
      else if negb (ph_type ph =? ELF_PROG_LOAD) then load_segments k' pagetable ip (s32 (off + PROGHDR_SIZE)) sz
      else if ph_memsz ph <? ph_filesz ph then mret (false, sz)
      else if u64 (ph_vaddr ph + ph_memsz ph) <? ph_vaddr ph then mret (false, sz)
      else if negb (ph_vaddr ph mod PGSIZE =? 0) then mret (false, sz)
      else
        sz1 ← onk (Vm.uvmalloc pagetable sz (u64 (ph_vaddr ph + ph_memsz ph)) (flags2perm (ph_flags ph)));
        if sz1 =? 0 then mret (false, sz)
        else
          r ← loadseg pagetable (ph_vaddr ph) ip (u32 (ph_off ph)) (u32 (ph_filesz ph));
          if r <? 0 then mret (false, sz1)
          else load_segments k' pagetable ip (s32 (off + PROGHDR_SIZE)) sz1
  end.

(** The argument strings from [argc] on: [sp] and the array of pointers, or none. *)
Fixpoint push_args (argv : list Z) (pagetable argc sp stackbase : Z) (ustack : list Z) : M K (option (Z * list Z)) :=
  match argv with
  | [] => mret (Some (sp, ustack))
  | a :: argv' =>
      if MAXARG <=? argc then mret None
      else
        m ← gets (λ s, Kalloc.kmem (kk s));
        let len := Z.of_nat (length (CString.strz (ldbytes m a (Z.to_nat PGSIZE)))) in
        let sp := u64 (sp - (len + 1)) in
        let sp := sp - sp mod 16 in
        if sp <? stackbase then mret None
        else
          r ← onk (Vm.copyout pagetable sp a (len + 1));
          if r <? 0 then mret None
          else push_args argv' pagetable (argc + 1) sp stackbase (ustack ++ [sp])
  end.

(** The code at [bad]. *)
Definition exec_bad (pagetable sz : Z) (ip : option Z) : M K Z :=
  when (negb (pagetable =? 0)) (onk (Vm.proc_freepagetable pagetable sz));;
  match ip with
  | Some ip => onfs (Fs.iunlockput ip);; end_op
  | None => mret tt
  end;;
  mret (-1).

(** [exec] once the file is loaded: the stack, the arguments, the commit. *)
Definition exec_commit (path : bytes) (argv : list Z) (entry pt sz0 : Z) : M K Z :=
  p ← myproc;
  let oldsz := sz p in
  let sz1 := PGROUNDUP sz0 in
  sz2 ← onk (Vm.uvmalloc pt sz1 (u64 (sz1 + (USERSTACK + 1) * PGSIZE)) PTE_W);
  if sz2 =? 0 then exec_bad pt sz1 None
  else
    onk (Vm.uvmclear pt (u64 (sz2 - (USERSTACK + 1) * PGSIZE)));;
    let stackbase := u64 (sz2 - USERSTACK * PGSIZE) in
    r ← push_args argv pt 0 sz2 stackbase [];
    match r with
    | None => exec_bad pt sz2 None
    | Some (sp, ustack) =>
        let argc := Z.of_nat (length ustack) in
        let sp := u64 (sp - (argc + 1) * 8) in
        let sp := sp - sp mod 16 in
        if sp <? stackbase then exec_bad pt sz2 None
        else
          r ← onk (copyout pt sp (concat (le_bytes 8 <$> ustack ++ [0])));
          if r <? 0 then exec_bad pt sz2 None
          else
            onk (modify (Kalloc.set_mem (st64 (trapframe p + TF_a1) sp)));;
            set_me (λ y, set_name (copy_name (last_elem path path) (name y)) y);;
            let oldpagetable := pagetable p in
            set_me (set_pagetable pt);;
            set_me (set_sz sz2);;
            onk (modify (Kalloc.set_mem (st64 (trapframe p + TF_epc) entry)));;
            onk (modify (Kalloc.set_mem (st64 (trapframe p + TF_sp) sp)));;
            onk (Vm.proc_freepagetable oldpagetable oldsz);;
            mret argc
    end.

Definition exec (path : bytes) (argv : list Z) : M K Z :=
  p ← myproc;
  begin_op;;
  r ← onfs (Fs.namei (default 0 (cwd p)) path);
  match r with
  | None => end_op;; mret (-1)
  | Some ip =>
      onfs (Fs.ilock ip);;
      r ← onfs (Fs.readi Fs.kout ip 0 0 ELFHDR_SIZE);
      let elf := elfhdr_of (r.2) in
      if negb (r.1 =? ELFHDR_SIZE) then exec_bad 0 0 (Some ip)
      else if negb (elf_magic elf =? ELF_MAGIC) then exec_bad 0 0 (Some ip)
      else
        pt ← onk (Vm.proc_pagetable (trapframe p));
        if pt =? 0 then exec_bad 0 0 (Some ip)
        else
          r ← load_segments (Z.to_nat (elf_phnum elf)) pt ip (s32 (elf_phoff elf)) 0;
          let '(ok, sz) := r in
          if negb ok then exec_bad pt sz (Some ip)
          else
            onfs (Fs.iunlockput ip);;
            end_op;;
            exec_commit path argv (elf_entry elf) pt sz
  end.

End exec.

End Exec.
