(* ===== verification/Sysfile.v ===== *)
(** * kernel/sysfile.c: the system calls on files, and the dispatcher *)

From S2P Require Import Prelude Mem Bytes CString Spinlock Riscv Kalloc Vm ListH Sleeplock Bio Log Journal Fs Pipe Kernel Proc File Fork Syscall Exec.
Import Riscv Bytes Journal Kernel Proc File Fork Syscall Exec.

Module Sysfile.

Definition has (x mask : Z) : bool := negb (Z.land x mask =? 0).

Definition DOT : bytes := [46].
Definition DOTDOT : bytes := [46; 46].

Definition set_nlink (n : Z) (x : Fs.inode) : Fs.inode :=
  Fs.mk_inode (Fs.dev x) (Fs.inum x) (Fs.ref x) (Fs.lock x) (Fs.valid x) (Fs.type x) (Fs.major x) (Fs.minor x) n (Fs.isize x) (Fs.addrs x).
Definition set_dev (major minor : Z) (x : Fs.inode) : Fs.inode :=
  Fs.mk_inode (Fs.dev x) (Fs.inum x) (Fs.ref x) (Fs.lock x) (Fs.valid x) (Fs.type x) major minor (Fs.nlink x) (Fs.isize x) (Fs.addrs x).

(** The first free descriptor of a process. *)
Fixpoint fd_scan (k : nat) (fd : Z) (o : Z → option Z) : option Z :=
  match k with
  | O => None
  | S k' => match o fd with None => Some fd | Some _ => fd_scan k' (fd + 1) o end
  end.

Section sysfile.
Context {S : Type} `{BC : Bio.BlockCache S} `{KernelImage} `{KernelObjects} `{Devices (@kern S)}.
Context (swtch : M (@kern S) unit).
Notation K := (@kern S).

(** ** Descriptors *)

(** The descriptor and the file. *)
Definition argfd (n : Z) : M K (option (Z * Z)) :=
  fd ← argint n;
  p ← myproc;
  if (fd <? 0) || (NOFILE <=? fd) then mret None
  else mret (f ← ofile p fd; Some (fd, f)).

Definition fdalloc (f : Z) : M K (option Z) :=
  p ← myproc;
  match fd_scan (Z.to_nat NOFILE) 0 (ofile p) with
  | Some fd => set_me (set_ofile fd (Some f));; mret (Some fd)
  | None => mret None
  end.

Definition sys_dup : M K Z :=
  a ← argfd 0;
  match a with
  | None => mret (-1)
  | Some (_, f) =>
      r ← fdalloc f;
      match r with
      | None => mret (-1)
      | Some fd => filedup f;; mret fd
      end
  end.

Definition sys_read : M K Z :=
  p ← argaddr 1;
  n ← argint 2;
  a ← argfd 0;
  match a with
  | None => mret (-1)
  | Some (_, f) => fileread f p n
  end.

Definition sys_write : M K Z :=
  p ← argaddr 1;
  n ← argint 2;
  a ← argfd 0;
  match a with
  | None => mret (-1)
  | Some (_, f) => filewrite f p n
  end.

Definition sys_close : M K Z :=
  a ← argfd 0;
  match a with
  | None => mret (-1)
  | Some (fd, f) => set_me (set_ofile fd None);; fileclose f;; mret 0
  end.

Definition sys_fstat : M K Z :=
  st ← argaddr 1;
  a ← argfd 0;
  match a with
  | None => mret (-1)
  | Some (_, f) => filestat f st
  end.

(** ** Names *)

Definition inode_of (ip : Z) : M K Fs.inode := gets (λ s, Fs.itable (kfs s) ip).
Definition upd_ip (ip : Z) (g : Fs.inode → Fs.inode) : M K unit := onfs (modify (Fs.upd_inode ip g)).
Definition namei (path : bytes) : M K (option Z) := p ← myproc; onfs (Fs.namei (default 0 (cwd p)) path).
Definition nameiparent (path : bytes) : M K (option (Z * bytes)) :=
  p ← myproc; onfs (Fs.nameiparent (default 0 (cwd p)) path).

Definition sys_link : M K Z :=
  old ← argstr 0 MAXPATH;
  match old with
  | None => mret (-1)
  | Some old =>
  new ← argstr 1 MAXPATH;
  match new with
  | None => mret (-1)
  | Some new =>
  begin_op;;
  r ← namei old;
  match r with
  | None => end_op;; mret (-1)
  | Some ip =>
  onfs (Fs.ilock ip);;
  x ← inode_of ip;
  if Fs.type x =? Fs.T_DIR then onfs (Fs.iunlockput ip);; end_op;; mret (-1)
  else
    upd_ip ip (λ x, set_nlink (s16 (Fs.nlink x + 1)) x);;
    onfs (Fs.iupdate ip);;
    onfs (Fs.iunlock ip);;
    let bad :=
      onfs (Fs.ilock ip);;
      upd_ip ip (λ x, set_nlink (s16 (Fs.nlink x - 1)) x);;
      onfs (Fs.iupdate ip);;
      onfs (Fs.iunlockput ip);;
      end_op;;
      mret (-1) in
    r ← nameiparent new;
    match r with
    | None => bad
    | Some (dp, name) =>
        onfs (Fs.ilock dp);;
        d ← inode_of dp;
        x ← inode_of ip;
        r ← (if negb (Fs.dev d =? Fs.dev x) then mret (-1) else onfs (Fs.dirlink dp name (Fs.inum x)) : M K Z);
        if r <? 0 then onfs (Fs.iunlockput dp);; bad
        else
          onfs (Fs.iunlockput dp);;
          onfs (Fs.iput ip);;
          end_op;;
          mret 0
    end
  end end end.

(** [isdirempty]'s loop from [off] on. *)
Fixpoint isdirempty_loop (fuel : nat) (dp off : Z) : M K bool :=
  match fuel with
  | O => block
  | Datatypes.S fuel' =>
      x ← inode_of dp;
      if off <? Fs.isize x then
        r ← onfs (Fs.readi Fs.kout dp 0 off Fs.DIRENT_SIZE);
        if negb (r.1 =? Fs.DIRENT_SIZE) then panic "isdirempty: readi"
        else if negb (Fs.de_inum (r.2) =? 0) then mret false
        else isdirempty_loop fuel' dp (off + Fs.DIRENT_SIZE)
      else mret true
  end.
Definition isdirempty (dp : Z) : M K bool :=
  x ← inode_of dp;
  isdirempty_loop (Z.to_nat (Fs.isize x / Fs.DIRENT_SIZE + 2)) dp (2 * Fs.DIRENT_SIZE).

Definition sys_unlink : M K Z :=
  path ← argstr 0 MAXPATH;
  match path with
  | None => mret (-1)
  | Some path =>
  begin_op;;
  r ← nameiparent path;
  match r with
  | None => end_op;; mret (-1)
  | Some (dp, name) =>
  onfs (Fs.ilock dp);;
  let bad := onfs (Fs.iunlockput dp);; end_op;; mret (-1) in
  if (Fs.namecmp name DOT =? 0) || (Fs.namecmp name DOTDOT =? 0) then bad
  else
    r ← onfs (Fs.dirlookup dp name);
    match r with
    | None => bad
    | Some (ip, off) =>
        onfs (Fs.ilock ip);;
        x ← inode_of ip;
        if Fs.nlink x <? 1 then panic "unlink: nlink < 1"
        else
          empty ← (if Fs.type x =? Fs.T_DIR then isdirempty ip else mret true : M K bool);
          if negb (empty : bool) then onfs (Fs.iunlockput ip);; bad
          else
            n ← onfs (Fs.writei (Fs.kinp (replicate (Z.to_nat Fs.DIRENT_SIZE) 0)) dp 0 off Fs.DIRENT_SIZE);
            if negb (n =? Fs.DIRENT_SIZE) then panic "unlink: writei"
            else
              x ← inode_of ip;
              when (Fs.type x =? Fs.T_DIR)
                (upd_ip dp (λ y, set_nlink (s16 (Fs.nlink y - 1)) y);; onfs (Fs.iupdate dp));;
              onfs (Fs.iunlockput dp);;
              upd_ip ip (λ y, set_nlink (s16 (Fs.nlink y - 1)) y);;
              onfs (Fs.iupdate ip);;
              onfs (Fs.iunlockput ip);;
              end_op;;
              mret 0
    end
  end end.

(** The inode, locked. *)
Definition create (path : bytes) (type major minor : Z) : M K (option Z) :=
  r ← nameiparent path;
  match r with
  | None => mret None
  | Some (dp, name) =>
  onfs (Fs.ilock dp);;
  r ← onfs (Fs.dirlookup dp name);
  match r with
  | Some (ip, _) =>
      onfs (Fs.iunlockput dp);;
      onfs (Fs.ilock ip);;
      x ← inode_of ip;
      if (type =? Fs.T_FILE) && ((Fs.type x =? Fs.T_FILE) || (Fs.type x =? Fs.T_DEVICE)) then mret (Some ip)
      else onfs (Fs.iunlockput ip);; mret None
  | None =>
      d ← inode_of dp;
      r ← onfs (Fs.ialloc (Fs.dev d) type);
      match r with
      | None => onfs (Fs.iunlockput dp);; mret None
      | Some ip =>
          onfs (Fs.ilock ip);;
          upd_ip ip (set_dev (s16 major) (s16 minor));;
          upd_ip ip (set_nlink 1);;
          onfs (Fs.iupdate ip);;
          let fail :=
            upd_ip ip (set_nlink 0);;
            onfs (Fs.iupdate ip);;
            onfs (Fs.iunlockput ip);;
            onfs (Fs.iunlockput dp);;
            mret None in
          x ← inode_of ip;
          d ← inode_of dp;
          ok ← (if type =? Fs.T_DIR then
                  r1 ← onfs (Fs.dirlink ip DOT (Fs.inum x));
                  if r1 <? 0 then mret false
                  else r2 ← onfs (Fs.dirlink ip DOTDOT (Fs.inum d)); mret (negb (r2 <? 0))
                else mret true : M K bool);
          if negb (ok : bool) then fail
          else
            r ← onfs (Fs.dirlink dp name (Fs.inum x));
            if r <? 0 then fail
            else
              when (type =? Fs.T_DIR)
                (upd_ip dp (λ y, set_nlink (s16 (Fs.nlink y + 1)) y);; onfs (Fs.iupdate dp));;
              onfs (Fs.iunlockput dp);;
              mret (Some ip)
      end
  end end.

(** ** Opening *)

(** [sys_open]'s inode, locked, by its mode; none after the error has been handled. *)
Definition open_inode (path : bytes) (omode : Z) : M K (option Z) :=
  if has omode O_CREATE then
    r ← create path Fs.T_FILE 0 0;
    match r with
    | None => end_op;; mret None
    | Some ip => mret (Some ip)
    end
  else
    r ← namei path;
    match r with
    | None => end_op;; mret None
    | Some ip =>
        onfs (Fs.ilock ip);;
        x ← inode_of ip;
        if (Fs.type x =? Fs.T_DIR) && negb (omode =? O_RDONLY) then onfs (Fs.iunlockput ip);; end_op;; mret None
        else mret (Some ip)
    end.

(** The fields of the open file, from those of the free one. *)
Definition open_file (x : Fs.inode) (ip omode : Z) (f : file) : file :=
  let '(t, mj, off) := if Fs.type x =? Fs.T_DEVICE then (FD_DEVICE, Fs.major x, foff f) else (FD_INODE, fmajor f, 0) in
  mk_file t (fref f) (negb (has omode O_WRONLY)) (has omode O_WRONLY || has omode O_RDWR) (fpipe f) ip off mj.

Definition sys_open : M K Z :=
  omode ← argint 1;
  path ← argstr 0 MAXPATH;
  match path with
  | None => mret (-1)
  | Some path =>
  begin_op;;
  r ← open_inode path omode;
  match r with
  | None => mret (-1)
  | Some ip =>
  x ← inode_of ip;
  if (Fs.type x =? Fs.T_DEVICE) && ((Fs.major x <? 0) || (NDEV <=? Fs.major x))
  then onfs (Fs.iunlockput ip);; end_op;; mret (-1)
  else
    f ← filealloc;
    match f with
    | None => onfs (Fs.iunlockput ip);; end_op;; mret (-1)
    | Some f =>
        fd ← fdalloc f;
        match fd with
        | None => fileclose f;; onfs (Fs.iunlockput ip);; end_op;; mret (-1)
        | Some fd =>
            modify (upd_file f (open_file x ip omode));;
            when (has omode O_TRUNC && (Fs.type x =? Fs.T_FILE)) (onfs (Fs.itrunc ip));;
            onfs (Fs.iunlock ip);;
            end_op;;
            mret fd
        end
    end
  end end.

(** What mkdir and mknod do with the inode made, or with the failure. *)
Definition create_done (r : option Z) : M K Z :=
  match r with
  | None => end_op;; mret (-1)
  | Some ip => onfs (Fs.iunlockput ip);; end_op;; mret 0
  end.

Definition sys_mkdir : M K Z :=
  begin_op;;
  path ← argstr 0 MAXPATH;
  match path with
  | None => create_done None
  | Some path => r ← create path Fs.T_DIR 0 0; create_done r
  end.

Definition sys_mknod : M K Z :=
  begin_op;;
  major ← argint 1;
  minor ← argint 2;
  path ← argstr 0 MAXPATH;
  match path with
  | None => create_done None
  | Some path => r ← create path Fs.T_DEVICE (s16 major) (s16 minor); create_done r
  end.

Definition sys_chdir : M K Z :=
  p ← myproc;
  begin_op;;
  path ← argstr 0 MAXPATH;
  r ← match path with None => mret None | Some path => namei path end : M K (option Z);
  match r with
  | None => end_op;; mret (-1)
  | Some ip =>
      onfs (Fs.ilock ip);;
      x ← inode_of ip;
      if negb (Fs.type x =? Fs.T_DIR) then onfs (Fs.iunlockput ip);; end_op;; mret (-1)
      else
        onfs (Fs.iunlock ip);;
        onfs (Fs.iput (default 0 (cwd p)));;
        end_op;;
        set_me (set_cwd (Some ip));;
        mret 0
  end.

(** ** exec and pipe *)

Definition free_args (argv : list Z) : M K unit := foldr (λ a m, onk (Kalloc.kfree a);; m) (mret tt) argv.

(** [sys_exec]'s loop: the pages with the argument strings so far, and whether the
    list came to its end. *)
Fixpoint fetch_args (k : nat) (i uargv : Z) (argv : list Z) : M K (bool * list Z) :=
  match k with
  | O => mret (false, argv)
  | Datatypes.S k' =>
      r ← fetchaddr (u64 (uargv + 8 * i));
      match r with
      | None => mret (false, argv)
      | Some uarg =>
          if uarg =? 0 then mret (true, argv)
          else
            a ← onk Kalloc.kalloc;
            if a =? 0 then mret (false, argv)
            else
              r ← fetchstr_to a uarg PGSIZE;
              match r with
              | None => mret (false, argv ++ [a])
              | Some _ => fetch_args k' (i + 1) uargv (argv ++ [a])
              end
      end
  end.

Definition sys_exec : M K Z :=
  uargv ← argaddr 1;
  path ← argstr 0 MAXPATH;
  match path with
  | None => mret (-1)
  | Some path =>
      r ← fetch_args (Z.to_nat MAXARG) 0 uargv [];
      let '(ok, argv) := r in
      if negb ok then free_args argv;; mret (-1)
      else ret ← exec path argv; free_args argv;; mret ret
  end.

Definition sys_pipe : M K Z :=
  p ← myproc;
  fdarray ← argaddr 0;
  r ← pipealloc;
  match r with
  | None => mret (-1)
  | Some (rf, wf) =>
      let undo := fileclose rf;; fileclose wf;; mret (-1) in
      r0 ← fdalloc rf;
      match r0 with
      | None => undo
      | Some fd0 =>
          r1 ← fdalloc wf;
          match r1 with
          | None => set_me (set_ofile fd0 None);; undo
          | Some fd1 =>
              c0 ← onk (copyout (pagetable p) fdarray (le_bytes 4 fd0));
              c1 ← (if c0 <? 0 then mret (-1) else onk (copyout (pagetable p) (u64 (fdarray + 4)) (le_bytes 4 fd1)) : M K Z);
              if (c1 : Z) <? 0 then set_me (set_ofile fd0 None);; set_me (set_ofile fd1 None);; undo
              else mret 0
          end
      end
  end.

(** ** syscall.c: the dispatcher *)

(** [sys_debugswitch] (debug.c) flips a flag of the console messages only. *)
Definition sys_debugswitch : M K Z := mret 0.

(** The table [syscalls]; [fuel] bounds the sleeps of wait and sleep. *)
Definition syscalls (fuel : nat) (num : Z) : option (M K Z) :=
  match num with
  | 1 => Some sys_fork | 2 => Some (sys_exit swtch) | 3 => Some (sys_wait swtch fuel) | 4 => Some sys_pipe
  | 5 => Some sys_read | 6 => Some sys_kill | 7 => Some sys_exec | 8 => Some sys_fstat
  | 9 => Some sys_chdir | 10 => Some sys_dup | 11 => Some sys_getpid | 12 => Some sys_sbrk
  | 13 => Some (sys_sleep swtch fuel) | 14 => Some sys_uptime | 15 => Some sys_open | 16 => Some sys_write
  | 17 => Some sys_mknod | 18 => Some sys_unlink | 19 => Some sys_link | 20 => Some sys_mkdir
  | 21 => Some sys_close | 22 => Some sys_debugswitch | _ => None
  end.

Definition syscall (fuel : nat) : M K unit :=
  p ← myproc;
  num ← gets (λ s, s32 (ld64 (Kalloc.kmem (kk s)) (trapframe p + TF_a7)));
  match syscalls fuel num with
  | Some f => r ← f; onk (modify (Kalloc.set_mem (st64 (trapframe p + TF_a0) r)))
  | None => onk (modify (Kalloc.set_mem (st64 (trapframe p + TF_a0) (-1))))
  end.

End sysfile.

End Sysfile.
