(* ===== verification/Grep.v ===== *)
(** * user/grep.c: the pattern matcher and the line filter

    Strings are lists of bytes without the final nul.  [match_re], [matchhere] and
    [matchstar] are the functions of the program; [in_lang] is the meaning of a
    pattern, given by its items and not by a search. *)

From S2P Require Import Prelude.

Module Grep.

Notation str := (list Z).

Definition CARET : Z := 94.
Definition DOT : Z := 46.
Definition STAR : Z := 42.
Definition DOLLAR : Z := 36.
Definition NL : Z := 10.

(** [matchstar(c, re, text)], given [matchhere(re, ...)]. *)
Fixpoint matchstar (here : str → bool) (c : Z) (text : str) : bool :=
  if here text then true
  else match text with
       | [] => false
       | a :: text' => if (a =? c) || (c =? DOT) then matchstar here c text' else false
       end.

Fixpoint matchhere (re text : str) : bool :=
  match re with
  | [] => true
  | c :: re1 =>
      let rest :=
        if (c =? DOLLAR) && bool_decide (re1 = []) then bool_decide (text = [])
        else match text with
             | [] => false
             | a :: text' => if (c =? DOT) || (c =? a) then matchhere re1 text' else false
             end in
      match re1 with
      | c1 :: re2 => if c1 =? STAR then matchstar (matchhere re2) c text else rest
      | [] => rest
      end
  end.

(** The loop of [match] for a pattern without '^'. *)
Fixpoint match_any (re text : str) : bool :=
  if matchhere re text then true
  else match text with
       | [] => false
       | _ :: text' => match_any re text'
       end.

Definition match_re (re text : str) : bool :=
  match re with
  | c :: re' => if c =? CARET then matchhere re' text else match_any re text
  | [] => match_any re text
  end.

(** The inner loop of [grep] on the bytes in the buffer: the lines written, and the
    bytes kept for the next round.  strchr stops at a nul. *)
Fixpoint grep_scan (re : str) (line buf : str) : str * str :=
  match buf with
  | [] => ([], line)
  | c :: buf' =>
      if c =? 0 then ([], line ++ buf)
      else if c =? NL then
        let '(out, rem) := grep_scan re [] buf' in
        ((if match_re re line then line ++ [NL] else []) ++ out, rem)
      else grep_scan re (line ++ [c]) buf'
  end.

Definition BUF : Z := 1024.

(** [grep(pattern, fd)] with the bytes [rem] kept in the buffer, for what the reads
    return in turn: the bytes written. *)
Fixpoint grep (re : str) (rem : str) (reads : list str) : str :=
  match reads with
  | [] => []
  | r :: reads' =>
      if bool_decide (r = []) then []
      else let '(out, rem') := grep_scan re [] (rem ++ r) in out ++ grep re rem' reads'
  end.

(** ** The meaning of patterns *)

Inductive item := IChar (c : Z) | IAny | IStar (c : Z).

(** The items of a pattern, and whether it ends in '$'. *)
Fixpoint items (re : str) : list item * bool :=
  match re with
  | [] => ([], false)
  | c :: re1 =>
      let rest := if (c =? DOLLAR) && bool_decide (re1 = []) then ([], true)
                  else ((if c =? DOT then IAny else IChar c) :: (items re1).1, (items re1).2) in
      match re1 with
      | c1 :: re2 => if c1 =? STAR then (IStar c :: (items re2).1, (items re2).2) else rest
      | [] => rest
      end
  end.

Definition is_char (c a : Z) : Prop := a = c ∨ c = DOT.

Inductive in_lang : list item → str → Prop :=
  | L_nil : in_lang [] []
  | L_char c ats s : in_lang ats s → in_lang (IChar c :: ats) (c :: s)
  | L_any a ats s : in_lang ats s → in_lang (IAny :: ats) (a :: s)
  | L_star c ats s1 s2 : Forall (is_char c) s1 → in_lang ats s2 → in_lang (IStar c :: ats) (s1 ++ s2).

(** The pattern matches at the start of the text. *)
Definition here_spec (p : list item * bool) (text : str) : Prop :=
  ∃ s rest, text = s ++ rest ∧ in_lang (p.1) s ∧ (p.2 = true → rest = []).

(** ** Lemmas *)

Lemma matchstar_ok here c text : matchstar here c text = true ↔
  ∃ s1 s2, text = s1 ++ s2 ∧ Forall (is_char c) s1 ∧ here s2 = true.
Proof.
  induction text as [|a text IH]; cbn [matchstar].
  - destruct (here []) eqn:E; [split; [intros _; by exists [], []|done]|]. split; [done|].
    intros (s1 & s2 & Ht & _ & Hh). apply symmetry, app_nil in Ht as [-> ->]. congruence.
  - destruct (here (a :: text)) eqn:E; [split; [intros _; by exists [], (a :: text)|done]|].
    assert ((a =? c) || (c =? DOT) = true ↔ is_char c a) as Ha.
    { rewrite orb_true_iff, !Z.eqb_eq. done. }
    destruct ((a =? c) || (c =? DOT)).
    + rewrite IH. split.
      * intros (s1 & s2 & -> & Hs & Hh). exists (a :: s1), s2. split_and!; [done| |done]. constructor; [by apply Ha|done].
      * intros ([|b s1] & s2 & Ht & Hs & Hh); simplify_eq/=; [congruence|]. apply Forall_cons in Hs as [_ Hs]. by exists s1, s2.
    + split; [done|]. intros ([|b s1] & s2 & Ht & Hs & Hh); simplify_eq/=; [congruence|].
      apply Forall_cons in Hs as [Hb _]. apply Ha in Hb. done.
Qed.

Lemma here_nil p text : p.1 = [] → here_spec p text ↔ (p.2 = true → text = []).
Proof.
  intros E. unfold here_spec. rewrite E. split.
  - intros (s & rest & -> & Hl & Hr). inversion Hl; subst. done.
  - intros H. exists [], text. split_and!; [done|constructor|done].
Qed.

Lemma here_star c p text : here_spec (IStar c :: p.1, p.2) text ↔
  ∃ s1 s2, text = s1 ++ s2 ∧ Forall (is_char c) s1 ∧ here_spec p s2.
Proof.
  unfold here_spec. cbn [fst snd]. split.
  - intros (s & rest & -> & Hl & Hr). inversion Hl as [| | |c' ats s1 s2 Hs Hl']; subst.
    exists s1, (s2 ++ rest). split_and!; [by rewrite app_assoc|done|]. by exists s2, rest.
  - intros (s1 & s2 & -> & Hs & s & rest & -> & Hl & Hr). exists (s1 ++ s), rest. split_and!; [by rewrite app_assoc|by constructor|done].
Qed.

Lemma here_one c p text : here_spec ((if c =? DOT then IAny else IChar c) :: p.1, p.2) text ↔
  ∃ a text', text = a :: text' ∧ (c = DOT ∨ c = a) ∧ here_spec p text'.
Proof.
  unfold here_spec. cbn [fst snd]. destruct (c =? DOT) eqn:E; bsimpl; split.
  - intros (s & rest & -> & Hl & Hr). inversion Hl; subst. eexists _, _. split_and!; [done|by left|]. by eexists _, rest.
  - intros (a & text' & -> & _ & s & rest & -> & Hl & Hr). exists (a :: s), rest. split_and!; [done|by constructor|done].
  - intros (s & rest & -> & Hl & Hr). inversion Hl; subst. eexists _, _. split_and!; [done|by right|]. by eexists _, rest.
  - intros (a & text' & -> & [?| <-] & s & rest & -> & Hl & Hr); [done|]. exists (c :: s), rest. split_and!; [done|by constructor|done].
Qed.

Lemma matchhere_ok n : ∀ re text, (length re ≤ n)%nat → matchhere re text = true ↔ here_spec (items re) text.
Proof.
  induction n as [|n IH]; intros re text Hn.
  { destruct re; [|simpl in Hn; lia]. rewrite here_nil by done. done. }
  destruct re as [|c re1]; [rewrite here_nil by done; done|]. simpl in Hn.
  assert ((if (c =? DOLLAR) && bool_decide (re1 = []) then bool_decide (text = [])
        else match text with
             | [] => false
             | a :: text' => if (c =? DOT) || (c =? a) then matchhere re1 text' else false
             end) = true ↔
    here_spec (if (c =? DOLLAR) && bool_decide (re1 = []) then ([], true)
                  else ((if c =? DOT then IAny else IChar c) :: (items re1).1, (items re1).2)) text) as Hone.
  { destruct ((c =? DOLLAR) && bool_decide (re1 = [])).
    - rewrite here_nil by done. rewrite bool_decide_eq_true. naive_solver.
    - rewrite here_one. destruct text as [|a text]; [naive_solver|].
      destruct ((c =? DOT) || (c =? a)) eqn:E.
      + rewrite (IH re1 text) by lia. apply orb_true_iff in E. rewrite !Z.eqb_eq in E. naive_solver.
      + bsimpl. naive_solver. }
  destruct re1 as [|c1 re2]; [exact Hone|]. cbn [matchhere items]. destruct (c1 =? STAR) eqn:E; [|exact Hone].
  rewrite matchstar_ok, here_star. simpl in Hn. split; intros (s1 & s2 & -> & Hs & Hh); exists s1, s2; (split_and!; [done|done|]); by apply (IH re2 s2); [lia|..].
Qed.

Lemma match_any_ok re text : match_any re text = true ↔ ∃ pre t, text = pre ++ t ∧ here_spec (items re) t.
Proof.
  induction text as [|a text IH]; cbn [match_any]; destruct (matchhere re _) eqn:E.
  - split; [intros _|done]. exists [], []. split; [done|]. by apply (matchhere_ok (length re)) in E.
  - split; [done|]. intros (pre & t & Ht & Hh). apply symmetry, app_nil in Ht as [-> ->].
    apply (matchhere_ok (length re)) in Hh; [congruence|done].
  - split; [intros _|done]. exists [], (a :: text). split; [done|]. by apply (matchhere_ok (length re)) in E.
  - rewrite IH. split.
    + intros (pre & t & -> & Hh). by exists (a :: pre), t.
    + intros ([|b pre] & t & Ht & Hh); simplify_eq/=; [|by exists pre, t].
      apply (matchhere_ok (length re)) in Hh; [congruence|done].
Qed.

(** [C36] The pattern matcher of grep (match, matchhere, matchstar).  A pattern
    matches a line exactly if some piece of the line is in the language of the
    pattern's items: a character stands for itself, '.' for any character, 'c*' for
    any number of c's and '.*' for any characters; '^' and '$' tie the piece to the
    start and to the end of the line.  In particular the search always ends. *)
Theorem grep_match_correct re text : match_re re text = true ↔
  let anchored := bool_decide (head re = Some CARET) in
  let '(ats, dollar) := items (if anchored then tail re else re) in
  ∃ pre s post, text = pre ++ s ++ post ∧ in_lang ats s ∧
    (anchored = true → pre = []) ∧ (dollar = true → post = []).
Proof.
  assert (∀ re b, (∃ pre t, text = pre ++ t ∧ here_spec (items re) t ∧ (b = true → pre = [])) ↔
    let '(ats, dollar) := items re in ∃ pre s post, text = pre ++ s ++ post ∧ in_lang ats s ∧ (b = true → pre = []) ∧ (dollar = true → post = [])) as Hsplit.
  { intros re' b. unfold here_spec. destruct (items re') as [ats dollar]. cbn [fst snd]. split.
    - intros (pre & t & -> & (s & rest & -> & Hl & Hr) & Hb). by exists pre, s, rest.
    - intros (pre & s & post & -> & Hl & Hb & Hd). exists pre, (s ++ post). split_and!; [done| |done]. by exists s, post. }
  cbv zeta. unfold match_re. destruct re as [|c re].
  - rewrite match_any_ok. rewrite <- (Hsplit [] false). naive_solver.
  - cbn [head tail]. destruct (c =? CARET) eqn:E; bsimpl.
    + rewrite bool_decide_true by congruence. rewrite <- (Hsplit re true), (matchhere_ok (length re)) by done. split.
      * intros Hh. by exists [], text.
      * intros (pre & t & -> & Hh & Hp). by rewrite (Hp eq_refl).
    + rewrite bool_decide_false by congruence. rewrite <- (Hsplit (c :: re) false), match_any_ok. naive_solver.
Qed.

(** ** The line filter *)

(** Reads that return something have room in the buffer, and the text has no nul. *)
Fixpoint valid_reads (re rem : str) (reads : list str) : Prop :=
  match reads with
  | [] => True
  | r :: reads' =>
      0 < Z.of_nat (length r) ≤ BUF - Z.of_nat (length rem) - 1 ∧ 0 ∉ r ∧ valid_reads re (grep_scan re [] (rem ++ r)).2 reads'
  end.

(** The complete lines of a text. *)
Fixpoint lines (line text : str) : list str * str :=
  match text with
  | [] => ([], line)
  | c :: text' => if c =? NL then (line :: (lines [] text').1, (lines [] text').2) else lines (line ++ [c]) text'
  end.

Definition filtered (re : str) (ls : list str) : str := concat ((λ l, l ++ [NL]) <$> filter (λ l, match_re re l = true) ls).

Lemma filtered_cons re l ls : filtered re (l :: ls) = (if match_re re l then l ++ [NL] else []) ++ filtered re ls.
Proof.
  unfold filtered. destruct (match_re re l) eqn:E; [by rewrite filter_cons_True|by rewrite filter_cons_False by congruence].
Qed.

Lemma filtered_app re ls1 ls2 : filtered re (ls1 ++ ls2) = filtered re ls1 ++ filtered re ls2.
Proof. unfold filtered. by rewrite filter_app, fmap_app, concat_app. Qed.

Lemma grep_scan_ok re buf : ∀ line, 0 ∉ buf → grep_scan re line buf = (filtered re (lines line buf).1, (lines line buf).2).
Proof.
  induction buf as [|c buf IH]; intros line Hz; cbn [grep_scan lines]; [done|]. apply not_elem_of_cons in Hz as [Hc Hz].
  rewrite (proj2 (Z.eqb_neq c 0)) by congruence. destruct (c =? NL); [|by apply IH].
  rewrite IH by done. cbn [fst snd]. by rewrite filtered_cons.
Qed.

Lemma lines_app t1 t2 : ∀ line, lines line (t1 ++ t2) =
  let '(ls, rem) := lines line t1 in (ls ++ (lines rem t2).1, (lines rem t2).2).
Proof.
  induction t1 as [|c t1 IH]; intros line; cbn [lines app].
  - by destruct (lines line t2).
  - destruct (c =? NL); [|apply IH]. rewrite IH. destruct (lines [] t1) as [ls rem]. done.
Qed.

Lemma lines_left t : ∀ line, NL ∉ line → NL ∉ (lines line t).2.
Proof.
  induction t as [|c t IH]; intros line Hl; cbn [lines]; [done|]. destruct (c =? NL) eqn:E; bsimpl.
  - apply IH. apply not_elem_of_nil.
  - apply IH. rewrite elem_of_app. intros [?|?%list_elem_of_singleton]; [done|]. congruence.
Qed.

Lemma lines_nonul t : ∀ line, 0 ∉ line → 0 ∉ t → 0 ∉ (lines line t).2.
Proof.
  induction t as [|c t IH]; intros line Hl Ht; cbn [lines]; [done|]. apply not_elem_of_cons in Ht as [Hc Ht]. destruct (c =? NL).
  - apply IH; [apply not_elem_of_nil|done].
  - apply IH; [|done]. rewrite elem_of_app. intros [?|?%list_elem_of_singleton]; done.
Qed.

Lemma lines_nonl l : ∀ line, NL ∉ l → lines line l = ([], line ++ l).
Proof.
  induction l as [|c l IH]; intros line Hl; cbn [lines]; [by rewrite app_nil_r|].
  apply not_elem_of_cons in Hl as [Hc Hl]. rewrite (proj2 (Z.eqb_neq _ _)) by congruence. rewrite IH by done. by rewrite <- app_assoc.
Qed.

(** The line filter of grep (grep).  However the reads cut a text without nuls
    into pieces that fit the buffer, grep writes exactly the complete lines of the
    text that match the pattern, in order. *)
Theorem grep_filters_lines re reads : valid_reads re [] reads →
  grep re [] reads = filtered re (lines [] (concat reads)).1.
Proof.
  assert (∀ rem, NL ∉ rem → 0 ∉ rem → valid_reads re rem reads → grep re rem reads = filtered re (lines rem (concat reads)).1) as Hg.
  { induction reads as [|r reads IH]; intros rem Hl Hz Hr; cbn [grep concat]; [done|].
    destruct Hr as (Hlen & Hzr & Hr). rewrite bool_decide_false by (intros ->; simpl in Hlen; lia).
    assert (0 ∉ rem ++ r) as Hzz by (rewrite elem_of_app; tauto). rewrite (grep_scan_ok re (rem ++ r)) in Hr |- * by done.
    rewrite lines_app in Hr |- *. rewrite (lines_nonl rem []) in Hr |- * by done. cbn [app] in Hr |- *.
    rewrite lines_app. pose proof (lines_left r rem Hl) as Hl'. pose proof (lines_nonul r rem Hz Hzr) as Hz'.
    destruct (lines rem r) as [ls rem']. cbn [fst snd] in *. rewrite IH by done. by rewrite filtered_app. }
  apply Hg; apply not_elem_of_nil.
Qed.

Lemma grep_filters_lines_witness :
  grep [97; 42; 98] [] [[97; 98; 10; 99]; [10; 120; 98; 10; 97]] = [97; 98; 10; 120; 98; 10].
Proof.
  rewrite (grep_filters_lines [97; 42; 98] [[97; 98; 10; 99]; [10; 120; 98; 10; 97]]); [reflexivity|].
  cbn [valid_reads length]. split_and!; try (vm_compute; done); set_solver.
Defined.

End Grep.
