(* ===== verification/Printf.v ===== *)
(** * Formatted output: kernel/printf.c, user/printf.c, and atoi of user/ulib.c

    A conversion is the list of characters it puts out.  [printint] fills an array
    of 16 characters from its low end and puts them out backwards; a write past the
    array is [None].  The two versions differ in the width of the number (64 bits in
    the kernel, 32 in user space) and in the letters of hexadecimal digits. *)

From S2P Require Import Prelude.

Module Printf.

Notation str := (list Z).

Definition MINUS : Z := 45.
Definition PCT : Z := 37.

(** [digits[d]] *)
Definition kdigit (d : Z) : Z := if d <? 10 then 48 + d else 97 + (d - 10).
Definition udigit (d : Z) : Z := if d <? 10 then 48 + d else 65 + (d - 10).

(** [do { buf[i++] = digits[x % base]; } while((x /= base) != 0);] *)
Fixpoint put_digits (fuel : nat) (digit : Z → Z) (x base : Z) (buf : str) : str :=
  match fuel with
  | O => buf
  | S fuel' =>
      let buf := buf ++ [digit (x mod base)] in
      if negb (x / base =? 0) then put_digits fuel' digit (x / base) base buf else buf
  end.

Definition BUFSIZE : Z := 16.

(** The characters of the buffer, last to first, if they fit it. *)
Definition flush (buf : str) : option str := if Z.of_nat (length buf) <=? BUFSIZE then Some (reverse buf) else None.

(** kernel/printf.c: [printint(long long xx, int base, int sign)] *)
Definition kprintint (xx base : Z) (sign : bool) : option str :=
  let neg := sign && (xx <? 0) in
  let x := if neg then u64 (- xx) else u64 xx in
  let buf := put_digits 64 kdigit x base [] in
  flush (if neg then buf ++ [MINUS] else buf).

(** user/printf.c: [printint(int fd, int xx, int base, int sgn)] *)
Definition uprintint (xx base : Z) (sgn : bool) : option str :=
  let neg := sgn && (xx <? 0) in
  let x := if neg then u32 (- xx) else u32 xx in
  let buf := put_digits 64 udigit x base [] in
  flush (if neg then buf ++ [MINUS] else buf).

(** [printptr(x)]: the loop puts out the top four bits and shifts. *)
Fixpoint ptr_digits (n : nat) (digit : Z → Z) (x : Z) : str :=
  match n with
  | O => []
  | S n' => digit (Z.shiftr x 60) :: ptr_digits n' digit (u64 (Z.shiftl x 4))
  end.
Definition printptr (digit : Z → Z) (x : Z) : str := [48; 120] ++ ptr_digits 16 digit x.

(** ** Formats *)

(** A variadic argument: a word, or a string ([None] for the null pointer). *)
Inductive arg := AWord (w : Z) | AStr (s : option str).

Definition NULL_STR : str := [40; 110; 117; 108; 108; 41].

(** What follows a '%': the conversion, and the number of characters it takes. *)
Inductive conv := CInt (long : bool) (base : Z) (sign : bool) | CPtr | CStr | CPct | CUnknown (c : Z) | CEnd.

Definition c_d : Z := 100.
Definition c_l : Z := 108.
Definition c_u : Z := 117.
Definition c_x : Z := 120.
Definition c_p : Z := 112.
Definition c_s : Z := 115.

Definition conversion (f : str) : conv * nat :=
  let c0 := nth 0 f 0 in
  let c1 := if negb (c0 =? 0) then nth 1 f 0 else 0 in
  let c2 := if negb (c1 =? 0) then nth 2 f 0 else 0 in
  if c0 =? c_d then (CInt false 10 true, 1%nat)
  else if (c0 =? c_l) && (c1 =? c_d) then (CInt true 10 true, 2%nat)
  else if (c0 =? c_l) && (c1 =? c_l) && (c2 =? c_d) then (CInt true 10 true, 3%nat)
  else if c0 =? c_u then (CInt false 10 false, 1%nat)
  else if (c0 =? c_l) && (c1 =? c_u) then (CInt true 10 false, 2%nat)
  else if (c0 =? c_l) && (c1 =? c_l) && (c2 =? c_u) then (CInt true 10 false, 3%nat)
  else if c0 =? c_x then (CInt false 16 false, 1%nat)
  else if (c0 =? c_l) && (c1 =? c_x) then (CInt true 16 false, 2%nat)
  else if (c0 =? c_l) && (c1 =? c_l) && (c2 =? c_x) then (CInt true 16 false, 3%nat)
  else if c0 =? c_p then (CPtr, 1%nat)
  else if c0 =? c_s then (CStr, 1%nat)
  else if c0 =? PCT then (CPct, 1%nat)
  else if c0 =? 0 then (CEnd, 0%nat)
  else (CUnknown c0, 1%nat).

(** One conversion in the kernel; [va_arg(ap, int)] is the low 32 bits, signed. *)
Definition s64 (x : Z) : Z := let y := u64 x in if y <? 2 ^ 63 then y else y - 2 ^ 64.
Definition kconvert (c : conv) (args : list arg) : option (str * list arg) :=
  match c, args with
  | CInt long base sign, AWord w :: args' => s ← kprintint (if long then s64 w else s32 w) base sign; Some (s, args')
  | CPtr, AWord w :: args' => Some (printptr kdigit (u64 w), args')
  | CStr, AStr s :: args' => Some (default NULL_STR s, args')
  | CPct, _ => Some ([PCT], args)
  | CUnknown c0, _ => Some ([PCT; c0], args)
  | _, _ => None
  end.

(** ... and in user space, where a long is cut to an int by the call of printint. *)
Definition uconvert (c : conv) (args : list arg) : option (str * list arg) :=
  match c, args with
  | CInt long base sign, AWord w :: args' => s ← uprintint (s32 w) base sign; Some (s, args')
  | CPtr, AWord w :: args' => Some (printptr udigit (u64 w), args')
  | CStr, AStr s :: args' => Some (default NULL_STR s, args')
  | CPct, _ => Some ([PCT], args)
  | CUnknown c0, _ => Some ([PCT; c0], args)
  | _, _ => None
  end.

(** The loop over the format; [None]: a write past a buffer, or an argument missing. *)
Fixpoint vformat (convert : conv → list arg → option (str * list arg)) (fuel : nat) (fmt : str) (args : list arg) : option str :=
  match fuel with
  | O => None
  | S fuel' =>
      match fmt with
      | [] => Some []
      | c :: fmt' =>
          if negb (c =? PCT) then out ← vformat convert fuel' fmt' args; Some (c :: out)
          else
            match conversion fmt' with
            | (CEnd, _) => Some []
            | (cv, n) =>
                '(s, args') ← convert cv args;
                out ← vformat convert fuel' (drop n fmt') args';
                Some (s ++ out)
            end
      end
  end.
Definition kprintf (fmt : str) (args : list arg) : option str := vformat kconvert (S (length fmt)) fmt args.
Definition uvprintf (fmt : str) (args : list arg) : option str := vformat uconvert (S (length fmt)) fmt args.

(** user/ulib.c: [atoi] *)
Fixpoint atoi_loop (s : str) (n : Z) : Z :=
  match s with
  | c :: s' => if (48 <=? c) && (c <=? 57) then atoi_loop s' (s32 (n * 10 + c - 48)) else n
  | [] => n
  end.
Definition atoi (s : str) : Z := atoi_loop s 0.

(** ** Numerals *)

(** The digits the loop writes, least significant first. *)
Fixpoint le_digits (fuel : nat) (x base : Z) : list Z :=
  match fuel with
  | O => []
  | S fuel' => (x mod base) :: (if negb (x / base =? 0) then le_digits fuel' (x / base) base else [])
  end.

Lemma put_digits_le fuel digit x base buf : put_digits fuel digit x base buf = buf ++ map digit (le_digits fuel x base).
Proof.
  revert x buf. induction fuel as [|fuel IH]; intros x buf; simpl; [by rewrite app_nil_r|].
  destruct (negb _); [by rewrite IH, <- app_assoc|done].
Qed.

(** The value of digits, least significant first. *)
Definition le_value (base : Z) (ds : list Z) : Z := foldr (λ d n, d + base * n) 0 ds.

Section Digits.
Context (base : Z) (Hb : 2 ≤ base).

Lemma le_digits_range fuel x : 0 ≤ x → Forall (λ d, 0 ≤ d < base) (le_digits fuel x base).
Proof.
  revert x. induction fuel as [|fuel IH]; intros x Hx; simpl; constructor.
  - apply Z.mod_pos_bound; lia.
  - destruct (negb _); [apply IH, Z.div_pos; lia|constructor].
Qed.

Lemma le_digits_value fuel x : 0 ≤ x < base ^ Z.of_nat fuel → le_value base (le_digits fuel x base) = x.
Proof.
  revert x. induction fuel as [|fuel IH]; intros x Hx; simpl; [change (base ^ Z.of_nat 0) with 1 in Hx; lia|].
  rewrite Nat2Z.inj_succ, Z.pow_succ_r in Hx; [|lia].
  pose proof (Z.div_mod x base ltac:(lia)).
  destruct (Z.eqb_spec (x / base) 0) as [E|E]; simpl; [lia|].
  change (foldr _ 0 _) with (le_value base (le_digits fuel (x / base) base)).
  rewrite IH; [lia|]. split; [apply Z.div_pos; lia|]. apply Z.div_lt_upper_bound; lia.
Qed.

(** As many digits as the number needs: [n] suffice exactly below [base ^ n]. *)
Lemma le_digits_length fuel x n : (0 < n)%nat → 0 ≤ x < base ^ Z.of_nat fuel →
  (length (le_digits fuel x base) ≤ n)%nat ↔ x < base ^ Z.of_nat n.
Proof.
  revert x n. induction fuel as [|fuel IH]; intros x n Hn Hx; simpl.
  { change (base ^ Z.of_nat 0) with 1 in Hx. pose proof (Z.pow_pos_nonneg base (Z.of_nat n)). lia. }
  rewrite Nat2Z.inj_succ, Z.pow_succ_r in Hx; [|lia].
  destruct n as [|n]; [lia|]. rewrite Nat2Z.inj_succ, Z.pow_succ_r; [|lia].
  assert (Hd : x < base * base ^ Z.of_nat n ↔ x / base < base ^ Z.of_nat n).
  { split; [intros; apply Z.div_lt_upper_bound; lia|]. intros Hlt.
    pose proof (Z.mul_succ_div_gt x base ltac:(lia)). nia. }
  rewrite Hd. destruct (Z.eqb_spec (x / base) 0) as [E|E]; simpl.
  - rewrite E. pose proof (Z.pow_pos_nonneg base (Z.of_nat n)). split; lia.
  - assert (0 < x / base) by (pose proof (Z.div_pos x base); lia).
    assert (x / base < base ^ Z.of_nat fuel) by (apply Z.div_lt_upper_bound; lia).
    destruct n as [|n]; [change (base ^ Z.of_nat 0) with 1|rewrite <- (IH (x / base) (S n)); lia].
    destruct fuel; simpl; [change (base ^ Z.of_nat 0) with 1 in *; lia|]. split; lia.
Qed.

(** No leading zero, but for the number 0 itself. *)
Lemma le_digits_last fuel x : 0 ≤ x < base ^ Z.of_nat fuel → (0 < fuel)%nat →
  le_digits fuel x base = [0] ∨ (last (le_digits fuel x base) ≠ None ∧ last (le_digits fuel x base) ≠ Some 0).
Proof.
  revert x. induction fuel as [|fuel IH]; intros x Hx Hf; [lia|]. simpl.
  rewrite Nat2Z.inj_succ, Z.pow_succ_r in Hx; [|lia].
  destruct (Z.eqb_spec (x / base) 0) as [E|E]; simpl.
  - pose proof (Z.div_mod x base ltac:(lia)).
    destruct (decide (x = 0)) as [->|]; [left; by rewrite Z.mod_0_l by lia|right; split; [done|intros [= ?]; lia]].
  - right. assert (0 < x / base) by (pose proof (Z.div_pos x base); lia).
    assert (Hlt : x / base < base ^ Z.of_nat fuel) by (apply Z.div_lt_upper_bound; lia).
    destruct fuel as [|fuel]; [change (base ^ Z.of_nat 0) with 1 in Hlt; lia|].
    destruct (IH (x / base) ltac:(lia) ltac:(lia)) as [E0|[Hn H0]].
    + pose proof (le_digits_value (S fuel) (x / base) ltac:(lia)) as Hv. rewrite E0 in Hv. simpl in Hv. lia.
    + destruct (le_digits (S fuel) (x / base) base) eqn:Ed; [done|]. by simpl in *.
Qed.

End Digits.

#[local] Opaque le_digits put_digits.

(** [s] writes [x] in base [base]: its characters are those of digits, most
    significant first, whose value is [x], without leading zeros. *)
Definition be_value (base : Z) (ds : list Z) : Z := foldl (λ n d, n * base + d) 0 ds.
Definition numeral (digit : Z → Z) (base x : Z) (s : str) : Prop :=
  ∃ ds, s = map digit ds ∧ Forall (λ d, 0 ≤ d < base) ds ∧ be_value base ds = x ∧
    (ds = [0] ∨ (head ds ≠ None ∧ head ds ≠ Some 0)).

Lemma be_value_reverse base ds : be_value base (reverse ds) = le_value base ds.
Proof.
  unfold be_value, le_value. induction ds as [|d ds IH]; [done|].
  rewrite reverse_cons, foldl_app, IH. simpl. lia.
Qed.

Lemma head_reverse_last (l : list Z) : head (reverse l) = last l.
Proof. by rewrite head_reverse. Qed.

Lemma numeral_digits digit base x fuel : 2 ≤ base → (0 < fuel)%nat → 0 ≤ x < base ^ Z.of_nat fuel →
  numeral digit base x (reverse (map digit (le_digits fuel x base))).
Proof.
  intros Hb Hf Hx. exists (reverse (le_digits fuel x base)). split_and!.
  - by rewrite <- (fmap_reverse digit).
  - by apply Forall_reverse, le_digits_range; lia.
  - by rewrite be_value_reverse, le_digits_value.
  - rewrite head_reverse_last. destruct (le_digits_last base Hb fuel x Hx Hf) as [->|?]; [by left|by right].
Qed.

(** The buffer holds a magnitude and its sign exactly if they take 16 characters. *)
Lemma flush_digits digit base x (neg : bool) : base = 10 ∨ base = 16 → 0 ≤ x < 2 ^ 64 →
  let buf := put_digits 64 digit x base [] in
  let out := flush (if neg then buf ++ [MINUS] else buf) in
  if x <? base ^ (BUFSIZE - Z.b2z neg)
  then ∃ s, out = Some ((if neg then [MINUS] else []) ++ s) ∧ numeral digit base x s
  else out = None.
Proof.
  intros Hb Hx. cbv zeta. rewrite put_digits_le. simpl ([] ++ _).
  assert (Hx' : 0 ≤ x < base ^ Z.of_nat 64).
  { split; [lia|]. apply Z.lt_le_trans with (2 ^ 64); [lia|]. destruct Hb as [-> | ->]; apply Z.leb_le; vm_compute; done. }
  assert (Hlen : ∀ n, (0 < n)%nat → (length (map digit (le_digits 64 x base)) ≤ n)%nat ↔ x < base ^ Z.of_nat n).
  { intros n Hn. rewrite length_map. apply le_digits_length; [lia|done|done]. }
  pose proof (numeral_digits digit base x 64 ltac:(lia) ltac:(lia) Hx') as Hnum.
  revert Hlen Hnum. generalize (map digit (le_digits 64 x base)). intros l Hlen Hnum. clear Hx Hx' Hb.
  unfold flush, BUFSIZE. destruct neg; [rewrite length_app; simpl (length [_])|]; simpl (Z.b2z _); [change (16 - 1) with 15|change (16 - 0) with 16].
  - specialize (Hlen 15%nat ltac:(lia)). change (Z.of_nat 15) with 15 in Hlen.
    revert Hlen. generalize (base ^ 15). intros p Hlen.
    destruct (Z.ltb_spec x p), (Z.leb_spec (Z.of_nat (length l + 1)) 16); try lia; [|done].
    exists (reverse l). by rewrite reverse_app.
  - specialize (Hlen 16%nat ltac:(lia)). change (Z.of_nat 16) with 16 in Hlen.
    revert Hlen. generalize (base ^ 16). intros p Hlen.
    destruct (Z.ltb_spec x p), (Z.leb_spec (Z.of_nat (length l)) 16); try lia; [|done].
    by exists (reverse l).
Qed.

(** [C37] kernel/printf.c: printint puts out the numeral of its argument, with its
    sign, exactly when the number has at most 16 characters; for every other 64-bit
    argument ("%ld" from 10^16 on, and "%u" of any int with its top bit set, which is
    sign-extended) it writes past the end of its 16-byte buffer. *)
Theorem kprintint_exact xx base sign : - 2 ^ 63 ≤ xx < 2 ^ 63 → base = 10 ∨ base = 16 →
  let neg := sign && (xx <? 0) in
  let x := if neg then - xx else xx mod 2 ^ 64 in
  if x <? base ^ (BUFSIZE - Z.b2z neg)
  then ∃ s, kprintint xx base sign = Some ((if neg then [MINUS] else []) ++ s) ∧ numeral kdigit base x s
  else kprintint xx base sign = None.
Proof.
  intros Hx Hb neg x. unfold kprintint. fold neg.
  assert (E : (if neg then u64 (- xx) else u64 xx) = x).
  { unfold x, neg, u64. destruct (sign && (xx <? 0)) eqn:E; [|done].
    apply andb_prop in E as [_ E%Z.ltb_lt]. apply Z.mod_small. lia. }
  rewrite E. apply flush_digits; [done|]. rewrite <- E. unfold u64. destruct neg; apply Z.mod_pos_bound; lia.
Qed.
Lemma kprintint_exact_witness :
  kprintint (s32 4000000000) 10 false = None ∧
  ∃ s, kprintint (-42) 10 true = Some ([MINUS] ++ s) ∧ numeral kdigit 10 42 s.
Proof.
  split; [apply (kprintint_exact (s32 4000000000) 10 false); [vm_compute; split; congruence|by left]|].
  apply (kprintint_exact (-42) 10 true); [vm_compute; split; congruence|by left].
Defined.

Lemma uprintint_numeral xx base sgn : - 2 ^ 31 ≤ xx < 2 ^ 31 → base = 10 ∨ base = 16 →
  let neg := sgn && (xx <? 0) in
  let x := if neg then - xx else xx mod 2 ^ 32 in
  ∃ s, uprintint xx base sgn = Some ((if neg then [MINUS] else []) ++ s) ∧ numeral udigit base x s.
Proof.
  intros Hx Hb neg x. unfold uprintint. fold neg.
  assert (E : (if neg then u32 (- xx) else u32 xx) = x).
  { unfold x, neg, u32. destruct (sgn && (xx <? 0)) eqn:E; [|done].
    apply andb_prop in E as [_ E%Z.ltb_lt]. apply Z.mod_small. lia. }
  rewrite E. assert (Hr : 0 ≤ x < 2 ^ 32) by (rewrite <- E; unfold u32; destruct neg; apply Z.mod_pos_bound; lia).
  pose proof (flush_digits udigit base x neg Hb ltac:(lia)) as H. cbv zeta in H.
  replace (x <? base ^ (BUFSIZE - Z.b2z neg)) with true in H; [exact H|]. symmetry. apply Z.ltb_lt.
  apply Z.lt_le_trans with (2 ^ 32); [lia|]. destruct neg, Hb as [-> | ->]; apply Z.leb_le; vm_compute; done.
Qed.

(** ** atoi *)

Lemma foldl_ge n ds : 0 ≤ n → Forall (λ d, 0 ≤ d < 10) ds → n ≤ foldl (λ n d, n * 10 + d) n ds.
Proof.
  intros Hn Hds. revert n Hn. induction Hds as [|d ds Hd Hds IH]; intros n Hn; simpl; [lia|].
  specialize (IH (n * 10 + d) ltac:(lia)). lia.
Qed.

Lemma atoi_loop_digits ds rest n : 0 ≤ n → Forall (λ d, 0 ≤ d < 10) ds →
  foldl (λ n d, n * 10 + d) n ds < 2 ^ 31 →
  match rest with [] => True | c :: _ => ¬ (48 ≤ c ≤ 57) end →
  atoi_loop (map udigit ds ++ rest) n = foldl (λ n d, n * 10 + d) n ds.
Proof.
  intros Hn Hds Hlt Hrest. revert n Hn Hlt. induction Hds as [|d ds Hd Hds IH]; intros n Hn Hlt; simpl in *.
  - destruct rest as [|c rest]; [done|]. simpl.
    destruct (Z.leb_spec 48 c), (Z.leb_spec c 57); simpl; lia || done.
  - pose proof (foldl_ge (n * 10 + d) ds ltac:(lia) Hds).
    assert (E : udigit d = 48 + d) by (unfold udigit; destruct (Z.ltb_spec d 10); lia). rewrite E.
    destruct (Z.leb_spec 48 (48 + d)), (Z.leb_spec (48 + d) 57); try lia. simpl.
    replace (s32 (n * 10 + (48 + d) - 48)) with (n * 10 + d); [apply IH; lia|].
    rewrite s32_small; lia.
Qed.

(** user/printf.c and user/ulib.c: for every int, "%d" stays within its buffer
    and puts out the numeral with its sign, and atoi reads the magnitude back (from
    after the sign, which it does not know), whatever follows the digits. *)
Theorem printint_atoi_roundtrip x rest : - 2 ^ 31 ≤ x < 2 ^ 31 →
  match rest with [] => True | c :: _ => ¬ (48 ≤ c ≤ 57) end →
  ∃ s, uprintint x 10 true = Some ((if x <? 0 then [MINUS] else []) ++ s) ∧ numeral udigit 10 (Z.abs x) s ∧
    (x ≠ - 2 ^ 31 → atoi (s ++ rest) = Z.abs x).
Proof.
  intros Hx Hrest. destruct (uprintint_numeral x 10 true ltac:(lia) ltac:(by left)) as (s & Es & Hs).
  simpl in Es, Hs.
  assert (E : (if x <? 0 then - x else x mod 2 ^ 32) = Z.abs x).
  { destruct (Z.ltb_spec x 0); [lia|]. rewrite Z.mod_small; lia. }
  rewrite E in Hs. exists s. split_and!; [done|done|]. intros Hmin.
  destruct Hs as (ds & -> & Hds & Hv & _). rewrite <- Hv.
  apply atoi_loop_digits; [lia|done|unfold be_value in Hv; lia|done].
Qed.
Lemma printint_atoi_roundtrip_witness :
  ∃ s, uprintint (-2147483647) 10 true = Some ([MINUS] ++ s) ∧ numeral udigit 10 2147483647 s ∧
    (-2147483647 ≠ - 2 ^ 31 → atoi (s ++ [10]) = 2147483647).
Proof. apply (printint_atoi_roundtrip (-2147483647) [10]); [vm_compute; split; congruence|lia]. Defined.

End Printf.
