(* ===== verification/Console.v ===== *)
(** * kernel/console.c and kernel/uart.c: the terminal

    [Console]: the input ring with its line editing; interrupts put characters in,
    reads take lines out.  Each handler runs under [cons.lock].
    [Uart]: the ring of characters that wait to be sent.  Reads of the status
    register are an argument: the answers the device will give, one per read.

    The theorems relate the rings, whose indices run on and wrap around, to what a
    user of a terminal sees: lines typed and edited, characters sent in order. *)

From S2P Require Import Prelude.

Module Console.

Definition BACKSPACE : Z := 0x100.
Definition C_ (x : Z) : Z := x - 64.
Definition NL : Z := 10.
Definition CR : Z := 13.
Definition DEL : Z := 127.
Definition CTRL_D : Z := C_ 68.
Definition CTRL_H : Z := C_ 72.
Definition CTRL_P : Z := C_ 80.
Definition CTRL_U : Z := C_ 85.

Definition INPUT_BUF_SIZE : Z := 128.

(** [cons] *)
Record cons := mk_cons { buf : list Z; r : Z; w : Z; e : Z }.

Definition at_ (s : cons) (i : Z) : Z := default 0 (buf s !! Z.to_nat (i mod INPUT_BUF_SIZE)).
Definition set_e (x : Z) (s : cons) : cons := mk_cons (buf s) (r s) (w s) x.
Definition set_w (x : Z) (s : cons) : cons := mk_cons (buf s) (r s) x (e s).
Definition set_r (x : Z) (s : cons) : cons := mk_cons (buf s) x (w s) (e s).
Definition store (i c : Z) (s : cons) : cons :=
  mk_cons (<[Z.to_nat (i mod INPUT_BUF_SIZE) := c]> (buf s)) (r s) (w s) (e s).

(** [consputc]: what goes to the uart. *)
Definition consputc (c : Z) : list Z := if c =? BACKSPACE then [8; 32; 8] else [c].

(** The loop of the line kill; it returns what it echoes. *)
Fixpoint kill_line (fuel : nat) (s : cons) : cons * list Z :=
  match fuel with
  | O => (s, [])
  | S fuel' =>
      if negb (e s =? w s) && negb (at_ s (u32 (e s - 1)) =? NL) then
        let '(s', out) := kill_line fuel' (set_e (u32 (e s - 1)) s) in (s', consputc BACKSPACE ++ out)
      else (s, [])
  end.

(** [consoleintr]: the new state, the echo, and whether it wakes readers.  What
    [procdump] prints is no part of the echo. *)
Definition consoleintr (c : Z) (s : cons) : cons * list Z * bool :=
  if c =? CTRL_P then (s, [], false)
  else if c =? CTRL_U then (kill_line (Z.to_nat INPUT_BUF_SIZE) s, false)
  else if (c =? CTRL_H) || (c =? DEL) then
    if negb (e s =? w s) then (set_e (u32 (e s - 1)) s, consputc BACKSPACE, false) else (s, [], false)
  else if negb (c =? 0) && (u32 (e s - r s) <? INPUT_BUF_SIZE) then
    let c := if c =? CR then NL else c in
    let s := set_e (u32 (e s + 1)) (store (e s) c s) in
    if (c =? NL) || (c =? CTRL_D) || (u32 (e s - r s) =? INPUT_BUF_SIZE)
    then (set_w (e s) s, consputc c, true) else (s, consputc c, false)
  else (s, [], false).

(** A read returns a value, or sleeps with [n] bytes still to go. *)
Inductive rstat := Returned (v : Z) | Asleep (n : Z).

(** The loop of [consoleread]: the bytes copied out, and how it ends.  [out i]: can
    the byte at offset [i] of the buffer be stored. *)
Fixpoint consoleread_loop (fuel : nat) (out : Z → bool) (killed : bool) (target n : Z) (s : cons) : cons * list Z * rstat :=
  match fuel with
  | O => (s, [], Returned (target - n))
  | S fuel' =>
      if 0 <? n then
        if r s =? w s then (s, [], if killed then Returned (-1) else Asleep n)
        else
          let c := at_ s (r s) in
          let s := set_r (u32 (r s + 1)) s in
          if c =? CTRL_D then (if n <? target then set_r (u32 (r s - 1)) s else s, [], Returned (target - n))
          else if negb (out (target - n)) then (s, [], Returned (target - n))
          else if c =? NL then (s, [c], Returned (target - (n - 1)))
          else
            let '(s', l, st) := consoleread_loop fuel' out killed target (n - 1) s in (s', c :: l, st)
      else (s, [], Returned (target - n))
  end.

(** [consoleread] with [n] of [target] bytes to go: all of them at the call, fewer
    when it goes on after a sleep. *)
Definition consoleread (out : Z → bool) (killed : bool) (target n : Z) (s : cons) : cons * list Z * rstat :=
  consoleread_loop (S (Z.to_nat n)) out killed target n s.

(** ** What a terminal does *)

(** The lines that can be read, and the line being edited. *)
Record term := mk_term { lines : list Z; edit : list Z }.

Definition commits (c len : Z) : bool := (c =? NL) || (c =? CTRL_D) || (len =? INPUT_BUF_SIZE).

Definition type_char (c : Z) (t : term) : term * list Z * bool :=
  let c := if c =? CR then NL else c in
  if Z.of_nat (length (lines t ++ edit t)) <? INPUT_BUF_SIZE then
    if commits c (Z.of_nat (length (lines t ++ edit t)) + 1)
    then (mk_term (lines t ++ edit t ++ [c]) [], [c], true)
    else (mk_term (lines t) (edit t ++ [c]), [c], false)
  else (t, [], false).

Definition rubout : list Z := [8; 32; 8].

Definition key (c : Z) (t : term) : term * list Z * bool :=
  if c =? CTRL_U then (mk_term (lines t) [], concat (replicate (length (edit t)) rubout), false)
  else if (c =? CTRL_H) || (c =? DEL) then
    (mk_term (lines t) (removelast (edit t)), if bool_decide (edit t = []) then [] else rubout, false)
  else if (c =? CTRL_P) || (c =? 0) then (t, [], false)
  else type_char c t.

(** A read of at most [n] bytes stops after a newline, before an end of file that
    follows bytes, and sleeps when it has used up the lines. *)
Fixpoint read_line (killed : bool) (target : Z) (n : nat) (q : list Z) : list Z * list Z * rstat :=
  match n, q with
  | O, _ => ([], q, Returned target)
  | S _, [] => ([], [], if killed then Returned (-1) else Asleep (Z.of_nat n))
  | S n', c :: q' =>
      let got := target - Z.of_nat n in
      if c =? CTRL_D then ([], if 0 <? got then q else q', Returned got)
      else if c =? NL then ([c], q', Returned (got + 1))
      else let '(l, q'', st) := read_line killed target n' q' in (c :: l, q'', st)
  end.

(** ** The ring holds the lines and the edit *)

Record ring (s : cons) (t : term) : Prop := {
  rg_len : length (buf s) = Z.to_nat INPUT_BUF_SIZE;
  rg_r : 0 ≤ r s < 2 ^ 32;
  rg_w : w s = u32 (r s + Z.of_nat (length (lines t)));
  rg_e : e s = u32 (r s + Z.of_nat (length (lines t ++ edit t)));
  rg_cap : Z.of_nat (length (lines t ++ edit t)) ≤ INPUT_BUF_SIZE;
  rg_at : ∀ i c, (lines t ++ edit t) !! i = Some c → at_ s (r s + Z.of_nat i) = c }.

(** Indices count modulo 2^32, a multiple of the size. *)
Lemma idx_u32 i : u32 i mod INPUT_BUF_SIZE = i mod INPUT_BUF_SIZE.
Proof. unfold u32, INPUT_BUF_SIZE. symmetry. apply Znumtheory.Zmod_div_mod; [lia|lia|]. by exists (2 ^ 25). Qed.

Lemma at_u32 s i : at_ s (u32 i) = at_ s i.
Proof. unfold at_. by rewrite idx_u32. Qed.

Lemma u32_add a b : u32 (u32 a + b) = u32 (a + b).
Proof. unfold u32. by rewrite Zplus_mod_idemp_l. Qed.

Lemma u32_diff a b k : u32 (u32 (a + b) - u32 (a + k)) = u32 (b - k).
Proof. unfold u32. rewrite <- Zminus_mod. f_equal. lia. Qed.

(** Two indices less than 2^32 apart are equal only if they count the same. *)
Lemma idx_eqb a b k : 0 ≤ k ≤ b → b ≤ INPUT_BUF_SIZE → (u32 (a + b) =? u32 (a + k)) = (b =? k).
Proof.
  intros Hk Hb. unfold INPUT_BUF_SIZE in Hb. destruct (Z.eqb_spec b k) as [->|Hne]; [apply Z.eqb_refl|].
  apply Z.eqb_neq. intros E. pose proof (u32_diff a b k) as D. rewrite E, Z.sub_diag, (u32_small (b - k)) in D by lia.
  change (u32 0) with 0 in D. lia.
Qed.

Section facts.
Context (s : cons) (t : term) (Hs : ring s t).

Lemma ring_used : u32 (e s - r s) = Z.of_nat (length (lines t ++ edit t)).
Proof.
  destruct Hs as [_ Hr _ He Hcap _]. unfold INPUT_BUF_SIZE in Hcap. rewrite He.
  pose proof (u32_diff (r s) (Z.of_nat (length (lines t ++ edit t))) 0) as D.
  by rewrite Z.add_0_r, Z.sub_0_r, (u32_small (r s)), (u32_small (Z.of_nat _)) in D by lia.
Qed.

Lemma ring_no_edit : (e s =? w s) = bool_decide (edit t = []).
Proof.
  destruct Hs as [_ Hr Hw He Hcap _]. rewrite He, Hw, idx_eqb; [|rewrite length_app; lia|done].
  rewrite length_app. destruct (edit t); simpl; [apply Z.eqb_eq|apply Z.eqb_neq]; lia.
Qed.

Lemma ring_no_line : (r s =? w s) = bool_decide (lines t = []).
Proof.
  destruct Hs as [_ Hr Hw He Hcap _]. rewrite length_app in Hcap. rewrite Z.eqb_sym, Hw.
  pose proof (idx_eqb (r s) (Z.of_nat (length (lines t))) 0 ltac:(lia) ltac:(lia)) as D.
  rewrite Z.add_0_r, (u32_small (r s)) in D by lia. rewrite D.
  by destruct (lines t).
Qed.

Lemma ring_commit : ring (set_w (e s) s) (mk_term (lines t ++ edit t) []).
Proof. destruct Hs as [Hl Hr Hw He Hcap Ha]. split; simpl; rewrite ?app_nil_r; done. Qed.

End facts.

Lemma ring_back s ls ed c : ring s (mk_term ls (ed ++ [c])) → ring (set_e (u32 (e s - 1)) s) (mk_term ls ed).
Proof.
  intros [Hl Hr Hw He Hcap Ha]. simpl in *. rewrite app_assoc, length_app in He, Hcap. simpl in *. split; simpl; try done.
  - rewrite He. unfold Z.sub. rewrite u32_add. f_equal. lia.
  - lia.
  - intros i c' Hi. apply (Ha i). rewrite app_assoc. by apply lookup_app_l_Some.
Qed.

(** The character before the edit index. *)
Lemma ring_last s ls ed c : ring s (mk_term ls (ed ++ [c])) → at_ s (u32 (e s - 1)) = c.
Proof.
  intros [Hl Hr Hw He Hcap Ha]. simpl in *. rewrite at_u32. rewrite He. rewrite <- at_u32. unfold Z.sub. rewrite u32_add, at_u32.
  rewrite <- (Ha (length (ls ++ ed)) c).
  - f_equal. rewrite app_assoc, !length_app. simpl. lia.
  - rewrite app_assoc. by apply list_lookup_middle.
Qed.

Lemma ring_put s ls ed c : ring s (mk_term ls ed) → Z.of_nat (length (ls ++ ed)) < INPUT_BUF_SIZE →
  ring (set_e (u32 (e s + 1)) (store (e s) c s)) (mk_term ls (ed ++ [c])).
Proof.
  intros [Hl Hr Hw He Hcap Ha] Hlt. simpl in *. split; simpl; rewrite ?app_assoc; try done.
  - by rewrite length_insert.
  - rewrite He, u32_add. f_equal. rewrite !length_app. simpl. lia.
  - rewrite !length_app in *. simpl. lia.
  - intros i c' Hi. unfold at_. simpl. rewrite He, idx_u32.
    assert (Hb : ∀ j, (Z.to_nat (j mod INPUT_BUF_SIZE) < length (buf s))%nat).
    { intros j. rewrite Hl. pose proof (Z.mod_pos_bound j INPUT_BUF_SIZE ltac:(done)). lia. }
    apply lookup_app_Some in Hi as [Hi|[Hge Hi]].
    + pose proof (lookup_lt_Some _ _ _ Hi). rewrite list_lookup_insert_ne; [by apply (Ha i)|].
      unfold INPUT_BUF_SIZE in *. intros E. apply Z2Nat.inj in E; [|apply Z.mod_pos_bound; lia..].
      revert E. Z.to_euclidean_division_equations. lia.
    + apply list_lookup_singleton_Some in Hi as [Hi ->]. replace i with (length (ls ++ ed)) by lia.
      by rewrite list_lookup_insert_eq.
Qed.

Lemma ring_pop s c ls ed : ring s (mk_term (c :: ls) ed) →
  at_ s (r s) = c ∧ ring (set_r (u32 (r s + 1)) s) (mk_term ls ed).
Proof.
  intros [Hl Hr Hw He Hcap Ha]. simpl in *. split; [rewrite <- (Ha 0%nat c eq_refl); f_equal; lia|].
  split; simpl; try done.
  - apply u32_range.
  - rewrite Hw, u32_add. f_equal. lia.
  - rewrite He, u32_add. f_equal. lia.
  - lia.
  - intros i c' Hi. rewrite <- (Ha (S i) c' Hi). unfold at_. simpl.
    rewrite <- (idx_u32 (u32 _ + _)), u32_add, idx_u32. by replace (r s + 1 + Z.of_nat i) with (r s + Z.of_nat (S i)) by lia.
Qed.

(** ** Refinement *)

(** A line being edited holds no newline: typing one ends it. *)
Definition no_newline (t : term) : Prop := Forall (λ c, c ≠ NL) (edit t).

Lemma kill_line_ok fuel s ls ed : ring s (mk_term ls ed) → Forall (λ c, c ≠ NL) ed → (length ed ≤ fuel)%nat →
  ∃ s', kill_line fuel s = (s', concat (replicate (length ed) rubout)) ∧ ring s' (mk_term ls []).
Proof.
  revert s ed. induction fuel as [|fuel IH]; intros s ed Hs Hed Hf.
  { destruct ed; [|simpl in Hf; lia]. by exists s. }
  simpl. rewrite (ring_no_edit _ _ Hs). simpl (edit _). destruct ed as [|c ed _] using rev_ind.
  { simpl. by exists s. }
  rewrite bool_decide_eq_false_2 by (by destruct ed). rewrite (ring_last _ _ _ _ Hs).
  apply Forall_app in Hed as [Hed Hc]. apply Forall_cons in Hc as [Hc _]. rewrite (proj2 (Z.eqb_neq _ _) Hc). simpl (negb _ && _). cbv iota.
  rewrite length_app in Hf. simpl in Hf.
  destruct (IH _ ed (ring_back _ _ _ _ Hs) Hed ltac:(lia)) as (s' & E & Hs'). rewrite E. exists s'. split; [|done].
  rewrite length_app, Nat.add_comm. done.
Qed.

Lemma consoleintr_refines c s t : 0 ≤ c < 256 → ring s t → no_newline t →
  ∃ s' t', consoleintr c s = (s', (key c t).1.2, (key c t).2) ∧ (key c t).1.1 = t' ∧ ring s' t' ∧ no_newline t'.
Proof.
  intros Hc Hs Hn. destruct t as [ls ed]. unfold consoleintr, key.
  destruct (Z.eqb_spec c CTRL_P) as [->|HP]; [by eexists _, _|].
  destruct (Z.eqb_spec c CTRL_U) as [->|HU].
  { destruct (kill_line_ok (Z.to_nat INPUT_BUF_SIZE) s ls ed Hs Hn) as (s' & E & Hs').
    - pose proof (rg_cap _ _ Hs) as Hcap. simpl in Hcap. rewrite length_app in Hcap. lia.
    - rewrite E. exists s', (mk_term ls []). split_and!; try done. constructor. }
  destruct ((c =? CTRL_H) || (c =? DEL)) eqn:EH.
  { rewrite (ring_no_edit _ _ Hs). simpl. destruct ed as [|d ed _] using rev_ind; [by eexists _, _|].
    rewrite bool_decide_eq_false_2 by (by destruct ed). simpl. rewrite removelast_last. eexists _, _.
    split; [done|]. split; [done|]. split; [by eapply ring_back|]. by apply Forall_app in Hn as [? _]. }
  destruct (Z.eqb_spec c 0) as [->|H0]; [by eexists _, _|]. simpl (_ || _). cbv iota.
  rewrite (ring_used _ _ Hs). unfold type_char. simpl (negb _ && _). simpl (lines _). simpl (edit _).
  cbv zeta. set (c' := if c =? CR then NL else c). destruct (Z.ltb_spec (Z.of_nat (length (ls ++ ed))) INPUT_BUF_SIZE) as [Hlt|]; [|by eexists _, _].
  assert (consputc c' = [c']) as Eo.
  { unfold consputc. rewrite (proj2 (Z.eqb_neq _ _)); [done|]. unfold c', BACKSPACE, NL. destruct (c =? CR); lia. }
  rewrite Eo. pose proof (ring_put _ _ _ c' Hs Hlt) as Hp. change (u32 (u32 (e s + 1) - r s)) with (u32 (e (set_e (u32 (e s + 1)) (store (e s) c' s)) - r (set_e (u32 (e s + 1)) (store (e s) c' s)))).
  rewrite (ring_used _ _ Hp). simpl (lines _). simpl (edit _).
  replace (Z.of_nat (length (ls ++ ed ++ [c']))) with (Z.of_nat (length (ls ++ ed)) + 1) by (rewrite !length_app; simpl; lia).
  fold (commits c' (Z.of_nat (length (ls ++ ed)) + 1)). destruct (commits _ _) eqn:Ec; (eexists _, _; split; [|split; [done|split]]).
  - done.
  - apply (ring_commit _ _ Hp).
  - constructor.
  - done.
  - exact Hp.
  - apply Forall_app. split; [exact Hn|]. constructor; [|constructor]. intros E. by rewrite E in Ec.
Qed.

Lemma consoleread_refines fuel killed target n s ls ed : (n < fuel)%nat → Z.of_nat n ≤ target →
  ring s (mk_term ls ed) → ∃ s', let '(l, q, st) := read_line killed target n ls in
  consoleread_loop fuel (λ _, true) killed target (Z.of_nat n) s = (s', l, st) ∧ ring s' (mk_term q ed).
Proof.
  revert n s ls. induction fuel as [|fuel IH]; intros n s ls Hf Hn Hs; [lia|].
  destruct n as [|n]; [exists s; simpl; rewrite Z.sub_0_r; by destruct ls|]. cbn [consoleread_loop].
  rewrite (proj2 (Z.ltb_lt 0 (Z.of_nat (S n)))) by lia. rewrite (ring_no_line _ _ Hs). simpl (lines _).
  destruct ls as [|c ls]; [by exists s|]. rewrite bool_decide_eq_false_2 by done. cbn [read_line].
  destruct (ring_pop _ _ _ _ Hs) as [Ec Hp]. rewrite Ec. cbv zeta. destruct (Z.eqb_spec c CTRL_D) as [->|HD].
  { destruct (Z.ltb_spec (Z.of_nat (S n)) target), (Z.ltb_spec 0 (target - Z.of_nat (S n))); try lia; eexists; (split; [done|]); [|exact Hp].
    simpl (r (set_r _ _)). unfold Z.sub. rewrite u32_add, <- Z.add_assoc, Z.add_0_r, u32_small by apply Hs. by destruct s. }
  simpl (negb true). cbv iota. destruct (Z.eqb_spec c NL) as [->|HN].
  { eexists. split; [do 2 f_equal; lia|exact Hp]. }
  destruct (IH n _ ls ltac:(lia) ltac:(lia) Hp) as (s' & E). replace (Z.of_nat (S n) - 1) with (Z.of_nat n) by lia.
  destruct (read_line killed target n ls) as [[l q] st]. destruct E as [E Hs']. rewrite E. by exists s'.
Qed.

(** What happens at a terminal: a key arrives, or a process reads, for the first
    time or on after a sleep, with [n] of [target] bytes to go. *)
Inductive event := Key (c : Z) | Read (killed : bool) (target n : Z).
Definition event_ok (ev : event) : Prop :=
  match ev with Key c => 0 ≤ c < 256 | Read _ target n => 0 ≤ n ≤ target end.
Inductive seen := Echo (out : list Z) (wakes : bool) | Got (l : list Z) (st : rstat).

Definition cons_step (ev : event) (s : cons) : cons * seen :=
  match ev with
  | Key c => let '(s', out, wk) := consoleintr c s in (s', Echo out wk)
  | Read k target n => let '(s', l, st) := consoleread (λ _, true) k target n s in (s', Got l st)
  end.
Definition term_step (ev : event) (t : term) : term * seen :=
  match ev with
  | Key c => let '(t', out, wk) := key c t in (t', Echo out wk)
  | Read k target n => let '(l, q, st) := read_line k target (Z.to_nat n) (lines t) in (mk_term q (edit t), Got l st)
  end.
Fixpoint runs {T} (step : event → T → T * seen) (evs : list event) (s : T) : list seen :=
  match evs with
  | [] => []
  | ev :: evs' => let '(s', o) := step ev s in o :: runs step evs' s'
  end.

Lemma step_refines ev s t : event_ok ev → ring s t → no_newline t →
  (cons_step ev s).2 = (term_step ev t).2 ∧ ring (cons_step ev s).1 (term_step ev t).1 ∧ no_newline (term_step ev t).1.
Proof.
  intros Hev Hs Hn. destruct ev as [c|k target n]; simpl in *.
  - destruct (consoleintr_refines c s t Hev Hs Hn) as (s' & t' & E & Et & Hs' & Hn'). rewrite E.
    destruct (key c t) as [[t1 out] wk]. simpl in *. by subst.
  - destruct t as [ls ed]. simpl in *.
    destruct (consoleread_refines (S (Z.to_nat n)) k target (Z.to_nat n) s ls ed ltac:(lia) ltac:(lia) Hs) as (s' & E).
    destruct (read_line k target (Z.to_nat n) ls) as [[l q] st]. destruct E as [E Hs'].
    unfold consoleread. rewrite Z2Nat.id in E by lia. by rewrite E.
Qed.

(** [cons] at boot. *)
Definition cons_init : cons := mk_cons (replicate (Z.to_nat INPUT_BUF_SIZE) 0) 0 0 0.

(** The console is a terminal: whatever keys arrive and whatever is read, in any
    order and for as long as the indices take to wrap around, the echo, the wakeups
    and the bytes of every read are those of a terminal that keeps finished lines and
    one line in editing: backspace takes back one character, control-U the line, a
    newline, an end of file or a full buffer finishes it, and reads get lines only. *)
Theorem console_refines evs : Forall event_ok evs → runs cons_step evs cons_init = runs term_step evs (mk_term [] []).
Proof.
  intros Hevs. assert (ring cons_init (mk_term [] [])) as Hs by (split; done).
  assert (no_newline (mk_term [] [])) as Hn by constructor. revert Hs Hn.
  generalize cons_init (mk_term [] []). induction Hevs as [|ev evs Hev _ IH]; intros s t Hs Hn; [done|].
  destruct (step_refines ev s t Hev Hs Hn) as (E & Hs' & Hn'). simpl.
  destruct (cons_step ev s) as [s' o], (term_step ev t) as [t' o']. simpl in *. subst. f_equal. by apply IH.
Qed.
(** "lx", backspace, "s", return; then a read. *)
Lemma console_refines_witness :
  runs cons_step [Key 108; Key 120; Key 127; Key 115; Key 13; Read false 10 10] cons_init =
  [Echo [108] false; Echo [120] false; Echo rubout false; Echo [115] false; Echo [10] true; Got [108; 115; 10] (Returned 3)].
Proof.
  rewrite (console_refines [Key 108; Key 120; Key 127; Key 115; Key 13; Read false 10 10]); [reflexivity|].
  repeat constructor; discriminate.
Defined.

End Console.

Module Uart.

Definition UART_TX_BUF_SIZE : Z := 32.

(** [uart_tx_buf], [uart_tx_w], [uart_tx_r] *)
Record uart := mk_uart { tx_buf : list Z; tx_w : Z; tx_r : Z }.

Definition tx_at (s : uart) (i : Z) : Z := default 0 (tx_buf s !! Z.to_nat (i mod UART_TX_BUF_SIZE)).

(** [uartstart]: the characters written to the holding register.  [idle] are the
    answers of the status register, which is busy when they are used up. *)
Fixpoint uartstart_loop (fuel : nat) (idle : list bool) (s : uart) : uart * list Z :=
  match fuel with
  | O => (s, [])
  | S fuel' =>
      if tx_w s =? tx_r s then (s, [])
      else match idle with
           | true :: idle' =>
               let c := tx_at s (tx_r s) in
               let '(s', l) := uartstart_loop fuel' idle' (mk_uart (tx_buf s) (tx_w s) (u64 (tx_r s + 1))) in
               (s', c :: l)
           | _ => (s, [])
           end
  end.
Definition uartstart (idle : list bool) (s : uart) : uart * list Z :=
  uartstart_loop (S (Z.to_nat UART_TX_BUF_SIZE)) idle s.

(** [uartputc], while the kernel has not panicked; [None]: it sleeps. *)
Definition uartputc (c : Z) (idle : list bool) (s : uart) : option (uart * list Z) :=
  if tx_w s =? u64 (tx_r s + UART_TX_BUF_SIZE) then None
  else
    let s := mk_uart (<[Z.to_nat (tx_w s mod UART_TX_BUF_SIZE) := c]> (tx_buf s)) (u64 (tx_w s + 1)) (tx_r s) in
    Some (uartstart idle s).

(** ** A queue of at most 32 characters *)

Fixpoint send (idle : list bool) (q : list Z) : list Z * list Z :=
  match idle, q with
  | true :: idle', c :: q' => let '(q'', l) := send idle' q' in (q'', c :: l)
  | _, _ => (q, [])
  end.

Record holds (s : uart) (q : list Z) : Prop := {
  hd_len : length (tx_buf s) = Z.to_nat UART_TX_BUF_SIZE;
  hd_r : 0 ≤ tx_r s < 2 ^ 64;
  hd_w : tx_w s = u64 (tx_r s + Z.of_nat (length q));
  hd_cap : Z.of_nat (length q) ≤ UART_TX_BUF_SIZE;
  hd_at : ∀ i c, q !! i = Some c → tx_at s (tx_r s + Z.of_nat i) = c }.

Lemma idx_u64 i : u64 i mod UART_TX_BUF_SIZE = i mod UART_TX_BUF_SIZE.
Proof. unfold u64, UART_TX_BUF_SIZE. symmetry. apply Znumtheory.Zmod_div_mod; [lia|lia|]. by exists (2 ^ 59). Qed.

Lemma u64_add a b : u64 (u64 a + b) = u64 (a + b).
Proof. unfold u64. by rewrite Zplus_mod_idemp_l. Qed.

Lemma tx_eqb a b k : 0 ≤ b ≤ UART_TX_BUF_SIZE → 0 ≤ k ≤ UART_TX_BUF_SIZE → (u64 (a + b) =? u64 (a + k)) = (b =? k).
Proof.
  unfold UART_TX_BUF_SIZE, u64. intros Hb Hk. destruct (Z.eqb_spec b k) as [->|Hne]; [apply Z.eqb_refl|].
  apply Z.eqb_neq. intros E. revert E. Z.to_euclidean_division_equations. lia.
Qed.

Lemma tx_empty s q : holds s q → (tx_w s =? tx_r s) = bool_decide (q = []).
Proof.
  intros [_ Hr Hw Hcap _]. rewrite Hw. pose proof (tx_eqb (tx_r s) (Z.of_nat (length q)) 0 ltac:(lia) ltac:(done)) as D.
  rewrite Z.add_0_r, (u64_small (tx_r s)) in D by lia. rewrite D. by destruct q.
Qed.

Lemma tx_pop s c q : holds s (c :: q) →
  tx_at s (tx_r s) = c ∧ holds (mk_uart (tx_buf s) (tx_w s) (u64 (tx_r s + 1))) q.
Proof.
  intros [Hl Hr Hw Hcap Ha]. simpl in *. split; [rewrite <- (Ha 0%nat c eq_refl); f_equal; lia|].
  split; simpl; try done.
  - apply u64_range.
  - rewrite Hw, u64_add. f_equal. lia.
  - lia.
  - intros i c' Hi. rewrite <- (Ha (S i) c' Hi). unfold tx_at. simpl.
    rewrite <- (idx_u64 (u64 _ + _)), u64_add, idx_u64. by replace (tx_r s + 1 + Z.of_nat i) with (tx_r s + Z.of_nat (S i)) by lia.
Qed.

Lemma tx_push s q c : holds s q → Z.of_nat (length q) < UART_TX_BUF_SIZE →
  holds (mk_uart (<[Z.to_nat (tx_w s mod UART_TX_BUF_SIZE) := c]> (tx_buf s)) (u64 (tx_w s + 1)) (tx_r s)) (q ++ [c]).
Proof.
  intros [Hl Hr Hw Hcap Ha] Hlt. split; simpl; try done.
  - by rewrite length_insert.
  - rewrite Hw, u64_add. f_equal. rewrite length_app. simpl. lia.
  - rewrite length_app. simpl. lia.
  - intros i c' Hi. unfold tx_at. simpl. rewrite Hw, idx_u64. apply lookup_app_Some in Hi as [Hi|[Hge Hi]].
    + pose proof (lookup_lt_Some _ _ _ Hi). rewrite list_lookup_insert_ne; [by apply (Ha i)|].
      unfold UART_TX_BUF_SIZE in *. intros E. apply Z2Nat.inj in E; [|apply Z.mod_pos_bound; lia..].
      revert E. Z.to_euclidean_division_equations. lia.
    + apply list_lookup_singleton_Some in Hi as [Hi ->]. replace i with (length q) by lia.
      rewrite list_lookup_insert_eq; [done|]. rewrite Hl. pose proof (Z.mod_pos_bound (tx_r s + Z.of_nat (length q)) UART_TX_BUF_SIZE ltac:(done)). lia.
Qed.

Lemma uartstart_ok fuel idle s q : holds s q → (length q < fuel)%nat →
  (uartstart_loop fuel idle s).2 = (send idle q).2 ∧ holds (uartstart_loop fuel idle s).1 (send idle q).1.
Proof.
  revert idle s q. induction fuel as [|fuel IH]; intros idle s q Hs Hf; [lia|]. cbn [uartstart_loop].
  rewrite (tx_empty _ _ Hs). destruct q as [|c q]; [by destruct idle as [|[]]|]. rewrite bool_decide_eq_false_2 by done.
  destruct idle as [|[] idle]; [done| |done]. destruct (tx_pop _ _ _ Hs) as [-> Hp]. simpl in Hf.
  destruct (IH idle _ q Hp ltac:(lia)) as [E Hs']. cbn [send].
  destruct (uartstart_loop fuel idle _) as [s' l], (send idle q) as [q' l']. simpl in *. by subst.
Qed.

(** A process puts a character, or the device interrupts. *)
Inductive uevent := Put (c : Z) (idle : list bool) | Intr (idle : list bool).

Definition uart_step (ev : uevent) (s : uart) : uart * option (list Z) :=
  match ev with
  | Put c idle => match uartputc c idle s with Some (s', l) => (s', Some l) | None => (s, None) end
  | Intr idle => let '(s', l) := uartstart idle s in (s', Some l)
  end.
Definition queue_step (ev : uevent) (q : list Z) : list Z * option (list Z) :=
  match ev with
  | Put c idle => if bool_decide (Z.of_nat (length q) = UART_TX_BUF_SIZE) then (q, None) else let '(q', l) := send idle (q ++ [c]) in (q', Some l)
  | Intr idle => let '(q', l) := send idle q in (q', Some l)
  end.
Fixpoint uruns {T} (step : uevent → T → T * option (list Z)) (evs : list uevent) (s : T) : list (option (list Z)) :=
  match evs with
  | [] => []
  | ev :: evs' => let '(s', o) := step ev s in o :: uruns step evs' s'
  end.

Lemma uart_step_ok ev s q : holds s q →
  (uart_step ev s).2 = (queue_step ev q).2 ∧ holds (uart_step ev s).1 (queue_step ev q).1.
Proof.
  intros Hs. destruct ev as [c idle|idle]; simpl.
  - unfold uartputc. pose proof (hd_cap _ _ Hs) as Hcap. 
    assert ((tx_w s =? u64 (tx_r s + UART_TX_BUF_SIZE)) = (Z.of_nat (length q) =? UART_TX_BUF_SIZE)) as ->.
    { rewrite (hd_w _ _ Hs). apply tx_eqb; unfold UART_TX_BUF_SIZE in *; lia. }
    case_bool_decide as E; [rewrite (proj2 (Z.eqb_eq _ _) E); done|]. rewrite (proj2 (Z.eqb_neq _ _) E).
    pose proof (tx_push _ _ c Hs ltac:(lia)) as Hp. unfold uartstart.
    destruct (uartstart_ok (S (Z.to_nat UART_TX_BUF_SIZE)) idle _ _ Hp) as [E1 E2]; [pose proof (hd_cap _ _ Hp); lia|].
    destruct (uartstart_loop _ idle _) as [s' l], (send idle _) as [q' l']. simpl in *. by subst.
  - unfold uartstart. destruct (uartstart_ok (S (Z.to_nat UART_TX_BUF_SIZE)) idle _ _ Hs) as [E1 E2]; [pose proof (hd_cap _ _ Hs); lia|].
    destruct (uartstart_loop _ idle _) as [s' l], (send idle _) as [q' l']. simpl in *. by subst.
Qed.

Definition uart_init : uart := mk_uart (replicate (Z.to_nat UART_TX_BUF_SIZE) 0) 0 0.

(** The transmit buffer of the uart is a queue: over any calls of uartputc and
    any interrupts, and whatever the status register answers, each step sends the
    characters a first-in first-out queue of 32 would, and uartputc sleeps exactly
    when the queue is full, also after the 64-bit indices have wrapped around. *)
Theorem uart_fifo s q evs : holds s q → uruns uart_step evs s = uruns queue_step evs q.
Proof.
  revert s q. induction evs as [|ev evs IH]; intros s q Hs; [done|]. simpl.
  destruct (uart_step_ok ev s q Hs) as [E Hs']. destruct (uart_step ev s) as [s' o], (queue_step ev q) as [q' o'].
  simpl in *. subst. f_equal. by apply IH.
Qed.
Lemma uart_fifo_witness :
  uruns uart_step [Put 97 []; Put 98 [true; false]; Intr [true; true]] uart_init = [Some []; Some [97]; Some [98]].
Proof. rewrite (uart_fifo uart_init [] [Put 97 []; Put 98 [true; false]; Intr [true; true]]); [reflexivity|split; done]. Defined.

End Uart.
