(* ===== verification/Tty.v ===== *)
(** * kernel/uart.c and kernel/console.c together: the terminal driver

    The routines that join the two rings of Console.v and the device: uartinit,
    uartputc_sync, uartgetc, uartintr, consolewrite, consoleinit.  What the device's
    registers answer is an argument of the routine that reads them. *)

From S2P Require Import Prelude Riscv Console.
Import Console.

Module Tty.

(** ** The device's registers *)

Inductive reg := RHR | THR | IER | FCR | ISR | LCR | LSR.
Definition reg_off (r : reg) : Z := match r with RHR | THR => 0 | IER => 1 | FCR | ISR => 2 | LCR => 3 | LSR => 5 end.

Inductive bit := IER_RX_ENABLE | IER_TX_ENABLE | FCR_FIFO_ENABLE | FCR_FIFO_CLEAR | LCR_EIGHT_BITS | LCR_BAUD_LATCH | LSR_RX_READY | LSR_TX_IDLE.
Definition bits (b : bit) : Z :=
  match b with
  | IER_RX_ENABLE => Z.shiftl 1 0 | IER_TX_ENABLE => Z.shiftl 1 1 | FCR_FIFO_ENABLE => Z.shiftl 1 0 | FCR_FIFO_CLEAR => Z.shiftl 3 1
  | LCR_EIGHT_BITS => Z.shiftl 3 0 | LCR_BAUD_LATCH => Z.shiftl 1 7 | LSR_RX_READY => Z.shiftl 1 0 | LSR_TX_IDLE => Z.shiftl 1 5
  end.

(** [Reg] *)
Definition Reg (off : Z) : Z := Riscv.UART0 + off.

(** [uartinit]: the registers written, in order. *)
Definition uartinit : list (Z * Z) := [
  (Reg (reg_off IER), 0x00); (Reg (reg_off LCR), bits LCR_BAUD_LATCH); (Reg 0, 0x03); (Reg 1, 0x00); (Reg (reg_off LCR), bits LCR_EIGHT_BITS);
  (Reg (reg_off FCR), Z.lor (bits FCR_FIFO_ENABLE) (bits FCR_FIFO_CLEAR)); (Reg (reg_off IER), Z.lor (bits IER_TX_ENABLE) (bits IER_RX_ENABLE))].

(** [uartputc_sync]: what is written, and the answers of the status register that are
    left; [None]: it spins, because the kernel has panicked or the device is busy. *)
Fixpoint wait_idle (lsr : list Z) : option (list Z) :=
  match lsr with
  | [] => None
  | x :: l => if Z.land x (bits LSR_TX_IDLE) =? 0 then wait_idle l else Some l
  end.
Definition uartputc_sync (panicked : bool) (c : Z) (lsr : list Z) : option (list (Z * Z) * list Z) :=
  if panicked then None else match wait_idle lsr with Some l => Some ([(Reg (reg_off THR), u8 c)], l) | None => None end.

(** [consputc], through it. *)
Definition consputc_sync (panicked : bool) (c : Z) (lsr : list Z) : option (list (Z * Z) * list Z) :=
  if c =? BACKSPACE then
    match uartputc_sync panicked 8 lsr with
    | Some (w1, l1) =>
        match uartputc_sync panicked 32 l1 with
        | Some (w2, l2) => match uartputc_sync panicked 8 l2 with Some (w3, l3) => Some (w1 ++ w2 ++ w3, l3) | None => None end
        | None => None
        end
    | None => None
    end
  else uartputc_sync panicked c lsr.

(** [uartgetc], for the answers of the two registers. *)
Definition uartgetc (lsr rhr : Z) : Z := if Z.land lsr 1 =? 0 then -1 else rhr.

(** ** The interrupt handler *)

Record tty := mk_tty { cn : cons; ut : Uart.uart }.

(** The loop over the received characters; [rx] are the answers of the status and
    receive registers, one pair for each turn, and no character waits after them.  The
    echo, and whether a reader is woken. *)
Fixpoint uartintr_loop (rx : list (Z * Z)) (s : cons) : cons * list Z * bool :=
  match rx with
  | [] => (s, [], false)
  | (lsr, rhr) :: rx' =>
      let c := uartgetc lsr rhr in
      if c =? -1 then (s, [], false)
      else
        let '(s1, out1, wk1) := consoleintr c s in
        let '(s2, out2, wk2) := uartintr_loop rx' s1 in
        (s2, out1 ++ out2, wk1 || wk2)
  end.

Definition uartintr (rx : list (Z * Z)) (idle : list bool) (s : tty) : tty * list Z * bool * list Z :=
  let '(c, echo, wk) := uartintr_loop rx (cn s) in
  let '(u, sent) := Uart.uartstart idle (ut s) in
  (mk_tty c u, echo, wk, sent).

(** ** consolewrite *)

(** It returns, or sleeps in uartputc before byte [i]. *)
Inductive wstat := WReturned (i : Z) | WAsleep (i : Z).

(** The loop from byte [i] on: [inp i] is the byte that either_copyin fetches, [None]
    when it fails; [idle] has the answers of the status register for each uartputc. *)
Fixpoint consolewrite_loop (fuel : nat) (inp : Z → option Z) (n i : Z) (idle : Z → list bool) (s : Uart.uart) : Uart.uart * list Z * wstat :=
  match fuel with
  | O => (s, [], WReturned i)
  | S fuel' =>
      if i <? n then
        match inp i with
        | None => (s, [], WReturned i)
        | Some c =>
            match Uart.uartputc c (idle i) s with
            | None => (s, [], WAsleep i)
            | Some (s1, l1) => let '(s2, l2, st) := consolewrite_loop fuel' inp n (i + 1) idle s1 in (s2, l1 ++ l2, st)
            end
        end
      else (s, [], WReturned i)
  end.
Definition consolewrite (inp : Z → option Z) (n i : Z) (idle : Z → list bool) (s : Uart.uart) : Uart.uart * list Z * wstat :=
  consolewrite_loop (Z.to_nat (n - i)) inp n i idle s.

(** [consoleinit]: the device is set up, and the table of devices gets the entry. *)
Notation CONSOLE := 1.
Definition consoleinit (devsw : Z → bool) : list (Z * Z) * (Z → bool) := (uartinit, <[CONSOLE := true]> devsw).

(** ** What a terminal does *)

(** The characters the interrupt finds. *)
Fixpoint typed (rx : list (Z * Z)) : list Z :=
  match rx with
  | [] => []
  | (lsr, rhr) :: rx' => let c := uartgetc lsr rhr in if c =? -1 then [] else c :: typed rx'
  end.

Fixpoint keys (cs : list Z) (t : term) : term * list Z * bool :=
  match cs with
  | [] => (t, [], false)
  | c :: cs' => let '(t1, o1, w1) := key c t in let '(t2, o2, w2) := keys cs' t1 in (t2, o1 ++ o2, w1 || w2)
  end.

(** Bytes into a queue of 32, from byte [i] of a write on. *)
Fixpoint put (bs : list Z) (i : Z) (idle : Z → list bool) (q : list Z) : list Z * list Z * wstat :=
  match bs with
  | [] => (q, [], WReturned i)
  | c :: bs' =>
      if bool_decide (Z.of_nat (length q) = Uart.UART_TX_BUF_SIZE) then (q, [], WAsleep i)
      else
        let '(q1, l1) := Uart.send (idle i) (q ++ [c]) in
        let '(q2, l2, st) := put bs' (i + 1) idle q1 in (q2, l1 ++ l2, st)
  end.

Inductive tevent :=
  | TIntr (rx : list (Z * Z)) (idle : list bool)
  | TWrite (data : list Z) (n i : Z) (idle : Z → list bool)
  | TRead (killed : bool) (target n : Z).
Definition tevent_ok (ev : tevent) : Prop :=
  match ev with
  | TIntr rx _ => Forall (λ x, 0 ≤ x.2 < 256) rx
  | TWrite _ n i _ => 0 ≤ i ≤ n
  | TRead _ target n => 0 ≤ n ≤ target
  end.
Inductive tseen := OIntr (echo : list Z) (wakes : bool) (sent : list Z) | OWrite (sent : list Z) (st : wstat) | ORead (l : list Z) (st : rstat).

Definition tty_step (ev : tevent) (s : tty) : tty * tseen :=
  match ev with
  | TIntr rx idle => let '(s', echo, wk, sent) := uartintr rx idle s in (s', OIntr echo wk sent)
  | TWrite data n i idle => let '(u, sent, st) := consolewrite (λ j, data !! Z.to_nat j) n i idle (ut s) in (mk_tty (cn s) u, OWrite sent st)
  | TRead k target n => let '(c, l, st) := consoleread (λ _, true) k target n (cn s) in (mk_tty c (ut s), ORead l st)
  end.

(** The screen: the lines and the edit, and the characters that wait to be sent. *)
Record screen := mk_screen { tm : term; oq : list Z }.
Definition screen_step (ev : tevent) (s : screen) : screen * tseen :=
  match ev with
  | TIntr rx idle => let '(t, echo, wk) := keys (typed rx) (tm s) in let '(q, sent) := Uart.send idle (oq s) in (mk_screen t q, OIntr echo wk sent)
  | TWrite data n i idle => let '(q, sent, st) := put (drop (Z.to_nat i) (take (Z.to_nat n) data)) i idle (oq s) in (mk_screen (tm s) q, OWrite sent st)
  | TRead k target n => let '(l, ls, st) := read_line k target (Z.to_nat n) (lines (tm s)) in (mk_screen (mk_term ls (edit (tm s))) (oq s), ORead l st)
  end.
Fixpoint truns {T} (step : tevent → T → T * tseen) (evs : list tevent) (s : T) : T * list tseen :=
  match evs with
  | [] => (s, [])
  | ev :: evs' => let '(s', o) := step ev s in let '(s'', os) := truns step evs' s' in (s'', o :: os)
  end.

(** The bytes a step accepted from a write, and those it sent for writes. *)
Definition sent_by (o : tseen) : list Z := match o with OIntr _ _ l | OWrite l _ => l | ORead _ _ => [] end.
Definition accepted_by (ev : tevent) (o : tseen) : list Z :=
  match ev, o with
  | TWrite data _ i _, OWrite _ (WReturned j | WAsleep j) => take (Z.to_nat (j - i)) (drop (Z.to_nat i) data)
  | _, _ => []
  end.
Definition sent (os : list tseen) : list Z := concat (map sent_by os).
Definition accepted (evs : list tevent) (os : list tseen) : list Z := concat (zip_with accepted_by evs os).

Definition tty_init : tty := mk_tty cons_init Uart.uart_init.

(** ** Refinement *)

Record shows (s : tty) (v : screen) : Prop := {
  sh_ring : ring (cn s) (tm v); sh_nl : no_newline (tm v); sh_holds : Uart.holds (ut s) (oq v) }.

Lemma uartintr_loop_ok rx : Forall (λ x, 0 ≤ x.2 < 256) rx → ∀ s t, ring s t → no_newline t →
  ∃ s', uartintr_loop rx s = (s', (keys (typed rx) t).1.2, (keys (typed rx) t).2) ∧ ring s' (keys (typed rx) t).1.1 ∧ no_newline (keys (typed rx) t).1.1.
Proof.
  induction 1 as [|[lsr rhr] rx Hc _ IH]; intros s t Hs Hn; [by exists s|]. cbn [uartintr_loop typed]. cbv zeta.
  destruct (uartgetc lsr rhr =? -1) eqn:E; [by exists s|]. assert (0 ≤ uartgetc lsr rhr < 256) as Hk.
  { unfold uartgetc in *. destruct (Z.land lsr 1 =? 0); [done|exact Hc]. }
  destruct (step_refines (Key (uartgetc lsr rhr)) s t Hk Hs Hn) as (Eo & Hs' & Hn'). cbn [cons_step term_step keys] in *.
  destruct (consoleintr _ s) as [[s1 o1] w1], (key _ t) as [[t1 o1'] w1']. simpl in Eo, Hs', Hn'. injection Eo as <- <-.
  destruct (IH s1 t1 Hs' Hn') as (s2 & E2 & Hs2 & Hn2). rewrite E2. destruct (keys (typed rx) t1) as [[t2 o2] w2]. by exists s2.
Qed.

Lemma consolewrite_loop_ok k : ∀ data n i idle u q, 0 ≤ i → n - i = Z.of_nat k → Uart.holds u q →
  let '(q', l, st) := put (drop (Z.to_nat i) (take (Z.to_nat n) data)) i idle q in
  ∃ u', consolewrite_loop k (λ j, data !! Z.to_nat j) n i idle u = (u', l, st) ∧ Uart.holds u' q'.
Proof.
  induction k as [|k IH]; intros data n i idle u q Hi Hk Hu; cbn [consolewrite_loop].
  { rewrite drop_ge by (rewrite length_take; lia). by exists u. }
  rewrite (proj2 (Z.ltb_lt i n)) by lia. destruct (data !! Z.to_nat i) as [c|] eqn:Ec.
  - assert (Hlt : (Z.to_nat i < Z.to_nat n)%nat) by lia.
    rewrite (drop_S _ c (Z.to_nat i)) by (rewrite lookup_take_lt by done; done). cbn [put].
    destruct (Uart.uart_step_ok (Uart.Put c (idle i)) u q Hu) as [Eo Hu']. cbn [Uart.uart_step Uart.queue_step] in *.
    case_bool_decide as Eq.
    + destruct (Uart.uartputc c (idle i) u) as [[u1 l1]|]; [done|]. by exists u.
    + destruct (Uart.send (idle i) (q ++ [c])) as [q1 l1]. destruct (Uart.uartputc c (idle i) u) as [[u1 l1']|]; [|done]. simpl in Eo, Hu'. injection Eo as ->.
      pose proof (IH data n (i + 1) idle u1 q1 ltac:(lia) ltac:(lia) Hu') as H1. replace (Z.to_nat (i + 1)) with (S (Z.to_nat i)) in H1 by lia.
      destruct (put _ (i + 1) idle q1) as [[q2 l2] st]. destruct H1 as (u2 & -> & Hu2). by exists u2.
  - apply lookup_ge_None in Ec. rewrite drop_ge by (rewrite length_take; lia). by exists u.
Qed.

Lemma tty_step_ok ev s v : tevent_ok ev → shows s v → (tty_step ev s).2 = (screen_step ev v).2 ∧ shows (tty_step ev s).1 (screen_step ev v).1.
Proof.
  intros Hev [Hr Hn Hq]. destruct s as [c u], v as [t q], ev as [rx idle|data n i idle|k target n]; cbn [tty_step screen_step cn ut tm oq] in *.
  - unfold uartintr. cbn [cn ut]. destruct (uartintr_loop_ok rx Hev c t Hr Hn) as (c' & -> & Hr' & Hn').
    destruct (Uart.uart_step_ok (Uart.Intr idle) u q Hq) as [E Hq']. cbn [Uart.uart_step Uart.queue_step] in *.
    destruct (Uart.uartstart idle u) as [u' l], (Uart.send idle q) as [q' l'], (keys (typed rx) t) as [[t' o] w]. simpl in *. injection E as <-. by split.
  - unfold consolewrite. simpl in Hev. pose proof (consolewrite_loop_ok (Z.to_nat (n - i)) data n i idle u q ltac:(lia) ltac:(lia) Hq) as Hw.
    destruct (put _ i idle q) as [[q' l] st]. destruct Hw as (u' & -> & Hu'). by split.
  - destruct (step_refines (Read k target n) c t Hev Hr Hn) as (E & Hr' & Hn'). cbn [cons_step term_step] in *.
    destruct (consoleread _ k target n c) as [[c' l] st], (read_line _ _ _ _) as [[l' ls] st']. simpl in *. injection E as <- <-. by split.
Qed.

Lemma send_keeps idle q : (Uart.send idle q).2 ++ (Uart.send idle q).1 = q ∧ (length (Uart.send idle q).1 ≤ length q)%nat.
Proof.
  revert q. induction idle as [|[] idle IH]; intros [|c q]; try done. cbn [Uart.send]. destruct (IH q) as [E Hl]. destruct (Uart.send idle q) as [q' l]. simpl in *. rewrite E. split; [done|lia].
Qed.

Lemma put_keeps bs : ∀ i idle q, Z.of_nat (length q) ≤ Uart.UART_TX_BUF_SIZE → let '(q', l, st) := put bs i idle q in
  Z.of_nat (length q') ≤ Uart.UART_TX_BUF_SIZE ∧ ∃ j, (st = WReturned j ∨ st = WAsleep j) ∧ i ≤ j ≤ i + Z.of_nat (length bs) ∧ l ++ q' = q ++ take (Z.to_nat (j - i)) bs.
Proof.
  induction bs as [|c bs IH]; intros i idle q Hq; cbn [put].
  - split; [done|]. exists i. rewrite Z.sub_diag, take_nil, app_nil_r. split_and!; auto; simpl; lia.
  - case_bool_decide as E.
    + split; [done|]. exists i. rewrite Z.sub_diag, take_0, app_nil_r. split_and!; auto; lia.
    + destruct (send_keeps (idle i) (q ++ [c])) as [Es Hl]. destruct (Uart.send (idle i) (q ++ [c])) as [q1 l1]. rewrite length_app in Hl. simpl in Es, Hl.
      specialize (IH (i + 1) idle q1 ltac:(lia)). destruct (put bs (i + 1) idle q1) as [[q2 l2] st]. destruct IH as (Hq2 & j & Hst & Hj & El).
      split; [done|]. exists j. split_and!; [done|lia|simpl; lia|]. rewrite <- app_assoc, El, app_assoc, Es. replace (Z.to_nat (j - i)) with (S (Z.to_nat (j - (i + 1)))) by lia.
      cbn [take]. by rewrite <- app_assoc.
Qed.

Lemma step_keeps ev v : tevent_ok ev → Z.of_nat (length (oq v)) ≤ Uart.UART_TX_BUF_SIZE →
  sent_by (screen_step ev v).2 ++ oq (screen_step ev v).1 = oq v ++ accepted_by ev (screen_step ev v).2 ∧
  Z.of_nat (length (oq (screen_step ev v).1)) ≤ Uart.UART_TX_BUF_SIZE.
Proof.
  intros Hev Hq. destruct v as [t q], ev as [rx idle|data n i idle|k target n]; cbn [screen_step tm oq] in *.
  - destruct (send_keeps idle q) as [E Hl]. destruct (keys (typed rx) t) as [[t' o] w], (Uart.send idle q) as [q' l]. simpl in *. rewrite app_nil_r. split; [done|lia].
  - pose proof (put_keeps (drop (Z.to_nat i) (take (Z.to_nat n) data)) i idle q Hq) as Hp. destruct (put _ i idle q) as [[q' l] st]. destruct Hp as (Hq' & j & Hst & Hj & El).
    simpl. split; [|done]. rewrite El. f_equal. rewrite length_drop, length_take in Hj. simpl in Hev.
    assert (Et : take (Z.to_nat (j - i)) (drop (Z.to_nat i) (take (Z.to_nat n) data)) = take (Z.to_nat (j - i)) (drop (Z.to_nat i) data)).
    { rewrite !take_drop_commute, take_take. do 2 f_equal. lia. }
    rewrite Et. by destruct Hst as [-> | ->].
  - destruct (read_line _ _ _ _) as [[l ls] st]. simpl. by rewrite app_nil_r.
Qed.

Lemma runs_keep evs v : Forall tevent_ok evs → Z.of_nat (length (oq v)) ≤ Uart.UART_TX_BUF_SIZE → let '(v', os) := truns screen_step evs v in
  sent os ++ oq v' = oq v ++ accepted evs os ∧ Z.of_nat (length (oq v')) ≤ Uart.UART_TX_BUF_SIZE.
Proof.
  intros Hevs. revert v. induction Hevs as [|ev evs Hev _ IH]; intros v Hq; cbn [truns]; [unfold sent, accepted; simpl; by rewrite app_nil_r|].
  destruct (step_keeps ev v Hev Hq) as [E Hq']. destruct (screen_step ev v) as [v1 o]. simpl in E, Hq'. specialize (IH v1 Hq').
  destruct (truns screen_step evs v1) as [v2 os]. destruct IH as [E2 Hq2]. split; [|done]. unfold sent, accepted in *. simpl. rewrite <- app_assoc, E2, app_assoc, E. by rewrite <- app_assoc.
Qed.

Lemma runs_show evs : Forall tevent_ok evs → ∀ s v, shows s v → let '(s', os) := truns tty_step evs s in let '(v', os') := truns screen_step evs v in
  os = os' ∧ shows s' v'.
Proof.
  induction 1 as [|ev evs Hev _ IH]; intros s v Hs; cbn [truns]; [done|]. destruct (tty_step_ok ev s v Hev Hs) as [E Hs'].
  destruct (tty_step ev s) as [s1 o], (screen_step ev v) as [v1 o']. simpl in E, Hs'. subst o'. specialize (IH s1 v1 Hs').
  destruct (truns tty_step evs s1) as [s2 os], (truns screen_step evs v1) as [v2 os']. destruct IH as [-> Hs2]. done.
Qed.

(** [C22] The terminal driver, from boot on, over any sequence of interrupts (with any
    received characters), writes and reads by processes, and for as long as the
    indices take to wrap around.  Echo, wakeups and reads are those of a terminal with
    finished lines and one line in editing: backspace takes back one character,
    control-U the line; a newline, an end of file or a full buffer finishes it; reads
    get lines only.  The bytes that consolewrite accepted are sent once each, in their
    order, except for the at most 32 that still wait; a write sleeps exactly when 32
    wait. *)
Theorem tty_refines evs : Forall tevent_ok evs → let '(s, os) := truns tty_step evs tty_init in let '(v, os') := truns screen_step evs (mk_screen (mk_term [] []) []) in
  os = os' ∧ accepted evs os = sent os ++ oq v ∧ Z.of_nat (length (oq v)) ≤ Uart.UART_TX_BUF_SIZE.
Proof.
  intros Hevs. assert (Hs : shows tty_init (mk_screen (mk_term [] []) [])) by (split; [by split|constructor|by split]).
  pose proof (runs_show evs Hevs _ _ Hs) as H1. pose proof (runs_keep evs (mk_screen (mk_term [] []) []) Hevs ltac:(done)) as H2.
  destruct (truns tty_step evs tty_init) as [s os], (truns screen_step evs _) as [v os']. destruct H1 as [-> _], H2 as [E Hl]. split_and!; [done|by rewrite E|done].
Qed.
(** The user types "lx", backspace, "s", return; a process reads the line and writes
    "ok", of which one byte goes out at once, the other with the next interrupt. *)
Definition demo_session : list tevent :=
  [TIntr [(0x21, 108); (0x21, 120); (0x20, 0)] []; TIntr [(0x21, 127); (0x21, 115); (0x21, 13)] [true]; TRead false 10 10;
   TWrite [111; 107] 2 0 (λ i, if i =? 0 then [true] else []); TIntr [] [true; true]].
Lemma tty_refines_witness : (truns tty_step demo_session tty_init).2 =
  [OIntr [108; 120] false []; OIntr (rubout ++ [115; 10]) true []; ORead [108; 115; 10] (Returned 3); OWrite [111] (WReturned 2); OIntr [] false [107]].
Proof.
  assert (Hok : Forall tevent_ok demo_session) by (repeat constructor; discriminate).
  pose proof (tty_refines demo_session Hok) as H. revert H. destruct (truns tty_step demo_session tty_init) as [s os] eqn:E1.
  destruct (truns screen_step demo_session _) as [v os'] eqn:E2. intros (-> & _). assert (E3 : (v, os').2 = (truns screen_step demo_session (mk_screen (mk_term [] []) [])).2) by (by rewrite E2).
  exact E3.
Defined.

(** ** Characters outside the interrupt *)

Lemma wait_idle_some lsr : (∃ l, wait_idle lsr = Some l) ↔ Exists (λ x, Z.land x (bits LSR_TX_IDLE) ≠ 0) lsr.
Proof.
  induction lsr as [|x lsr IH]; cbn [wait_idle]; [split; [by intros []|by intros ?%Exists_nil]|]. rewrite Exists_cons, <- IH.
  destruct (Z.eqb_spec (Z.land x (bits LSR_TX_IDLE)) 0); [naive_solver|split; [naive_solver|by eexists]].
Qed.

(** The polled output writes what the echo says, once the device says it is idle as
    often as needed; after a panic it writes nothing. *)
Lemma consputc_sync_sends p c lsr w l : 0 ≤ c ≤ BACKSPACE → consputc_sync p c lsr = Some (w, l) → p = false ∧ w = map (λ x, (Reg (reg_off THR), x)) (consputc c).
Proof.
  unfold consputc_sync, consputc, uartputc_sync. intros Hc. destruct p; [by destruct (c =? BACKSPACE)|]. destruct (Z.eqb_spec c BACKSPACE).
  - destruct (wait_idle lsr) as [l1|]; [|done]. destruct (wait_idle l1) as [l2|]; [|done]. destruct (wait_idle l2); [|done]. by intros [= <- <-].
  - destruct (wait_idle lsr); [|done]. intros [= <- <-]. simpl. unfold u8. rewrite Z.mod_small; [done|]. unfold BACKSPACE in *. lia.
Qed.

End Tty.
