(* ===== verification/Mkfs.v ===== *)
(** * mkfs/mkfs.c: building the first file system

    The image file as blocks of [BSIZE] bytes and its length, [freeinode] and
    [freeblock].  The disk format (superblock, dinode, bitmap) is that of Fs.v: [xshort]
    and [xint] store a number least significant byte first, as [put16] and [put32] do.
    [die] and a failed [assert] are [Panic].  The files to install are given with what
    [open] and the calls of [read] return; whether the calls on the image file succeed
    is up to the class [Host], and a failure ends mkfs. *)

From S2P Require Import Prelude Bytes Spinlock Riscv ListH Sleeplock Bio Log LogCrash LogTx Journal CString Fs FsBlock FsInode FsFile FsWrite FsDir.

Module Mkfs.
Import Riscv Bytes Fs FsBlock FsInode FsFile FsDir.

Definition NINODES : Z := 200.
Definition nbitmap : Z := FSSIZE / BPB + 1.
Definition ninodeblocks : Z := NINODES / IPB + 1.
Definition nlog_ : Z := LOGSIZE.
Definition nmeta : Z := 2 + nlog_ + ninodeblocks + nbitmap.
Definition nblocks_ : Z := FSSIZE - nmeta.

(** The global [sb], once main has set it. *)
Definition sb_ : superblock :=
  mk_sb FSMAGIC FSSIZE nblocks_ NINODES nlog_ 2 (2 + nlog_) (2 + nlog_ + ninodeblocks).

Record mkst := mk_mkst { img : Z → bytes; imglen : Z; freeinode : Z; freeblock : Z }.
Definition set_img (x : Z → bytes) (m : mkst) : mkst := mk_mkst x (imglen m) (freeinode m) (freeblock m).

Definition die {A} (s : string) : M mkst A := panic s.
Definition assert_ (b : bool) : M mkst unit := if b then mret tt else panic "assert".

(** The block at the file offset [sec * BSIZE], a [uint]. *)
Definition seek (sec : Z) : Z := u32 (sec * BSIZE) / BSIZE.

(** What the host's [lseek] returns for an offset, and its [write] and [read] of [BSIZE]
    bytes at an offset of the image. *)
Class Host := mk_host { lseek : Z → Z; write : Z → Z; read : Z → Z }.
(** The calls succeed. *)
Definition host_works `{Host} : Prop := ∀ off, lseek off = off ∧ write off = BSIZE ∧ read off = BSIZE.

Notation len c := (Z.of_nat (length c)).

Section mkfs.
Context `{host : Host}.

Definition wsect (sec : Z) (buf : bytes) : M mkst unit :=
  let off := u32 (sec * BSIZE) in
  if negb (lseek off =? off) then die "lseek"
  else if negb (write off =? BSIZE) then die "write"
  else modify (λ m, mk_mkst (<[seek sec := buf]> (img m)) (Z.max (imglen m) (seek sec + 1)) (freeinode m) (freeblock m)).

(** Past the end of the image, [read] does not return [BSIZE] bytes either. *)
Definition rsect (sec : Z) : M mkst bytes :=
  let off := u32 (sec * BSIZE) in
  if negb (lseek off =? off) then die "lseek"
  else
    m ← gets id;
    if (seek sec <? imglen m) && (read off =? BSIZE) then mret (img m (seek sec)) else die "read".

Definition winode (inum : Z) (ip : dinode) : M mkst unit :=
  let bn := IBLOCK inum sb_ in
  buf ← rsect bn;
  wsect bn (put_dinode inum ip buf).

Definition rinode (inum : Z) : M mkst dinode :=
  buf ← rsect (IBLOCK inum sb_);
  mret (get_dinode inum buf).

Definition ialloc (type : Z) : M mkst Z :=
  inum ← gets freeinode;
  modify (λ m, mk_mkst (img m) (imglen m) (u32 (freeinode m + 1)) (freeblock m));;
  winode inum (mk_dinode type 0 0 1 0 (replicate (Z.to_nat (NDIRECT + 1)) 0));;
  mret inum.

(** [freeblock++] *)
Definition next_block : M mkst Z :=
  b ← gets freeblock;
  modify (λ m, mk_mkst (img m) (imglen m) (freeinode m) (u32 (freeblock m + 1)));;
  mret b.

Definition addr (din : dinode) (i : Z) : Z := default 0 (d_addrs din !! Z.to_nat i).
Definition with_addr (i a : Z) (din : dinode) : dinode :=
  mk_dinode (d_type din) (d_major din) (d_minor din) (d_nlink din) (d_size din) (<[Z.to_nat i := a]> (d_addrs din)).
Definition with_size (n : Z) (din : dinode) : dinode :=
  mk_dinode (d_type din) (d_major din) (d_minor din) (d_nlink din) n (d_addrs din).

(** [if(din.addrs[i] == 0) din.addrs[i] = freeblock++;] *)
Definition ensure_addr (i : Z) (din : dinode) : M mkst dinode :=
  if addr din i =? 0 then b ← next_block; mret (with_addr i b din) else mret din.

(** The block [x] that holds the file's block [fbn]. *)
Definition file_block (fbn : Z) (din : dinode) : M mkst (Z * dinode) :=
  if fbn <? NDIRECT then
    din ← ensure_addr fbn din;
    mret (addr din fbn, din)
  else
    din ← ensure_addr NDIRECT din;
    indirect ← rsect (addr din NDIRECT);
    if ind_get indirect (fbn - NDIRECT) =? 0 then
      b ← next_block;
      let indirect := ind_put (fbn - NDIRECT) b indirect in
      wsect (addr din NDIRECT) indirect;;
      mret (ind_get indirect (fbn - NDIRECT), din)
    else mret (ind_get indirect (fbn - NDIRECT), din).

(** The loop of [iappend]: [n] is the length of [p]. *)
Fixpoint iappend_loop (fuel : nat) (din : dinode) (off : Z) (p : bytes) : M mkst (dinode * Z) :=
  match fuel with
  | O => Prelude.block
  | S fuel' =>
      let n := Z.of_nat (length p) in
      if n <=? 0 then mret (din, off)
      else
        let fbn := off / BSIZE in
        assert_ (fbn <? MAXFILE);;
        r ← file_block fbn din;
        let '(x, din) := r : Z * dinode in
        let n1 := Z.min n ((fbn + 1) * BSIZE - off) in
        buf ← rsect x;
        wsect x (put_bytes (off - fbn * BSIZE) (take (Z.to_nat n1) p) buf);;
        iappend_loop fuel' din (off + n1) (drop (Z.to_nat n1) p)
  end.

Definition iappend (inum : Z) (p : bytes) : M mkst unit :=
  din ← rinode inum;
  r ← iappend_loop (S (length p)) din (d_size din) p;
  winode inum (with_size r.2 r.1).

Definition balloc (used : Z) : M mkst unit :=
  assert_ (used <? BPB);;
  wsect (bmapstart sb_) (foldl (λ buf i, bit_mark i buf) zero_block (seqZ 0 used)).

(** ** main *)

Definition SLASH : Z := 47.
Definition UNDERSCORE : Z := 95.
Definition user_dir : bytes := [117; 115; 101; 114; 47].

(** The name in the image: without [user/], without a leading underscore. *)
Definition shortname1 (argv : bytes) : bytes := if bool_decide (take 5 argv = user_dir) then drop 5 argv else argv.
Definition shortname2 (name : bytes) : bytes := match name with c :: l => if c =? UNDERSCORE then l else name | [] => [] end.
Definition shortname (argv : bytes) : bytes := shortname2 (shortname1 argv).

Fixpoint append_all (inum : Z) (reads : list bytes) : M mkst unit :=
  match reads with
  | [] => mret tt
  | buf :: l => iappend inum buf;; append_all inum l
  end.

(** One file: its name on the command line and, if [open] succeeds, what [read] returns. *)
Definition add_file (rootino : Z) (f : bytes * option (list bytes)) : M mkst unit :=
  let name := shortname1 f.1 in
  assert_ (negb (bool_decide (SLASH ∈ name)));;
  match f.2 with
  | None => die "open"
  | Some reads =>
      let name := shortname2 name in
      assert_ (Z.of_nat (length name) <=? DIRSIZ);;
      inum ← ialloc T_FILE;
      iappend rootino (mk_dirent inum name);;
      append_all inum reads
  end.
Fixpoint add_files (rootino : Z) (fs : list (bytes * option (list bytes))) : M mkst unit :=
  match fs with
  | [] => mret tt
  | f :: l => add_file rootino f;; add_files rootino l
  end.

Definition sb_block : bytes :=
  put32 28 (bmapstart sb_) (put32 24 (inodestart sb_) (put32 20 (logstart sb_) (put32 16 (nlog sb_)
    (put32 12 (ninodes sb_) (put32 8 (nblocks sb_) (put32 4 (sb_size sb_) (put32 0 (magic sb_) zero_block))))))).

Definition dot : bytes := [46].
Definition dotdot : bytes := [46; 46].

(** The size of the root directory, rounded to blocks. *)
Definition fix_root (rootino : Z) : M mkst unit :=
  din ← rinode rootino;
  let off := d_size din in
  let off := u32 ((off / BSIZE + 1) * BSIZE) in
  winode rootino (with_size off din).

(** [image]: the first argument, if there is one, and whether it can be opened. *)
Definition main (image : option bool) (fs : list (bytes * option (list bytes))) : M mkst unit :=
  match image with
  | None => panic "usage"
  | Some ok => if ok then mret tt else die "image"
  end;;
  modify (λ m, mk_mkst (img m) 0 1 nmeta);;
  for_range 0 (Z.to_nat FSSIZE) (λ i, wsect i zero_block);;
  wsect 1 sb_block;;
  rootino ← ialloc T_DIR;
  assert_ (rootino =? ROOTINO);;
  iappend rootino (mk_dirent rootino dot);;
  iappend rootino (mk_dirent rootino dotdot);;
  add_files rootino fs;;
  fix_root rootino;;
  used ← gets freeblock;
  balloc used.

(** ** What a file system under construction looks like *)

(** The blocks of [n] bytes, and with the indirect block. *)
Definition nb (n : Z) : Z := (n + BSIZE - 1) / BSIZE.
Definition need (k : Z) : Z := if NDIRECT <? k then k + 1 else k.

Definition nthb (d : dinode) (cur : Z → bytes) (bn : Z) : Z :=
  if bn <? NDIRECT then addr d bn
  else if addr d NDIRECT =? 0 then 0
  else ind_get (cur (addr d NDIRECT)) (bn - NDIRECT).
(** Block [k] of a file of [n] blocks; [MAXFILE] stands for the indirect block. *)
Definition blk (d : dinode) (cur : Z → bytes) (k : Z) : Z := if k =? MAXFILE then addr d NDIRECT else nthb d cur k.
Definition has (n k : Z) : bool := if k =? MAXFILE then NDIRECT <? n else k <? n.
Definition dbyte (d : dinode) (cur : Z → bytes) (k : Z) : Z := default 0 (cur (nthb d cur (k / BSIZE)) !! Z.to_nat (k mod BSIZE)).
Definition byte_at (c : bytes) (k : Z) : Z := default 0 (c !! Z.to_nat k).
Definition block_ok (d : bytes) : Prop := len d = BSIZE ∧ is_bytes d.
Definition total (N : Z) (n : Z → Z) : Z := foldr (λ i a, need (n i) + a) 0 (seqZ 1 (N - 1)).

(** The inodes [T], of [n] blocks and the contents [C], for the numbers below [N]. *)
Record inv (N : Z) (T : Z → dinode) (n : Z → Z) (C : Z → bytes) (m : mkst) : Prop := {
  iv_len : imglen m = FSSIZE;
  iv_free : nmeta ≤ freeblock m ≤ FSSIZE;
  iv_total : freeblock m = nmeta + total N n;
  iv_addrs : ∀ i, 1 ≤ i < N → length (d_addrs (T i)) = Z.to_nat (NDIRECT + 1);
  iv_n : ∀ i, 1 ≤ i < N → 0 ≤ n i ≤ MAXFILE ∧ len (C i) ≤ n i * BSIZE;
  iv_in : ∀ i k, 1 ≤ i < N → 0 ≤ k ≤ MAXFILE → has (n i) k = true → nmeta ≤ blk (T i) (img m) k < freeblock m;
  iv_out : ∀ i k, 1 ≤ i < N → 0 ≤ k ≤ MAXFILE → has (n i) k = false → blk (T i) (img m) k = 0;
  iv_inj : ∀ i k j l, 1 ≤ i < N → 1 ≤ j < N → 0 ≤ k ≤ MAXFILE → 0 ≤ l ≤ MAXFILE → has (n i) k = true → has (n j) l = true →
    blk (T i) (img m) k = blk (T j) (img m) l → i = j ∧ k = l;
  iv_ok : ∀ b, 0 ≤ b < FSSIZE → block_ok (img m b);
  iv_zero : ∀ b, freeblock m ≤ b < FSSIZE → img m b = zero_block;
  iv_data : ∀ i k, 1 ≤ i < N → 0 ≤ k < n i * BSIZE → dbyte (T i) (img m) k = byte_at (C i) k }.

(** ** Lemmas *)

Lemma nmeta_eq : nmeta = 46.
Proof. done. Qed.

Ltac mk_lia := pose proof nmeta_eq; unfold FSSIZE, NINODES in *; fs_lia.

Lemma seek_small b : 0 ≤ b < FSSIZE → seek b = b.
Proof. intros Hb. unfold seek. rewrite u32_small by mk_lia. mk_lia. Qed.

Context (Hhost : host_works).

Lemma wp_wsect_any b buf m (Q : unit → mkst → Prop) :
  Q tt (mk_mkst (<[seek b := buf]> (img m)) (Z.max (imglen m) (seek b + 1)) (freeinode m) (freeblock m)) → wp (wsect b buf) Q m.
Proof. destruct (Hhost (u32 (b * BSIZE))) as (E1 & E2 & _). unfold wsect. rewrite E1, E2, !Z.eqb_refl. intros HQ. by apply wp_modify. Qed.

Lemma wp_wsect b buf m (Q : unit → mkst → Prop) : 0 ≤ b < FSSIZE → imglen m = FSSIZE →
  Q tt (set_img (<[b := buf]> (img m)) m) → wp (wsect b buf) Q m.
Proof.
  intros Hb Hl HQ. apply wp_wsect_any. rewrite seek_small by done. destruct m as [x l a f]. simpl in *. rewrite Z.max_l by lia. exact HQ.
Qed.

Lemma wp_rsect b m (Q : bytes → mkst → Prop) : 0 ≤ b < FSSIZE → imglen m = FSSIZE → Q (img m b) m → wp (rsect b) Q m.
Proof.
  intros Hb Hl HQ. destruct (Hhost (u32 (b * BSIZE))) as (E1 & _ & E3). unfold rsect. rewrite E1, E3, !Z.eqb_refl. cbn [negb].
  apply wp_bind, wp_gets. unfold id. rewrite seek_small, Hl, andb_true_r by done.
  rewrite (proj2 (Z.ltb_lt b FSSIZE)) by lia. by apply wp_ret.
Qed.

Lemma wp_assert b m (Q : unit → mkst → Prop) : b = true → Q tt m → wp (assert_ b) Q m.
Proof. intros -> HQ. by apply wp_ret. Qed.

Lemma need_mono a b : a ≤ b → need a ≤ need b.
Proof. intros Hab. unfold need. repeat case_match; bsimpl; lia. Qed.

Lemma nb_bounds n : 0 ≤ n → 0 ≤ nb n ∧ n ≤ nb n * BSIZE < n + BSIZE.
Proof. intros Hn. unfold nb. mk_lia. Qed.

Lemma nb_mono a b : a ≤ b → nb a ≤ nb b.
Proof. intros Hab. unfold nb. mk_lia. Qed.

Lemma has_range n k : 0 ≤ n ≤ MAXFILE → has n k = true → k ≤ MAXFILE.
Proof. unfold has. case_match; bsimpl; intros; bsimpl; lia. Qed.

Lemma total_ext N n n' : (∀ i, 1 ≤ i < N → n i = n' i) → total N n = total N n'.
Proof.
  intros Hn. unfold total. assert (H : ∀ i, i ∈ seqZ 1 (N - 1) → n i = n' i) by (intros i Hi%elem_of_seqZ; apply Hn; lia). revert H.
  induction (seqZ 1 (N - 1)) as [|j l IH]; intros H; [done|]. cbn [foldr].
  rewrite (H j) by constructor. f_equal. apply IH. intros i Hi. apply H. by constructor.
Qed.

Lemma total_upd N n i v : 1 ≤ i < N → total N (<[i := v]> n) = total N n + need v - need (n i).
Proof.
  intros Hi. unfold total. assert (i ∈ seqZ 1 (N - 1)) as Hin by (apply elem_of_seqZ; lia). pose proof (NoDup_seqZ 1 (N - 1)) as Hnd. revert Hin Hnd.
  assert (H : ∀ l, i ∉ l → foldr (λ j a, need (<[i := v]> n j) + a) 0 l = foldr (λ j a, need (n j) + a) 0 l).
  { induction l as [|j l IH]; [done|]. intros [Hj Hl]%not_elem_of_cons. cbn [foldr]. rewrite IH by done. by rewrite fn_lookup_insert_ne. }
  induction (seqZ 1 (N - 1)) as [|j l IH]; intros Hin Hnd; [by apply elem_of_nil in Hin|]. apply NoDup_cons in Hnd as [Hj Hnd]. cbn [foldr].
  destruct (decide (i = j)) as [->|Hne]; [rewrite H, fn_lookup_insert by done; lia|].
  apply elem_of_cons in Hin as [?|Hin]; [done|]. rewrite IH, fn_lookup_insert_ne by done. lia.
Qed.

Lemma total_succ N n : 1 ≤ N → total (N + 1) n = total N n + need (n N).
Proof.
  intros HN. unfold total. replace (N + 1 - 1) with ((N - 1) + 1) by lia. rewrite seqZ_app by lia. rewrite foldr_app.
  replace (1 + (N - 1)) with N by lia. replace (seqZ N 1) with [N] by done. cbn [foldr]. rewrite Z.add_0_r. clear HN.
  induction (seqZ 1 (N - 1)) as [|j l IH]; cbn [foldr]; [lia|]. rewrite IH. lia.
Qed.

Lemma blk_addrs d d' cur k : d_addrs d' = d_addrs d → blk d' cur k = blk d cur k ∧ nthb d' cur k = nthb d cur k.
Proof. intros E. unfold blk, nthb, addr. by rewrite E. Qed.

Lemma inv_ext N T n C T' n' C' m : inv N T n C m →
  (∀ i, 1 ≤ i < N → d_addrs (T' i) = d_addrs (T i) ∧ n' i = n i ∧ C' i = C i) → inv N T' n' C' m.
Proof.
  intros [H1 H2 H3 H4 H5 H6 H7 H8 H9 H10 H11] E.
  assert (ET : ∀ i, 1 ≤ i < N → d_addrs (T' i) = d_addrs (T i)) by (intros; by apply E). assert (En : ∀ i, 1 ≤ i < N → n' i = n i) by (intros; by apply E).
  assert (EC : ∀ i, 1 ≤ i < N → C' i = C i) by (intros; by apply E).
  assert (EB : ∀ i k, 1 ≤ i < N → blk (T' i) (img m) k = blk (T i) (img m) k) by (intros i k Hi; by apply blk_addrs, ET).
  split; try done.
  - rewrite H3. f_equal. apply total_ext. intros. by rewrite En.
  - intros i Hi. rewrite ET by done. by apply H4.
  - intros i Hi. rewrite En, EC by done. by apply H5.
  - intros i k Hi. rewrite En, EB by done. by apply H6.
  - intros i k Hi. rewrite En, EB by done. by apply H7.
  - intros i k j l Hi Hj. rewrite !En, !EB by done. by apply H8.
  - intros i k Hi. rewrite En, EC by done. intros Hk. rewrite <- (H11 i k Hi Hk). unfold dbyte.
    by rewrite (proj2 (blk_addrs _ _ (img m) (k / BSIZE) (ET i Hi))).
Qed.

(** An inode's blocks depend only on its addresses and its indirect block. *)
Lemma blk_frame d cur cur' k : (addr d NDIRECT ≠ 0 → cur' (addr d NDIRECT) = cur (addr d NDIRECT)) → blk d cur' k = blk d cur k.
Proof. intros H. unfold blk, nthb. repeat case_match; bsimpl; try done. rewrite H; done. Qed.

Lemma blk_nthb d cur k : k < MAXFILE → blk d cur k = nthb d cur k.
Proof. intros Hk. unfold blk. by rewrite (proj2 (Z.eqb_neq k MAXFILE)) by lia. Qed.

Section known.
Context (N : Z) (T : Z → dinode) (n : Z → Z) (C : Z → bytes) (m : mkst) (H : inv N T n C m).

Lemma inv_ind i : 1 ≤ i < N → addr (T i) NDIRECT ≠ 0 → has (n i) MAXFILE = true ∧ blk (T i) (img m) MAXFILE = addr (T i) NDIRECT.
Proof.
  intros Hi Ha. assert (E : blk (T i) (img m) MAXFILE = addr (T i) NDIRECT) by done. split; [|done].
  destruct (has (n i) MAXFILE) eqn:Eh; [done|]. apply (iv_out _ _ _ _ _ H) in Eh; [congruence|done|mk_lia].
Qed.

(** Writing a data block of one file moves no block and changes no other byte. *)
Lemma inv_write i fbn bs o : 1 ≤ i < N → 0 ≤ fbn < n i → len (C i) = fbn * BSIZE + o → 0 ≤ o → o + len bs ≤ BSIZE → is_bytes bs →
  let x := blk (T i) (img m) fbn in
  inv N T n (<[i := C i ++ bs]> C) (set_img (<[x := put_bytes o bs (img m x)]> (img m)) m).
Proof.
  intros Hi Hf HC Ho Hb Hbs x. pose proof (iv_n _ _ _ _ _ H i Hi) as [Hn _].
  assert (Hhf : has (n i) fbn = true) by (unfold has; rewrite (proj2 (Z.eqb_neq fbn MAXFILE)) by lia; apply Z.ltb_lt; lia).
  pose proof (iv_in _ _ _ _ _ H i fbn Hi ltac:(lia) Hhf) as Hx. pose proof (iv_free _ _ _ _ _ H) as Hfree. fold x in Hx.
  assert (Hxok : block_ok (img m x)) by (apply (iv_ok _ _ _ _ _ H); mk_lia). destruct Hxok as [Hxl Hxb].
  set (m' := set_img _ m). assert (Hblk : ∀ j k, 1 ≤ j < N → blk (T j) (img m') k = blk (T j) (img m) k).
  { intros j k Hj. apply blk_frame. intros Ha. unfold m'. simpl. apply fn_lookup_insert_ne. intros E.
    destruct (inv_ind j Hj Ha) as [Hh Eb]. rewrite <- Eb in E.
    destruct (iv_inj _ _ _ _ _ H i fbn j MAXFILE) as [_ ?]; try done; mk_lia. }
  split; try apply H.
  - intros j Hj. pose proof (iv_n _ _ _ _ _ H j Hj) as [Hnj HCj]. split; [done|].
    destruct (decide (i = j)) as [<-|Hne]; [rewrite fn_lookup_insert, length_app, Nat2Z.inj_add; nia|by rewrite fn_lookup_insert_ne].
  - intros j k Hj Hk Hh. rewrite Hblk by done. by apply (iv_in _ _ _ _ _ H).
  - intros j k Hj Hk Hh. rewrite Hblk by done. by apply (iv_out _ _ _ _ _ H).
  - intros j k j' l Hj Hj' Hk Hl Hh Hh'. rewrite !Hblk by done. by apply (iv_inj _ _ _ _ _ H).
  - intros b Hbb. unfold m'. simpl. destruct (decide (x = b)) as [<-|Hne]; [|rewrite fn_lookup_insert_ne by done; by apply (iv_ok _ _ _ _ _ H)].
    rewrite fn_lookup_insert. split; [by rewrite length_put_bytes|by apply is_bytes_put_bytes].
  - intros b Hbb. unfold m'. simpl. simpl in Hbb. rewrite fn_lookup_insert_ne by lia. by apply (iv_zero _ _ _ _ _ H).
  - intros j k Hj Hk. pose proof (iv_n _ _ _ _ _ H j Hj) as [Hnj _]. assert (k / BSIZE < MAXFILE) as HkM by mk_lia.
    pose proof (iv_data _ _ _ _ _ H j k Hj Hk) as Hd. unfold dbyte in *.
    rewrite <- (blk_nthb (T j) (img m')), Hblk, blk_nthb by done. unfold m'. simpl.
    destruct (decide (i = j ∧ k / BSIZE = fbn)) as [[<- Ek]|Hne].
    + rewrite <- (blk_nthb (T i) (img m)) in * by done. rewrite Ek in *. fold x in Hd. rewrite !fn_lookup_insert.
      unfold byte_at in *. unfold put_bytes.
      destruct (decide (k < len (C i))) as [Hlt|Hge]; [|destruct (decide (k < len (C i) + len bs)) as [Hlt2|Hge2]].
      * rewrite list_lookup_inserts_lt by mk_lia. rewrite lookup_app_l by lia. done.
      * rewrite list_lookup_inserts by mk_lia. rewrite lookup_app_r by lia. f_equal. f_equal. mk_lia.
      * rewrite list_lookup_inserts_ge by mk_lia. rewrite Hd, !lookup_ge_None_2; [done| |lia]. rewrite length_app. lia.
    + rewrite fn_lookup_insert_ne.
      * rewrite Hd. destruct (decide (i = j)) as [<-|Hij]; [|by rewrite fn_lookup_insert_ne].
        rewrite fn_lookup_insert. unfold byte_at. destruct (decide (k < len (C i))) as [Hlt|Hge]; [by rewrite lookup_app_l by lia|].
        rewrite !lookup_ge_None_2; [done| |lia]. rewrite length_app. assert (k / BSIZE ≠ fbn) by tauto. mk_lia.
      * intros E. rewrite <- (blk_nthb (T j) (img m)) in E by done.
        assert (has (n j) (k / BSIZE) = true) by (unfold has; rewrite (proj2 (Z.eqb_neq (k / BSIZE) MAXFILE)) by lia; apply Z.ltb_lt; mk_lia).
        destruct (iv_inj _ _ _ _ _ H i fbn j (k / BSIZE)) as [? ?]; try done; [mk_lia..|]. apply Hne. done.
Qed.

(** A file that got its next block, and with it its indirect block if it is the first
    one that needs it. *)
Record extends (i : Z) (d : dinode) (m' : mkst) : Prop := {
  ex_len : imglen m' = FSSIZE;
  ex_addrs : length (d_addrs d) = Z.to_nat (NDIRECT + 1);
  ex_free : freeblock m' = freeblock m + need (n i + 1) - need (n i);
  ex_old : ∀ k, 0 ≤ k ≤ MAXFILE → has (n i) k = true → blk d (img m') k = blk (T i) (img m) k;
  ex_new : ∀ k, 0 ≤ k ≤ MAXFILE → has (n i) k = false → has (n i + 1) k = true → freeblock m ≤ blk d (img m') k < freeblock m';
  ex_two : ∀ k, 0 ≤ k < MAXFILE → has (n i + 1) k = true → blk d (img m') k ≠ addr d NDIRECT;
  ex_none : ∀ k, 0 ≤ k ≤ MAXFILE → has (n i + 1) k = false → blk d (img m') k = 0;
  ex_img : ∀ b, b ≠ addr d NDIRECT ∨ b = 0 → img m' b = img m b;
  ex_ind : block_ok (img m' (addr d NDIRECT)) }.

Lemma has_next k a : 0 ≤ a → has (a + 1) k = true → has a k = true ∨ k = a ∨ k = MAXFILE ∧ a = NDIRECT.
Proof. intros Ha. unfold has. case_match; bsimpl; intros; bsimpl; destruct (NDIRECT <? a) eqn:?; destruct (k <? a) eqn:?; bsimpl; tauto || lia. Qed.

Lemma has_mono k a : has a k = true → has (a + 1) k = true.
Proof. unfold has. case_match; intros; bsimpl; apply Z.ltb_lt; lia. Qed.

Lemma inv_extend i d m' : 1 ≤ i < N → n i < MAXFILE → extends i d m' → freeblock m' ≤ FSSIZE →
  inv N (<[i := d]> T) (<[i := n i + 1]> n) C m'.
Proof.
  intros Hi Hn [X1 X2 X3 X4 X5 X6 X7 X8 X9] Hcap. pose proof (iv_n _ _ _ _ _ H i Hi) as [Hni HCi].
  pose proof (iv_free _ _ _ _ _ H) as Hfree. pose proof (need_mono (n i) (n i + 1) ltac:(lia)) as Hneed.
  assert (Hfar : ∀ j k, 1 ≤ j < N → 0 ≤ k ≤ MAXFILE → has (n j) k = true → ¬ (j = i ∧ k = MAXFILE) → blk (T j) (img m) k ≠ addr d NDIRECT).
  { intros j k Hj Hk Hh Hne E. pose proof (iv_in _ _ _ _ _ H j k Hj Hk Hh) as Hr. rewrite E in Hr.
    change (addr d NDIRECT) with (blk d (img m') MAXFILE) in E, Hr. destruct (has (n i) MAXFILE) eqn:Ei.
    - rewrite X4 in E by (done || mk_lia). destruct (iv_inj _ _ _ _ _ H j k i MAXFILE Hj Hi Hk ltac:(mk_lia) Hh Ei E). by apply Hne.
    - destruct (has (n i + 1) MAXFILE) eqn:Ei'; [pose proof (X5 MAXFILE ltac:(mk_lia) Ei Ei'); lia|rewrite X7 in Hr by (done || mk_lia); mk_lia]. }
  assert (Hother : ∀ j k, 1 ≤ j < N → j ≠ i → blk (T j) (img m') k = blk (T j) (img m) k).
  { intros j k Hj Hne. apply blk_frame. intros Ha. apply X8. left. destruct (inv_ind j Hj Ha) as [Hh <-]. apply Hfar; [done|mk_lia|done|tauto]. }
  assert (Hin : ∀ j k, 1 ≤ j < N → 0 ≤ k ≤ MAXFILE → has (<[i := n i + 1]> n j) k = true →
    blk (<[i := d]> T j) (img m') k = blk (T j) (img m) k ∧ has (n j) k = true ∨ j = i ∧ has (n i) k = false ∧ freeblock m ≤ blk d (img m') k < freeblock m').
  { intros j k Hj Hk. destruct (decide (i = j)) as [<-|Hne]; [|rewrite !fn_lookup_insert_ne by done; left; split; [by apply Hother|done]].
    rewrite !fn_lookup_insert. intros Hh. destruct (has (n i) k) eqn:E; [left; split; [by apply X4|done]|right; split_and!; try done; by apply X5]. }
  split; try done.
  - lia.
  - rewrite total_upd, X3, (iv_total _ _ _ _ _ H) by done. lia.
  - intros j Hj. destruct (decide (i = j)) as [<-|Hne]; [by rewrite fn_lookup_insert|rewrite fn_lookup_insert_ne by done; by apply (iv_addrs _ _ _ _ _ H)].
  - intros j Hj. destruct (decide (i = j)) as [<-|Hne]; [rewrite fn_lookup_insert; mk_lia|rewrite fn_lookup_insert_ne by done; by apply (iv_n _ _ _ _ _ H)].
  - intros j k Hj Hk Hh. destruct (Hin j k Hj Hk Hh) as [[-> Hh']|(-> & _ & Hr)]; [pose proof (iv_in _ _ _ _ _ H j k Hj Hk Hh'); lia|rewrite fn_lookup_insert; lia].
  - intros j k Hj Hk. destruct (decide (i = j)) as [<-|Hne]; [rewrite !fn_lookup_insert; by apply X7|].
    rewrite !fn_lookup_insert_ne, Hother by done. by apply (iv_out _ _ _ _ _ H).
  - intros j k j' l Hj Hj' Hk Hl Hh Hh' E.
    destruct (Hin j k Hj Hk Hh) as [[E1 Hh1]|(-> & Hf1 & Hr1)], (Hin j' l Hj' Hl Hh') as [[E2 Hh2]|(-> & Hf2 & Hr2)].
    + rewrite E1, E2 in E. by apply (iv_inj _ _ _ _ _ H).
    + rewrite E1, fn_lookup_insert in E. pose proof (iv_in _ _ _ _ _ H j k Hj Hk Hh1). lia.
    + rewrite E2, fn_lookup_insert in E. pose proof (iv_in _ _ _ _ _ H j' l Hj' Hl Hh2). lia.
    + split; [done|].
      rewrite !fn_lookup_insert in E. rewrite fn_lookup_insert in Hh. rewrite fn_lookup_insert in Hh'.
      destruct (has_next k (n i) ltac:(lia) Hh) as [?|[->|[-> E1]]], (has_next l (n i) ltac:(lia) Hh') as [?|[->|[-> E2]]]; try congruence.
      * by destruct (X6 (n i) ltac:(lia) Hh).
      * by destruct (X6 (n i) ltac:(lia) Hh').
  - intros b Hb. destruct (decide (b = addr d NDIRECT)) as [->|Hne]; [done|]. rewrite X8 by (by left). by apply (iv_ok _ _ _ _ _ H).
  - intros b Hb. rewrite X8; [apply (iv_zero _ _ _ _ _ H); lia|]. destruct (decide (b = addr d NDIRECT)) as [->|Hne]; [|by left]. exfalso.
    change (addr d NDIRECT) with (blk d (img m') MAXFILE) in Hb.
    destruct (has (n i) MAXFILE) eqn:Ei; [rewrite X4 in Hb by (done || mk_lia); pose proof (iv_in _ _ _ _ _ H i MAXFILE Hi ltac:(mk_lia) Ei); lia|].
    destruct (has (n i + 1) MAXFILE) eqn:Ei'; [pose proof (X5 MAXFILE ltac:(mk_lia) Ei Ei'); lia|rewrite X7 in Hb by (done || mk_lia); mk_lia].
  - intros j k Hj Hk.
    assert (Hnj : <[i := n i + 1]> n j ≤ MAXFILE).
    { destruct (decide (i = j)) as [<-|Hne]; [rewrite fn_lookup_insert; lia|rewrite fn_lookup_insert_ne by done; apply (iv_n _ _ _ _ _ H j Hj)]. }
    assert (Hq : 0 ≤ k / BSIZE < <[i := n i + 1]> n j) by mk_lia. set (q := k / BSIZE) in *.
    assert (Hh : has (<[i := n i + 1]> n j) q = true) by (unfold has; rewrite (proj2 (Z.eqb_neq q MAXFILE)) by lia; apply Z.ltb_lt; lia).
    unfold dbyte. fold q. rewrite <- blk_nthb by lia. destruct (Hin j q Hj ltac:(lia) Hh) as [[E Hh']|(-> & Hf & Hr)].
    + rewrite E. rewrite X8 by (left; apply Hfar; [done|lia|done|lia]). rewrite blk_nthb by lia.
      apply (iv_data _ _ _ _ _ H j k Hj). unfold has in Hh'. rewrite (proj2 (Z.eqb_neq q MAXFILE)) in Hh' by lia. bsimpl. unfold q in *. mk_lia.
    + rewrite fn_lookup_insert in Hh. rewrite fn_lookup_insert in Hq. rewrite fn_lookup_insert. rewrite X8 by (left; apply X6; [lia|done]). rewrite (iv_zero _ _ _ _ _ H) by lia.
      unfold byte_at. unfold has in Hf. rewrite (proj2 (Z.eqb_neq q MAXFILE)) in Hf by lia. bsimpl.
      rewrite (lookup_ge_None_2 (C i)) by (unfold q in *; mk_lia). unfold zero_block. rewrite lookup_replicate_2 by mk_lia. done.
Qed.

Lemma has_data a k : 0 ≤ k < MAXFILE → has a k = (k <? a).
Proof. intros Hk. unfold has. by rewrite (proj2 (Z.eqb_neq k MAXFILE)) by lia. Qed.

Lemma blk_direct d cur k : 0 ≤ k < NDIRECT → blk d cur k = addr d k.
Proof. intros Hk. rewrite blk_nthb by mk_lia. unfold nthb. by rewrite (proj2 (Z.ltb_lt k NDIRECT)) by lia. Qed.

Lemma blk_indirect d cur k : NDIRECT ≤ k < MAXFILE → addr d NDIRECT ≠ 0 → blk d cur k = ind_get (cur (addr d NDIRECT)) (k - NDIRECT).
Proof.
  intros Hk Ha. rewrite blk_nthb by mk_lia. unfold nthb. rewrite (proj2 (Z.ltb_ge k NDIRECT)) by lia.
  by rewrite (proj2 (Z.eqb_neq _ 0)).
Qed.

Lemma addr_with_eq d i a : 0 ≤ i < len (d_addrs d) → addr (with_addr i a d) i = a.
Proof. intros Hi. unfold addr. simpl. by rewrite list_lookup_insert_eq by lia. Qed.

Lemma addr_with_ne d i a j : 0 ≤ i → 0 ≤ j → i ≠ j → addr (with_addr i a d) j = addr d j.
Proof. intros Hi Hj Hne. unfold addr. simpl. by rewrite list_lookup_insert_ne by lia. Qed.

Lemma wp_next_block (m0 : mkst) (Q : Z → mkst → Prop) : 0 ≤ freeblock m0 < FSSIZE →
  Q (freeblock m0) (mk_mkst (img m0) (imglen m0) (freeinode m0) (freeblock m0 + 1)) → wp next_block Q m0.
Proof. intros Hf HQ. apply wp_bind, wp_gets, wp_bind, wp_modify, wp_ret. by rewrite u32_small by mk_lia. Qed.

Lemma file_block_hit i fbn : 1 ≤ i < N → 0 ≤ fbn < n i →
  wp (file_block fbn (T i)) (λ r m', r = (blk (T i) (img m) fbn, T i) ∧ m' = m) m.
Proof.
  intros Hi Hf. pose proof (iv_n _ _ _ _ _ H i Hi) as [Hn _]. pose proof (iv_free _ _ _ _ _ H) as Hfree.
  assert (Hh : has (n i) fbn = true) by (rewrite has_data by lia; apply Z.ltb_lt; lia).
  pose proof (iv_in _ _ _ _ _ H i fbn Hi ltac:(lia) Hh) as Hr. unfold file_block, ensure_addr. case_match; bsimpl.
  - rewrite blk_direct in * by lia. rewrite (proj2 (Z.eqb_neq _ 0)) by mk_lia. by apply wp_bind, wp_ret, wp_ret.
  - assert (Hh' : has (n i) MAXFILE = true) by (unfold has; rewrite Z.eqb_refl; apply Z.ltb_lt; lia).
    pose proof (iv_in _ _ _ _ _ H i MAXFILE Hi ltac:(mk_lia) Hh') as Hr'. change (blk (T i) (img m) MAXFILE) with (addr (T i) NDIRECT) in Hr'.
    rewrite (proj2 (Z.eqb_neq (addr (T i) NDIRECT) 0)) by mk_lia. apply wp_bind, wp_ret, wp_bind, wp_rsect; [mk_lia|apply H|].
    rewrite blk_indirect in * by mk_lia. rewrite (proj2 (Z.eqb_neq _ 0)) by mk_lia. by apply wp_ret.
Qed.

(** What [file_block] leaves alone. *)
Record kept (d d' : dinode) (m' : mkst) : Prop := {
  kp_type : d_type d' = d_type d; kp_major : d_major d' = d_major d; kp_minor : d_minor d' = d_minor d;
  kp_nlink : d_nlink d' = d_nlink d;
  kp_freeinode : freeinode m' = freeinode m;
  kp_img : ∀ b, 0 ≤ b < nmeta → img m' b = img m b }.

Lemma extends_direct i m' : 1 ≤ i < N → n i < NDIRECT → imglen m' = FSSIZE → freeblock m < FSSIZE →
  img m' = img m → freeblock m' = freeblock m + 1 → extends i (with_addr (n i) (freeblock m) (T i)) m'.
Proof.
  intros Hi Hn Hl Hf Eimg Ef. pose proof (iv_n _ _ _ _ _ H i Hi) as [Hni _]. pose proof (iv_free _ _ _ _ _ H) as Hfree.
  pose proof (iv_addrs _ _ _ _ _ H i Hi) as Hlen. set (d := with_addr _ _ _).
  assert (Hnone : ∀ a, a ≤ NDIRECT → has a MAXFILE = false) by (intros a Ha; unfold has; rewrite Z.eqb_refl; apply Z.ltb_ge; lia).
  assert (Hind : addr d NDIRECT = 0).
  { unfold d. rewrite addr_with_ne by lia. apply (iv_out _ _ _ _ _ H i MAXFILE Hi ltac:(mk_lia)). apply Hnone. lia. }
  assert (Hd : ∀ k, 0 ≤ k < NDIRECT → k ≠ n i → addr d k = blk (T i) (img m) k).
  { intros k Hk Hne. unfold d. rewrite addr_with_ne by lia. by rewrite blk_direct. }
  assert (Hnew : addr d (n i) = freeblock m) by (unfold d; apply addr_with_eq; mk_lia).
  split; try done.
  - unfold d. simpl. by rewrite length_insert.
  - rewrite Ef. unfold need. repeat case_match; bsimpl; lia.
  - intros k Hk Hh. destruct (decide (k = MAXFILE)) as [->|]; [rewrite Hnone in Hh by lia; done|]. rewrite has_data in Hh by lia. bsimpl.
    rewrite blk_direct by lia. apply Hd; lia.
  - intros k Hk Hh Hh'. destruct (has_next k (n i) ltac:(lia) Hh') as [?|[->|?]]; [congruence| |lia]. rewrite blk_direct by lia. lia.
  - intros k Hk Hh. rewrite has_data in Hh by lia. bsimpl. rewrite Hind, blk_direct by lia.
    destruct (decide (k = n i)) as [->|]; [rewrite Hnew; mk_lia|]. rewrite Hd by lia.
    pose proof (iv_in _ _ _ _ _ H i k Hi ltac:(lia) ltac:(rewrite has_data by lia; apply Z.ltb_lt; lia)). mk_lia.
  - intros k Hk Hh. destruct (decide (k = MAXFILE)) as [->|]; [exact Hind|]. rewrite has_data in Hh by lia. bsimpl.
    rewrite blk_nthb by lia. unfold nthb. rewrite Hind. case_match; [|done]. bsimpl. rewrite Hd by lia.
    apply (iv_out _ _ _ _ _ H); [done|lia|]. rewrite has_data by lia. apply Z.ltb_ge. lia.
  - intros b _. by rewrite Eimg.
  - rewrite Eimg, Hind. apply (iv_ok _ _ _ _ _ H). mk_lia.
Qed.

(** The indirect block [a] is the file's own, or new and empty. *)
Lemma extends_indirect i d a m' : 1 ≤ i < N → NDIRECT ≤ n i < MAXFILE → length (d_addrs d) = Z.to_nat (NDIRECT + 1) →
  addr d NDIRECT = a → (∀ k, 0 ≤ k < NDIRECT → addr d k = addr (T i) k) →
  (NDIRECT < n i ∧ a = addr (T i) NDIRECT ∧ freeblock m' = freeblock m + 1 ∨
   n i = NDIRECT ∧ a = freeblock m ∧ freeblock m' = freeblock m + 2) →
  freeblock m' ≤ FSSIZE → imglen m' = FSSIZE →
  img m' = <[a := ind_put (n i - NDIRECT) (freeblock m' - 1) (img m a)]> (img m) → extends i d m'.
Proof.
  intros Hi Hn Hlen Ha Hdir Hcase Hcap Hl Eimg. assert (0 < NDIRECT < MAXFILE) by mk_lia. pose proof (iv_free _ _ _ _ _ H) as Hfree.
  assert (Hold : ∀ k, 0 ≤ k < n i → has (n i) k = true) by (intros k Hk; rewrite has_data by lia; apply Z.ltb_lt; lia).
  assert (Hpast : ∀ k, n i ≤ k < MAXFILE → blk (T i) (img m) k = 0).
  { intros k Hk. apply (iv_out _ _ _ _ _ H); [done|lia|]. rewrite has_data by lia. apply Z.ltb_ge. lia. }
  assert (Hind : ∀ b, b = n i ∨ b = n i + 1 → has b MAXFILE = (NDIRECT <? b)) by (intros; unfold has; by rewrite Z.eqb_refl).
  assert (Har : nmeta ≤ a < FSSIZE).
  { destruct Hcase as [(Hlt & -> & _)|(_ & -> & ?)]; [|mk_lia].
    pose proof (iv_in _ _ _ _ _ H i MAXFILE Hi ltac:(mk_lia) ltac:(rewrite Hind by lia; apply Z.ltb_lt; lia)) as Hr. change (blk (T i) (img m) MAXFILE) with (addr (T i) NDIRECT) in Hr. mk_lia. }
  assert (Hget : ∀ k, NDIRECT ≤ k < MAXFILE → ind_get (img m a) (k - NDIRECT) = blk (T i) (img m) k).
  { intros k Hk. destruct Hcase as [(Hlt & -> & _)|(Heq & -> & ?)].
    - rewrite blk_indirect; [done|done|mk_lia].
    - rewrite Hpast, (iv_zero _ _ _ _ _ H) by lia. apply ind_zero. mk_lia. }
  assert (Haok : block_ok (img m a)) by (apply (iv_ok _ _ _ _ _ H); mk_lia).
  assert (Hdata : ∀ k, 0 ≤ k < MAXFILE → k ≠ n i → blk d (img m') k = blk (T i) (img m) k).
  { intros k Hk Hne. destruct (decide (k < NDIRECT)); [rewrite !blk_direct by lia; apply Hdir; lia|].
    rewrite blk_indirect by mk_lia. rewrite Ha, Eimg, fn_lookup_insert, ind_put_ne by lia. apply Hget. lia. }
  assert (Hnew : blk d (img m') (n i) = freeblock m' - 1).
  { rewrite blk_indirect by mk_lia. rewrite Ha, Eimg, fn_lookup_insert. apply ind_put_eq; [mk_lia|apply Haok|mk_lia]. }
  split; try done.
  - unfold need. repeat case_match; bsimpl; lia.
  - intros k Hk Hh. destruct (decide (k = MAXFILE)) as [->|].
    + rewrite Hind in Hh by lia. bsimpl. destruct Hcase as [(_ & Ea & _)|?]; [|lia]. change (addr d NDIRECT = addr (T i) NDIRECT). congruence.
    + rewrite has_data in Hh by lia. bsimpl. apply Hdata; lia.
  - intros k Hk Hh Hh'. destruct (has_next k (n i) ltac:(lia) Hh') as [?|[->|[-> E]]]; [congruence|lia|].
    change (blk d (img m') MAXFILE) with (addr d NDIRECT). lia.
  - intros k Hk Hh. rewrite has_data in Hh by lia. bsimpl. rewrite Ha.
    destruct (decide (k = n i)) as [->|Hne]; [destruct Hcase as [(Hlt & -> & ?)|?]; [|lia]|rewrite Hdata by lia].
    + pose proof (iv_in _ _ _ _ _ H i MAXFILE Hi ltac:(mk_lia) ltac:(rewrite Hind by lia; apply Z.ltb_lt; lia)) as Hr. change (blk (T i) (img m) MAXFILE) with (addr (T i) NDIRECT) in Hr. lia.
    + pose proof (iv_in _ _ _ _ _ H i k Hi ltac:(lia) ltac:(apply Hold; lia)). destruct Hcase as [(Hlt & -> & _)|?]; [|lia].
      intros E. change (addr (T i) NDIRECT) with (blk (T i) (img m) MAXFILE) in E.
      destruct (iv_inj _ _ _ _ _ H i k i MAXFILE); try done; try mk_lia; [apply Hold; lia|rewrite Hind by lia; apply Z.ltb_lt; lia].
  - intros k Hk Hh. destruct (decide (k = MAXFILE)) as [->|]; [rewrite Hind in Hh by lia; bsimpl; lia|]. rewrite has_data in Hh by lia. bsimpl.
    rewrite Hdata by lia. apply Hpast. lia.
  - intros b Hb. rewrite Eimg. apply fn_lookup_insert_ne. mk_lia.
  - rewrite Ha, Eimg, fn_lookup_insert. destruct Haok. split; [by unfold ind_put; rewrite length_put32|].
    apply is_bytes_put_bytes; [apply is_bytes_le|done].
Qed.

Lemma file_block_new i : 1 ≤ i < N → n i < MAXFILE → freeblock m + need (n i + 1) - need (n i) ≤ FSSIZE →
  wp (file_block (n i) (T i)) (λ r m', extends i r.2 m' ∧ r.1 = blk r.2 (img m') (n i) ∧ kept (T i) r.2 m') m.
Proof.
  intros Hi Hn Hcap. assert (0 < NDIRECT < MAXFILE) by mk_lia. pose proof (iv_n _ _ _ _ _ H i Hi) as [Hni _]. pose proof (iv_free _ _ _ _ _ H) as Hfree.
  pose proof (iv_addrs _ _ _ _ _ H i Hi) as Hlen. pose proof (iv_len _ _ _ _ _ H) as Hl.
  assert (Hout : has (n i) (n i) = false) by (rewrite has_data by lia; apply Z.ltb_ge; lia).
  apply (iv_out _ _ _ _ _ H i (n i) Hi ltac:(lia)) in Hout. unfold file_block, ensure_addr.
  destruct (n i <? NDIRECT) eqn:E; bsimpl.
  - rewrite blk_direct in Hout by lia. rewrite Hout. unfold need in Hcap. repeat case_match; bsimpl; try lia.
    apply wp_bind, wp_bind, wp_next_block; [mk_lia|]. apply wp_ret, wp_ret. simpl. split_and!; [|by rewrite blk_direct by lia|done].
    apply extends_direct; simpl; try done; lia.
  - destruct (addr (T i) NDIRECT =? 0) eqn:Ea; bsimpl.
    + assert (Heq : n i = NDIRECT).
      { destruct (decide (NDIRECT < n i)) as [Hlt|]; [|lia].
        pose proof (iv_in _ _ _ _ _ H i MAXFILE Hi ltac:(mk_lia) ltac:(unfold has; rewrite Z.eqb_refl; apply Z.ltb_lt; lia)) as Hr. change (blk (T i) (img m) MAXFILE) with (addr (T i) NDIRECT) in Hr. mk_lia. }
      assert (Hcap2 : freeblock m + 2 ≤ FSSIZE) by (unfold need in Hcap; repeat case_match; bsimpl; lia).
      apply wp_bind, wp_bind, wp_next_block; [mk_lia|]. apply wp_ret. rewrite addr_with_eq by mk_lia.
      apply wp_bind, wp_rsect; [mk_lia|exact Hl|]. cbn [img]. rewrite (iv_zero _ _ _ _ _ H), ind_zero by mk_lia. simpl.
      apply wp_bind, wp_next_block; [simpl; mk_lia|]. apply wp_bind, wp_wsect; [mk_lia|exact Hl|]. apply wp_ret. cbn [fst snd].
      assert (X : extends i (with_addr NDIRECT (freeblock m) (T i)) (set_img (<[freeblock m := ind_put (n i - NDIRECT) (freeblock m + 1) zero_block]> (img m)) (mk_mkst (img m) (imglen m) (freeinode m) (freeblock m + 1 + 1)))).
      { eapply (extends_indirect i _ (freeblock m)); [done|lia|simpl; by rewrite length_insert|apply addr_with_eq; mk_lia| |right; simpl; lia|simpl; lia|exact Hl|].
        - intros k Hk. by rewrite addr_with_ne by mk_lia.
        - simpl. rewrite (iv_zero _ _ _ _ _ H (freeblock m)) by lia. do 2 f_equal. lia. }
      split; [exact X|]. cbn [img set_img freeblock]. rewrite blk_indirect by (rewrite ?addr_with_eq by mk_lia; mk_lia).
      rewrite addr_with_eq, fn_lookup_insert by mk_lia. split; [done|]. split; try done. intros b Hb. simpl. apply fn_lookup_insert_ne. lia.
    + assert (Hlt : NDIRECT < n i).
      { destruct (decide (NDIRECT < n i)) as [|Hge]; [done|]. destruct (inv_ind i Hi Ea) as [Hh _]. unfold has in Hh. rewrite Z.eqb_refl in Hh. bsimpl. lia. }
      destruct (inv_ind i Hi Ea) as [Hh Eb]. pose proof (iv_in _ _ _ _ _ H i MAXFILE Hi ltac:(lia) Hh) as Hr. rewrite Eb in Hr.
      assert (Hcap2 : freeblock m + 1 ≤ FSSIZE) by (unfold need in Hcap; repeat case_match; bsimpl; lia).
      apply wp_bind, wp_ret, wp_bind, wp_rsect; [mk_lia|exact Hl|]. rewrite blk_indirect in Hout by (done || lia). rewrite Hout. simpl.
      apply wp_bind, wp_next_block; [mk_lia|]. apply wp_bind, wp_wsect; [mk_lia|exact Hl|]. apply wp_ret. cbn [fst snd img set_img freeblock].
      split_and!; [|by rewrite blk_indirect, fn_lookup_insert by (done || lia)|].
      * apply (extends_indirect i _ (addr (T i) NDIRECT)); [done|lia|done|done|done|left; simpl; lia|simpl; lia|exact Hl|].
        simpl. do 2 f_equal. lia.
      * split; try done. intros b Hb. simpl. apply fn_lookup_insert_ne. lia.
Qed.

(** [file_block], where the file ends: it has the block [fbn] then. *)
Lemma file_block_ok i fbn : 1 ≤ i < N → n i = nb (len (C i)) → fbn = len (C i) / BSIZE → fbn < MAXFILE →
  freeblock m + need (fbn + 1) - need (n i) ≤ FSSIZE →
  wp (file_block fbn (T i)) (λ r m', inv N (<[i := r.2]> T) (<[i := fbn + 1]> n) C m' ∧ r.1 = blk r.2 (img m') fbn ∧ kept (T i) r.2 m') m.
Proof.
  intros Hi En Ef Hf Hcap. assert (Hc : n i = fbn + 1 ∨ n i = fbn) by (rewrite En, Ef; unfold nb; mk_lia). destruct Hc as [Hc|Hc].
  - eapply wp_mono; [apply file_block_hit; [done|]|]; [mk_lia|]. intros r m' [-> ->]. split_and!; [|done|done].
    eapply inv_ext; [exact H|]. intros j Hj. cbn [snd].
    destruct (decide (i = j)) as [<-|Hne]; [by rewrite !fn_lookup_insert|by rewrite !fn_lookup_insert_ne].
  - rewrite <- Hc in *. eapply wp_mono; [by apply file_block_new|]. intros r m' (X & Ex & Hk). split_and!; [|done|done].
    apply inv_extend; try done. rewrite (ex_free _ _ _ X). lia.
Qed.

End known.

Lemma kept_trans m d m1 d1 m2 d2 : kept m d d1 m1 → kept m1 d1 d2 m2 → kept m d d2 m2.
Proof.
  intros [A1 A2 A3 A4 A5 A6] [B1 B2 B3 B4 B5 B6]. split; try congruence. intros b Hb. rewrite B6 by done. by apply A6.
Qed.

Lemma kept_write m d d' m1 x bs : nmeta ≤ x → kept m d d' m1 → kept m d d' (set_img (<[x := bs]> (img m1)) m1).
Proof. intros Hx [A1 A2 A3 A4 A5 A6]. split; try done. intros b Hb. simpl. rewrite fn_lookup_insert_ne by lia. by apply A6. Qed.

Lemma iappend_loop_ok N i : 1 ≤ i < N → ∀ fuel T n C m p, inv N T n C m → (length p < fuel)%nat → n i = nb (len (C i)) → is_bytes p →
  len (C i) + len p ≤ MAXFILE * BSIZE → freeblock m + need (nb (len (C i) + len p)) - need (n i) ≤ FSSIZE →
  wp (iappend_loop fuel (T i) (len (C i)) p) (λ r m', r.2 = len (C i) + len p ∧
    inv N (<[i := r.1]> T) (<[i := nb (len (C i) + len p)]> n) (<[i := C i ++ p]> C) m' ∧ kept m (T i) r.1 m') m.
Proof.
  intros Hi. induction fuel as [|fuel IH]; intros T n C m p H Hfuel En Hp Hmax Hcap; [lia|]. cbn [iappend_loop].
  destruct (len p <=? 0) eqn:E; bsimpl.
  { destruct p; [|simpl in *; lia]. apply wp_ret. cbn [fst snd length]. rewrite Z.add_0_r, <- En, app_nil_r. split_and!; [done| |done].
    eapply inv_ext; [exact H|]. intros j Hj. destruct (decide (i = j)) as [<-|Hne]; [by rewrite !fn_lookup_insert|by rewrite !fn_lookup_insert_ne]. }
  set (off := len (C i)) in *. set (fbn := off / BSIZE). set (n1 := Z.min (len p) ((fbn + 1) * BSIZE - off)).
  assert (Hn1 : 0 < n1 ≤ len p ∧ off - fbn * BSIZE + n1 ≤ BSIZE ∧ 0 ≤ off - fbn * BSIZE) by (unfold n1, fbn; mk_lia).
  assert (Hf : 0 ≤ fbn < MAXFILE) by (unfold fbn; mk_lia).
  assert (Hnb : nb (off + n1) = fbn + 1) by (unfold nb, fbn, n1 in *; mk_lia).
  pose proof (need_mono (fbn + 1) (nb (off + len p)) ltac:(rewrite <- Hnb; apply nb_mono; lia)) as Hneed.
  apply wp_bind, wp_assert; [apply Z.ltb_lt; lia|]. apply wp_bind. eapply wp_mono; [eapply (file_block_ok _ _ _ _ _ H i fbn); try done; lia|].
  intros [x d] m1 (H1 & Ex & Hk1). cbn [fst snd] in *.
  assert (Hfb : freeblock m1 = freeblock m + need (fbn + 1) - need (n i)) by (rewrite (iv_total _ _ _ _ _ H1), (iv_total _ _ _ _ _ H), total_upd by done; lia).
  assert (Hr : nmeta ≤ x < freeblock m1).
  { rewrite Ex. pose proof (iv_in _ _ _ _ _ H1 i fbn Hi ltac:(lia)) as Hr. rewrite !fn_lookup_insert in Hr. apply Hr. rewrite has_data by lia. apply Z.ltb_lt. lia. }
  pose proof (iv_free _ _ _ _ _ H1) as Hfree. assert (Hl1 : imglen m1 = FSSIZE) by apply H1.
  apply wp_bind, wp_rsect; [mk_lia|done|]. apply wp_bind, wp_wsect; [mk_lia|done|].
  assert (Hlt : len (take (Z.to_nat n1) p) = n1) by (rewrite length_take; lia).
  pose proof (inv_write _ _ _ _ _ H1 i fbn (take (Z.to_nat n1) p) (off - fbn * BSIZE) Hi) as H2. rewrite !fn_lookup_insert in H2.
  rewrite <- Ex in H2. specialize (H2 ltac:(lia) ltac:(fold off; lia) ltac:(lia) ltac:(lia) ltac:(by apply Forall_take)).
  set (m2 := set_img _ m1) in *. set (C2 := <[i := C i ++ take (Z.to_nat n1) p]> C) in *.
  assert (HC2 : len (C2 i) = off + n1) by (unfold C2; rewrite fn_lookup_insert, length_app; lia).
  specialize (IH _ _ _ _ (drop (Z.to_nat n1) p) H2). rewrite HC2, !fn_lookup_insert, length_drop in IH. unfold C2 in IH at 1. rewrite fn_lookup_insert, <- app_assoc, take_drop in IH.
  replace (off + n1 + Z.of_nat (length p - Z.to_nat n1)) with (off + len p) in IH by lia.
  eapply wp_mono; [apply IH|]; [lia|done|by apply Forall_drop|lia|unfold m2; simpl; lia|].
  intros [d' off'] m3 (-> & H3 & Hk3). cbn [fst snd] in *. split_and!; [done| |].
  - eapply inv_ext; [exact H3|]. intros j Hj. unfold C2. destruct (decide (i = j)) as [<-|Hne]; [by rewrite !fn_lookup_insert|by rewrite !fn_lookup_insert_ne].
  - eapply kept_trans; [|exact Hk3]. apply kept_write; [lia|done].
Qed.

(** ** Inodes and files *)

(** Files [1 .. N-1] of types [ty] and contents [C], their inodes [T] on the disk. *)
Record whole (N : Z) (T : Z → dinode) (C : Z → bytes) (ty : Z → Z) (m : mkst) : Prop := {
  wh_inv : inv N T (λ i, nb (len (C i))) C m;
  wh_N : 1 ≤ N ≤ NINODES;
  wh_next : freeinode m = N;
  wh_disk : ∀ i, 1 ≤ i < NINODES → get_dinode i (img m (IBLOCK i sb_)) = T i;
  wh_meta : ∀ i, 1 ≤ i < N → s16_ok (ty i) ∧ d_type (T i) = ty i ∧ d_major (T i) = 0 ∧ d_minor (T i) = 0 ∧ d_nlink (T i) = 1;
  wh_size : ∀ i, 1 ≤ i < N → d_size (T i) = len (C i);
  wh_none : ∀ i, N ≤ i < NINODES → d_type (T i) = 0;
  wh_rest : ∀ b, 0 ≤ b < nmeta → ¬ (inodestart sb_ ≤ b < bmapstart sb_) → img m b = if b =? 1 then sb_block else zero_block }.

Lemma iblock_meta i : 1 ≤ i < NINODES → inodestart sb_ ≤ IBLOCK i sb_ < bmapstart sb_ ∧ 0 ≤ IBLOCK i sb_ < nmeta.
Proof.
  intros Hi. unfold IBLOCK. change (inodestart sb_) with 32. change (bmapstart sb_) with 45. change nmeta with 46. mk_lia.
Qed.

Lemma inv_meta N T n C m b x : inv N T n C m → 0 ≤ b < nmeta → block_ok x → inv N T n C (set_img (<[b := x]> (img m)) m).
Proof.
  intros H Hb Hx. pose proof (iv_free _ _ _ _ _ H) as Hfree.
  assert (Hblk : ∀ i k, 1 ≤ i < N → blk (T i) (<[b := x]> (img m)) k = blk (T i) (img m) k).
  { intros i k Hi. apply blk_frame. intros Ha. apply fn_lookup_insert_ne. destruct (inv_ind _ _ _ _ _ H i Hi Ha) as [Hh Eb].
    pose proof (iv_in _ _ _ _ _ H i MAXFILE Hi ltac:(mk_lia) Hh). lia. }
  split; try apply H; cbn [img set_img freeblock].
  - intros i k Hi. rewrite Hblk by done. by apply (iv_in _ _ _ _ _ H).
  - intros i k Hi. rewrite Hblk by done. by apply (iv_out _ _ _ _ _ H).
  - intros i k j l Hi Hj. rewrite !Hblk by done. by apply (iv_inj _ _ _ _ _ H).
  - intros c Hc. destruct (decide (b = c)) as [<-|]; [by rewrite fn_lookup_insert|rewrite fn_lookup_insert_ne by done; by apply (iv_ok _ _ _ _ _ H)].
  - intros c Hc. rewrite fn_lookup_insert_ne by lia. by apply (iv_zero _ _ _ _ _ H).
  - intros i k Hi Hk. rewrite <- (iv_data _ _ _ _ _ H i k Hi Hk). pose proof (iv_n _ _ _ _ _ H i Hi) as [Hn _].
    assert (Hq : 0 ≤ k / BSIZE < n i) by mk_lia. unfold dbyte. rewrite <- !blk_nthb, Hblk by (done || lia).
    pose proof (iv_in _ _ _ _ _ H i (k / BSIZE) Hi ltac:(lia) ltac:(rewrite has_data by lia; apply Z.ltb_lt; lia)).
    by rewrite fn_lookup_insert_ne by lia.
Qed.

Lemma inv_fits N T n C m i : inv N T n C m → 1 ≤ i < N → Forall (λ a, 0 ≤ a < 2 ^ 32) (d_addrs (T i)).
Proof.
  intros H Hi. apply Forall_lookup. intros t a Ha. pose proof (lookup_lt_Some _ _ _ Ha) as Ht. rewrite (iv_addrs _ _ _ _ _ H i Hi) in Ht.
  assert (Hk : ∃ k, 0 ≤ k ≤ MAXFILE ∧ blk (T i) (img m) k = a).
  { assert (Ea : addr (T i) (Z.of_nat t) = a) by (unfold addr; by rewrite Nat2Z.id, Ha).
    destruct (decide (Z.of_nat t = NDIRECT)) as [Et|Hne]; [exists MAXFILE; split; [mk_lia|]; rewrite Et in Ea; exact Ea|].
    exists (Z.of_nat t). rewrite blk_direct by mk_lia. split; [mk_lia|done]. }
  destruct Hk as (k & Hk & <-). pose proof (iv_free _ _ _ _ _ H). destruct (has (n i) k) eqn:E.
  - pose proof (iv_in _ _ _ _ _ H i k Hi Hk E). mk_lia.
  - rewrite (iv_out _ _ _ _ _ H i k Hi Hk E). lia.
Qed.

Lemma wp_winode i d m (Q : unit → mkst → Prop) : 1 ≤ i < NINODES → imglen m = FSSIZE →
  Q tt (set_img (<[IBLOCK i sb_ := put_dinode i d (img m (IBLOCK i sb_))]> (img m)) m) → wp (winode i d) Q m.
Proof.
  intros Hi Hl HQ. pose proof (iblock_meta i Hi). unfold winode. apply wp_bind, wp_rsect; [mk_lia|done|]. apply wp_wsect; [mk_lia|done|]. exact HQ.
Qed.

Lemma wp_rinode i m (Q : dinode → mkst → Prop) : 1 ≤ i < NINODES → imglen m = FSSIZE →
  Q (get_dinode i (img m (IBLOCK i sb_))) m → wp (rinode i) Q m.
Proof. intros Hi Hl HQ. pose proof (iblock_meta i Hi). unfold rinode. apply wp_bind, wp_rsect; [mk_lia|done|]. by apply wp_ret. Qed.

(** Storing an inode changes that inode. *)
Lemma disk_put i d (cur : Z → bytes) j : 1 ≤ i < NINODES → 1 ≤ j < NINODES → block_ok (cur (IBLOCK i sb_)) → dinode_fits d →
  get_dinode j ((<[IBLOCK i sb_ := put_dinode i d (cur (IBLOCK i sb_))]> cur) (IBLOCK j sb_)) =
  if decide (i = j) then d else get_dinode j (cur (IBLOCK j sb_)).
Proof.
  intros Hi Hj [Hl _] Hd. destruct (decide (i = j)) as [<-|Hne]; [rewrite fn_lookup_insert; by apply get_put_dinode_eq|].
  destruct (decide (IBLOCK i sb_ = IBLOCK j sb_)) as [E|E]; [|by rewrite fn_lookup_insert_ne].
  rewrite <- E, fn_lookup_insert. rewrite get_put_dinode_ne; [done|]. unfold IBLOCK in E. mk_lia.
Qed.

Lemma whole_block N T C ty m b : whole N T C ty m → 0 ≤ b < FSSIZE → block_ok (img m b).
Proof. intros Hw Hb. by apply (iv_ok _ _ _ _ _ (wh_inv _ _ _ _ _ Hw)). Qed.

Lemma iappend_ok N T C ty m i p : whole N T C ty m → 1 ≤ i < N → is_bytes p → len (C i) + len p ≤ MAXFILE * BSIZE →
  freeblock m + need (nb (len (C i) + len p)) - need (nb (len (C i))) ≤ FSSIZE →
  wp (iappend i p) (λ _ m', (∃ T', whole N T' (<[i := C i ++ p]> C) ty m') ∧
    freeblock m' = freeblock m + need (nb (len (C i) + len p)) - need (nb (len (C i)))) m.
Proof.
  intros [H HN Hnext Hdisk Hmeta Hsize Hnone Hrest] Hi Hp Hmax Hcap. pose proof (iv_len _ _ _ _ _ H) as Hl.
  assert (HiN : 1 ≤ i < NINODES) by lia. pose proof (iblock_meta i HiN) as [HI HI'].
  unfold iappend. apply wp_bind, wp_rinode; [done|done|]. rewrite Hdisk, Hsize by done. apply wp_bind.
  eapply wp_mono; [apply (iappend_loop_ok N i Hi (S (length p)) _ _ _ _ p H); [lia|done|done|done|done]|].
  intros [d off] m1 (-> & H1 & [K1 K2 K3 K4 K5 K6]). cbn [fst snd] in *.
  destruct (Hmeta i Hi) as (Hty & M1 & M2 & M3 & M4).
  assert (Hfits : dinode_fits (with_size (len (C i) + len p) d)).
  { split; cbn [d_type d_major d_minor d_nlink d_size d_addrs with_size]; rewrite ?K1, ?K2, ?K3, ?K4, ?M1, ?M2, ?M3, ?M4; unfold s16_ok in *; try lia; try done; [mk_lia| |].
    - pose proof (iv_addrs _ _ _ _ _ H1 i Hi) as E. by rewrite fn_lookup_insert in E.
    - pose proof (inv_fits _ _ _ _ _ i H1 Hi) as E. by rewrite fn_lookup_insert in E. }
  assert (Hok : block_ok (img m1 (IBLOCK i sb_))) by (apply (iv_ok _ _ _ _ _ H1); mk_lia).
  apply wp_winode; [done|apply H1|]. cbn [freeblock set_img]. split.
  2:{ rewrite (iv_total _ _ _ _ _ H1), (iv_total _ _ _ _ _ H), total_upd by done. lia. }
  exists (<[i := with_size (len (C i) + len p) d]> T). split; cbn [img set_img freeinode]; try done.
  - apply inv_meta; [|done|destruct Hok; split; [by rewrite length_put_dinode|by apply is_bytes_put_dinode]].
    eapply inv_ext; [exact H1|]. intros j Hj. destruct (decide (i = j)) as [<-|Hne]; [|by rewrite !fn_lookup_insert_ne].
    rewrite !fn_lookup_insert, length_app, Nat2Z.inj_add. done.
  - congruence.
  - intros j Hj. rewrite disk_put by done. destruct (decide (i = j)) as [<-|Hne]; [by rewrite fn_lookup_insert|].
    rewrite fn_lookup_insert_ne, K6 by (done || by apply iblock_meta). by apply Hdisk.
  - intros j Hj. destruct (decide (i = j)) as [<-|Hne]; [|rewrite fn_lookup_insert_ne by done; by apply Hmeta].
    rewrite fn_lookup_insert. simpl. rewrite K1, K2, K3, K4. done.
  - intros j Hj. destruct (decide (i = j)) as [<-|Hne]; [|rewrite !fn_lookup_insert_ne by done; by apply Hsize].
    rewrite !fn_lookup_insert, length_app. simpl. lia.
  - intros j Hj. rewrite fn_lookup_insert_ne by lia. by apply Hnone.
  - intros b Hb Hb'. rewrite fn_lookup_insert_ne by (intros E; apply Hb'; by rewrite <- E). rewrite K6 by done. by apply Hrest.
Qed.

Lemma inv_new N T n C m : inv N T n C m → 1 ≤ N → n N = 0 → C N = [] → length (d_addrs (T N)) = Z.to_nat (NDIRECT + 1) →
  (∀ k, blk (T N) (img m) k = 0) → inv (N + 1) T n C m.
Proof.
  intros [H1 H2 H3 H4 H5 H6 H7 H8 H9 H10 H11] HN Hn HC Ha Hb.
  assert (Hcase : ∀ i, 1 ≤ i < N + 1 → 1 ≤ i < N ∨ i = N) by lia. assert (Hh : ∀ k, 0 ≤ k ≤ MAXFILE → has (n N) k = false).
  { intros k Hk. rewrite Hn. unfold has. case_match; apply Z.ltb_ge; mk_lia. }
  split; try done.
  - rewrite total_succ, Hn by done. unfold need. case_match; bsimpl; mk_lia.
  - intros i [Hi| ->]%Hcase; [by apply H4|done].
  - intros i [Hi| ->]%Hcase; [by apply H5|rewrite Hn, HC; simpl; mk_lia].
  - intros i k [Hi| ->]%Hcase Hk E; [by apply H6|rewrite Hh in E; done].
  - intros i k [Hi| ->]%Hcase Hk E; [by apply H7|done].
  - intros i k j l [Hi| ->]%Hcase [Hj| ->]%Hcase Hk Hl E E'; try (rewrite Hh in E by done; done); try (rewrite Hh in E' by done; done). by apply H8.
  - intros i k [Hi| ->]%Hcase Hk; [by apply H11|rewrite Hn in Hk; lia].
Qed.

Lemma ialloc_ok N T C ty m t : whole N T C ty m → N < NINODES → s16_ok t →
  wp (ialloc t) (λ r m', r = N ∧ (∃ T', whole (N + 1) T' (<[N := []]> C) (<[N := t]> ty) m') ∧ freeblock m' = freeblock m) m.
Proof.
  intros [H HN Hnext Hdisk Hmeta Hsize Hnone Hrest] HN' Ht. set (d := mk_dinode t 0 0 1 0 (replicate (Z.to_nat (NDIRECT + 1)) 0)).
  assert (Haddr : ∀ k, addr d k = 0).
  { intros k. unfold addr, d. cbn [d_addrs]. destruct (_ !! _) eqn:E; [|done]. by apply lookup_replicate_1 in E as [-> _]. }
  assert (Hblk : ∀ cur k, blk d cur k = 0) by (intros; unfold blk, nthb; rewrite !Haddr; by repeat case_match).
  assert (Hfits : dinode_fits d) by (split; cbn [d_type d_major d_minor d_nlink d_size d_addrs d]; unfold s16_ok in *; try lia; [done|apply Forall_replicate; lia]).
  pose proof (iblock_meta N ltac:(lia)) as [HI HI']. pose proof (iv_len _ _ _ _ _ H) as Hl.
  unfold ialloc. apply wp_bind, wp_gets, wp_bind, wp_modify, wp_bind. rewrite Hnext. apply wp_winode; [lia|done|]. apply wp_ret. split; [done|]. split; [|done].
  set (m' := set_img _ _). assert (Hok : block_ok (img m (IBLOCK N sb_))) by (apply (iv_ok _ _ _ _ _ H); mk_lia).
  assert (H1 : inv N T (λ i, nb (len (C i))) C (mk_mkst (img m) (imglen m) (u32 (N + 1)) (freeblock m))) by (destruct H; by split).
  assert (H2 : inv N (<[N := d]> T) (λ i, nb (len (<[N := []]> C i))) (<[N := []]> C) m').
  { apply inv_meta; [|done|destruct Hok; split; [by rewrite length_put_dinode|by apply is_bytes_put_dinode]].
    eapply inv_ext; [exact H1|]. intros j Hj. by rewrite !fn_lookup_insert_ne by lia. }
  exists (<[N := d]> T). split.
  - apply inv_new; [done|lia|by rewrite fn_lookup_insert|by rewrite fn_lookup_insert|by rewrite fn_lookup_insert|]. intros k. by rewrite fn_lookup_insert.
  - lia.
  - simpl. rewrite u32_small; [done|mk_lia].
  - intros j Hj. unfold m'. cbn [img set_img]. rewrite disk_put by (done || lia). destruct (decide (N = j)) as [<-|Hne]; [by rewrite fn_lookup_insert|].
    rewrite fn_lookup_insert_ne by done. by apply Hdisk.
  - intros j Hj. destruct (decide (N = j)) as [<-|Hne]; [by rewrite !fn_lookup_insert|]. rewrite !fn_lookup_insert_ne by done. apply Hmeta. lia.
  - intros j Hj. destruct (decide (N = j)) as [<-|Hne]; [by rewrite !fn_lookup_insert|]. rewrite !fn_lookup_insert_ne by done. apply Hsize. lia.
  - intros j Hj. rewrite fn_lookup_insert_ne by lia. apply Hnone. lia.
  - intros b Hb Hb'. unfold m'. cbn [img set_img]. rewrite fn_lookup_insert_ne by (intros E; apply Hb'; by rewrite <- E). by apply Hrest.
Qed.

(** ** The files in order *)

(** The type and contents of the files [1], [2], ... *)
Definition file_of (L : list (Z * bytes)) (i : Z) : Z * bytes := default (0, []) (L !! Z.to_nat (i - 1)).
Definition built (L : list (Z * bytes)) (m : mkst) : Prop :=
  ∃ T, whole (1 + len L) T (λ i, (file_of L i).2) (λ i, (file_of L i).1) m.
Definition cost (L : list (Z * bytes)) : Z := foldr (λ f a, need (nb (len f.2)) + a) 0 L.

Lemma file_of_at L k f : L !! k = Some f → file_of L (Z.of_nat k + 1) = f.
Proof. intros E. unfold file_of. replace (Z.to_nat (Z.of_nat k + 1 - 1)) with k by lia. by rewrite E. Qed.

Lemma cost_cons t c L : cost ((t, c) :: L) = need (nb (len c)) + cost L.
Proof. done. Qed.

Lemma cost_app L L' : cost (L ++ L') = cost L + cost L'.
Proof. induction L as [|f L IH]; simpl; [done|]. unfold cost in *. rewrite IH. lia. Qed.

Lemma tree_cost_nonneg L : 0 ≤ cost L.
Proof.
  induction L as [|f L IH]; [done|]. unfold cost in *. cbn [foldr]. pose proof (nb_bounds (len f.2) ltac:(lia)).
  pose proof (need_mono 0 (nb (len f.2)) ltac:(lia)) as Hm. change (need 0) with 0 in Hm. lia.
Qed.

Lemma total_cost L : total (1 + len L) (λ i, nb (len (file_of L i).2)) = cost L.
Proof.
  induction L as [|f L IH] using rev_ind; [done|]. rewrite length_app. simpl length. replace (1 + Z.of_nat (length L + 1)) with (1 + len L + 1) by lia.
  rewrite total_succ by lia. rewrite cost_app, <- IH. f_equal.
  - apply total_ext. intros i Hi. unfold file_of. rewrite lookup_app_l by lia. done.
  - replace (1 + len L) with (len L + 1) by lia. rewrite (file_of_at _ (length L) f); [simpl; lia|]. by rewrite lookup_app_r, Nat.sub_diag by lia.
Qed.

Lemma built_free L m : built L m → freeblock m = nmeta + cost L.
Proof. intros (T & Hw). rewrite (iv_total _ _ _ _ _ (wh_inv _ _ _ _ _ Hw)). f_equal. apply total_cost. Qed.

Lemma whole_ext N T C C' ty ty' m : whole N T C ty m → (∀ i, 1 ≤ i < N → C' i = C i ∧ ty' i = ty i) → whole N T C' ty' m.
Proof.
  intros [H HN Hnext Hdisk Hmeta Hsize Hnone Hrest] E.
  assert (EC : ∀ i, 1 ≤ i < N → C' i = C i) by (intros; by apply E). assert (Et : ∀ i, 1 ≤ i < N → ty' i = ty i) by (intros; by apply E).
  split; try done.
  - eapply inv_ext; [exact H|]. intros i Hi. by rewrite EC.
  - intros i Hi. rewrite Et by done. by apply Hmeta.
  - intros i Hi. rewrite EC by done. by apply Hsize.
Qed.

Lemma cost_insert L k t c p : L !! k = Some (t, c) → cost (<[k := (t, c ++ p)]> L) = cost L + need (nb (len c + len p)) - need (nb (len c)).
Proof.
  intros Hk. rewrite insert_take_drop by (by eapply lookup_lt_Some). rewrite <- (take_drop_middle L k (t, c) Hk) at 3. rewrite !cost_app.
  unfold cost. simpl. rewrite length_app, Nat2Z.inj_add. lia.
Qed.

Lemma built_append L m k t c p : built L m → L !! k = Some (t, c) → is_bytes p → len c + len p ≤ MAXFILE * BSIZE →
  nmeta + cost (<[k := (t, c ++ p)]> L) ≤ FSSIZE → wp (iappend (Z.of_nat k + 1) p) (λ _, built (<[k := (t, c ++ p)]> L)) m.
Proof.
  intros Hb Hk Hp Hmax Hcap. pose proof (built_free _ _ Hb) as Hfb. destruct Hb as (T & Hw). pose proof (lookup_lt_Some _ _ _ Hk) as Hlt.
  rewrite (cost_insert _ _ _ _ _ Hk) in Hcap. pose proof (file_of_at L k _ Hk) as Ef.
  eapply wp_mono; [eapply (iappend_ok _ _ _ _ _ (Z.of_nat k + 1) p Hw); rewrite ?Ef; simpl; try done; lia|].
  intros _ m' [(T' & Hw') _]. exists T'. rewrite length_insert. eapply whole_ext; [exact Hw'|]. intros i Hi. cbv beta.
  destruct (decide (Z.of_nat k + 1 = i)) as [<-|Hne].
  - rewrite fn_lookup_insert. rewrite (file_of_at _ k (t, c ++ p)) by (by apply list_lookup_insert_eq). by rewrite Ef.
  - rewrite fn_lookup_insert_ne by done. unfold file_of. rewrite list_lookup_insert_ne by lia. done.
Qed.

Lemma built_alloc L m t : built L m → 1 + len L < NINODES → s16_ok t →
  wp (ialloc t) (λ r m', r = 1 + len L ∧ built (L ++ [(t, [])]) m') m.
Proof.
  intros (T & Hw) HN Ht. eapply wp_mono; [by eapply ialloc_ok|]. intros r m' (-> & (T' & Hw') & _). split; [done|]. exists T'.
  rewrite length_app. simpl length. replace (1 + Z.of_nat (length L + 1)) with (1 + len L + 1) by lia.
  eapply whole_ext; [exact Hw'|]. intros i Hi. cbv beta. destruct (decide (1 + len L = i)) as [<-|Hne].
  - rewrite !fn_lookup_insert. replace (1 + len L) with (len L + 1) by lia.
    rewrite (file_of_at _ (length L) (t, [])); [done|]. by rewrite lookup_app_r, Nat.sub_diag by lia.
  - rewrite !fn_lookup_insert_ne by done. unfold file_of. by rewrite lookup_app_l by lia.
Qed.

Lemma nbneed_mono a b : a ≤ b → need (nb a) ≤ need (nb b).
Proof. intros Hab. by apply need_mono, nb_mono. Qed.

Lemma append_all_ok reads : ∀ L m k t c, built L m → L !! k = Some (t, c) → Forall is_bytes reads →
  len c + len (concat reads) ≤ MAXFILE * BSIZE → nmeta + cost (<[k := (t, c ++ concat reads)]> L) ≤ FSSIZE →
  wp (append_all (Z.of_nat k + 1) reads) (λ _, built (<[k := (t, c ++ concat reads)]> L)) m.
Proof.
  induction reads as [|p reads IH]; intros L m k t c Hb Hk Hr Hmax Hcap; cbn [append_all concat] in *.
  - apply wp_ret. rewrite app_nil_r. by rewrite list_insert_id.
  - apply Forall_cons in Hr as [Hp Hr]. rewrite length_app, Nat2Z.inj_add in Hmax. pose proof (lookup_lt_Some _ _ _ Hk) as Hlt.
    pose proof Hcap as Hcap2. rewrite (cost_insert _ _ _ _ _ Hk), length_app, Nat2Z.inj_add in Hcap.
    pose proof (nbneed_mono (len c + len p) (len c + (len p + len (concat reads))) ltac:(lia)).
    apply wp_bind. eapply wp_mono; [eapply (built_append L m k t c p); try done; [lia|rewrite (cost_insert _ _ _ _ _ Hk); lia]|].
    intros [] m' Hb'. assert (E : <[k := (t, c ++ p ++ concat reads)]> L = <[k := (t, (c ++ p) ++ concat reads)]> (<[k := (t, c ++ p)]> L)) by (by rewrite list_insert_insert_eq, <- app_assoc).
    rewrite E in *. eapply IH; [done|by apply list_lookup_insert_eq|done|rewrite length_app; lia|done].
Qed.

(** A file that can be installed. *)
Record file_ok (f : bytes * option (list bytes)) : Prop := {
  fo_name : is_bytes f.1 ∧ SLASH ∉ shortname1 f.1 ∧ len (shortname f.1) ≤ DIRSIZ;
  fo_reads : ∃ reads, f.2 = Some reads ∧ Forall is_bytes reads ∧ len (concat reads) ≤ MAXFILE * BSIZE }.

Definition content (f : bytes * option (list bytes)) : bytes := concat (default [] f.2).
Fixpoint entries (i : Z) (names : list bytes) : bytes :=
  match names with [] => [] | x :: l => mk_dirent i x ++ entries (i + 1) l end.
Definition files (fs : list (bytes * option (list bytes))) : list (Z * bytes) := map (λ f, (T_FILE, content f)) fs.

Lemma length_entries l : ∀ i, len (entries i l) = DIRENT_SIZE * len l.
Proof. induction l as [|x l IH]; intros i; cbn [entries length]; [lia|]. rewrite length_app. pose proof (mk_dirent_len i x). specialize (IH (i + 1)). lia. Qed.

Lemma is_bytes_shortname l : is_bytes l → is_bytes (shortname l).
Proof.
  intros H. assert (H1 : is_bytes (shortname1 l)) by (unfold shortname1; case_match; [by apply Forall_drop|done]).
  unfold shortname. destruct (shortname1 l) as [|c l']; [done|]. simpl. case_match; [by apply Forall_cons in H1 as [_ ?]|done].
Qed.

Lemma add_file_ok L r m f : built ((T_DIR, r) :: L) m → file_ok f → 2 + len L < NINODES → len r + DIRENT_SIZE ≤ MAXFILE * BSIZE →
  let L' := (T_DIR, r ++ mk_dirent (2 + len L) (shortname f.1)) :: L ++ [(T_FILE, content f)] in
  nmeta + cost L' ≤ FSSIZE → wp (add_file ROOTINO f) (λ _, built L') m.
Proof.
  intros Hb [(Hn1 & Hn2 & Hn3) (reads & Hr1 & Hr2 & Hr3)] HN Hmax L' Hcap.
  pose proof (mk_dirent_len (2 + len L) (shortname f.1)) as Hde. set (de := mk_dirent _ _) in *.
  assert (Hcost : cost L' = need (nb (len r + DIRENT_SIZE)) + cost L + need (nb (len (content f)))).
  { unfold L'. rewrite cost_cons, cost_app, cost_cons, length_app, Nat2Z.inj_add, Hde. change (cost []) with 0. lia. }
  pose proof (nbneed_mono 0 (len (content f)) ltac:(lia)) as H0. change (need (nb 0)) with 0 in H0.
  unfold add_file. apply wp_bind, wp_assert; [by rewrite bool_decide_eq_false_2|]. rewrite Hr1.
  apply wp_bind, wp_assert; [apply Z.leb_le; exact Hn3|]. apply wp_bind.
  eapply wp_mono; [eapply (built_alloc _ _ T_FILE Hb); [simpl; lia|done]|]. intros i m1 [-> Hb1]. simpl app in Hb1.
  replace (1 + len ((T_DIR, r) :: L)) with (2 + len L) by (simpl length; lia). apply wp_bind. change (shortname2 (shortname1 f.1)) with (shortname f.1). fold de.
  change ROOTINO with (Z.of_nat 0 + 1).
  eapply wp_mono; [eapply (built_append _ _ 0 T_DIR r de Hb1 eq_refl); [by apply is_bytes_dirent, is_bytes_shortname|lia|]|].
  { cbn [insert list_insert]. rewrite cost_cons, cost_app, cost_cons, length_app, Nat2Z.inj_add, Hde. change (cost []) with 0. change (need (nb (len (@nil Z)))) with 0. lia. }
  intros [] m2 Hb2. simpl in Hb2. replace (2 + len L) with (Z.of_nat (S (length L)) + 1) by lia.
  assert (Ec : content f = concat reads) by (unfold content; by rewrite Hr1).
  assert (EL : L' = <[S (length L) := (T_FILE, [] ++ concat reads)]> ((T_DIR, r ++ de) :: L ++ [(T_FILE, [])])).
  { simpl. rewrite insert_app_r_alt, Nat.sub_diag by lia. simpl. unfold L'. by rewrite Ec. }
  rewrite EL in *. eapply append_all_ok; [done| |done|simpl; lia|done]. simpl. by rewrite lookup_app_r, Nat.sub_diag by lia.
Qed.

Lemma add_files_ok fs : ∀ L r m, built ((T_DIR, r) :: L) m → Forall file_ok fs → 2 + len L + len fs ≤ NINODES → len r + DIRENT_SIZE * len fs ≤ MAXFILE * BSIZE →
  let L' := (T_DIR, r ++ entries (2 + len L) (map (shortname ∘ fst) fs)) :: L ++ files fs in
  nmeta + cost L' ≤ FSSIZE → wp (add_files ROOTINO fs) (λ _, built L') m.
Proof.
  induction fs as [|f fs IH]; intros L r m Hb Hfs HN Hmax L' Hcap; cbn [add_files].
  { apply wp_ret. unfold L'. simpl. by rewrite !app_nil_r. }
  apply Forall_cons in Hfs as [Hf Hfs]. set (de := mk_dirent (2 + len L) (shortname f.1)). set (L1 := L ++ [(T_FILE, content f)]).
  assert (HL1 : 2 + len L1 = 2 + len L + 1) by (unfold L1; rewrite length_app; simpl; lia).
  assert (EL : L' = (T_DIR, (r ++ de) ++ entries (2 + len L1) (map (shortname ∘ fst) fs)) :: L1 ++ files fs).
  { unfold L', L1 at 2. rewrite HL1. simpl. by rewrite <- !app_assoc. }
  pose proof (mk_dirent_len (2 + len L) (shortname f.1)) as Hde. fold de in Hde. simpl length in HN, Hmax. apply wp_bind.
  eapply wp_mono; [eapply (add_file_ok L r m f Hb Hf); [lia|unfold DIRENT_SIZE in *; mk_lia|]|].
  - fold de L1. rewrite EL in Hcap. rewrite cost_cons, cost_app, length_app in Hcap. rewrite cost_cons. pose proof (tree_cost_nonneg (files fs)).
    pose proof (nbneed_mono (len (r ++ de)) (Z.of_nat (length (r ++ de) + length (entries (2 + len L1) (map (shortname ∘ fst) fs)))) ltac:(lia)). lia.
  - fold de L1. intros [] m1 Hb1. rewrite EL in *. apply IH; [done|done|lia| |done]. rewrite length_app.
    mk_lia.
Qed.

(** ** The beginning and the end of main *)

Lemma zero_get n o : le_val (sub_bytes o n zero_block) = 0.
Proof.
  unfold sub_bytes, zero_block. rewrite drop_replicate, take_replicate. generalize (n `min` (Z.to_nat BSIZE - Z.to_nat o))%nat. intros k.
  induction k as [|k IH]; [done|]. cbn [replicate le_val]. by rewrite IH.
Qed.

Lemma start_ok (k : M mkst unit) Q m : (∀ m', built [] m' → wp k Q m') →
  wp (modify (λ m, mk_mkst (img m) 0 1 nmeta);; for_range 0 (Z.to_nat FSSIZE) (λ i, wsect i zero_block);; wsect 1 sb_block;; k) Q m.
Proof.
  intros Hk. apply wp_bind, wp_modify, wp_bind. set (m1 := mk_mkst _ _ _ _).
  set (I := λ (i : Z) (m : mkst), imglen m = i ∧ freeinode m = 1 ∧ freeblock m = nmeta ∧ ∀ b, 0 ≤ b < i → img m b = zero_block).
  eapply wp_mono; [apply (wp_for_range I); [unfold I; simpl; split_and!; done || lia|]|].
  - intros j m2 Hj (E1 & E2 & E3 & E4). assert (0 ≤ j < FSSIZE) as Hj' by mk_lia. apply wp_wsect_any. rewrite seek_small by done. unfold I. simpl. rewrite E1, Z.max_r by lia.
    split_and!; try done. intros b Hb. destruct (decide (j = b)) as [<-|Hne]; [by rewrite fn_lookup_insert|]. rewrite fn_lookup_insert_ne by done. apply E4. lia.
  - intros [] m2 (E1 & E2 & E3 & E4). replace (0 + Z.of_nat (Z.to_nat FSSIZE)) with FSSIZE in * by mk_lia.
    apply wp_bind, wp_wsect; [mk_lia|done|]. apply Hk. exists (λ i, get_dinode i zero_block). change (1 + len []) with 1.
    assert (Himg : ∀ b, 0 ≤ b < FSSIZE → b ≠ 1 → (<[1 := sb_block]> (img m2)) b = zero_block) by (intros b Hb Hne; rewrite fn_lookup_insert_ne by done; by apply E4).
    split; cbn [img set_img freeinode]; try done; try lia.
    + split; cbn [img set_img freeblock imglen]; try done; try lia; try mk_lia.
      * intros b Hb. destruct (decide (b = 1)) as [->|Hne]; [rewrite fn_lookup_insert; vm_compute; split; [done|by repeat constructor]|].
        rewrite Himg by done. apply zero_block_ok.
      * intros b Hb. apply Himg; mk_lia.
    + intros i Hi. pose proof (iblock_meta i Hi) as [HI HI']. change (inodestart sb_) with 32 in HI. rewrite Himg by mk_lia. done.
    + intros i Hi. unfold get_dinode, get16. cbn [d_type]. by rewrite zero_get.
    + intros b Hb _. case_match; bsimpl; [subst; by rewrite fn_lookup_insert|]. apply Himg; mk_lia.
Qed.

(** The bitmap that [balloc] writes. *)
Lemma marks_ok k : Z.of_nat k ≤ 8 * BSIZE → let d := foldl (λ buf i, bit_mark i buf) zero_block (seqZ 0 (Z.of_nat k)) in
  block_ok d ∧ ∀ b, 0 ≤ b → bit_free d b = (Z.of_nat k <=? b).
Proof.
  induction k as [|k IH]; intros Hk d.
  - split; [apply zero_block_ok|]. intros b Hb. rewrite (proj2 (Z.leb_le _ b)) by lia. unfold d, bit_free. simpl. apply Z.eqb_eq.
    assert (get8 zero_block (b / 8) = 0) as ->; [|done]. unfold get8, zero_block. destruct (_ !! _) eqn:E; [|done]. by apply lookup_replicate_1 in E as [-> _].
  - destruct (IH ltac:(lia)) as [[Hl Hby] Hb]. unfold d. rewrite Nat2Z.inj_succ. unfold Z.succ. rewrite seqZ_app, foldl_app by lia. cbn [foldl seqZ].
    replace (seqZ (0 + Z.of_nat k) 1) with [Z.of_nat k] by (by rewrite Z.add_0_l). cbn [foldl].
    set (d0 := foldl _ _ _) in *. split.
    + split; [unfold bit_mark; by rewrite length_put8|by apply is_bytes_put8].
    + intros b Hb'. rewrite bit_mark_spec by (done || lia). rewrite Hb by done.
      destruct (Z.of_nat k =? b) eqn:E1, (Z.of_nat k <=? b) eqn:E2, (Z.of_nat k + 1 <=? b) eqn:E3; bsimpl; done || lia.
Qed.

(** The finished image: the root directory has its rounded size, and the bitmap is in place. *)
Record sealed (N : Z) (T : Z → dinode) (C : Z → bytes) (ty : Z → Z) (m : mkst) : Prop := {
  se_inv : inv N T (λ i, nb (len (C i))) C m;
  se_disk : ∀ i, 1 ≤ i < NINODES → get_dinode i (img m (IBLOCK i sb_)) = T i;
  se_meta : ∀ i, 1 ≤ i < N → d_type (T i) = ty i ∧ d_nlink (T i) = 1;
  se_size : ∀ i, 1 ≤ i < N → d_size (T i) = if i =? ROOTINO then (len (C i) / BSIZE + 1) * BSIZE else len (C i);
  se_none : ∀ i, N ≤ i < NINODES → d_type (T i) = 0;
  se_rest : ∀ b, 1 ≤ b < inodestart sb_ → img m b = if b =? 1 then sb_block else zero_block;
  se_use : ∀ b, 0 ≤ b < FSSIZE → in_use sb_ (img m) b ↔ b < freeblock m }.

Lemma finish_ok N T C ty m : whole N T C ty m → 1 < N →
  wp (fix_root ROOTINO;; used ← gets freeblock; balloc used) (λ _ m', freeblock m' = freeblock m ∧ ∃ T', sealed N T' C ty m') m.
Proof.
  intros [H HN Hnext Hdisk Hmeta Hsize Hnone Hrest] H1. pose proof (iv_len _ _ _ _ _ H) as Hl. pose proof (iv_free _ _ _ _ _ H) as Hfree.
  assert (Hr : 1 ≤ ROOTINO < NINODES) by done. assert (Hr' : 1 ≤ ROOTINO < N) by (unfold ROOTINO; lia).
  pose proof (iblock_meta ROOTINO Hr) as [HI HI']. pose proof (iv_n _ _ _ _ _ H ROOTINO Hr') as [Hn HC].
  apply wp_bind. unfold fix_root. apply wp_bind, wp_rinode; [done|done|]. rewrite Hdisk by done.
  set (sz := u32 _). assert (Hsz : sz = (len (C ROOTINO) / BSIZE + 1) * BSIZE) by (unfold sz; rewrite Hsize by done; apply u32_small; mk_lia).
  set (d := with_size sz (T ROOTINO)). apply wp_winode; [done|done|]. apply wp_bind, wp_gets. unfold balloc. cbn [freeblock set_img].
  assert (0 ≤ freeblock m < BPB) as Hu by mk_lia. apply wp_bind, wp_assert; [apply Z.ltb_lt; lia|].
  destruct (marks_ok (Z.to_nat (freeblock m))) as [Hmok Hbits]; [mk_lia|]. rewrite Z2Nat.id in * by lia. set (bm := foldl _ _ _) in *.
  apply wp_wsect; [done|done|]. split; [done|]. exists (<[ROOTINO := d]> T). set (m1 := set_img _ m). cbn [img set_img freeblock].
  assert (Hok : block_ok (img m (IBLOCK ROOTINO sb_))) by (apply (iv_ok _ _ _ _ _ H); mk_lia).
  assert (Hfits : dinode_fits d).
  { destruct (Hmeta ROOTINO Hr') as (Hty & M1 & M2 & M3 & M4). split; cbn [d_type d_major d_minor d_nlink d_size d_addrs with_size d]; rewrite ?M1, ?M2, ?M3, ?M4; unfold s16_ok in *; try lia; try done; [mk_lia|by apply (iv_addrs _ _ _ _ _ H)|].
    by apply (inv_fits _ _ _ _ _ _ H). }
  change (bmapstart sb_) with 45 in *. change (inodestart sb_) with 32 in *. change nmeta with 46 in *.
  split; cbn [img set_img freeblock].
  - apply (inv_meta N (<[ROOTINO := d]> T) _ C m1); [|done|done]. eapply inv_ext; [apply (inv_meta N T _ C m); [exact H|done|]|].
    + destruct Hok; split; [by rewrite length_put_dinode|by apply is_bytes_put_dinode].
    + intros i Hi. destruct (decide (ROOTINO = i)) as [<-|Hne]; [by rewrite fn_lookup_insert|by rewrite fn_lookup_insert_ne].
  - intros i Hi. pose proof (iblock_meta i Hi) as [HJ _]. change (bmapstart sb_) with 45 in HJ. rewrite fn_lookup_insert_ne by lia. unfold m1. cbn [img set_img].
    rewrite disk_put by done. destruct (decide (ROOTINO = i)) as [<-|Hne]; [by rewrite fn_lookup_insert|]. rewrite fn_lookup_insert_ne by done. by apply Hdisk.
  - intros i Hi. destruct (decide (ROOTINO = i)) as [<-|Hne]; [rewrite fn_lookup_insert; simpl; destruct (Hmeta ROOTINO Hr'); tauto|].
    rewrite fn_lookup_insert_ne by done. destruct (Hmeta i Hi). tauto.
  - intros i Hi. destruct (decide (ROOTINO = i)) as [<-|Hne]; [by rewrite fn_lookup_insert, Z.eqb_refl|].
    rewrite fn_lookup_insert_ne by done. rewrite (proj2 (Z.eqb_neq i ROOTINO)) by done. by apply Hsize.
  - intros i Hi. rewrite fn_lookup_insert_ne by (unfold ROOTINO; lia). by apply Hnone.
  - intros b Hb. change (inodestart sb_) with 32 in Hb. rewrite fn_lookup_insert_ne by lia. unfold m1. cbn [img set_img]. rewrite fn_lookup_insert_ne by lia. apply Hrest; lia.
  - intros b Hb. unfold in_use, BBLOCK. change (bmapstart sb_) with 45. replace (b / BPB) with 0 by mk_lia. replace (b mod BPB) with b by mk_lia.
    rewrite Z.add_0_l, fn_lookup_insert, Hbits by lia. apply Z.leb_gt.
Qed.

(** ** What the kernel finds on the image *)

Section found.
Context (x0 : inode).

(** The inode [i] as ilock loads it. *)
Definition on_disk (m : mkst) (i : Z) : inode := load_inode (get_dinode i (img m (IBLOCK i sb_))) x0.

Section image.
Context (N : Z) (T : Z → dinode) (C : Z → bytes) (ty : Z → Z) (m : mkst) (H : sealed N T C ty m).
Let Hinv := se_inv _ _ _ _ _ H.

Lemma on_disk_eq i : 1 ≤ i < NINODES → on_disk m i = load_inode (T i) x0.
Proof using H. intros Hi. unfold on_disk. by rewrite (se_disk _ _ _ _ _ H). Qed.

Lemma nth_block_blk d k : k < MAXFILE → nth_block (load_inode d x0) (img m) k = blk d (img m) k.
Proof using. intros Hk. by rewrite blk_nthb. Qed.

Lemma nb_len i : 1 ≤ i < N → 0 ≤ nb (len (C i)) ≤ MAXFILE ∧ len (C i) ≤ nb (len (C i)) * BSIZE < len (C i) + BSIZE.
Proof using Hinv. intros Hi. destruct (iv_n _ _ _ _ _ Hinv i Hi) as [? ?]. pose proof (nb_bounds (len (C i)) ltac:(lia)). lia. Qed.

Lemma used_block i k : 1 ≤ i < N → 0 ≤ k ≤ MAXFILE → blk (T i) (img m) k ≠ 0 →
  has (nb (len (C i))) k = true ∧ data_start sb_ ≤ blk (T i) (img m) k < sb_size sb_ ∧ in_use sb_ (img m) (blk (T i) (img m) k).
Proof using Hinv.
  intros Hi Hk Hnz. destruct (has (nb (len (C i))) k) eqn:E; [|by apply (iv_out _ _ _ _ _ Hinv i k Hi Hk) in E].
  pose proof (iv_in _ _ _ _ _ Hinv i k Hi Hk E) as Hr. pose proof (iv_free _ _ _ _ _ Hinv) as Hf.
  split; [done|]. change (data_start sb_) with nmeta. change (sb_size sb_) with FSSIZE. split; [lia|]. apply (se_use _ _ _ _ _ H); mk_lia.
Qed.

(** An inode is well-formed as far as its size does not pass its blocks. *)
Lemma sealed_wf i : 1 ≤ i < N → 0 ≤ d_size (T i) ≤ nb (len (C i)) * BSIZE → inode_wf sb_ (load_inode (T i) x0) (img m).
Proof using Hinv.
  intros Hi Hs. pose proof (nb_len i Hi) as [Hb _]. split.
  - by apply (iv_addrs _ _ _ _ _ Hinv).
  - intros k Hk. rewrite nth_block_blk by lia. intros Hnz. destruct (used_block i k Hi ltac:(lia) Hnz) as (Hh & Hr & Hu). split_and!; try done; try lia.
    change (addr_at (load_inode (T i) x0) NDIRECT) with (blk (T i) (img m) MAXFILE). intros E. destruct (used_block i MAXFILE Hi ltac:(mk_lia) ltac:(congruence)) as (Hh' & _).
    destruct (iv_inj _ _ _ _ _ Hinv i k i MAXFILE) as [_ ?]; try done; try mk_lia.
  - change (addr_at (load_inode (T i) x0) NDIRECT) with (blk (T i) (img m) MAXFILE). intros Hnz. destruct (used_block i MAXFILE Hi ltac:(mk_lia) Hnz). tauto.
  - intros k l Hk Hl. rewrite !nth_block_blk by lia. intros Hnz E. destruct (used_block i k Hi ltac:(lia) Hnz) as (Hh & _). rewrite E in Hnz.
    destruct (used_block i l Hi ltac:(lia) Hnz) as (Hh' & _). destruct (iv_inj _ _ _ _ _ Hinv i k i l); try done; lia.
  - cbn [isize load_inode]. mk_lia.
  - intros k Hk. cbn [isize load_inode]. intros Hlt. assert (k < nb (len (C i))) by mk_lia. rewrite nth_block_blk by lia.
    pose proof (iv_in _ _ _ _ _ Hinv i k Hi ltac:(lia) ltac:(rewrite has_data by lia; apply Z.ltb_lt; lia)). mk_lia.
Qed.

(** Past the last block there is none. *)
Lemma sealed_hole i : 1 ≤ i < N → nb (len (C i)) < MAXFILE → nb (len (C i)) * BSIZE < d_size (T i) → ¬ inode_wf sb_ (load_inode (T i) x0) (img m).
Proof using Hinv.
  intros Hi Hb Hs Hwf. pose proof (nb_len i Hi). apply (iw_dense _ _ _ Hwf (nb (len (C i)))); [lia|exact Hs|]. rewrite nth_block_blk by lia.
  apply (iv_out _ _ _ _ _ Hinv); [done|lia|]. rewrite has_data by lia. apply Z.ltb_ge. lia.
Qed.

Lemma sealed_bytes i off k : 1 ≤ i < N → 0 ≤ off → 0 ≤ k → off + k ≤ len (C i) → fslice (load_inode (T i) x0) (img m) off k = sub_bytes off (Z.to_nat k) (C i).
Proof using Hinv.
  intros Hi Ho Hk Hl. apply list_eq. intros t. unfold fslice. rewrite list_lookup_fmap. destruct (decide (t < Z.to_nat k)%nat) as [Ht|Ht].
  - rewrite lookup_seqZ_lt, lookup_sub_bytes by lia. cbn [fmap option_fmap option_map].
    pose proof (nb_len i Hi) as [_ Hb]. pose proof (iv_data _ _ _ _ _ Hinv i (off + Z.of_nat t) Hi ltac:(lia)) as Hd.
    change (fbyte (load_inode (T i) x0) (img m) (off + Z.of_nat t)) with (dbyte (T i) (img m) (off + Z.of_nat t)). rewrite Hd. unfold byte_at.
    replace (Z.to_nat (off + Z.of_nat t)) with (Z.to_nat off + t)%nat by lia.
    destruct (lookup_lt_is_Some_2 (C i) (Z.to_nat off + t)%nat ltac:(lia)) as [c Hc]. by rewrite Hc.
  - rewrite lookup_seqZ_ge by lia. rewrite sub_bytes_ge by lia. done.
Qed.

Lemma sealed_apart i j b : 1 ≤ i < N → 1 ≤ j < N → owned (load_inode (T i) x0) (img m) b → owned (load_inode (T j) x0) (img m) b → i = j.
Proof using Hinv.
  assert (Hown : ∀ i, owned (load_inode (T i) x0) (img m) b → b ≠ 0 ∧ ∃ k, 0 ≤ k ≤ MAXFILE ∧ b = blk (T i) (img m) k).
  { intros i' [Hnz [E|(k & Hk & E)]]; split; try done; [exists MAXFILE; split; [mk_lia|exact E]|]. exists k. rewrite nth_block_blk in E by lia. split; [lia|done]. }
  intros Hi Hj (Hnz & k & Hk & E)%Hown (_ & l & Hl & E')%Hown. destruct (used_block i k Hi Hk ltac:(congruence)) as (Hh & _). destruct (used_block j l Hj Hl ltac:(congruence)) as (Hh' & _).
  destruct (iv_inj _ _ _ _ _ Hinv i k j l); try done. congruence.
Qed.

End image.

(** The names in the root directory; the entry [j] has the number [max 1 j]. *)
Definition names (fs : list (bytes * option (list bytes))) : list bytes := dot :: dotdot :: map (shortname ∘ fst) fs.
Definition tree (fs : list (bytes * option (list bytes))) : list (Z * bytes) :=
  (T_DIR, mk_dirent ROOTINO dot ++ entries ROOTINO (tail (names fs))) :: files fs.

Record image (fs : list (bytes * option (list bytes))) (m : mkst) : Prop := {
  im_sb : get_sb (img m 1) = sb_ ∧ layout sb_ ∧ fs_ok sb_ (img m);
  im_log : ∀ b, logstart sb_ ≤ b < logstart sb_ + nlog sb_ → img m b = zero_block;
  im_use : ∀ b, 0 ≤ b < FSSIZE → in_use sb_ (img m) b ↔ b < nmeta + cost (tree fs);
  im_files : ∀ k f, fs !! k = Some f → let x := on_disk m (2 + Z.of_nat k) in
    type x = T_FILE ∧ nlink x = 1 ∧ inode_wf sb_ x (img m) ∧ fslice x (img m) 0 (isize x) = content f;
  im_root : let x := on_disk m ROOTINO in
    dir_wf x ∧ nlink x = 1 ∧ (inode_wf sb_ x (img m) ↔ (2 + len fs) mod 64 ≠ 0) ∧
    ∀ j name, names fs !! j = Some name → dir_lookup x (img m) name = Some (Z.max 1 (Z.of_nat j));
  im_apart : ∀ i j b, 1 ≤ i < 2 + len fs → 1 ≤ j < 2 + len fs →
    owned (on_disk m i) (img m) b → owned (on_disk m j) (img m) b → i = j;
  im_free : ∀ i, 2 + len fs ≤ i < NINODES → type (on_disk m i) = 0 }.

Lemma sub_entries l : ∀ pre i (p j : nat) x, len pre = DIRENT_SIZE * Z.of_nat p → l !! j = Some x →
  sub_bytes (DIRENT_SIZE * Z.of_nat (p + j)) (Z.to_nat DIRENT_SIZE) (pre ++ entries i l) = mk_dirent (i + Z.of_nat j) x.
Proof.
  induction l as [|y l IH]; intros pre i p j x Hp Hj; [done|]. cbn [entries]. pose proof (mk_dirent_len i y) as Hd. destruct j as [|j].
  - simpl in Hj. injection Hj as ->. rewrite Nat.add_0_r, Z.add_0_r. unfold sub_bytes. rewrite <- Hp, Nat2Z.id, drop_app_length.
    rewrite <- Hd, Nat2Z.id. apply take_app_length.
  - rewrite app_assoc. replace (p + S j)%nat with (S p + j)%nat by lia. rewrite (IH _ (i + 1) (S p) j x); [f_equal; lia| |done]. rewrite length_app. lia.
Qed.

(** The entry [j] of the root directory. *)
Lemma root_entry fs j name : names fs !! j = Some name →
  sub_bytes (DIRENT_SIZE * Z.of_nat j) (Z.to_nat DIRENT_SIZE) (mk_dirent ROOTINO dot ++ entries ROOTINO (tail (names fs))) = mk_dirent (Z.max 1 (Z.of_nat j)) name.
Proof.
  destruct j as [|j]; intros Hj.
  - injection Hj as <-. pose proof (mk_dirent_len ROOTINO dot) as Hd. unfold sub_bytes. rewrite <- Hd, Nat2Z.id. rewrite Z.mul_0_r, drop_0. apply take_app_length.
  - rewrite (sub_entries _ _ ROOTINO 1 j name); [f_equal; unfold ROOTINO; lia| |exact Hj]. rewrite mk_dirent_len. lia.
Qed.

Lemma sealed_lookup N T C ty m fs j name : sealed N T C ty m → 1 < N → C ROOTINO = mk_dirent ROOTINO dot ++ entries ROOTINO (tail (names fs)) →
  2 + len fs ≤ NINODES → NoDup ((λ x, CString.strncpy_bytes x (Z.to_nat DIRSIZ)) <$> names fs) → names fs !! j = Some name →
  dir_lookup (load_inode (T ROOTINO) x0) (img m) name = Some (Z.max 1 (Z.of_nat j)).
Proof.
  intros H HN HC Hfs Hnd Hj. assert (Hr : 1 ≤ ROOTINO < N) by (unfold ROOTINO; lia).
  assert (Hlen : len (names fs) = 2 + len fs) by (simpl; rewrite length_map; lia).
  assert (Hlc : len (C ROOTINO) = DIRENT_SIZE * (2 + len fs)).
  { rewrite HC, length_app, Nat2Z.inj_add, length_entries, mk_dirent_len. simpl length. rewrite length_map. lia. }
  assert (Hent : ∀ i x, names fs !! i = Some x → dirent_at (load_inode (T ROOTINO) x0) (img m) (Z.of_nat i) = mk_dirent (Z.max 1 (Z.of_nat i)) x).
  { intros i x Hi. pose proof (lookup_lt_Some _ _ _ Hi). unfold dirent_at. rewrite (sealed_bytes _ _ _ _ _ H) by (done || mk_lia). rewrite HC. by apply root_entry. }
  pose proof (lookup_lt_Some _ _ _ Hj) as Hlt.
  assert (Hfind : dir_find (load_inode (T ROOTINO) x0) (img m) name = Some (Z.of_nat j)).
  { apply find_slot_intro.
    - unfold slots. cbn [isize load_inode]. rewrite (se_size _ _ _ _ _ H), Z.eqb_refl, Hlc by done. mk_lia.
    - rewrite (Hent j name Hj). unfold entry_is. rewrite mk_dirent_inum by mk_lia. rewrite (proj2 (Z.eqb_neq (Z.max 1 _) 0)) by lia. simpl.
      apply Z.eqb_eq, namecmp_sym_new. unfold namecmp. by apply strncmp_strncpy.
    - intros i Hi. replace i with (Z.of_nat (Z.to_nat i)) by lia. destruct (lookup_lt_is_Some_2 (names fs) (Z.to_nat i) ltac:(lia)) as [x Hx].
      rewrite (Hent _ x Hx). unfold entry_is. apply andb_false_iff. right. apply Z.eqb_neq. intros E%namecmp_sym_new. apply strncmp_strncpy in E.
      assert (j = Z.to_nat i) by (eapply (NoDup_lookup _ j (Z.to_nat i) _ Hnd); rewrite list_lookup_fmap; [by rewrite Hj|by rewrite Hx; simpl; rewrite E]). lia. }
  unfold dir_lookup. rewrite Hfind. simpl. rewrite (Hent j name Hj), mk_dirent_inum by mk_lia. done.
Qed.

Lemma sealed_image N T C ty fs m : sealed N T C ty m → N = 2 + len fs → N ≤ NINODES →
  (∀ i, 1 ≤ i < N → (ty i, C i) = file_of (tree fs) i) → freeblock m = nmeta + cost (tree fs) →
  NoDup ((λ x, CString.strncpy_bytes x (Z.to_nat DIRSIZ)) <$> names fs) → image fs m.
Proof.
  intros H -> HN Hfile Hfb Hnd. pose proof (se_inv _ _ _ _ _ H) as Hinv. assert (Hr : 1 ≤ ROOTINO < 2 + len fs) by (unfold ROOTINO; lia).
  assert (Hty : ty ROOTINO = T_DIR) by exact (f_equal fst (Hfile ROOTINO Hr)).
  assert (HC : C ROOTINO = mk_dirent ROOTINO dot ++ entries ROOTINO (tail (names fs))) by exact (f_equal snd (Hfile ROOTINO Hr)). pose proof (iv_free _ _ _ _ _ Hinv) as Hfree.
  assert (Hlc : len (C ROOTINO) = DIRENT_SIZE * (2 + len fs)).
  { rewrite HC, length_app, Nat2Z.inj_add, length_entries, mk_dirent_len. simpl length. rewrite length_map. lia. }
  split.
  - split_and!.
    + rewrite (se_rest _ _ _ _ _ H) by done. vm_compute. reflexivity.
    + by split.
    + split; [apply (iv_ok _ _ _ _ _ Hinv)|]. intros b Hb. change (data_start sb_) with nmeta in Hb. apply (se_use _ _ _ _ _ H); mk_lia.
  - intros b Hb. change (logstart sb_) with 2 in Hb. change (nlog sb_) with 30 in Hb. rewrite (se_rest _ _ _ _ _ H) by (change (inodestart sb_) with 32; lia).
    by rewrite (proj2 (Z.eqb_neq b 1)) by lia.
  - intros b Hb. rewrite <- Hfb. by apply (se_use _ _ _ _ _ H).
  - intros k f Hk x. pose proof (lookup_lt_Some _ _ _ Hk) as Hlt. assert (Hi : 1 ≤ 2 + Z.of_nat k < 2 + len fs) by lia.
    assert (E : (ty (2 + Z.of_nat k), C (2 + Z.of_nat k)) = (T_FILE, content f)).
    { rewrite Hfile by done. replace (2 + Z.of_nat k) with (Z.of_nat (S k) + 1) by lia. apply file_of_at. simpl. unfold files. by rewrite list_lookup_fmap, Hk. }
    injection E as Et Ec. pose proof (se_size _ _ _ _ _ H _ Hi) as Hs. rewrite (proj2 (Z.eqb_neq (2 + Z.of_nat k) ROOTINO)) in Hs by (unfold ROOTINO; lia).
    unfold x. rewrite (on_disk_eq _ _ _ _ _ H) by lia. destruct (se_meta _ _ _ _ _ H _ Hi) as [M1 M2]. cbn [type nlink isize load_inode]. split_and!; [congruence|done| |].
    + apply (sealed_wf _ _ _ _ _ H); [done|]. pose proof (nb_len _ _ _ _ _ H _ Hi). lia.
    + rewrite Hs, (sealed_bytes _ _ _ _ _ H) by (done || lia). rewrite Nat2Z.id. unfold sub_bytes. rewrite drop_0, firstn_all. done.
  - intros x. unfold x. rewrite (on_disk_eq _ _ _ _ _ H) by (unfold ROOTINO; lia). pose proof (se_size _ _ _ _ _ H _ Hr) as Hs. rewrite Z.eqb_refl in Hs.
    destruct (se_meta _ _ _ _ _ H _ Hr) as [M1 M2]. pose proof (nb_len _ _ _ _ _ H _ Hr) as [Hb1 Hb2]. split_and!.
    + split; cbn [type isize load_inode]; [congruence|]. rewrite Hs. mk_lia.
    + exact M2.
    + split.
      * intros Hwf Hz. eapply (sealed_hole _ _ _ _ _ H ROOTINO); [done| | |exact Hwf]; [mk_lia|]. rewrite Hs. mk_lia.
      * intros Hz. apply (sealed_wf _ _ _ _ _ H); [done|]. rewrite Hs. mk_lia.
    + intros j name Hj. eapply sealed_lookup; try done. lia.
  - intros i j b Hi Hj. rewrite !(on_disk_eq _ _ _ _ _ H) by lia. by apply (sealed_apart _ _ _ _ _ H).
  - intros i Hi. rewrite (on_disk_eq _ _ _ _ _ H) by lia. by apply (se_none _ _ _ _ _ H).
Qed.

(** [C8] mkfs builds the file system the kernel expects.  For files that fit (each a
    name of at most 14 characters and at most MAXFILE blocks, all of them in the
    blocks and inodes there are, no two with the same name), however the reads cut them,
    and if the host's lseek, read and write on the image work, mkfs ends without a
    failed assertion, and on the image: the super block describes the layout; the log
    is empty; the bitmap marks exactly the blocks given out; each file has the inode
    the kernel's invariant asks for and reads back as it was; looking its name up in
    the root directory gives its number; no two files share a block; and all other
    inodes are free.  The root directory's inode is well-formed exactly if the number
    of its entries is no multiple of 64: otherwise its rounded size passes its blocks. *)
Theorem mkfs_image fs m : Forall file_ok fs → 2 + len fs ≤ NINODES → nmeta + cost (tree fs) ≤ FSSIZE →
  NoDup ((λ x, CString.strncpy_bytes x (Z.to_nat DIRSIZ)) <$> names fs) →
  wp (main (Some true) fs) (λ _, image fs) m.
Proof.
  intros Hfs HN Hcap Hnd. unfold main. apply wp_bind, wp_ret. 
  apply start_ok. intros m1 Hb1. apply wp_bind. eapply wp_mono; [apply (built_alloc [] m1 T_DIR Hb1); done|]. intros r m2 [-> Hb2].
  change (1 + len []) with ROOTINO. apply wp_bind, wp_assert; [done|]. change (iappend ROOTINO) with (iappend (Z.of_nat 0 + 1)).
  set (L1 := [(T_DIR, mk_dirent ROOTINO dot)]). set (L2 := [(T_DIR, mk_dirent ROOTINO dot ++ mk_dirent ROOTINO dotdot)]).
  assert (Hd : ∀ x, x = dot ∨ x = dotdot → is_bytes (mk_dirent ROOTINO x)) by (intros x [->| ->]; apply is_bytes_dirent; by repeat constructor).
  apply wp_bind. eapply wp_mono; [apply (built_append _ _ 0 T_DIR [] (mk_dirent ROOTINO dot) Hb2 eq_refl); [by apply Hd; left|done|done]|]. intros [] m3 Hb3.
  apply wp_bind. eapply wp_mono; [apply (built_append L1 _ 0 T_DIR (mk_dirent ROOTINO dot) (mk_dirent ROOTINO dotdot) Hb3 eq_refl); [by apply Hd; right|done|done]|]. intros [] m4 Hb4.
  change (<[0%nat := _]> L1) with L2 in Hb4. assert (Etree : tree fs = (T_DIR, (mk_dirent ROOTINO dot ++ mk_dirent ROOTINO dotdot) ++ entries (2 + len (@nil (Z * bytes))) (map (shortname ∘ fst) fs)) :: [] ++ files fs) by (unfold tree; by rewrite <- app_assoc).
  apply wp_bind. change (Z.of_nat 0 + 1) with ROOTINO. eapply wp_mono; [apply (add_files_ok fs [] _ m4 Hb4 Hfs); [simpl; lia| |by rewrite <- Etree]|].
  { rewrite length_app, Nat2Z.inj_add, !mk_dirent_len. mk_lia. }
  rewrite <- Etree. intros [] m5 Hb5. pose proof (built_free _ _ Hb5) as Hfb. destruct Hb5 as (T & Hw).
  assert (Elen : 1 + len (tree fs) = 2 + len fs) by (unfold tree, files; simpl length; rewrite length_map; lia). rewrite Elen in Hw.
  eapply wp_mono; [apply (finish_ok _ _ _ _ _ Hw); lia|]. intros [] m6 (Ef & T' & Hs).
  eapply sealed_image; try done; [|by rewrite Ef]. intros i Hi. cbv beta. symmetry. apply surjective_pairing.
Qed.

End found.

End mkfs.

(** [user/_ls], read in two pieces, and [c]; and 62 empty files, with which the root
    directory fills its only block. *)
Definition demo_files : list (bytes * option (list bytes)) :=
  [([117; 115; 101; 114; 47; 95; 108; 115], Some [[1; 2]; [3]]); ([99], Some [[7]])].
Definition demo_many : list (bytes * option (list bytes)) := map (λ k, ([97 + k], Some [])) (seqZ 0 62).
Definition demo_inode : inode := mk_inode 1 0 1 (Sleeplock.mk_sleeplock 0 0) true 0 0 0 0 0 [].

Lemma file_ok_intro name reads : bool_decide (Forall (λ x, 0 ≤ x < 256) name ∧ SLASH ∉ shortname1 name ∧ len (shortname name) ≤ DIRSIZ ∧
  Forall (Forall (λ x, 0 ≤ x < 256)) reads ∧ len (concat reads) ≤ MAXFILE * BSIZE) = true → file_ok (name, Some reads).
Proof. intros (? & ? & ? & ? & ?)%bool_decide_eq_true. split; [done|]. by exists reads. Qed.

Lemma demo_files_ok : Forall file_ok demo_files ∧ Forall file_ok demo_many.
Proof.
  split; [|let l := eval vm_compute in demo_many in change (Forall file_ok l)];
    repeat (apply Forall_cons; split; [apply file_ok_intro; vm_compute; reflexivity|]); by apply Forall_nil.
Qed.

Lemma demo_names : NoDup ((λ x, CString.strncpy_bytes x (Z.to_nat DIRSIZ)) <$> names demo_files) ∧
  NoDup ((λ x, CString.strncpy_bytes x (Z.to_nat DIRSIZ)) <$> names demo_many).
Proof. split; apply (bool_decide_eq_true_1 _); vm_compute; reflexivity. Qed.

#[local] Instance demo_host : Host := mk_host (λ off, off) (λ _, BSIZE) (λ _, BSIZE).
Lemma demo_host_works : host_works.
Proof. done. Qed.

Lemma mkfs_image_witness :
  (∃ m', main (Some true) demo_files (mk_mkst (λ _, []) 0 1 0) = Ret (tt, m') ∧
    fslice (on_disk demo_inode m' 2) (img m') 0 (isize (on_disk demo_inode m' 2)) = [1; 2; 3] ∧
    dir_lookup (on_disk demo_inode m' ROOTINO) (img m') [108; 115] = Some 2) ∧
  ∃ m', main (Some true) demo_many (mk_mkst (λ _, []) 0 1 0) = Ret (tt, m') ∧ ¬ inode_wf sb_ (on_disk demo_inode m' ROOTINO) (img m').
Proof.
  split.
  - pose proof (mkfs_image demo_host_works demo_inode demo_files (mk_mkst (λ _, []) 0 1 0) (proj1 demo_files_ok) ltac:(vm_compute; discriminate) ltac:(vm_compute; discriminate) (proj1 demo_names)) as Hw.
    destruct (wp_inv _ _ _ Hw) as ([] & m' & E & Him). exists m'. split; [exact E|]. destruct (im_files _ _ _ Him 0%nat _ eq_refl) as (_ & _ & _ & Hc).
    split; [exact Hc|]. destruct (im_root _ _ _ Him) as (_ & _ & _ & Hl). exact (Hl 2%nat _ eq_refl).
  - pose proof (mkfs_image demo_host_works demo_inode demo_many (mk_mkst (λ _, []) 0 1 0) (proj2 demo_files_ok) ltac:(vm_compute; discriminate) ltac:(vm_compute; discriminate) (proj2 demo_names)) as Hw.
    destruct (wp_inv _ _ _ Hw) as ([] & m' & E & Him). exists m'. split; [exact E|]. destruct (im_root _ _ _ Him) as (_ & _ & Hwf & _).
    intros Hr. apply Hwf in Hr. apply Hr. reflexivity.
Defined.

End Mkfs.
