(* ===== verification/Asm.v ===== *)
(** * kernel/trampoline.S, kernel/swtch.S, kernel/kernelvec.S: the assembly

    A hart's registers, the supervisor registers the code touches, and memory by
    doubleword; the routines as lists of instructions, line by line.  Loads and stores
    go through [tr satp], the translation of the page table in force, so that what the
    trampoline stores before it changes [satp] goes to the user's trap frame. *)

From S2P Require Import Prelude Riscv.

Module Asm.
Import Riscv.

(** ** The machine *)

Inductive reg :=
  | ra | sp | gp | tp | t0 | t1 | t2 | s0 | s1 | a0 | a1 | a2 | a3 | a4 | a5 | a6 | a7
  | s2 | s3 | s4 | s5 | s6 | s7 | s8 | s9 | s10 | s11 | t3 | t4 | t5 | t6.
#[export] Instance reg_eq : EqDecision reg.
Proof. solve_decision. Defined.

Inductive csr := C_sscratch | C_satp.

Inductive instr :=
  | SD (src : reg) (off : Z) (base : reg) | LD (dst : reg) (off : Z) (base : reg)
  | CSRW (c : csr) (src : reg) | CSRR (dst : reg) (c : csr)
  | LI (dst : reg) (imm : Z) | ADDI (dst src : reg) (imm : Z)
  | SFENCE | JR (r : reg) | RET | SRET.

(** [user]: the privilege mode.  [sstatus] and [sepc] are as the traps leave them. *)
Record hart := mk_hart {
  regs : reg → Z; pc : Z; user : bool; mem : Z → Z;
  satp : Z; stvec : Z; sepc : Z; scause : Z; sstatus : Z; sscratch : Z }.
Definition set_regs (x : reg → Z) (h : hart) : hart := mk_hart x (pc h) (user h) (mem h) (satp h) (stvec h) (sepc h) (scause h) (sstatus h) (sscratch h).
Definition set_pc (x : Z) (h : hart) : hart := mk_hart (regs h) x (user h) (mem h) (satp h) (stvec h) (sepc h) (scause h) (sstatus h) (sscratch h).
Definition set_mem (x : Z → Z) (h : hart) : hart := mk_hart (regs h) (pc h) (user h) x (satp h) (stvec h) (sepc h) (scause h) (sstatus h) (sscratch h).
Definition set_satp (x : Z) (h : hart) : hart := mk_hart (regs h) (pc h) (user h) (mem h) x (stvec h) (sepc h) (scause h) (sstatus h) (sscratch h).
Definition set_stvec (x : Z) (h : hart) : hart := mk_hart (regs h) (pc h) (user h) (mem h) (satp h) x (sepc h) (scause h) (sstatus h) (sscratch h).
Definition set_sepc (x : Z) (h : hart) : hart := mk_hart (regs h) (pc h) (user h) (mem h) (satp h) (stvec h) x (scause h) (sstatus h) (sscratch h).
Definition set_sstatus (x : Z) (h : hart) : hart := mk_hart (regs h) (pc h) (user h) (mem h) (satp h) (stvec h) (sepc h) (scause h) x (sscratch h).
Definition set_sscratch (x : Z) (h : hart) : hart := mk_hart (regs h) (pc h) (user h) (mem h) (satp h) (stvec h) (sepc h) (scause h) (sstatus h) x.

Definition SSTATUS_SPP : Z := Z.shiftl 1 8.
Definition SSTATUS_SPIE : Z := Z.shiftl 1 5.
Definition SSTATUS_SIE : Z := Z.shiftl 1 1.
Definition set_bit (b : bool) (mask x : Z) : Z := if b then Z.lor x mask else Z.ldiff x mask.

Section machine.
Context (tr : Z → Z → Z).

(** The hardware's part of a trap, and of [sret] (RISC-V privileged architecture, 4.1). *)
Definition take_trap (cause : Z) (h : hart) : hart :=
  mk_hart (regs h) (stvec h) false (mem h) (satp h) (stvec h) (pc h) cause
    (set_bit (negb (user h)) SSTATUS_SPP (set_bit (Z.testbit (sstatus h) 1) SSTATUS_SPIE (Z.ldiff (sstatus h) SSTATUS_SIE))) (sscratch h).
Definition do_sret (h : hart) : hart :=
  mk_hart (regs h) (sepc h) (negb (Z.testbit (sstatus h) 8)) (mem h) (satp h) (stvec h) (sepc h) (scause h)
    (set_bit false SSTATUS_SPP (set_bit true SSTATUS_SPIE (set_bit (Z.testbit (sstatus h) 5) SSTATUS_SIE (sstatus h)))) (sscratch h).

Definition csr_get (c : csr) (h : hart) : Z := match c with C_sscratch => sscratch h | C_satp => satp h end.
Definition csr_set (c : csr) (x : Z) (h : hart) : hart := match c with C_sscratch => set_sscratch x h | C_satp => set_satp x h end.
Definition place (h : hart) (off : Z) (base : reg) : Z := tr (satp h) (u64 (regs h base + off)).

Definition exec1 (i : instr) (h : hart) : hart :=
  match i with
  | SD r off b => set_mem (<[place h off b := regs h r]> (mem h)) h
  | LD r off b => set_regs (<[r := mem h (place h off b)]> (regs h)) h
  | CSRW c r => csr_set c (regs h r) h
  | CSRR r c => set_regs (<[r := csr_get c h]> (regs h)) h
  | LI r v => set_regs (<[r := u64 v]> (regs h)) h
  | ADDI r r' v => set_regs (<[r := u64 (regs h r' + v)]> (regs h)) h
  | SFENCE => h
  | JR r => set_pc (regs h r) h
  | RET => set_pc (regs h ra) h
  | SRET => do_sret h
  end.
Definition exec (l : list instr) (h : hart) : hart := foldl (λ h i, exec1 i h) h l.
End machine.

(** ** The routines *)

Definition uservec : list instr := [
    CSRW C_sscratch a0; LI a0 TRAPFRAME; SD ra 40 a0; SD sp 48 a0; SD gp 56 a0; SD tp 64 a0; SD t0 72 a0;
    SD t1 80 a0; SD t2 88 a0; SD s0 96 a0; SD s1 104 a0; SD a1 120 a0; SD a2 128 a0; SD a3 136 a0; SD a4 144 a0;
    SD a5 152 a0; SD a6 160 a0; SD a7 168 a0; SD s2 176 a0; SD s3 184 a0; SD s4 192 a0; SD s5 200 a0; SD s6 208 a0;
    SD s7 216 a0; SD s8 224 a0; SD s9 232 a0; SD s10 240 a0; SD s11 248 a0; SD t3 256 a0; SD t4 264 a0; SD t5 272 a0;
    SD t6 280 a0; CSRR t0 C_sscratch; SD t0 112 a0; LD sp 8 a0; LD tp 32 a0; LD t0 16 a0; LD t1 0 a0; SFENCE;
    CSRW C_satp t1; SFENCE; JR t0].

Definition userret : list instr := [
    SFENCE; CSRW C_satp a0; SFENCE; LI a0 TRAPFRAME; LD ra 40 a0; LD sp 48 a0; LD gp 56 a0; LD tp 64 a0; LD t0 72 a0;
    LD t1 80 a0; LD t2 88 a0; LD s0 96 a0; LD s1 104 a0; LD a1 120 a0; LD a2 128 a0; LD a3 136 a0; LD a4 144 a0;
    LD a5 152 a0; LD a6 160 a0; LD a7 168 a0; LD s2 176 a0; LD s3 184 a0; LD s4 192 a0; LD s5 200 a0; LD s6 208 a0;
    LD s7 216 a0; LD s8 224 a0; LD s9 232 a0; LD s10 240 a0; LD s11 248 a0; LD t3 256 a0; LD t4 264 a0; LD t5 272 a0;
    LD t6 280 a0; LD a0 112 a0; SRET].

Definition swtch : list instr := [
    SD ra 0 a0; SD sp 8 a0; SD s0 16 a0; SD s1 24 a0; SD s2 32 a0; SD s3 40 a0; SD s4 48 a0; SD s5 56 a0;
    SD s6 64 a0; SD s7 72 a0; SD s8 80 a0; SD s9 88 a0; SD s10 96 a0; SD s11 104 a0; LD ra 0 a1; LD sp 8 a1;
    LD s0 16 a1; LD s1 24 a1; LD s2 32 a1; LD s3 40 a1; LD s4 48 a1; LD s5 56 a1; LD s6 64 a1; LD s7 72 a1;
    LD s8 80 a1; LD s9 88 a1; LD s10 96 a1; LD s11 104 a1; RET].

(** [kernelvec] up to its call of [kerneltrap], and after it. *)
Definition kernelvec_save : list instr := [
    ADDI sp sp (-256); SD ra 0 sp; SD sp 8 sp; SD gp 16 sp; SD tp 24 sp; SD t0 32 sp; SD t1 40 sp; SD t2 48 sp;
    SD a0 72 sp; SD a1 80 sp; SD a2 88 sp; SD a3 96 sp; SD a4 104 sp; SD a5 112 sp; SD a6 120 sp; SD a7 128 sp;
    SD t3 216 sp; SD t4 224 sp; SD t5 232 sp; SD t6 240 sp].
Definition kernelvec_restore : list instr := [
    LD ra 0 sp; LD sp 8 sp; LD gp 16 sp; LD t0 32 sp; LD t1 40 sp; LD t2 48 sp; LD a0 72 sp; LD a1 80 sp;
    LD a2 88 sp; LD a3 96 sp; LD a4 104 sp; LD a5 112 sp; LD a6 120 sp; LD a7 128 sp; LD t3 216 sp; LD t4 224 sp;
    LD t5 232 sp; LD t6 240 sp; ADDI sp sp 256; SRET].

(** ** Runs of stores and of loads *)

Definition saves (l : list (reg * Z)) (b : reg) : list instr := map (λ x, SD x.1 x.2 b) l.
Definition loads (l : list (reg * Z)) (b : reg) : list instr := map (λ x, LD x.1 x.2 b) l.

Ltac fn_simpl_ne := repeat first [rewrite fn_lookup_insert | rewrite fn_lookup_insert_ne by done].

Definition stored (l : list (reg * Z)) (α : Z → Z) (f : reg → Z) (m : Z → Z) : Z → Z := foldl (λ m x, <[α x.2 := f x.1]> m) m l.
Definition loaded (l : list (reg * Z)) (α : Z → Z) (m : Z → Z) (f : reg → Z) : reg → Z := foldl (λ f x, <[x.1 := m (α x.2)]> f) f l.

Lemma stored_other l α f m x : (∀ off, off ∈ l.*2 → α off ≠ x) → stored l α f m x = m x.
Proof.
  revert m. induction l as [|[r off] l IH]; intros m Hx; [done|]. simpl in *. rewrite IH by set_solver. apply fn_lookup_insert_ne. apply Hx. constructor.
Qed.

Lemma stored_at l α f m r off : NoDup l.*2 → (∀ o o', o ∈ l.*2 → o' ∈ l.*2 → α o = α o' → o = o') → (r, off) ∈ l →
  stored l α f m (α off) = f r.
Proof.
  revert m. induction l as [|[r' off'] l IH]; intros m Hnd Hinj Hin; [by apply elem_of_nil in Hin|]. simpl in *. apply NoDup_cons in Hnd as [Hn Hnd].
  apply elem_of_cons in Hin as [[= -> ->]|Hin]; [|apply IH; [done|set_solver|done]].
  rewrite stored_other; [apply fn_lookup_insert|]. intros o Ho E. apply Hn. rewrite <- (Hinj o off'); [done|by right|by left|done].
Qed.

Lemma loaded_other l α m f r : r ∉ l.*1 → loaded l α m f r = f r.
Proof.
  revert f. induction l as [|[r' off] l IH]; intros f Hr; [done|]. simpl in *. rewrite IH by set_solver. apply fn_lookup_insert_ne. set_solver.
Qed.

Lemma loaded_at l α m f r off : NoDup l.*1 → (r, off) ∈ l → loaded l α m f r = m (α off).
Proof.
  revert f. induction l as [|[r' off'] l IH]; intros f Hnd Hin; [by apply elem_of_nil in Hin|]. simpl in *. apply NoDup_cons in Hnd as [Hn Hnd].
  apply elem_of_cons in Hin as [[= -> ->]|Hin]; [|by apply IH]. rewrite loaded_other by done. apply fn_lookup_insert.
Qed.
Section runs.
Context (tr : Z → Z → Z).

Lemma exec_app l l' h : exec tr (l ++ l') h = exec tr l' (exec tr l h).
Proof. unfold exec. by rewrite foldl_app. Qed.

Lemma exec_saves l b h : exec tr (saves l b) h = set_mem (stored l (λ off, place tr h off b) (regs h) (mem h)) h.
Proof.
  revert h. induction l as [|[r off] l IH]; intros h; [by destruct h|].
  change (exec tr (saves ((r, off) :: l) b) h) with (exec tr (saves l b) (exec1 tr (SD r off b) h)). by rewrite IH.
Qed.

Lemma exec_loads l b h : b ∉ l.*1 → exec tr (loads l b) h = set_regs (loaded l (λ off, place tr h off b) (mem h) (regs h)) h.
Proof.
  revert h. induction l as [|[r off] l IH]; intros h Hb; [by destruct h|].
  change (exec tr (loads ((r, off) :: l) b) h) with (exec tr (loads l b) (exec1 tr (LD r off b) h)). simpl in Hb.
  rewrite IH by set_solver. unfold set_regs. simpl. f_equal.
  assert (E : ∀ off', place tr (set_regs (<[r := mem h (place tr h off b)]> (regs h)) h) off' b = place tr h off' b).
  { intros off'. unfold place. simpl. by rewrite fn_lookup_insert_ne by set_solver. }
  clear -E. generalize (<[r := mem h (place tr h off b)]> (regs h)) at 2 3. induction l as [|[r' o'] l IH]; intros f; simpl; [done|]. by rewrite E, IH.
Qed.

End runs.

(** ** The trampoline *)

(** Where [struct trapframe] keeps a user register. *)
Definition slot (r : reg) : Z :=
  match r with
  | ra => 40 | sp => 48 | gp => 56 | tp => 64 | t0 => 72 | t1 => 80 | t2 => 88 | s0 => 96 | s1 => 104
  | a0 => 112 | a1 => 120 | a2 => 128 | a3 => 136 | a4 => 144 | a5 => 152 | a6 => 160 | a7 => 168
  | s2 => 176 | s3 => 184 | s4 => 192 | s5 => 200 | s6 => 208 | s7 => 216 | s8 => 224 | s9 => 232 | s10 => 240 | s11 => 248
  | t3 => 256 | t4 => 264 | t5 => 272 | t6 => 280
  end.
Definition but_a0 : list reg :=
  [ra; sp; gp; tp; t0; t1; t2; s0; s1; a1; a2; a3; a4; a5; a6; a7; s2; s3; s4; s5; s6; s7; s8; s9; s10; s11; t3; t4; t5; t6].
Definition frame : list (reg * Z) := map (λ r, (r, slot r)) but_a0.

Lemma but_a0_spec r : r = a0 ∨ (r, slot r) ∈ frame.
Proof. destruct r; (by left) || (right; apply (bool_decide_unpack _); vm_compute; exact I). Qed.
Lemma slot_inj r r' : slot r = slot r' → r = r'.
Proof. by destruct r, r'. Qed.
Lemma slot_range r : 40 ≤ slot r ≤ 280.
Proof. by destruct r. Qed.
Lemma frame_nodup : NoDup frame.*1 ∧ NoDup frame.*2.
Proof. split; apply (bool_decide_unpack _); vm_compute; exact I. Qed.
Lemma frame_offs off : off ∈ frame.*2 → ∃ r, r ≠ a0 ∧ off = slot r.
Proof.
  unfold frame. rewrite <- list_fmap_compose. intros (r & -> & Hr)%list_elem_of_fmap. exists r. split; [|done]. intros ->. revert Hr.
  apply (bool_decide_unpack _). vm_compute. exact I.
Qed.

Section trampoline.
Context (tr : Z → Z → Z) (us tf : Z).
(** The user's page table has the trap frame at [TRAPFRAME] (proc_pagetable). *)
Context (Htr : ∀ off, 0 ≤ off ≤ 280 → tr us (TRAPFRAME + off) = tf + off).

Lemma place_frame h off : satp h = us → regs h a0 = TRAPFRAME → 0 ≤ off ≤ 280 → place tr h off a0 = tf + off.
Proof.
  intros Es Ea Ho. unfold place. rewrite Es, Ea, u64_small; [by apply Htr|]. change TRAPFRAME with 274877898752. lia.
Qed.

(** The end of [uservec]: the user's [a0], and the kernel's registers. *)
Definition uservec_tail : list instr :=
  [CSRR t0 C_sscratch; SD t0 112 a0; LD sp 8 a0; LD tp 32 a0; LD t0 16 a0; LD t1 0 a0; SFENCE; CSRW C_satp t1; SFENCE; JR t0].

Lemma exec_LD r off h : satp h = us → regs h a0 = TRAPFRAME → 0 ≤ off ≤ 280 → exec1 tr (LD r off a0) h = set_regs (<[r := mem h (tf + off)]> (regs h)) h.
Proof. intros Es Ea Ho. simpl. by rewrite place_frame. Qed.

Lemma uservec_tail_effect h : satp h = us → regs h a0 = TRAPFRAME → let h' := exec tr uservec_tail h in
  pc h' = mem h (tf + 16) ∧ regs h' sp = mem h (tf + 8) ∧ regs h' tp = mem h (tf + 32) ∧ satp h' = mem h (tf + 0) ∧
  mem h' = <[tf + 112 := sscratch h]> (mem h) ∧ user h' = user h ∧ stvec h' = stvec h ∧ sepc h' = sepc h ∧ scause h' = scause h ∧ sstatus h' = sstatus h.
Proof.
  intros Es Ea h'. set (m := <[tf + 112 := sscratch h]> (mem h)).
  assert (Eh : exec tr [CSRR t0 C_sscratch; SD t0 112 a0] h = set_mem m (set_regs (<[t0 := sscratch h]> (regs h)) h)).
  { simpl. rewrite place_frame by (try done; lia). by rewrite fn_lookup_insert. }
  subst h'. change uservec_tail with ([CSRR t0 C_sscratch; SD t0 112 a0] ++ [LD sp 8 a0; LD tp 32 a0; LD t0 16 a0; LD t1 0 a0; SFENCE; CSRW C_satp t1; SFENCE; JR t0]).
  rewrite exec_app, Eh. unfold exec. cbn [foldl].
  do 4 (rewrite exec_LD by (try lia; cbn [satp set_mem set_regs regs]; rewrite ?fn_lookup_insert_ne by done; done)). simpl.
  split_and!; try done; fn_simpl_ne; unfold m; rewrite fn_lookup_insert_ne by lia; done.
Qed.

Record uservec_ok (h h' : hart) : Prop := {
  uv_pc : pc h' = mem h (tf + 16); uv_sp : regs h' sp = mem h (tf + 8); uv_tp : regs h' tp = mem h (tf + 32);
  uv_satp : satp h' = mem h (tf + 0);
  uv_saved : ∀ r, mem h' (tf + slot r) = regs h r;
  uv_other : ∀ x, (∀ r, x ≠ tf + slot r) → mem h' x = mem h x;
  uv_user : user h' = user h; uv_stvec : stvec h' = stvec h; uv_sepc : sepc h' = sepc h;
  uv_scause : scause h' = scause h; uv_sstatus : sstatus h' = sstatus h }.

Lemma uservec_effect h : satp h = us → uservec_ok h (exec tr uservec h).
Proof.
  intros Es. change uservec with ([CSRW C_sscratch a0; LI a0 TRAPFRAME] ++ saves frame a0 ++ uservec_tail).
  rewrite !exec_app. set (h1 := exec tr [CSRW C_sscratch a0; LI a0 TRAPFRAME] h).
  assert (E1 : satp h1 = us ∧ regs h1 a0 = TRAPFRAME ∧ sscratch h1 = regs h a0) by (simpl; by rewrite fn_lookup_insert).
  destruct E1 as (Es1 & Ea1 & Ess1). rewrite exec_saves. set (h2 := set_mem _ h1).
  assert (Hoff : ∀ off, off ∈ frame.*2 → place tr h1 off a0 = tf + off).
  { intros off (r & _ & ->)%frame_offs. pose proof (slot_range r). apply place_frame; [done|done|lia]. }
  assert (Hm2 : ∀ x, (∀ r, r ≠ a0 → x ≠ tf + slot r) → mem h2 x = mem h x).
  { intros x Hx. change (stored frame (λ off, place tr h1 off a0) (regs h1) (mem h1) x = mem h x). transitivity (mem h1 x); [apply stored_other|done]. intros off Ho. cbv beta. rewrite Hoff by done. apply frame_offs in Ho as (r & Hr & ->). by apply not_eq_sym, Hx. }
  destruct (uservec_tail_effect h2 Es1 Ea1) as (Epc & Esp & Etp & Esatp & Emem & Eu & Est & Ese & Esc & Ess).
  constructor; try done.
  1-4: rewrite ?Epc, ?Esp, ?Etp, ?Esatp; apply Hm2; intros r _; pose proof (slot_range r); lia.
  - intros r. rewrite Emem. destruct (decide (r = a0)) as [->|Hra]; [by rewrite fn_lookup_insert|]. destruct (but_a0_spec r) as [|Hr]; [done|]. destruct frame_nodup as [_ Hnd].
    rewrite fn_lookup_insert_ne.
    2:{ intros E. by apply Hra, slot_inj; simpl; lia. }
    assert (Hs : slot r ∈ frame.*2) by (by apply (list_elem_of_fmap_2 snd) in Hr). rewrite <- (Hoff _ Hs).
    change (stored frame (λ off, place tr h1 off a0) (regs h1) (mem h1) (place tr h1 (slot r) a0) = regs h r).
    rewrite (stored_at frame (λ off, place tr h1 off a0) _ _ r (slot r)); [|done| |done].
    + simpl. by rewrite fn_lookup_insert_ne.
    + intros o o' Ho Ho'. cbv beta. rewrite !Hoff by done. lia.
  - intros x Hx. rewrite Emem, fn_lookup_insert_ne by (apply not_eq_sym, (Hx a0)). apply Hm2. intros r _. apply Hx.
Qed.

(** [userret], called with the user's page table in [a0]. *)
Record userret_ok (h h' : hart) : Prop := {
  ur_regs : ∀ r, regs h' r = mem h (tf + slot r);
  ur_state : ∃ f, h' = do_sret (set_regs f (set_satp us h)) }.

Lemma userret_effect h : regs h a0 = us → userret_ok h (exec tr userret h).
Proof.
  intros Ea. change userret with ([SFENCE; CSRW C_satp a0; SFENCE; LI a0 TRAPFRAME] ++ loads frame a0 ++ [LD a0 112 a0; SRET]).
  rewrite !exec_app. set (h1 := exec tr [SFENCE; CSRW C_satp a0; SFENCE; LI a0 TRAPFRAME] h).
  assert (E1 : satp h1 = us ∧ regs h1 a0 = TRAPFRAME) by (simpl; by rewrite fn_lookup_insert). destruct E1 as [Es1 Ea1].
  assert (Hna : a0 ∉ frame.*1) by (apply (bool_decide_unpack _); vm_compute; exact I).
  rewrite exec_loads by done. set (f := loaded _ _ _ _).
  assert (Hf : f a0 = TRAPFRAME) by (unfold f; rewrite loaded_other by done; exact Ea1).
  unfold exec. cbn [foldl]. rewrite exec_LD; [|done|done|lia]. constructor.
  - intros r. simpl. destruct (decide (r = a0)) as [->|Hr]; [by rewrite fn_lookup_insert|]. rewrite fn_lookup_insert_ne by done.
    destruct (but_a0_spec r) as [|Hin]; [done|]. unfold f. rewrite (loaded_at frame _ _ _ r (slot r)) by (done || apply frame_nodup).
    pose proof (slot_range r). rewrite place_frame by (done || lia). done.
  - eexists. simpl. rewrite <- Ea. reflexivity.
Qed.
End trampoline.

(** ** The context switch *)

(** [struct context]. *)
Definition ctx : list (reg * Z) :=
  [(ra, 0); (sp, 8); (s0, 16); (s1, 24); (s2, 32); (s3, 40); (s4, 48); (s5, 56); (s6, 64); (s7, 72); (s8, 80); (s9, 88); (s10, 96); (s11, 104)].
Lemma ctx_nodup : NoDup ctx.*1 ∧ NoDup ctx.*2.
Proof. split; apply (bool_decide_unpack _); vm_compute; exact I. Qed.
Lemma ctx_offs off : off ∈ ctx.*2 → 0 ≤ off ≤ 104.
Proof. revert off. apply Forall_forall. repeat constructor; simpl; lia. Qed.
Lemma ctx_a1 : a1 ∉ ctx.*1.
Proof. apply (bool_decide_unpack _). vm_compute. exact I. Qed.

Section context_switch.
Context (tr : Z → Z → Z) (ks : Z).
(** The kernel's page table maps its data where it is. *)
Context (Htr : ∀ x, KERNBASE ≤ x < PHYSTOP → tr ks x = x).

Definition context_at (c : Z) : Prop := KERNBASE ≤ c ∧ c + 112 ≤ PHYSTOP.

Lemma place_ctx h off b : satp h = ks → context_at (regs h b) → 0 ≤ off ≤ 104 → place tr h off b = regs h b + off.
Proof.
  intros Es [H1 H2] Ho. unfold place. rewrite Es, u64_small; [apply Htr; lia|]. unfold PHYSTOP, KERNBASE in *. lia.
Qed.

(** What [swtch old new] saves and loads. *)
Lemma swtch_effect h : satp h = ks → context_at (regs h a0) → context_at (regs h a1) → 112 ≤ Z.abs (regs h a0 - regs h a1) →
  let h' := exec tr swtch h in
  (∀ r off, (r, off) ∈ ctx → mem h' (regs h a0 + off) = regs h r ∧ regs h' r = mem h (regs h a1 + off)) ∧
  pc h' = mem h (regs h a1) ∧ satp h' = ks ∧ (∀ x, ¬ regs h a0 ≤ x < regs h a0 + 112 → mem h' x = mem h x).
Proof.
  intros Es Ha Hb Hd h'. unfold h'. change swtch with (saves ctx a0 ++ loads ctx a1 ++ [RET]). rewrite !exec_app, exec_saves. set (h1 := set_mem _ h).
  rewrite exec_loads by apply ctx_a1. set (f := loaded _ _ _ _). destruct ctx_nodup as [Hnd1 Hnd2].
  assert (Hpa : ∀ off, off ∈ ctx.*2 → place tr h off a0 = regs h a0 + off) by (intros off Ho%ctx_offs; by apply place_ctx).
  assert (Hpb : ∀ off, off ∈ ctx.*2 → place tr h1 off a1 = regs h a1 + off) by (intros off Ho%ctx_offs; by apply (place_ctx h1)).
  assert (Hm : ∀ x, ¬ regs h a0 ≤ x < regs h a0 + 112 → mem h1 x = mem h x).
  { intros x Hx. apply stored_other. intros off Ho. cbv beta. rewrite Hpa by done. apply ctx_offs in Ho. lia. }
  assert (Hf : ∀ r off, (r, off) ∈ ctx → f r = mem h (regs h a1 + off)).
  { intros r off Hin. assert (Ho : off ∈ ctx.*2) by (by apply (list_elem_of_fmap_2 snd) in Hin). unfold f. rewrite (loaded_at _ _ _ _ r off) by done.
    cbv beta. rewrite Hpb by done. apply Hm. apply ctx_offs in Ho. lia. }
  split_and!.
  - intros r off Hin. assert (Ho : off ∈ ctx.*2) by (by apply (list_elem_of_fmap_2 snd) in Hin). split; [|by apply Hf].
    change (mem h1 (regs h a0 + off) = regs h r). rewrite <- Hpa by done. apply (stored_at ctx (λ off, place tr h off a0)); [done| |done].
    intros o o' H1 H2. cbv beta. rewrite !Hpa by done. lia.
  - change (f ra = mem h (regs h a1)). rewrite (Hf ra 0) by constructor. f_equal. lia.
  - exact Es.
  - exact Hm.
Qed.
End context_switch.

Definition callee_saved : list reg := [sp; s0; s1; s2; s3; s4; s5; s6; s7; s8; s9; s10; s11].

(** [C15] A thread that gave up its CPU comes back as if swtch had returned.  Whatever
    runs in between, on any hart, once some thread switches to the saved context the
    program counter, the stack pointer and the callee-saved registers are those of
    the call, provided nobody wrote to the context. *)
Theorem swtch_resumes (tr : Z → Z → Z) ks h h2 :
  (∀ x, KERNBASE ≤ x < PHYSTOP → tr ks x = x) →
  satp h = ks → context_at (regs h a0) → context_at (regs h a1) → 112 ≤ Z.abs (regs h a0 - regs h a1) →
  satp h2 = ks → regs h2 a1 = regs h a0 → context_at (regs h2 a0) → 112 ≤ Z.abs (regs h2 a0 - regs h2 a1) →
  (∀ x, regs h a0 ≤ x < regs h a0 + 112 → mem h2 x = mem (exec tr swtch h) x) →
  let h3 := exec tr swtch h2 in
  pc h3 = regs h ra ∧ ∀ r, r ∈ callee_saved → regs h3 r = regs h r.
Proof.
  intros Htr Es Ha Hb Hd Es2 Ea1 Ha2 Hd2 Hmem h3.
  destruct (swtch_effect tr ks Htr h Es Ha Hb Hd) as (Hsave & _ & _ & _).
  destruct (swtch_effect tr ks Htr h2 Es2 Ha2 ltac:(by rewrite Ea1) Hd2) as (Hload & Hpc & _ & _). rewrite Ea1 in Hload, Hpc.
  assert (Hr : ∀ r off, (r, off) ∈ ctx → mem h2 (regs h a0 + off) = regs h r).
  { intros r off Hin. assert (Ho : off ∈ ctx.*2) by (by apply (list_elem_of_fmap_2 snd) in Hin). apply ctx_offs in Ho.
    rewrite Hmem by lia. by apply Hsave. }
  split.
  - unfold h3. rewrite Hpc, <- (Hr ra 0) by constructor. f_equal. lia.
  - intros r Hin. assert (Hc : r ∈ ctx.*1) by (right; exact Hin). apply list_elem_of_fmap in Hc as ([r' off] & -> & Ho). cbn [fst].
    unfold h3. rewrite (proj2 (Hload r' off Ho)). by apply Hr.
Qed.

(** Thread 1 switches from the context at 0x80001000 to the one at 0x80002000; later
    another thread, of the context at 0x80003000, switches to it. *)
Definition demo_thread : hart :=
  mk_hart (λ r, match r with ra => 0x80000500 | sp => 0x3fffffd000 | a0 => 0x80001000 | a1 => 0x80002000 | s5 => 55 | _ => 0 end)
    0 false (λ _, 0) 8 0 0 0 0 0.
Definition demo_next (h : hart) : hart := set_regs (λ r, match r with a0 => 0x80003000 | a1 => 0x80001000 | _ => 9 end) h.
Lemma demo_next_mem h : mem (demo_next h) = mem h.
Proof. done. Qed.
Lemma demo_next_satp h : satp (demo_next h) = satp h.
Proof. done. Qed.
Lemma demo_next_a0 h : regs (demo_next h) a0 = 0x80003000.
Proof. done. Qed.
Lemma demo_next_a1 h : regs (demo_next h) a1 = 0x80001000.
Proof. done. Qed.

Lemma swtch_resumes_witness : let h3 := exec (λ _ x, x) swtch (demo_next (exec (λ _ x, x) swtch demo_thread)) in
  pc h3 = 0x80000500 ∧ regs h3 sp = 0x3fffffd000 ∧ regs h3 s5 = 55.
Proof.
  assert (Hc : ∀ c, (KERNBASE <=? c) && (c + 112 <=? PHYSTOP) = true → context_at c) by (intros c H; unfold context_at; bsimpl; lia).
  assert (Es : satp (exec (λ _ x, x) swtch demo_thread) = 8) by (vm_compute; reflexivity).
  pose proof (swtch_resumes (λ _ x, x) 8 demo_thread (demo_next (exec (λ _ x, x) swtch demo_thread)) (λ x _, eq_refl) eq_refl) as H.
  rewrite demo_next_satp, demo_next_mem, !demo_next_a0, !demo_next_a1 in H.
  destruct H as [Hpc Hregs]; [apply Hc; reflexivity|apply Hc; reflexivity|vm_compute; discriminate|exact Es|reflexivity|apply Hc; reflexivity|vm_compute; discriminate|done|].
  split; [exact Hpc|]. split; [exact (Hregs sp ltac:(repeat constructor))|exact (Hregs s5 ltac:(repeat constructor))].
Defined.

(** ** Interrupts in the kernel *)

Definition kframe1 : list (reg * Z) :=
  [(ra, 0); (sp, 8); (gp, 16); (tp, 24); (t0, 32); (t1, 40); (t2, 48); (a0, 72); (a1, 80); (a2, 88); (a3, 96); (a4, 104);
   (a5, 112); (a6, 120); (a7, 128); (t3, 216); (t4, 224); (t5, 232); (t6, 240)].
Definition kframe2 : list (reg * Z) :=
  [(gp, 16); (t0, 32); (t1, 40); (t2, 48); (a0, 72); (a1, 80); (a2, 88); (a3, 96); (a4, 104);
   (a5, 112); (a6, 120); (a7, 128); (t3, 216); (t4, 224); (t5, 232); (t6, 240)].

Lemma kframe_nodup : NoDup kframe1.*1 ∧ NoDup kframe1.*2 ∧ NoDup kframe2.*1 ∧ sp ∉ kframe2.*1.
Proof. split_and!; apply (bool_decide_unpack _); vm_compute; exact I. Qed.
Lemma kframe_offs off : off ∈ kframe1.*2 → 0 ≤ off < 256.
Proof. revert off. apply Forall_forall. repeat constructor; simpl; lia. Qed.
Lemma kframe_sub : kframe2 ⊆ kframe1.
Proof. intros [r off] H. unfold kframe2 in H. repeat (apply elem_of_cons in H as [->|H]; [repeat constructor|]). by apply elem_of_nil in H. Qed.
(** Each register is in the frame, is [tp], or is kept by the callee. *)
Lemma kframe_all r : r = tp ∨ r = sp ∨ r = ra ∨ (∃ off, (r, off) ∈ kframe2) ∨ (r ∈ callee_saved ∧ r ∉ kframe2.*1).
Proof.
  destruct (decide (r ∈ kframe2.*1)) as [([r' off] & -> & H)%list_elem_of_fmap|H]; [do 3 right; left; by exists off|].
  destruct r; try (by auto); try (exfalso; apply H; apply (bool_decide_unpack _); vm_compute; exact I).
  all: do 4 right; split; [apply (bool_decide_unpack _); vm_compute; exact I|done].
Qed.

Section kernel_interrupt.
Context (tr : Z → Z → Z) (ks v pa : Z) (Hv : 256 ≤ v < 2 ^ 64).
(** The interrupted thread's stack, from 256 bytes below its stack pointer. *)
Context (Htr : ∀ off, 0 ≤ off < 256 → tr ks (v - 256 + off) = pa + off).

Lemma place_stack h off : satp h = ks → regs h sp = v - 256 → 0 ≤ off < 256 → place tr h off sp = pa + off.
Proof. intros Es Ep Ho. unfold place. rewrite Es, Ep, u64_small by lia. by apply Htr. Qed.

Lemma exec_LD_stack r off h : satp h = ks → regs h sp = v - 256 → 0 ≤ off < 256 →
  exec1 tr (LD r off sp) h = set_regs (<[r := mem h (pa + off)]> (regs h)) h.
Proof. intros Es Ep Ho. simpl. by rewrite place_stack. Qed.

Lemma kernelvec_saved h : satp h = ks → regs h sp = v → let h' := exec tr kernelvec_save h in
  regs h' sp = v - 256 ∧ satp h' = ks ∧ (∀ r, r ≠ sp → regs h' r = regs h r) ∧ mem h' (pa + 8) = v - 256 ∧
  (∀ r off, (r, off) ∈ kframe1 → r ≠ sp → mem h' (pa + off) = regs h r) ∧ ∃ f m, h' = set_mem m (set_regs f h).
Proof.
  intros Es Ep h'. unfold h'. change kernelvec_save with ([ADDI sp sp (-256)] ++ saves kframe1 sp). rewrite exec_app, exec_saves.
  set (h1 := exec tr [ADDI sp sp (-256)] h).
  assert (E1 : regs h1 sp = v - 256) by (simpl; rewrite fn_lookup_insert, Ep, u64_small by lia; lia).
  assert (Er : ∀ r, r ≠ sp → regs h1 r = regs h r) by (intros r Hr; simpl; by rewrite fn_lookup_insert_ne).
  assert (Hpl : ∀ off, off ∈ kframe1.*2 → place tr h1 off sp = pa + off) by (intros off Ho%kframe_offs; by apply place_stack).
  assert (Hst : ∀ r off, (r, off) ∈ kframe1 → stored kframe1 (λ off, place tr h1 off sp) (regs h1) (mem h1) (pa + off) = regs h1 r).
  { intros r off Hin. assert (Ho : off ∈ kframe1.*2) by (by apply (list_elem_of_fmap_2 snd) in Hin). rewrite <- (Hpl off Ho).
    apply (stored_at kframe1 (λ off, place tr h1 off sp)); [apply kframe_nodup| |done]. intros o o' H1 H2. cbv beta. rewrite !Hpl by done. lia. }
  split_and!; [done|done|done| | |by do 2 eexists].
  - exact (eq_trans (Hst sp 8 ltac:(repeat constructor)) E1).
  - intros r off Hin Hr. exact (eq_trans (Hst r off Hin) (Er r Hr)).
Qed.

Lemma kernelvec_restored h : satp h = ks → regs h sp = v - 256 → mem h (pa + 8) = v - 256 → let h' := exec tr kernelvec_restore h in
  regs h' sp = v ∧ regs h' tp = regs h tp ∧ regs h' ra = mem h (pa + 0) ∧ (∀ r off, (r, off) ∈ kframe2 → regs h' r = mem h (pa + off)) ∧
  (∀ r, r ≠ sp → r ≠ ra → r ∉ kframe2.*1 → regs h' r = regs h r) ∧ ∃ f, h' = do_sret (set_regs f h).
Proof.
  intros Es Ep Em h'. unfold h'.
  change kernelvec_restore with ([LD ra 0 sp; LD sp 8 sp] ++ loads kframe2 sp ++ [ADDI sp sp 256; SRET]). rewrite !exec_app.
  set (f1 := <[sp := v - 256]> (<[ra := mem h (pa + 0)]> (regs h))).
  assert (E1 : exec tr [LD ra 0 sp; LD sp 8 sp] h = set_regs f1 h).
  { unfold exec. cbn [foldl]. rewrite exec_LD_stack by (done || lia).
    rewrite exec_LD_stack by (cbn [satp set_regs regs]; rewrite ?fn_lookup_insert_ne by done; done || lia). simpl. by rewrite Em. }
  rewrite E1, exec_loads by apply kframe_nodup. set (h1 := set_regs f1 h). set (f2 := loaded _ _ _ _).
  assert (Ep1 : regs h1 sp = v - 256) by (simpl; apply fn_lookup_insert).
  assert (Hf : ∀ r, r ∉ kframe2.*1 → f2 r = f1 r) by (intros r Hr; by apply loaded_other).
  assert (Hsp : f2 sp = v - 256) by (rewrite Hf by apply kframe_nodup; exact Ep1).
  assert (Hf2 : ∀ r off, (r, off) ∈ kframe2 → f2 r = mem h (pa + off)).
  { intros r off Hin. unfold f2. rewrite (loaded_at _ _ _ _ r off) by (done || apply kframe_nodup). cbv beta. rewrite place_stack; [done|done|done|].
    apply kframe_offs. apply kframe_sub in Hin. by apply (list_elem_of_fmap_2 snd) in Hin. }
  split_and!.
  - simpl. rewrite fn_lookup_insert, Hsp, u64_small by lia. lia.
  - simpl. rewrite fn_lookup_insert_ne by done. rewrite Hf by (apply (bool_decide_unpack _); vm_compute; exact I). unfold f1. by rewrite !fn_lookup_insert_ne.
  - simpl. rewrite fn_lookup_insert_ne by done. rewrite Hf by (apply (bool_decide_unpack _); vm_compute; exact I). unfold f1.
    by rewrite fn_lookup_insert_ne, fn_lookup_insert.
  - intros r off Hin. simpl. rewrite fn_lookup_insert_ne; [by apply Hf2|]. intros <-. apply (list_elem_of_fmap_2 fst) in Hin. by apply kframe_nodup in Hin.
  - intros r H1 H2 H3. simpl. rewrite fn_lookup_insert_ne by done. rewrite Hf by done. unfold f1. by rewrite !fn_lookup_insert_ne.
  - by eexists.
Qed.
End kernel_interrupt.

End Asm.
