(* ===== verification/Trap.v ===== *)
(** * kernel/trap.c: traps from user space and from the kernel

    The C side of traps on the machine of Asm.v, composed with the trampoline and with
    kernelvec.  The C code reads and writes the trap frame at its physical address.
    What it calls (the system calls, the device handlers, the scheduler) is given by
    functions on the state; the values C leaves in registers are arbitrary.  A system
    call may kill the process, rewrite its trap frame and give it another page table
    (exec), or never return (exit). *)

From S2P Require Import Prelude Riscv Asm.

Module Trap.
Import Riscv Asm.

(** [p->trapframe] and [p->kstack]. *)
Record proc := mk_proc { trapframe : Z; kstack : Z }.

Notation SATP_SV39 := (Z.shiftl 8 60).
Definition MAKE_SATP (pt : Z) : Z := Z.lor SATP_SV39 (Z.shiftr pt 12).

Notation EXTERNAL := 0x8000000000000009.
Notation TIMER := 0x8000000000000005.
Notation ECALL := 8.

(** What the handlers do besides: wake the sleepers on [ticks], serve a device, report
    an unknown one, and complete the interrupt at the PLIC. *)
Inductive event := Wake_ticks | Uart | Virtio | Unexpected (irq : Z) | Complete (irq : Z).

(** The hart, [p->pagetable], [p->killed], [ticks], the hart's timer registers, and the
    events. *)
Record kst := mk_kst { hh : hart; pagetable : Z; killed : bool; ticks : Z; time : Z; stimecmp : Z; events : list event }.
Definition set_hh (x : hart) (s : kst) : kst := mk_kst x (pagetable s) (killed s) (ticks s) (time s) (stimecmp s) (events s).
Definition set_killed (x : bool) (s : kst) : kst := mk_kst (hh s) (pagetable s) x (ticks s) (time s) (stimecmp s) (events s).
Definition emit (e : event) (s : kst) : kst := mk_kst (hh s) (pagetable s) (killed s) (ticks s) (time s) (stimecmp s) (events s ++ [e]).

(** A trap handler returns to user space, ends the process, or panics; or it is in a
    system call that does not return. *)
Inductive tres := Resume (s : kst) | Exits (s : kst) | Panics (msg : string) | Away.

Definition cpuid (h : hart) : Z := regs h tp.

Definition clockintr (s : kst) : kst :=
  let s1 := if cpuid (hh s) =? 0 then emit Wake_ticks (mk_kst (hh s) (pagetable s) (killed s) (u32 (ticks s + 1)) (time s) (stimecmp s) (events s)) else s in
  mk_kst (hh s1) (pagetable s1) (killed s1) (ticks s1) (time s1) (u64 (time s1 + 1000000)) (events s1).

Section trap.
Context (tr : Z → Z → Z).
(** The addresses of [kernelvec] and [usertrap], and of the two routines in the trampoline page. *)
Context (kernelvec_ usertrap_ uservec_off userret_off : Z).
(** What the traps call: [plic_claim], the device handlers, [yield], and the table
    [syscalls], by number; a call yields its result, unless it does not return. *)
Context (plic_claim : kst → Z) (uartintr virtio_disk_intr yield : kst → kst).
Context (syscalls : Z → option (kst → option (Z * kst))).

Definition devintr (s : kst) : Z * kst :=
  if scause (hh s) =? EXTERNAL then
    let irq := plic_claim s in
    let s1 := if irq =? UART0_IRQ then uartintr (emit Uart s)
              else if irq =? VIRTIO0_IRQ then virtio_disk_intr (emit Virtio s)
              else if negb (irq =? 0) then emit (Unexpected irq) s else s in
    (1, if negb (irq =? 0) then emit (Complete irq) s1 else s1)
  else if scause (hh s) =? TIMER then (2, clockintr s)
  else (0, s).

Definition on_hart (f : hart → hart) (s : kst) : kst := set_hh (f (hh s)) s.
Definition store (a v : Z) (h : hart) : hart := set_mem (<[a := v]> (mem h)) h.
Definition intr_on (h : hart) : hart := set_sstatus (Z.lor (sstatus h) SSTATUS_SIE) h.
Definition intr_off (h : hart) : hart := set_sstatus (Z.ldiff (sstatus h) SSTATUS_SIE) h.

(** [syscall] *)
Definition syscall (p : proc) (s : kst) : option kst :=
  let num := s32 (mem (hh s) (trapframe p + slot a7)) in
  match syscalls num with
  | Some f =>
      match f s with
      | Some (r, s') => Some (on_hart (store (trapframe p + slot a0) (u64 r)) s')
      | None => None
      end
  | None => Some (on_hart (store (trapframe p + slot a0) (u64 (-1))) s)
  end.

(** [usertrapret]: the state at the jump to [userret]; [clob] is what the other registers hold. *)
Definition usertrapret (p : proc) (pt : Z) (clob : reg → Z) (h : hart) : hart :=
  let tf := trapframe p in
  let h := intr_off h in
  let h := set_stvec (TRAMPOLINE + uservec_off) h in
  let h := store tf (satp h) h in
  let h := store (tf + 8) (kstack p + PGSIZE) h in
  let h := store (tf + 16) usertrap_ h in
  let h := store (tf + 32) (regs h tp) h in
  let x := sstatus h in
  let x := Z.ldiff x SSTATUS_SPP in
  let x := Z.lor x SSTATUS_SPIE in
  let h := set_sstatus x h in
  let h := set_sepc (mem h (tf + 24)) h in
  set_pc (TRAMPOLINE + userret_off) (set_regs (<[a0 := MAKE_SATP pt]> clob) h).

(** The end of [usertrap]. *)
Definition usertrap_end (p : proc) (clob : reg → Z) (which_dev : Z) (s : kst) : tres :=
  if killed s then Exits s
  else
    let s := if which_dev =? 2 then yield s else s in
    Resume (on_hart (usertrapret p (pagetable s) clob) s).

Definition usertrap (p : proc) (clob : reg → Z) (s : kst) : tres :=
  if Z.testbit (sstatus (hh s)) 8 then Panics "usertrap: not from user mode"
  else
    let s := on_hart (set_stvec kernelvec_) s in
    let s := on_hart (λ h, store (trapframe p + 24) (sepc h) h) s in
    if scause (hh s) =? ECALL then
      if killed s then Exits s
      else
        let s := on_hart (λ h, store (trapframe p + 24) (u64 (mem h (trapframe p + 24) + 4)) h) s in
        let s := on_hart intr_on s in
        match syscall p s with
        | Some s => usertrap_end p clob 0 s
        | None => Away
        end
    else
      let '(which_dev, s) := devintr s in
      if negb (which_dev =? 0) then usertrap_end p clob which_dev s
      else usertrap_end p clob which_dev (set_killed true s).

(** [kerneltrap]; [myproc] tells whether a process runs on the CPU. *)
Definition kerneltrap (myproc : bool) (s : kst) : tres :=
  let sepc0 := sepc (hh s) in
  let sstatus0 := sstatus (hh s) in
  if negb (Z.testbit sstatus0 8) then Panics "kerneltrap: not from supervisor mode"
  else if Z.testbit (sstatus (hh s)) 1 then Panics "kerneltrap: interrupts enabled"
  else
    let '(which_dev, s) := devintr s in
    if which_dev =? 0 then Panics "kerneltrap"
    else
      let s := if (which_dev =? 2) && myproc then yield s else s in
      Resume (on_hart (λ h, set_sstatus sstatus0 (set_sepc sepc0 h)) s).

(** ** From user space and back *)

(** What every part of [devintr] keeps, [devintr] keeps. *)
Lemma devintr_rel (R : kst → kst → Prop) :
  (∀ s s' e, R s s' → R s (emit e s')) → (∀ s, R s s) → (∀ s, R s (clockintr s)) →
  (∀ s, R s (uartintr (emit Uart s))) → (∀ s, R s (virtio_disk_intr (emit Virtio s))) → ∀ s, R s (devintr s).2.
Proof.
  intros Hemit Hrefl Hclock Huart' Hvirtio' s. unfold devintr. destruct (scause (hh s) =? EXTERNAL).
  - cbn [snd]. set (irq := plic_claim s). set (s' := if irq =? UART0_IRQ then _ else _).
    assert (R s s') by (unfold s'; repeat case_match; auto). destruct (negb (irq =? 0)); auto.
  - destruct (scause (hh s) =? TIMER); cbn [snd]; auto.
Qed.

Lemma devintr_which s : (devintr s).1 ≠ 0 ↔ scause (hh s) ∈ [EXTERNAL; TIMER].
Proof using plic_claim uartintr virtio_disk_intr.
  clear -plic_claim uartintr virtio_disk_intr. unfold devintr. rewrite !elem_of_cons, elem_of_nil. destruct (Z.eqb_spec (scause (hh s)) EXTERNAL) as [->|]; [by split; [left|]|].
  destruct (Z.eqb_spec (scause (hh s)) TIMER) as [->|]; [by split; [right; left|]|]. simpl. tauto.
Qed.

(** A handler runs on behalf of whoever was interrupted: it leaves the kernel's page table
    in force, and does not touch the process's page table or its saved registers.  It may
    well kill the process. *)
Definition keeps (p : proc) (s s' : kst) : Prop :=
  satp (hh s') = satp (hh s) ∧ pagetable s' = pagetable s ∧
  ∀ off, 24 ≤ off ≤ 280 → mem (hh s') (trapframe p + off) = mem (hh s) (trapframe p + off).

(** The process's page table has its trap frame at [TRAPFRAME] (proc_pagetable). *)
Definition maps_frame (p : proc) (pt : Z) : Prop :=
  ∀ off, 0 ≤ off ≤ 280 → tr (MAKE_SATP pt) (TRAPFRAME + off) = trapframe p + off.

(** The hart runs the process in user mode, and is ready for a trap. *)
Record ready (p : proc) (pt ks : Z) (h : hart) : Prop := {
  rd_user : user h = true; rd_satp : satp h = MAKE_SATP pt; rd_stvec : stvec h = TRAMPOLINE + uservec_off;
  rd_sie : Z.testbit (sstatus h) 1 = true;
  rd_ksatp : mem h (trapframe p) = ks; rd_ksp : mem h (trapframe p + 8) = kstack p + PGSIZE; rd_ktrap : mem h (trapframe p + 16) = usertrap_ }.

Lemma clockintr_keeps p s : keeps p s (clockintr s).
Proof. unfold clockintr. by destruct (cpuid (hh s) =? 0). Qed.

Context (p : proc).
Context (Huart : ∀ s, keeps p s (uartintr s)) (Hvirtio : ∀ s, keeps p s (virtio_disk_intr s)) (Hyield : ∀ s, keeps p s (yield s)).

Lemma devintr_keeps s : keeps p s (devintr s).2.
Proof.
  apply (devintr_rel (keeps p)); try done.
  - apply clockintr_keeps.
  - intros k. exact (Huart (emit Uart k)).
  - intros k. exact (Hvirtio (emit Virtio k)).
Qed.

(** The bits of [sstatus] that decide where [sret] goes. *)
Lemma return_bits x : let y := Z.lor (Z.ldiff x SSTATUS_SPP) SSTATUS_SPIE in
  Z.testbit y 8 = false ∧ Z.testbit (set_bit false SSTATUS_SPP (set_bit true SSTATUS_SPIE (set_bit (Z.testbit y 5) SSTATUS_SIE y))) 1 = true.
Proof.
  intros y. assert (B5 : Z.testbit y 5 = true).
  { unfold y. rewrite Z.lor_spec. change (Z.testbit SSTATUS_SPIE 5) with true. apply orb_true_r. }
  split.
  - unfold y. rewrite Z.lor_spec, Z.ldiff_spec. change (Z.testbit SSTATUS_SPP 8) with true. change (Z.testbit SSTATUS_SPIE 8) with false.
    by rewrite andb_false_r.
  - rewrite B5. unfold set_bit. rewrite Z.ldiff_spec, !Z.lor_spec. change (Z.testbit SSTATUS_SIE 1) with true.
    change (Z.testbit SSTATUS_SPP 1) with false. by rewrite orb_true_r.
Qed.

Lemma trap_from_user cause h : user h = true → Z.testbit (sstatus (take_trap cause h)) 8 = false.
Proof.
  intros Hu. unfold take_trap. cbn [sstatus]. rewrite Hu. cbn [negb]. unfold set_bit at 1. rewrite Z.ldiff_spec.
  change (Z.testbit SSTATUS_SPP 8) with true. by rewrite andb_false_r.
Qed.

(** [usertrapret], [userret] and [sret]: the process runs with the registers of its frame. *)
Lemma return_effect h pt clob : maps_frame p pt →
  let h' := exec tr userret (usertrapret p pt clob h) in
  ready p pt (satp h) h' ∧ pc h' = mem h (trapframe p + 24) ∧ ∀ r, regs h' r = mem h (trapframe p + slot r).
Proof.
  intros Htr h'. set (h1 := usertrapret p pt clob h) in *.
  destruct (userret_effect tr (MAKE_SATP pt) (trapframe p) Htr h1) as [Hregs (f & E)]; [apply fn_lookup_insert|].
  fold h' in Hregs, E. destruct (return_bits (Z.ldiff (sstatus h) SSTATUS_SIE)) as [B8 B1].
  assert (Hm : ∀ r, mem h1 (trapframe p + slot r) = mem h (trapframe p + slot r)).
  { intros r. pose proof (slot_range r). simpl. rewrite !fn_lookup_insert_ne by lia. done. }
  split_and!.
  - rewrite E. constructor; cbn -[Z.testbit Z.lor Z.ldiff set_bit].
    + by rewrite B8.
    + done.
    + done.
    + exact B1.
    + rewrite !fn_lookup_insert_ne by lia. apply fn_lookup_insert.
    + rewrite !fn_lookup_insert_ne by lia. apply fn_lookup_insert.
    + rewrite fn_lookup_insert_ne by lia. apply fn_lookup_insert.
  - rewrite E. simpl. by rewrite !fn_lookup_insert_ne by lia.
  - intros r. by rewrite Hregs, Hm.
Qed.

(** The process runs on in user mode, at [epc] with the registers [f]. *)
Definition back (ks pt epc : Z) (f : reg → Z) (out : tres) : Prop :=
  ∃ k, out = Resume k ∧ let h := exec tr userret (hh k) in ready p pt ks h ∧ pc h = epc ∧ ∀ r, regs h r = f r.

(** The end of [usertrap]: the process is ended if it was killed, and otherwise runs on
    with what its trap frame holds. *)
Lemma end_effect clob w s : maps_frame p (pagetable s) →
  if killed s then usertrap_end p clob w s = Exits s
  else back (satp (hh s)) (pagetable s) (mem (hh s) (trapframe p + 24)) (λ r, mem (hh s) (trapframe p + slot r)) (usertrap_end p clob w s).
Proof.
  intros Hmap. unfold usertrap_end. destruct (killed s); [done|]. set (s' := if w =? 2 then yield s else s).
  assert (keeps p s s') as (Hs & Hp & Hm) by (unfold s'; destruct (w =? 2); [apply Hyield|done]).
  eexists. split; [done|]. cbn [hh on_hart set_hh]. rewrite Hp. destruct (return_effect (hh s') (pagetable s) clob Hmap) as (A & B & C).
  rewrite Hs in A. split_and!; [exact A| |].
  - rewrite <- (Hm 24) by lia. exact B.
  - intros r. pose proof (slot_range r). rewrite <- (Hm (slot r)) by lia. apply C.
Qed.

(** A system call that returns does so with the kernel's page table in force, and the
    process has a page table with its trap frame in place. *)
Context (Hsys : ∀ num f s r s', syscalls num = Some f → f s = Some (r, s') →
  satp (hh s') = satp (hh s) ∧ (maps_frame p (pagetable s) → maps_frame p (pagetable s'))).

(** The kernel has been entered from the process: its registers are in the trap frame,
    with the pc it is to go on at. *)
Record entered (ks epc : Z) (s : kst) (h0 : hart) (sk : kst) : Prop := {
  en_satp : satp (hh sk) = ks;
  en_epc : mem (hh sk) (trapframe p + 24) = epc;
  en_regs : ∀ r, mem (hh sk) (trapframe p + slot r) = regs h0 r;
  en_rest : pagetable sk = pagetable s ∧ killed sk = killed s ∧ ticks sk = ticks s ∧ time sk = time s ∧
    stimecmp sk = stimecmp s ∧ events sk = events s }.

(** What a system call comes to, by what the function of its number does. *)
Definition call_outcome (ks : Z) (s sk : kst) (h0 : hart) (out : tres) : Prop :=
  match syscalls (s32 (regs h0 a7)) with
  | None => back ks (pagetable s) (u64 (pc h0 + 4)) (<[a0 := 2 ^ 64 - 1]> (regs h0)) out
  | Some f =>
      match f sk with
      | None => out = Away
      | Some (r, s') =>
          if killed s' then ∃ k, out = Exits k
          else back ks (pagetable s') (mem (hh s') (trapframe p + 24)) (<[a0 := u64 r]> (λ q, mem (hh s') (trapframe p + slot q))) out ∧
            (keeps p sk s' → back ks (pagetable s) (u64 (pc h0 + 4)) (<[a0 := u64 r]> (regs h0)) out)
      end
  end.

(** What a trap from user space comes to. *)
Definition trap_outcome (ks : Z) (s : kst) (h0 : hart) (cause : Z) (out : tres) : Prop :=
  ∃ sk, entered ks (if cause =? ECALL then u64 (pc h0 + 4) else pc h0) s h0 sk ∧
  if cause =? ECALL then if killed s then ∃ k, out = Exits k else call_outcome ks s sk h0 out
  else if bool_decide (cause ∈ [EXTERNAL; TIMER]) then
    if killed (devintr sk).2 then ∃ k, out = Exits k else back ks (pagetable s) (pc h0) (regs h0) out
  else ∃ k, out = Exits k ∧ killed k = true.

(** After the trampoline, and the first two statements of [usertrap]. *)
Lemma trap_entry pt ks h0 cause h : ready p pt ks h0 → uservec_ok (trapframe p) (take_trap cause h0) h →
  let h' := store (trapframe p + 24) (sepc (set_stvec kernelvec_ h)) (set_stvec kernelvec_ h) in
  pc h = usertrap_ ∧ satp h = ks ∧ regs h sp = kstack p + PGSIZE ∧ Z.testbit (sstatus h) 8 = false ∧ scause h = cause ∧
  satp h' = ks ∧ mem h' (trapframe p + 24) = pc h0 ∧ ∀ r, mem h' (trapframe p + slot r) = regs h0 r.
Proof.
  intros [Hu _ _ _ H0 H8 H16] []. unfold store. cbn [satp mem sepc set_stvec set_mem]. rewrite Z.add_0_r in uv_satp0. split_and!.
  - rewrite uv_pc0. exact H16.
  - rewrite uv_satp0. exact H0.
  - rewrite uv_sp0. exact H8.
  - rewrite uv_sstatus0. by apply trap_from_user.
  - exact uv_scause0.
  - rewrite uv_satp0. exact H0.
  - rewrite fn_lookup_insert. exact uv_sepc0.
  - intros r. pose proof (slot_range r). rewrite fn_lookup_insert_ne by lia. apply uv_saved0.
Qed.

Lemma back_ext ks pt epc f f' out : (∀ r, f r = f' r) → back ks pt epc f out → back ks pt epc f' out.
Proof. intros E (k & Ek & A & B & C). exists k. split; [done|]. split; [done|]. split; [done|]. intros r. by rewrite C. Qed.

(** The system call, and the way back. *)
Lemma syscall_outcome ks s h0 clob sk : entered ks (u64 (pc h0 + 4)) s h0 sk → killed s = false → maps_frame p (pagetable s) →
  call_outcome ks s sk h0 (match syscall p sk with Some s' => usertrap_end p clob 0 s' | None => Away end).
Proof.
  intros [Es Ee Er (Ep & Ek & _)] Hk Hmap. unfold call_outcome, syscall. rewrite Er. destruct (syscalls (s32 (regs h0 a7))) as [f|] eqn:Ef.
  - destruct (f sk) as [[r sj]|] eqn:Ec; [|done]. destruct (Hsys _ _ _ _ _ Ef Ec) as [Hsat Hmap2]. rewrite Ep in Hmap2. specialize (Hmap2 Hmap).
    set (sl := on_hart _ sj). pose proof (end_effect clob 0 sl Hmap2) as H. change (killed sl) with (killed sj) in H.
    destruct (killed sj); [by eexists|]. change (satp (hh sl)) with (satp (hh sj)) in H. change (pagetable sl) with (pagetable sj) in H.
    rewrite Hsat, Es in H. assert (mem (hh sl) (trapframe p + 24) = mem (hh sj) (trapframe p + 24)) as E24 by (apply fn_lookup_insert_ne; simpl; lia).
    rewrite E24 in H. assert (Hb : back ks (pagetable sj) (mem (hh sj) (trapframe p + 24)) (<[a0 := u64 r]> (λ q, mem (hh sj) (trapframe p + slot q))) (usertrap_end p clob 0 sl)).
    { eapply back_ext; [|exact H]. intros q. simpl. destruct (decide (q = a0)) as [->|Hq]; [by rewrite !fn_lookup_insert|].
      rewrite !fn_lookup_insert_ne; [done|done|]. intros E. apply Hq, slot_inj. simpl. lia. }
    split; [exact Hb|]. intros (_ & Kp & Km). rewrite Kp, Ep, (Km 24), Ee in Hb by lia. eapply back_ext; [|exact Hb]. intros q.
    destruct (decide (q = a0)) as [->|Hq]; [by rewrite !fn_lookup_insert|]. rewrite !fn_lookup_insert_ne by done.
    pose proof (slot_range q). by rewrite Km, Er by lia.
  - set (sl := on_hart _ sk). pose proof (end_effect clob 0 sl) as H. change (killed sl) with (killed sk) in H. rewrite Ek, Hk in H.
    change (satp (hh sl)) with (satp (hh sk)) in H. change (pagetable sl) with (pagetable sk) in H. rewrite Ep, Es in H. specialize (H Hmap).
    assert (mem (hh sl) (trapframe p + 24) = u64 (pc h0 + 4)) as E24 by (rewrite <- Ee; apply fn_lookup_insert_ne; simpl; lia).
    rewrite E24 in H. eapply back_ext; [|exact H]. intros q. simpl.
    destruct (decide (q = a0)) as [->|Hq]; [by rewrite !fn_lookup_insert|].
    rewrite !fn_lookup_insert_ne; [by rewrite Er|done|]. intros E. apply Hq, slot_inj. simpl. lia.
Qed.

Lemma usertrap_outcome ks s h0 cause clob h : maps_frame p (pagetable s) → ready p (pagetable s) ks h0 →
  uservec_ok (trapframe p) (take_trap cause h0) h → trap_outcome ks s h0 cause (usertrap p clob (set_hh h s)).
Proof.
  intros Hmap Hrd Huv. destruct (trap_entry _ ks h0 cause h Hrd Huv) as (_ & _ & _ & B8 & Ec & Es & Ep & Er).
  unfold usertrap. change (hh (set_hh h s)) with h. rewrite B8. cbv zeta.
  set (s2 := on_hart (λ h, store (trapframe p + 24) (sepc h) h) (on_hart (set_stvec kernelvec_) (set_hh h s))).
  change (scause (hh s2)) with (scause h). rewrite Ec. change (killed s2) with (killed s).
  change (satp (hh s2) = ks) in Es. change (mem (hh s2) (trapframe p + 24) = pc h0) in Ep. change (∀ r, mem (hh s2) (trapframe p + slot r) = regs h0 r) in Er.
  unfold trap_outcome. destruct (Z.eqb_spec cause ECALL) as [->|Hne].
  - set (s3 := on_hart intr_on _). assert (entered ks (u64 (pc h0 + 4)) s h0 s3) as Hen.
    { split; [exact Es| | |done].
      - simpl. rewrite fn_lookup_insert. f_equal. rewrite <- Ep. done.
      - intros r. pose proof (slot_range r). simpl. rewrite fn_lookup_insert_ne by lia. apply Er. }
    exists s3. split; [exact Hen|]. destruct (killed s) eqn:Ek; [by eexists|]. by apply syscall_outcome.
  - exists s2. split; [by split|]. pose proof (devintr_keeps s2) as (A & B & C). pose proof (devintr_which s2) as Hw.
    change (scause (hh s2)) with (scause h) in Hw. rewrite Ec in Hw. destruct (devintr s2) as [w s5]. cbn [fst snd] in *. rewrite Es in A.
    change (pagetable s2) with (pagetable s) in B. destruct (Z.eqb_spec w 0) as [->|Hw0].
    + cbn [negb]. rewrite bool_decide_false by (intros Hin; by apply Hw in Hin). by eexists.
    + cbn [negb]. rewrite bool_decide_true by (by apply Hw). pose proof (end_effect clob w s5) as H. rewrite B in H. specialize (H Hmap).
      destruct (killed s5); [by eexists|]. rewrite A, (C 24), Ep in H by lia. eapply back_ext; [|exact H].
      intros r. pose proof (slot_range r). cbv beta. by rewrite C, Er by lia.
Qed.

(** [C10] A trap from user space.  The trap and uservec bring the hart to usertrap, with
    the kernel's page table and the process's kernel stack, and with every register of
    the program and its pc (behind the ecall for a system call) in the trap frame.  From
    there, through the handlers, usertrapret, userret and sret: after an interrupt the
    process runs on in user mode at the same instruction with every register as it was,
    unless it was killed in the meantime.  A system call goes to the function of the
    number in a7, which may do anything to the frame, the page table and [killed] but
    leave the trap frame unmapped or the kernel's page table out of force; if it returns
    and the process is not killed, the process runs on with its page table and what its
    trap frame then holds, with the result in a0: for a call that leaves the frame alone
    that is the next instruction with only a0 changed.  An unknown number gives -1 and
    changes nothing else.  After each return the hart is ready for the next trap.  A
    killed process, or one that causes any other trap, is ended; the kernel does not
    panic.  Of the device handlers and of yield it is assumed that they leave the saved
    registers and the page tables alone. *)
Theorem user_trap_returns ks s h0 cause clob : maps_frame p (pagetable s) → ready p (pagetable s) ks h0 →
  let h := exec tr uservec (take_trap cause h0) in
  pc h = usertrap_ ∧ satp h = ks ∧ regs h sp = kstack p + PGSIZE ∧ trap_outcome ks s h0 cause (usertrap p clob (set_hh h s)).
Proof.
  intros Hmap Hrd. pose proof (uservec_effect tr _ (trapframe p) Hmap (take_trap cause h0) (rd_satp _ _ _ _ Hrd)) as Huv.
  destruct (trap_entry _ ks h0 cause _ Hrd Huv) as (A & B & C & _). split; [exact A|]. split; [exact B|]. split; [exact C|]. by apply usertrap_outcome.
Qed.

End trap.

(** ** From the kernel and back *)

Section ktrap.
Context (tr : Z → Z → Z) (plic_claim : kst → Z) (uartintr virtio_disk_intr yield : kst → kst).
Context (ks v pa : Z) (Hv : 256 ≤ v < 2 ^ 64) (Htr : ∀ off, 0 ≤ off < 256 → tr ks (v - 256 + off) = pa + off).

(** A call leaves the page table in force and the interrupted thread's stack alone. *)
Definition keeps_stack (g : kst → kst) : Prop :=
  ∀ s, satp (hh (g s)) = satp (hh s) ∧ ∀ off, 0 ≤ off < 256 → mem (hh (g s)) (pa + off) = mem (hh s) (pa + off).

Context (Huart : keeps_stack uartintr) (Hvirtio : keeps_stack virtio_disk_intr) (Hyield : keeps_stack yield).
Notation devintr := (devintr plic_claim uartintr virtio_disk_intr).
Notation kerneltrap := (kerneltrap plic_claim uartintr virtio_disk_intr yield).

Lemma devintr_stack : keeps_stack (λ s, (devintr s).2).
Proof.
  intros k. apply (devintr_rel plic_claim uartintr virtio_disk_intr (λ s s', satp (hh s') = satp (hh s) ∧
    ∀ off, 0 ≤ off < 256 → mem (hh s') (pa + off) = mem (hh s) (pa + off))); try done.
  - intros s. unfold clockintr. by destruct (cpuid (hh s) =? 0).
  - intros s. exact (Huart (emit Uart s)).
  - intros s. exact (Hvirtio (emit Virtio s)).
Qed.

(** The bits [take_trap] leaves when the kernel is interrupted, and what [sret] makes of them. *)
Lemma kernel_bits cause h : user h = false → let y := sstatus (take_trap cause h) in
  Z.testbit y 8 = true ∧ Z.testbit y 1 = false ∧
  Z.testbit (set_bit false SSTATUS_SPP (set_bit true SSTATUS_SPIE (set_bit (Z.testbit y 5) SSTATUS_SIE y))) 1 = Z.testbit (sstatus h) 1.
Proof.
  intros Hu. cbv zeta. set (b := Z.testbit (sstatus h) 1). set (z := Z.ldiff (sstatus h) SSTATUS_SIE).
  assert (Ey : sstatus (take_trap cause h) = set_bit true SSTATUS_SPP (set_bit b SSTATUS_SPIE z)) by (unfold take_trap; cbn [sstatus]; by rewrite Hu).
  rewrite Ey. set (y := set_bit true SSTATUS_SPP _).
  assert (Hz : Z.testbit z 1 = false) by (unfold z; rewrite Z.ldiff_spec; change (Z.testbit SSTATUS_SIE 1) with true; by rewrite andb_false_r).
  assert (Hset : ∀ c m x, Z.testbit m 1 = false → Z.testbit (set_bit c m x) 1 = Z.testbit x 1).
  { intros c m x Hm. unfold set_bit. destruct c; [rewrite Z.lor_spec, Hm; apply orb_false_r|rewrite Z.ldiff_spec, Hm; apply andb_true_r]. }
  assert (B1 : Z.testbit y 1 = false) by (unfold y; rewrite !Hset by done; exact Hz).
  assert (B5 : Z.testbit y 5 = b).
  { unfold y. unfold set_bit at 1. rewrite Z.lor_spec. change (Z.testbit SSTATUS_SPP 5) with false. rewrite orb_false_r. unfold set_bit.
    destruct b; [rewrite Z.lor_spec; change (Z.testbit SSTATUS_SPIE 5) with true; apply orb_true_r|].
    rewrite Z.ldiff_spec. change (Z.testbit SSTATUS_SPIE 5) with true. apply andb_false_r. }
  split_and!; [|done|].
  - unfold y. unfold set_bit at 1. rewrite Z.lor_spec. change (Z.testbit SSTATUS_SPP 8) with true. apply orb_true_r.
  - rewrite B5, !Hset by done. destruct b; [|by unfold set_bit; rewrite Z.ldiff_spec, B1].
    unfold set_bit. rewrite Z.lor_spec. change (Z.testbit SSTATUS_SIE 1) with true. apply orb_true_r.
Qed.

(** [kerneltrap] keeps the frame kernelvec made, and puts [sepc] and [sstatus] back. *)
Lemma kerneltrap_effect myproc s :
  Z.testbit (sstatus (hh s)) 8 = true → Z.testbit (sstatus (hh s)) 1 = false →
  match kerneltrap myproc s with
  | Resume k => scause (hh s) ∈ [EXTERNAL; TIMER] ∧ sepc (hh k) = sepc (hh s) ∧ sstatus (hh k) = sstatus (hh s) ∧
      satp (hh k) = satp (hh s) ∧ ∀ off, 0 ≤ off < 256 → mem (hh k) (pa + off) = mem (hh s) (pa + off)
  | Exits _ | Away => False
  | Panics _ => scause (hh s) ∉ [EXTERNAL; TIMER]
  end.
Proof.
  intros B8 B1. unfold Trap.kerneltrap. rewrite B8, B1. cbn [negb]. pose proof (devintr_which plic_claim uartintr virtio_disk_intr s) as Hw.
  destruct (devintr_stack s) as [A B]. destruct (devintr s) as [w k]. cbn [fst snd] in *. destruct (Z.eqb_spec w 0) as [->|Hne].
  - intros Hin. by apply Hw in Hin.
  - set (k' := if (w =? 2) && myproc then yield k else k).
    assert (H : satp (hh k') = satp (hh k) ∧ ∀ off, 0 ≤ off < 256 → mem (hh k') (pa + off) = mem (hh k) (pa + off)).
    { unfold k'. destruct ((w =? 2) && myproc); [apply Hyield|done]. }
    destruct H as [A' B']. split; [by apply Hw|]. split; [done|]. split; [done|]. split; [simpl; congruence|].
    intros off Ho. simpl. rewrite B', B by done. done.
Qed.

Lemma ra_not_callee : ra ∉ callee_saved.
Proof. apply (bool_decide_unpack _). vm_compute. exact I. Qed.

(** What an interrupt of the kernel comes to; [clob] is what C leaves in the registers. *)
Definition ktrap_outcome (h0 h1 : hart) (cause : Z) (clob : reg → Z) (out : tres) : Prop :=
  match out with
  | Resume k => cause ∈ [EXTERNAL; TIMER] ∧ ((∀ r, r ∈ callee_saved → clob r = regs h1 r) →
      let h3 := exec tr kernelvec_restore (set_regs clob (hh k)) in
      pc h3 = pc h0 ∧ user h3 = false ∧ satp h3 = ks ∧ Z.testbit (sstatus h3) 1 = Z.testbit (sstatus h0) 1 ∧
      regs h3 tp = clob tp ∧ ∀ r, r ≠ tp → regs h3 r = regs h0 r)
  | Exits _ | Away => False
  | Panics _ => cause ∉ [EXTERNAL; TIMER]
  end.

(** [C18] An interrupt of kernel code is invisible to it.  Through kernelvec, kerneltrap
    and the handlers, even when the thread gives up the CPU in between: the code goes
    on at the same instruction, in supervisor mode, with interrupts as they were and
    every register but tp, which names the hart, as it was; kerneltrap panics for
    exactly the traps that are not device or timer interrupts. *)
Theorem kernel_trap_returns s h0 cause myproc clob : user h0 = false → satp h0 = ks → regs h0 sp = v →
  let h1 := exec tr kernelvec_save (take_trap cause h0) in
  ktrap_outcome h0 h1 cause clob (kerneltrap myproc (set_hh h1 s)).
Proof.
  intros Hu Hs Hsp. destruct (kernelvec_saved tr ks v pa Hv Htr (take_trap cause h0) Hs Hsp) as (P1 & P2 & P3 & P4 & P5 & f & m & E).
  destruct (kernel_bits cause h0 Hu) as (B8 & B1 & Bsie). revert P1 P2 P3 P4 P5 E. generalize (exec tr kernelvec_save (take_trap cause h0)). intros h1 P1 P2 P3 P4 P5 E.
  pose proof (kerneltrap_effect myproc (set_hh h1 s)) as H. cbn [hh set_hh] in H. assert (Ecsr : sstatus h1 = sstatus (take_trap cause h0) ∧ sepc h1 = pc h0 ∧ scause h1 = cause) by (by rewrite E).
  destruct Ecsr as (E1 & E2 & E3). rewrite E1, E3 in H. specialize (H B8 B1). cbv zeta. unfold ktrap_outcome. 
  destruct (kerneltrap myproc (set_hh h1 s)) as [k|k| |]; [|done|done|done]. destruct H as (Hin & Hse & Hss & Hsa & Hm). split; [done|]. intros Hcs.
  cbn [hh set_hh] in *. destruct (kernelvec_restored tr ks v pa Hv Htr (set_regs clob (hh k))) as (Q1 & Q2 & Q3 & Q4 & Q5 & f' & Q6); cbn [satp mem regs set_regs].
  { by rewrite Hsa. } { rewrite Hcs by constructor. exact P1. } { rewrite Hm by lia. exact P4. }
  revert Q1 Q2 Q3 Q4 Q5 Q6. generalize (exec tr kernelvec_restore (set_regs clob (hh k))). intros h3 Q1 Q2 Q3 Q4 Q5 Q6. cbv zeta. cbn [mem regs set_regs] in *.
  split_and!.
  - rewrite Q6. simpl. congruence.
  - rewrite Q6. cbn [user do_sret sstatus set_regs]. by rewrite Hss, B8.
  - rewrite Q6. simpl. congruence.
  - rewrite Q6. cbn [sstatus do_sret set_regs]. rewrite Hss. exact Bsie.
  - exact Q2.
  - intros r Hr. destruct (kframe_all r) as [->|[->|[->|[(off & Hoff)|[Hc Hn]]]]]; [done|congruence| | |].
    + rewrite Q3, Hm, (P5 ra 0) by (done || lia || constructor). done.
    + assert (r ≠ sp) as Hsp' by (intros ->; apply (list_elem_of_fmap_2 fst) in Hoff; by apply kframe_nodup in Hoff).
      pose proof (kframe_sub _ Hoff) as Hin1. assert (0 ≤ off < 256) by (apply kframe_offs; by apply (list_elem_of_fmap_2 snd) in Hin1).
      rewrite (Q4 r off Hoff), Hm, (P5 r off) by done. done.
    + destruct (decide (r = sp)) as [->|Hsp']; [congruence|]. destruct (decide (r = ra)) as [->|Hra']; [by destruct ra_not_callee|].
      rewrite Q5, Hcs, P3 by done. done.
Qed.

End ktrap.

(** ** Examples *)

Definition demo_proc : proc := mk_proc 0x87f56000 0x3fffffd000.
Definition demo_pt : Z := 0x87f57000.
Definition demo_satp : Z := 0x8000000000087fff.
(** The trap frame's page in the tables of processes; the rest where it is. *)
Definition demo_tr (st x : Z) : Z :=
  if negb (st =? demo_satp) && (TRAPFRAME <=? x) && (x <? TRAPFRAME + PGSIZE) then 0x87f56000 + (x - TRAPFRAME) else x.
(** The number is in a7. *)
Definition demo_user (num : Z) : hart :=
  mk_hart (λ r, match r with a0 => 3 | a7 => num | s3 => 77 | _ => 0 end) 0x1000 true
    (<[0x87f56000 := demo_satp]> (<[0x87f56008 := 0x3fffffe000]> (<[0x87f56010 := 0x80002000]> (λ _, 0))))
    (MAKE_SATP demo_pt) (TRAMPOLINE + 0) 0 0 2 0.
Definition demo_kst (h : hart) : kst := mk_kst h demo_pt false 5 100 0 [].
(** Call 11 returns 42, call 2 does not return, and call 7 starts another program at
    0x200 under another page table. *)
Definition demo_syscalls (num : Z) : option (kst → option (Z * kst)) :=
  match num with
  | 2 => Some (λ _, None)
  | 7 => Some (λ s, Some (1, mk_kst (store (trapframe demo_proc + 24) 0x200 (hh s)) 0x87f00000 (killed s) (ticks s) (time s) (stimecmp s) (events s)))
  | 11 => Some (λ s, Some (42, s))
  | _ => None
  end.

Lemma demo_maps pt : MAKE_SATP pt ≠ demo_satp → maps_frame demo_tr demo_proc pt.
Proof.
  intros Hne off Ho. unfold demo_tr. rewrite (proj2 (Z.eqb_neq _ _)) by done. destruct (Z.leb_spec TRAPFRAME (TRAPFRAME + off)); [|lia].
  destruct (Z.ltb_spec (TRAPFRAME + off) (TRAPFRAME + PGSIZE)); [|unfold PGSIZE in *; lia]. simpl. lia.
Qed.

Lemma demo_calls num f s r s' : demo_syscalls num = Some f → f s = Some (r, s') →
  satp (hh s') = satp (hh s) ∧ (maps_frame demo_tr demo_proc (pagetable s) → maps_frame demo_tr demo_proc (pagetable s')).
Proof.
  intros Hf. unfold demo_syscalls in Hf. repeat case_match; simplify_eq; intros [= <- <-]; (split; [done|]); try done.
  intros _. apply demo_maps. vm_compute. discriminate.
Qed.

(** A call that returns, one that never does, and one that changes the program. *)
Lemma user_trap_returns_witness :
  let trap num := let h := exec demo_tr uservec (take_trap ECALL (demo_user num)) in
    usertrap 0x80003000 0x80002000 0 0x80 (λ _, 0) (λ s, s) (λ s, s) (λ s, s) demo_syscalls demo_proc (λ _, 13) (set_hh h (demo_kst (demo_user num))) in
  back demo_tr 0x80002000 0 demo_proc demo_satp demo_pt 0x1004 (<[a0 := 42]> (regs (demo_user 11))) (trap 11) ∧
  trap 2 = Away ∧
  ∃ k, trap 7 = Resume k ∧ pc (exec demo_tr userret (hh k)) = 0x200 ∧ satp (exec demo_tr userret (hh k)) = MAKE_SATP 0x87f00000.
Proof.
  assert (Hk : ∀ s, keeps demo_proc s s) by done.
  assert (Hm : maps_frame demo_tr demo_proc demo_pt) by (apply demo_maps; vm_compute; discriminate).
  assert (Hr : ∀ num, ready 0x80002000 0 demo_proc demo_pt demo_satp (demo_user num)) by (intros num; constructor; reflexivity).
  assert (H := λ num, user_trap_returns demo_tr 0x80003000 0x80002000 0 0x80 (λ _, 0) (λ s, s) (λ s, s) (λ s, s) demo_syscalls demo_proc Hk Hk Hk demo_calls
    demo_satp (demo_kst (demo_user num)) (demo_user num) ECALL (λ _, 13) Hm (Hr num)).
  cbv zeta. split_and!.
  - destruct (H 11) as (_ & _ & _ & [? ? kd ? ? ? ?] & [_ _ _ (_ & Ek & _)] & Ho). cbn in Ek. subst kd. hnf in Ho. destruct Ho as [_ Ho]. apply Ho. done.
  - destruct (H 2) as (_ & _ & _ & sk & _ & Ho). exact Ho.
  - destruct (H 7) as (_ & _ & _ & [? ? kd ? ? ? ?] & [_ _ _ (_ & Ek & _)] & Ho). cbn in Ek. subst kd. hnf in Ho. destruct Ho as [(k & Ek & Hrd & Hpc & _) _]. exists k. split; [exact Ek|].
    split; [rewrite Hpc; apply fn_lookup_insert|exact (rd_satp _ _ _ _ _ _ Hrd)].
Defined.

Definition demo_kernel : hart := mk_hart (λ r, match r with sp => 0x3fffffdf00 | a3 => 33 | s4 => 44 | _ => 0 end) 0x80001234 false (λ _, 0) demo_satp 0 0 0 2 0.
Definition demo_clob (r : reg) : Z := match r with sp => 0x3fffffde00 | s4 => 44 | tp => 1 | a3 => 99 | _ => 0 end.

Lemma kernel_trap_returns_witness :
  let h1 := exec (λ _ x, x) kernelvec_save (take_trap TIMER demo_kernel) in
  ∃ k, kerneltrap (λ _, 0) (λ s, s) (λ s, s) (λ s, s) true (set_hh h1 (demo_kst demo_kernel)) = Resume k ∧ ticks k = 6 ∧
    let h3 := exec (λ _ x, x) kernelvec_restore (set_regs demo_clob (hh k)) in
    pc h3 = 0x80001234 ∧ regs h3 a3 = 33 ∧ regs h3 s4 = 44 ∧ regs h3 tp = 1.
Proof.
  intros h1. assert (Hk : keeps_stack 0x3fffffde00 (λ s, s)) by done.
  assert (Htr : ∀ off, 0 ≤ off < 256 → (λ _ x : Z, x) demo_satp (0x3fffffdf00 - 256 + off) = 0x3fffffde00 + off) by (intros off Ho; lia).
  pose proof (kernel_trap_returns (λ _ x, x) (λ _, 0) (λ s, s) (λ s, s) (λ s, s) demo_satp 0x3fffffdf00 0x3fffffde00 ltac:(lia) Htr Hk Hk Hk
    (demo_kst demo_kernel) demo_kernel TIMER true demo_clob eq_refl eq_refl eq_refl) as H. cbv zeta in H. fold h1 in H. revert H.
  destruct (kerneltrap (λ _, 0) (λ s, s) (λ s, s) (λ s, s) true (set_hh h1 (demo_kst demo_kernel))) as [k|k| |] eqn:E; [|intros []|vm_compute in E; discriminate E|intros []].
  intros H. exists k. split; [done|]. split; [vm_compute in E; injection E as <-; reflexivity|]. destruct H as [_ H].
  destruct H as (A & _ & _ & _ & B & C); [|by split_and!; [exact A|exact (C a3 ltac:(done))|exact (C s4 ltac:(done))|exact B]].
  apply Forall_forall. repeat constructor; vm_compute; reflexivity.
Defined.

End Trap.
