(* ===== verification/Virtio.v ===== *)
(** * kernel/virtio_disk.c: the disk driver

    The memory the driver shares with the device (descriptors, rings, request headers,
    status bytes), the driver's own book-keeping, and the buffers.  An address that a
    descriptor holds is what it points to.  [avail_idx], [used_idx] and [dev_idx]
    ([used->idx]) are 16-bit counters that are reduced only where the rings are read.

    The routines run with [vdisk_lock] held, from one [sleep] to the next.  The device
    is the other party: it takes chains from the available ring, serves them in any
    order, reports success or an error in the status byte and puts the head on the
    used ring, as the virtio specification says (section 2.6, 5.2). *)

From S2P Require Import Prelude.

Module Virtio.

Notation bytes := (list Z).

Definition NUM : Z := 8.
Definition BSIZE : Z := 1024.
Definition SECTOR : Z := 512.
Definition F_NEXT : Z := 1.
Definition F_WRITE : Z := 2.
Definition T_IN : Z := 0.
Definition T_OUT : Z := 1.

(** What [addr] points to: nothing, [ops[i]], the data of a buffer, [info[i].status]. *)
Inductive addr_t := ANull | AReq (i : Z) | AData (b : Z) | AStatus (i : Z).
Record desc_t := mk_desc { addr : addr_t; len : Z; flags : Z; next : Z }.
Record blk_req := mk_req { type : Z; reserved : Z; sector : Z }.

(** [struct disk], the rings, [disk], [data] and [blockno] of the buffers, and the
    contents of the disk by sector. *)
Record disk := mk_disk {
  desc : Z → desc_t; free : Z → bool; ops : Z → blk_req; info_b : Z → option Z; info_status : Z → Z;
  avail_idx : Z; avail_ring : Z → Z; used_idx : Z; dev_idx : Z; used_ring : Z → Z;
  bdisk : Z → bool; bdata : Z → bytes; blockno : Z → Z; store : Z → bytes }.
Definition set_desc (x : Z → desc_t) (s : disk) : disk :=
  mk_disk x (free s) (ops s) (info_b s) (info_status s) (avail_idx s) (avail_ring s) (used_idx s) (dev_idx s) (used_ring s) (bdisk s) (bdata s) (blockno s) (store s).
Definition set_free (x : Z → bool) (s : disk) : disk :=
  mk_disk (desc s) x (ops s) (info_b s) (info_status s) (avail_idx s) (avail_ring s) (used_idx s) (dev_idx s) (used_ring s) (bdisk s) (bdata s) (blockno s) (store s).
Definition set_ops (x : Z → blk_req) (s : disk) : disk :=
  mk_disk (desc s) (free s) x (info_b s) (info_status s) (avail_idx s) (avail_ring s) (used_idx s) (dev_idx s) (used_ring s) (bdisk s) (bdata s) (blockno s) (store s).
Definition set_info_b (x : Z → option Z) (s : disk) : disk :=
  mk_disk (desc s) (free s) (ops s) x (info_status s) (avail_idx s) (avail_ring s) (used_idx s) (dev_idx s) (used_ring s) (bdisk s) (bdata s) (blockno s) (store s).
Definition set_info_status (x : Z → Z) (s : disk) : disk :=
  mk_disk (desc s) (free s) (ops s) (info_b s) x (avail_idx s) (avail_ring s) (used_idx s) (dev_idx s) (used_ring s) (bdisk s) (bdata s) (blockno s) (store s).
Definition set_avail_idx (x : Z) (s : disk) : disk :=
  mk_disk (desc s) (free s) (ops s) (info_b s) (info_status s) x (avail_ring s) (used_idx s) (dev_idx s) (used_ring s) (bdisk s) (bdata s) (blockno s) (store s).
Definition set_avail_ring (x : Z → Z) (s : disk) : disk :=
  mk_disk (desc s) (free s) (ops s) (info_b s) (info_status s) (avail_idx s) x (used_idx s) (dev_idx s) (used_ring s) (bdisk s) (bdata s) (blockno s) (store s).
Definition set_used_idx (x : Z) (s : disk) : disk :=
  mk_disk (desc s) (free s) (ops s) (info_b s) (info_status s) (avail_idx s) (avail_ring s) x (dev_idx s) (used_ring s) (bdisk s) (bdata s) (blockno s) (store s).
Definition set_dev_idx (x : Z) (s : disk) : disk :=
  mk_disk (desc s) (free s) (ops s) (info_b s) (info_status s) (avail_idx s) (avail_ring s) (used_idx s) x (used_ring s) (bdisk s) (bdata s) (blockno s) (store s).
Definition set_used_ring (x : Z → Z) (s : disk) : disk :=
  mk_disk (desc s) (free s) (ops s) (info_b s) (info_status s) (avail_idx s) (avail_ring s) (used_idx s) (dev_idx s) x (bdisk s) (bdata s) (blockno s) (store s).
Definition set_bdisk (x : Z → bool) (s : disk) : disk :=
  mk_disk (desc s) (free s) (ops s) (info_b s) (info_status s) (avail_idx s) (avail_ring s) (used_idx s) (dev_idx s) (used_ring s) x (bdata s) (blockno s) (store s).
Definition set_bdata (x : Z → bytes) (s : disk) : disk :=
  mk_disk (desc s) (free s) (ops s) (info_b s) (info_status s) (avail_idx s) (avail_ring s) (used_idx s) (dev_idx s) (used_ring s) (bdisk s) x (blockno s) (store s).
Definition set_blockno (x : Z → Z) (s : disk) : disk :=
  mk_disk (desc s) (free s) (ops s) (info_b s) (info_status s) (avail_idx s) (avail_ring s) (used_idx s) (dev_idx s) (used_ring s) (bdisk s) (bdata s) x (store s).
Definition set_store (x : Z → bytes) (s : disk) : disk :=
  mk_disk (desc s) (free s) (ops s) (info_b s) (info_status s) (avail_idx s) (avail_ring s) (used_idx s) (dev_idx s) (used_ring s) (bdisk s) (bdata s) (blockno s) x.


(** ** The driver *)

Fixpoint alloc_scan (n : nat) (i : Z) (fr : Z → bool) : option Z :=
  match n with
  | O => None
  | S n' => if fr i then Some i else alloc_scan n' (i + 1) fr
  end.
Definition alloc_desc : M disk (option Z) :=
  fr ← gets free;
  match alloc_scan (Z.to_nat NUM) 0 fr with
  | Some i => modify (λ s, set_free (<[i := false]> (free s)) s);; mret (Some i)
  | None => mret None
  end.

Definition free_desc (i : Z) : M disk unit :=
  fr ← gets free;
  if NUM <=? i then panic "free_desc 1"
  else if fr i : bool then panic "free_desc 2"
  else
    modify (λ s, set_desc (<[i := mk_desc ANull 0 0 0]> (desc s)) s);;
    modify (λ s, set_free (<[i := true]> (free s)) s).

Fixpoint free_chain (fuel : nat) (i : Z) : M disk unit :=
  match fuel with
  | O => Prelude.block
  | S fuel' =>
      ds ← gets desc;
      let flag := flags (ds i) in
      let nxt := next (ds i) in
      free_desc i;;
      if negb (Z.land flag F_NEXT =? 0) then free_chain fuel' nxt else mret tt
  end.

Definition alloc3_desc : M disk (option (Z * Z * Z)) :=
  r0 ← alloc_desc;
  match r0 with
  | None => mret None
  | Some i0 =>
      r1 ← alloc_desc;
      match r1 with
      | None => free_desc i0;; mret None
      | Some i1 =>
          r2 ← alloc_desc;
          match r2 with
          | None => free_desc i0;; free_desc i1;; mret None
          | Some i2 => mret (Some (i0, i1, i2))
          end
      end
  end.

(** The request is formatted and handed to the device. *)
Definition format3 (b : Z) (write : bool) (i0 i1 i2 : Z) : M disk unit :=
  modify (λ s, set_ops (<[i0 := mk_req (if write then T_OUT else T_IN) 0 (u32 (blockno s b * (BSIZE / 512)))]> (ops s)) s);;
  modify (λ s, set_desc (<[i0 := mk_desc (AReq i0) 16 F_NEXT i1]> (desc s)) s);;
  modify (λ s, set_desc (<[i1 := mk_desc (AData b) BSIZE (Z.lor (if write then 0 else F_WRITE) F_NEXT) i2]> (desc s)) s);;
  modify (λ s, set_info_status (<[i0 := 0xff]> (info_status s)) s);;
  modify (λ s, set_desc (<[i2 := mk_desc (AStatus i0) 1 F_WRITE 0]> (desc s)) s);;
  modify (λ s, set_bdisk (<[b := true]> (bdisk s)) s);;
  modify (λ s, set_info_b (<[i0 := Some b]> (info_b s)) s);;
  modify (λ s, set_avail_ring (<[avail_idx s mod NUM := i0]> (avail_ring s)) s);;
  modify (λ s, set_avail_idx (u16 (avail_idx s + 1)) s).

(** [virtio_disk_rw] to its second loop; [None] where it sleeps for descriptors. *)
Definition rw_begin (b : Z) (write : bool) : M disk (option (Z * Z * Z)) :=
  r ← alloc3_desc;
  match r with
  | None => mret None
  | Some (i0, i1, i2) => format3 b write i0 i1 i2;; mret (Some (i0, i1, i2))
  end.

(** [virtio_disk_rw] from its second loop: it sleeps, or ends. *)
Definition rw_end (b : Z) (i0 : Z) : M disk unit :=
  bd ← gets bdisk;
  if bd b : bool then Prelude.block
  else modify (λ s, set_info_b (<[i0 := None]> (info_b s)) s);; free_chain (S (Z.to_nat NUM)) i0.

(** One turn of the loop of [virtio_disk_intr]. *)
Definition intr_one : M disk unit :=
  s ← gets id;
  let id := used_ring s (used_idx s mod NUM) in
  if negb (info_status s id =? 0) then panic "virtio_disk_intr status"
  else
    match info_b s id with
    | None => panic "kerneltrap"
    | Some b =>
        modify (λ s, set_bdisk (<[b := false]> (bdisk s)) s);;
        modify (λ s, set_used_idx (u16 (used_idx s + 1)) s)
    end.
Fixpoint virtio_disk_intr (fuel : nat) : M disk unit :=
  match fuel with
  | O => Prelude.block
  | S fuel' =>
      s ← gets id;
      if used_idx s =? dev_idx s then mret tt else intr_one;; virtio_disk_intr fuel'
  end.

(** [virtio_disk_init]: the device's registers read as [rd]; the pages come from
    [kalloc].  It gives the registers written, in order, and the state. *)
Inductive mmio :=
  | MAGIC_VALUE | VERSION | DEVICE_ID | VENDOR_ID | DEVICE_FEATURES | DRIVER_FEATURES | QUEUE_SEL | QUEUE_NUM_MAX | QUEUE_NUM
  | QUEUE_READY | QUEUE_NOTIFY | INTERRUPT_STATUS | INTERRUPT_ACK | STATUS | QUEUE_DESC_LOW | QUEUE_DESC_HIGH | DRIVER_DESC_LOW
  | DRIVER_DESC_HIGH | DEVICE_DESC_LOW | DEVICE_DESC_HIGH.
Definition mmio_off (r : mmio) : Z :=
  match r with
  | MAGIC_VALUE => 0x000 | VERSION => 0x004 | DEVICE_ID => 0x008 | VENDOR_ID => 0x00c | DEVICE_FEATURES => 0x010
  | DRIVER_FEATURES => 0x020 | QUEUE_SEL => 0x030 | QUEUE_NUM_MAX => 0x034 | QUEUE_NUM => 0x038 | QUEUE_READY => 0x044
  | QUEUE_NOTIFY => 0x050 | INTERRUPT_STATUS => 0x060 | INTERRUPT_ACK => 0x064 | STATUS => 0x070
  | QUEUE_DESC_LOW => 0x080 | QUEUE_DESC_HIGH => 0x084 | DRIVER_DESC_LOW => 0x090 | DRIVER_DESC_HIGH => 0x094
  | DEVICE_DESC_LOW => 0x0a0 | DEVICE_DESC_HIGH => 0x0a4
  end.
Inductive config_s := S_ACKNOWLEDGE | S_DRIVER | S_DRIVER_OK | S_FEATURES_OK.
Definition config_bit (b : config_s) : Z :=
  match b with S_ACKNOWLEDGE => 1 | S_DRIVER => 2 | S_DRIVER_OK => 4 | S_FEATURES_OK => 8 end.
(** RO, SCSI, CONFIG_WCE, MQ, ANY_LAYOUT, EVENT_IDX, INDIRECT_DESC *)
Definition refused_features : list Z := [5; 7; 11; 12; 27; 29; 28].

Definition init_regs (rd : mmio → Z) (pg : option Z * option Z * option Z) : outcome (list (mmio * Z)) :=
  if negb (rd MAGIC_VALUE =? 0x74726976) || negb (rd VERSION =? 2) || negb (rd DEVICE_ID =? 2) || negb (rd VENDOR_ID =? 0x554d4551)
  then Panic "could not find virtio disk"
  else
    let st0 := 0 in
    let st1 := Z.lor st0 (config_bit S_ACKNOWLEDGE) in
    let st2 := Z.lor st1 (config_bit S_DRIVER) in
    let features := foldl (λ f k, Z.ldiff f (Z.shiftl 1 k)) (rd DEVICE_FEATURES) refused_features in
    let st3 := Z.lor st2 (config_bit S_FEATURES_OK) in
    let st4 := rd STATUS in
    if Z.land st4 (config_bit S_FEATURES_OK) =? 0 then Panic "virtio disk FEATURES_OK unset"
    else if negb (rd QUEUE_READY =? 0) then Panic "virtio disk should not be ready"
    else if rd QUEUE_NUM_MAX =? 0 then Panic "virtio disk has no queue 0"
    else if rd QUEUE_NUM_MAX <? NUM then Panic "virtio disk max queue too short"
    else
      match pg with
      | (Some d, Some a, Some u) =>
          Ret [(STATUS, st0); (STATUS, st1); (STATUS, st2); (DRIVER_FEATURES, u32 features); (STATUS, st3); (QUEUE_SEL, 0);
               (QUEUE_NUM, NUM);
               (QUEUE_DESC_LOW, u32 d); (QUEUE_DESC_HIGH, u32 (Z.shiftr d 32));
               (DRIVER_DESC_LOW, u32 a); (DRIVER_DESC_HIGH, u32 (Z.shiftr a 32));
               (DEVICE_DESC_LOW, u32 u); (DEVICE_DESC_HIGH, u32 (Z.shiftr u 32));
               (QUEUE_READY, 1); (STATUS, Z.lor st4 (config_bit S_DRIVER_OK))]
      | _ => Panic "virtio disk kalloc"
      end.
Definition virtio_disk_init (rd : mmio → Z) (pg : option Z * option Z * option Z) (s : disk) : outcome (list (mmio * Z) * disk) :=
  match init_regs rd pg with
  | Ret w => Ret (w, mk_disk (λ _, mk_desc ANull 0 0 0) (λ i, (0 <=? i) && (i <? NUM)) (ops s) (info_b s) (info_status s) 0 (λ _, 0) (used_idx s) 0 (λ _, 0)
      (bdisk s) (bdata s) (blockno s) (store s))
  | Panic m => Panic m
  | Block => Block
  end.

(** ** The device *)

Fixpoint get_sectors (n : nat) (k : Z) (st : Z → bytes) : bytes :=
  match n with
  | O => []
  | S n' => st k ++ get_sectors n' (k + 1) st
  end.
Fixpoint put_sectors (n : nat) (k : Z) (d : bytes) (st : Z → bytes) : Z → bytes :=
  match n with
  | O => st
  | S n' => put_sectors n' (k + 1) (drop (Z.to_nat SECTOR) d) (<[k := take (Z.to_nat SECTOR) d]> st)
  end.

(** The request at the head [h]: its header, the buffer and its size, and where the
    status goes.  The device follows [next] where the flag says so. *)
Definition chain (s : disk) (h : Z) : option (blk_req * Z * Z * Z) :=
  let d0 := desc s h in
  let d1 := desc s (next d0) in
  let d2 := desc s (next d1) in
  match addr d0, addr d1, addr d2 with
  | AReq i, AData b, AStatus j =>
      if (Z.land (flags d0) F_NEXT =? F_NEXT) && (Z.land (flags d1) F_NEXT =? F_NEXT) && (Z.land (flags d2) F_WRITE =? F_WRITE) &&
         ((type (ops s i) =? T_OUT) || (Z.land (flags d1) F_WRITE =? F_WRITE))
      then Some (ops s i, b, len d1, j) else None
  | _, _, _ => None
  end.

(** It serves the request, with success or an error, and reports it. *)
Definition serve (h : Z) (ok : bool) (s : disk) : option disk :=
  match chain s h with
  | None => None
  | Some (q, b, n, j) =>
      let k := Z.to_nat (n / SECTOR) in
      let s1 := if negb ok then s
                else if type q =? T_OUT then set_store (put_sectors k (sector q) (bdata s b) (store s)) s
                else set_bdata (<[b := get_sectors k (sector q) (store s)]> (bdata s)) s in
      let s2 := set_info_status (<[j := if ok then 0 else 1]> (info_status s1)) s1 in
      let s3 := set_used_ring (<[dev_idx s2 mod NUM := h]> (used_ring s2)) s2 in
      Some (set_dev_idx (u16 (dev_idx s3 + 1)) s3)
  end.

(** ** Threads, the interrupt handler and the device together *)

(** Where a thread is in [virtio_disk_rw b write]. *)
Inductive pc := Idle | NeedDesc (b : Z) (write : bool) | InFlight (b : Z) (write : bool) (idx : Z * Z * Z).

(** [last_avail] and [taken] are the device's.  [want] records, for each call, what the
    buffer and the block hold after it: the buffer's data at the call of a write, the
    block's contents at the call of a read.  [said] records, for each first descriptor,
    whether the device last reported success for it. *)
Record sys := mk_sys { dk : disk; last_avail : Z; taken : list Z; thr : Z → pc; want : Z → bytes; said : Z → bool }.

Definition block_at (st : Z → bytes) (n : Z) : bytes := get_sectors 2 (n * 2) st.
Definition pc_buf (p : pc) : option Z := match p with Idle => None | NeedDesc b _ | InFlight b _ _ => Some b end.

(** No call is at work on the buffer, or on another buffer of the block. *)
Definition unused (s : sys) (b n : Z) : Prop :=
  ∀ t b', pc_buf (thr s t) = Some b' → b' ≠ b ∧ blockno (dk s) b' ≠ n.

(** The clients are the buffer cache: a buffer is in one call at a time, and so is a
    block.  Block numbers are below 2^31, as those of any file system on the disk are, so
    that the sector, computed in 32 bits, is that of the block. *)
Inductive step : sys → sys → Prop :=
  | S_client s b n d : unused s b n → length d = Z.to_nat BSIZE → 0 ≤ n < 2 ^ 31 →
      step s (mk_sys (set_blockno (<[b := n]> (blockno (dk s))) (set_bdata (<[b := d]> (bdata (dk s))) (dk s)))
                (last_avail s) (taken s) (thr s) (want s) (said s))
  | S_call s t b w : thr s t = Idle → unused s b (blockno (dk s) b) → 0 ≤ blockno (dk s) b < 2 ^ 31 →
      step s (mk_sys (dk s) (last_avail s) (taken s) (<[t := NeedDesc b w]> (thr s))
                (<[t := if w : bool then bdata (dk s) b else block_at (store (dk s)) (blockno (dk s) b)]> (want s)) (said s))
  | S_begin s t b w r dk' : thr s t = NeedDesc b w → rw_begin b w (dk s) = Ret (r, dk') →
      step s (mk_sys dk' (last_avail s) (taken s)
                (<[t := match r with Some idx => InFlight b w idx | None => NeedDesc b w end]> (thr s)) (want s) (said s))
  | S_end s t b w i0 i1 i2 dk' : thr s t = InFlight b w (i0, i1, i2) → rw_end b i0 (dk s) = Ret (tt, dk') →
      step s (mk_sys dk' (last_avail s) (taken s) (<[t := Idle]> (thr s)) (want s) (said s))
  | S_intr s dk' : used_idx (dk s) ≠ dev_idx (dk s) → intr_one (dk s) = Ret (tt, dk') →
      step s (mk_sys dk' (last_avail s) (taken s) (thr s) (want s) (said s))
  | S_take s : last_avail s ≠ avail_idx (dk s) →
      step s (mk_sys (dk s) (u16 (last_avail s + 1)) (taken s ++ [avail_ring (dk s) (last_avail s mod NUM)]) (thr s) (want s) (said s))
  | S_serve s h ok dk' : h ∈ taken s → serve h ok (dk s) = Some dk' →
      step s (mk_sys dk' (last_avail s) (without h (taken s)) (thr s) (want s) (<[h := ok]> (said s))).

(** After [virtio_disk_init], with no call under way; [disk.used_idx] is 0 at boot, like
    every static variable without an initialiser. *)
Definition started (s : sys) : Prop :=
  ∃ rd pg s0 w, used_idx s0 = 0 ∧ virtio_disk_init rd pg s0 = Ret (w, dk s) ∧ last_avail s = 0 ∧ taken s = [] ∧ (∀ t, thr s t = Idle) ∧
    (∀ b, length (bdata (dk s) b) = Z.to_nat BSIZE) ∧ (∀ k, length (store (dk s) k) = Z.to_nat SECTOR).
Definition reachable (s : sys) : Prop := ∃ s0, started s0 ∧ rtc step s0 s.

End Virtio.
