(* ===== verification/VirtioInv.v ===== *)
(** * kernel/virtio_disk.c: the driver and the device keep to their bargain

    An invariant of [Virtio.step]: the three descriptors of each request, the two rings
    with their 16-bit counters, and what the buffers and the disk hold at each stage of
    a request. *)

From S2P Require Import Prelude Virtio.

Module VirtioInv.
Import Virtio.

(** ** Rings *)

(** The entries from [lo] up to [hi] are [l]. *)
Definition ring_is (ring : Z → Z) (lo hi : Z) (l : list Z) : Prop :=
  0 ≤ lo < 2 ^ 16 ∧ hi = u16 (lo + Z.of_nat (length l)) ∧ ∀ k h, l !! k = Some h → ring ((lo + Z.of_nat k) mod NUM) = h.

Lemma u16_mod_NUM x : u16 x mod NUM = x mod NUM.
Proof. unfold u16, NUM. zlia. Qed.

Lemma ring_push ring lo hi l h : ring_is ring lo hi l → (length l < 8)%nat →
  ring_is (<[hi mod NUM := h]> ring) lo (u16 (hi + 1)) (l ++ [h]).
Proof.
  intros (Hlo & -> & Hl) Hlen. split; [done|]. split.
  { rewrite length_app. simpl. unfold u16. zlia. }
  intros k x Hk. rewrite u16_mod_NUM. apply lookup_app_Some in Hk as [Hk|[Hge Hk]].
  - pose proof (lookup_lt_Some _ _ _ Hk). rewrite fn_lookup_insert_ne; [by apply Hl|]. unfold NUM. zlia.
  - apply list_lookup_singleton_Some in Hk as [Hk <-]. replace k with (length l) by lia. by rewrite fn_lookup_insert.
Qed.

Lemma vring_pop ring lo hi h l : ring_is ring lo hi (h :: l) → ring (lo mod NUM) = h ∧ ring_is ring (u16 (lo + 1)) hi l.
Proof.
  intros (Hlo & -> & Hl). split.
  { rewrite <- (Hl 0%nat h eq_refl). f_equal. f_equal. lia. }
  split; [apply u16_range|]. split; [simpl; unfold u16; zlia|].
  intros k x Hk. rewrite <- (Hl (S k) x Hk). f_equal. unfold u16, NUM. zlia.
Qed.

Lemma ring_nonempty ring lo hi l : ring_is ring lo hi l → lo ≠ hi → l ≠ [].
Proof. intros (Hlo & -> & _) Hne ->. apply Hne. simpl. unfold u16. zlia. Qed.

Lemma ring_open ring lo hi h l : ring_is ring lo hi (h :: l) → (length l < 8)%nat → lo ≠ hi.
Proof. intros (Hlo & -> & _) Hlen. simpl. unfold u16. zlia. Qed.

(** ** Descriptors *)

Lemma alloc_scan_spec n i fr :
  match alloc_scan n i fr with
  | Some j => i ≤ j < i + Z.of_nat n ∧ fr j = true
  | None => ∀ j, i ≤ j < i + Z.of_nat n → fr j = false
  end.
Proof.
  revert i. induction n as [|n IH]; intros i; simpl; [intros; lia|]. destruct (fr i) eqn:E; [split; [lia|done]|].
  specialize (IH (i + 1)). destruct (alloc_scan n (i + 1) fr) as [j|]; [destruct IH; split; [lia|done]|].
  intros j Hj. destruct (decide (j = i)) as [->|]; [done|]. apply IH. lia.
Qed.

Lemma wp_alloc_desc (Q : option Z → disk → Prop) s :
  (∀ i, 0 ≤ i < NUM → free s i = true → Q (Some i) (set_free (<[i := false]> (free s)) s)) →
  ((∀ i, 0 ≤ i < NUM → free s i = false) → Q None s) → wp alloc_desc Q s.
Proof.
  intros H1 H2. unfold alloc_desc. apply wp_bind, wp_gets. pose proof (alloc_scan_spec (Z.to_nat NUM) 0 (free s)) as H.
  destruct (alloc_scan (Z.to_nat NUM) 0 (free s)) as [i|].
  - destruct H as [Hi Hf]. apply H1; [unfold NUM in *; lia|done].
  - apply H2. intros i Hi. apply H. unfold NUM in *. lia.
Qed.

Definition zap (i : Z) (s : disk) : disk :=
  set_free (<[i := true]> (free s)) (set_desc (<[i := mk_desc ANull 0 0 0]> (desc s)) s).

Lemma wp_free_desc i (Q : unit → disk → Prop) s : i < NUM → free s i = false → Q tt (zap i s) → wp (free_desc i) Q s.
Proof.
  intros Hi Hf HQ. unfold free_desc. apply wp_bind, wp_gets. destruct (Z.leb_spec NUM i); [lia|]. rewrite Hf.
  apply wp_bind, wp_modify, wp_modify. exact HQ.
Qed.

(** Other descriptors than the free ones are as they were. *)
Definition same_used (s s' : disk) : Prop :=
  ∃ f g, s' = set_free f (set_desc g s) ∧ (∀ i, f i = free s i) ∧ (∀ i, free s i = false → g i = desc s i).

Lemma same_used_refl s : same_used s s.
Proof. exists (free s), (desc s). by destruct s. Qed.

(** A descriptor was free, was taken and is given back. *)
Lemma same_used_zap s i s1 : free s i = true → same_used (set_free (<[i := false]> (free s)) s) s1 → same_used s (zap i s1).
Proof.
  intros Hi (f & g & -> & Hf & Hg). exists (<[i := true]> f), (<[i := mk_desc ANull 0 0 0]> g). simpl in *. split; [done|].
  split; intros j; destruct (decide (j = i)) as [->|].
  - by rewrite fn_lookup_insert.
  - rewrite fn_lookup_insert_ne by done. by rewrite Hf, fn_lookup_insert_ne.
  - congruence.
  - intros Hj. rewrite fn_lookup_insert_ne by done. rewrite Hg; [done|]. by rewrite fn_lookup_insert_ne.
Qed.

(** Every lookup in an updated map, by cases. *)
Ltac fn_simpl := repeat first
  [ rewrite fn_lookup_insert
  | match goal with |- context [<[?i := _]> ?f ?j] =>
      destruct (decide (i = j)); [subst|rewrite (fn_lookup_insert_ne f i j) by congruence] end ].

Lemma third_index i0 i1 : ∃ k, 0 ≤ k < NUM ∧ k ≠ i0 ∧ k ≠ i1.
Proof.
  unfold NUM. destruct (decide (i0 = 0 ∨ i1 = 0)); [|exists 0; lia]. destruct (decide (i0 = 1 ∨ i1 = 1)); [|exists 1; lia]. exists 2. lia.
Qed.

Lemma wp_alloc3 (Q : option (Z * Z * Z) → disk → Prop) s :
  (∀ i0 i1 i2, NoDup [i0; i1; i2] → (∀ i, i ∈ [i0; i1; i2] → 0 ≤ i < NUM ∧ free s i = true) →
    Q (Some (i0, i1, i2)) (set_free (<[i2 := false]> (<[i1 := false]> (<[i0 := false]> (free s)))) s)) →
  (∀ s', same_used s s' → (∃ i, 0 ≤ i < NUM ∧ free s i = false) → Q None s') → wp alloc3_desc Q s.
Proof.
  intros H1 H2. unfold alloc3_desc. apply wp_bind, wp_alloc_desc.
  2:{ intros Hall. apply H2; [apply same_used_refl|]. exists 0. split; [done|by apply Hall]. }
  intros i0 Hi0 Hf0. apply wp_bind, wp_alloc_desc; simpl.
  2:{ intros Hall. apply wp_bind, wp_free_desc; [lia|apply fn_lookup_insert|]. apply H2; [by apply same_used_zap, same_used_refl|].
    exists (if decide (i0 = 0) then 1 else 0). split; [by case_decide|]. rewrite <- (fn_lookup_insert_ne (free s) i0 _ false) by (case_decide; lia).
    apply Hall. by case_decide. }
  intros i1 Hi1 Hf1. destruct (decide (i1 = i0)) as [->|Hne1]; [by rewrite fn_lookup_insert in Hf1|]. apply wp_bind, wp_alloc_desc; simpl.
  2:{ intros Hall. apply wp_bind, wp_free_desc; [lia|simpl; rewrite fn_lookup_insert_ne by done; apply fn_lookup_insert|].
    apply wp_bind, wp_free_desc; [lia|simpl; rewrite fn_lookup_insert_ne by done; apply fn_lookup_insert|]. apply H2.
    - exists (<[i1 := true]> (<[i0 := true]> (<[i1 := false]> (<[i0 := false]> (free s))))),
        (<[i1 := mk_desc ANull 0 0 0]> (<[i0 := mk_desc ANull 0 0 0]> (desc s))). split; [done|].
      rewrite fn_lookup_insert_ne in Hf1 by done. split; intros j; fn_simpl; congruence.
    - destruct (third_index i0 i1) as (k & Hk & Hk0 & Hk1). exists k. split; [done|]. specialize (Hall k Hk). by rewrite !fn_lookup_insert_ne in Hall. }
  intros i2 Hi2 Hf2. destruct (decide (i2 = i1)) as [->|Hne2]; [by rewrite fn_lookup_insert in Hf2|].
  rewrite fn_lookup_insert_ne in Hf1, Hf2 by done. destruct (decide (i2 = i0)) as [->|Hne3]; [by rewrite fn_lookup_insert in Hf2|].
  rewrite fn_lookup_insert_ne in Hf2 by done. apply (H1 i0 i1 i2).
  - repeat (apply NoDup_cons; split; [set_solver|]). apply NoDup_nil_2.
  - intros i Hi. repeat (apply elem_of_cons in Hi as [->|Hi]; [done|]). by apply elem_of_nil in Hi.
Qed.

(** ** The invariant *)

(** A request handed to the device: the thread, its buffer and its descriptors. *)
Record rq := mk_rq { q_t : Z; q_b : Z; q_w : bool; q_0 : Z; q_1 : Z; q_2 : Z }.
#[export] Instance rq_eq : EqDecision rq.
Proof. solve_decision. Defined.
Definition idxs (r : rq) : list Z := [q_0 r; q_1 r; q_2 r].
Definition all_idx (R : list rq) : list Z := R ≫= idxs.
Definition blk_of (d : disk) (b : Z) : bytes := block_at (store d) (blockno d b).

Record chain_ok (d : disk) (r : rq) : Prop := {
  c_0 : desc d (q_0 r) = mk_desc (AReq (q_0 r)) 16 F_NEXT (q_1 r);
  c_1 : desc d (q_1 r) = mk_desc (AData (q_b r)) BSIZE (Z.lor (if q_w r then 0 else F_WRITE) F_NEXT) (q_2 r);
  c_2 : desc d (q_2 r) = mk_desc (AStatus (q_0 r)) 1 F_WRITE 0;
  c_op : ops d (q_0 r) = mk_req (if q_w r then T_OUT else T_IN) 0 (u32 (blockno d (q_b r) * (BSIZE / 512)));
  c_b : info_b d (q_0 r) = Some (q_b r) }.

(** What a request has and has not done, before and after the device serves it. *)
Definition before_ok (d : disk) (x : bytes) (b : Z) (w : bool) : Prop := if w then bdata d b = x else blk_of d b = x.
Definition after_ok (d : disk) (x : bytes) (b : Z) : Prop := bdata d b = x ∧ blk_of d b = x.

Record inv (s : sys) (R : list rq) (pend usedq : list Z) : Prop := {
  i_thr : ∀ t b w i0 i1 i2, thr s t = InFlight b w (i0, i1, i2) ↔ mk_rq t b w i0 i1 i2 ∈ R;
  i_nodup : NoDup (all_idx R);
  i_range : ∀ i, i ∈ all_idx R → 0 ≤ i < NUM;
  i_free : ∀ i, free (dk s) i = true ↔ 0 ≤ i < NUM ∧ i ∉ all_idx R;
  i_chain : ∀ r, r ∈ R → chain_ok (dk s) r;
  i_q : NoDup (pend ++ taken s ++ usedq);
  i_qR : ∀ h, h ∈ pend ++ taken s ++ usedq → ∃ r, r ∈ R ∧ q_0 r = h;
  i_avail : ring_is (avail_ring (dk s)) (last_avail s) (avail_idx (dk s)) pend;
  i_used : ring_is (used_ring (dk s)) (used_idx (dk s)) (dev_idx (dk s)) usedq;
  i_bdisk : ∀ r, r ∈ R → bdisk (dk s) (q_b r) = true ↔ q_0 r ∈ pend ++ taken s ++ usedq;
  i_excl : ∀ t t' b b', pc_buf (thr s t) = Some b → pc_buf (thr s t') = Some b' → t ≠ t' →
    b ≠ b' ∧ blockno (dk s) b ≠ blockno (dk s) b';
  i_blk : ∀ t b, pc_buf (thr s t) = Some b → 0 ≤ blockno (dk s) b < 2 ^ 31;
  i_blen : ∀ b, length (bdata (dk s) b) = Z.to_nat BSIZE;
  i_slen : ∀ k, length (store (dk s) k) = Z.to_nat SECTOR;
  i_need : ∀ t b w, thr s t = NeedDesc b w → before_ok (dk s) (want s t) b w;
  i_before : ∀ r, r ∈ R → q_0 r ∈ pend ++ taken s → before_ok (dk s) (want s (q_t r)) (q_b r) (q_w r);
  i_said : ∀ r, r ∈ R → q_0 r ∈ usedq → info_status (dk s) (q_0 r) = if said s (q_0 r) then 0 else 1;
  i_served : ∀ r, r ∈ R → q_0 r ∈ usedq → info_status (dk s) (q_0 r) = 0 → after_ok (dk s) (want s (q_t r)) (q_b r);
  i_done : ∀ r, r ∈ R → q_0 r ∉ pend ++ taken s ++ usedq → after_ok (dk s) (want s (q_t r)) (q_b r) }.

Lemma elem_all_idx i R : i ∈ all_idx R ↔ ∃ r, r ∈ R ∧ i ∈ idxs r.
Proof. unfold all_idx. rewrite list_elem_of_bind. naive_solver. Qed.

Lemma all_idx_inj R r r' i : NoDup (all_idx R) → r ∈ R → r' ∈ R → i ∈ idxs r → i ∈ idxs r' → r = r'.
Proof.
  induction R as [|x R IH]; intros Hnd Hr Hr' Hi Hi'; [by apply elem_of_nil in Hr|].
  change (all_idx (x :: R)) with (idxs x ++ all_idx R) in Hnd. apply NoDup_app in Hnd as (_ & Hdisj & Hnd).
  apply elem_of_cons in Hr as [->|Hr]; apply elem_of_cons in Hr' as [->|Hr']; [done| | |by apply IH].
  - destruct (Hdisj i Hi). apply elem_all_idx. by exists r'.
  - destruct (Hdisj i Hi'). apply elem_all_idx. by exists r.
Qed.

Lemma length_all_idx R : length (all_idx R) = (3 * length R)%nat.
Proof. induction R as [|x R IH]; [done|]. change (all_idx (x :: R)) with (idxs x ++ all_idx R). rewrite length_app, IH. simpl. lia. Qed.

Section inv_facts.
Context (s : sys) (R : list rq) (pend usedq : list Z) (Hinv : inv s R pend usedq).

Lemma inv_heads r r' : r ∈ R → r' ∈ R → q_0 r = q_0 r' → r = r'.
Proof.
  intros Hr Hr' E. apply (all_idx_inj R r r' (q_0 r) (i_nodup _ _ _ _ Hinv) Hr Hr'); [constructor|]. rewrite E. constructor.
Qed.

Lemma inv_tids r r' : r ∈ R → r' ∈ R → q_t r = q_t r' → r = r'.
Proof.
  destruct r as [t b w i j k], r' as [t' b' w' i' j' k']; simpl. intros Hr Hr' <-. apply (i_thr _ _ _ _ Hinv) in Hr, Hr'. congruence.
Qed.

Lemma inv_buf r : r ∈ R → pc_buf (thr s (q_t r)) = Some (q_b r).
Proof. destruct r as [t b w i j k]; simpl. intros Hr. apply (i_thr _ _ _ _ Hinv) in Hr. by rewrite Hr. Qed.

Lemma inv_bufs r r' : r ∈ R → r' ∈ R → r ≠ r' → q_b r ≠ q_b r' ∧ blockno (dk s) (q_b r) ≠ blockno (dk s) (q_b r').
Proof.
  intros Hr Hr' Hne. apply (i_excl _ _ _ _ Hinv (q_t r) (q_t r')); [by apply inv_buf..|]. intros E. by apply Hne, inv_tids.
Qed.

Lemma inv_small : (length (pend ++ taken s ++ usedq) ≤ 2)%nat.
Proof.
  assert (length (all_idx R) ≤ 8)%nat as H8.
  { apply (NoDup_incl_length (l' := seqZ 0 8)); [by apply NoDup_ListNoDup, (i_nodup _ _ _ _ Hinv)|].
    intros i Hi. apply list_elem_of_In, elem_of_seqZ. apply list_elem_of_In, (i_range _ _ _ _ Hinv) in Hi. unfold NUM in Hi. lia. }
  rewrite length_all_idx in H8. assert (length (pend ++ taken s ++ usedq) ≤ length (map q_0 R))%nat as H; [|rewrite length_map in H; lia].
  apply NoDup_incl_length; [by apply NoDup_ListNoDup, (i_q _ _ _ _ Hinv)|].
  intros h Hh. apply list_elem_of_In, (i_qR _ _ _ _ Hinv) in Hh as (r & Hr & <-). by apply in_map, list_elem_of_In.
Qed.

End inv_facts.

(** ** The steps of the device *)

Lemma take_step s R pend usedq : inv s R pend usedq → last_avail s ≠ avail_idx (dk s) →
  ∃ pend', inv (mk_sys (dk s) (u16 (last_avail s + 1)) (taken s ++ [avail_ring (dk s) (last_avail s mod NUM)]) (thr s) (want s) (said s)) R pend' usedq.
Proof.
  intros Hinv Hne. pose proof Hinv as []. destruct pend as [|h pend]; [by destruct (ring_nonempty _ _ _ _ i_avail0 Hne)|].
  apply vring_pop in i_avail0 as [Eh Hring]. exists pend. rewrite Eh.
  assert (Hp : pend ++ (taken s ++ [h]) ++ usedq ≡ₚ (h :: pend) ++ taken s ++ usedq).
  { rewrite <- app_assoc. simpl. by rewrite (app_assoc pend), (app_assoc pend), <- Permutation_middle. }
  assert (Hq : ∀ x, x ∈ pend ++ (taken s ++ [h]) ++ usedq ↔ x ∈ (h :: pend) ++ taken s ++ usedq) by (intros x; by rewrite Hp).
  constructor; simpl; try done.
  - by rewrite Hp.
  - intros x Hx. by apply i_qR0, Hq.
  - intros r Hr. by rewrite Hq, i_bdisk0.
  - intros r Hr Hx. apply i_before0; [done|set_solver].
  - intros r Hr Hx. apply i_done0; [done|]. by rewrite <- Hq.
Qed.

Lemma chain_found d r : chain_ok d r → chain d (q_0 r) =
  Some (mk_req (if q_w r then T_OUT else T_IN) 0 (u32 (blockno d (q_b r) * (BSIZE / 512))), q_b r, BSIZE, q_0 r).
Proof. intros [H0 H1 H2 Ho _]. unfold chain. rewrite H0. cbn [next]. rewrite H1. cbn [next]. rewrite H2. cbn [addr]. rewrite Ho. by destruct (q_w r). Qed.

(** Blocks in the store. *)
Lemma block_at_put st n n' d : length d = Z.to_nat BSIZE → block_at (put_sectors 2 (n' * 2) d st) n = if decide (n = n') then d else block_at st n.
Proof.
  intros Hd. unfold block_at. simpl. case_decide as E.
  - subst n'. rewrite fn_lookup_insert, fn_lookup_insert_ne, fn_lookup_insert by lia. rewrite app_nil_r.
    rewrite (take_ge (drop _ _)) by (rewrite length_drop, Hd; done). apply take_drop.
  - by rewrite !fn_lookup_insert_ne by lia.
Qed.

Lemma put_len st n d k : length d = Z.to_nat BSIZE → (∀ k, length (st k) = Z.to_nat SECTOR) →
  length (put_sectors 2 n d st k) = Z.to_nat SECTOR.
Proof. intros Hd Hst. simpl. fn_simpl; rewrite ?length_take, ?length_drop, ?Hd; done. Qed.

Lemma block_len st n : (∀ k, length (st k) = Z.to_nat SECTOR) → length (block_at st n) = Z.to_nat BSIZE.
Proof. intros H. unfold block_at. simpl. by rewrite !length_app, !H. Qed.

Lemma sector_of n : 0 ≤ n < 2 ^ 31 → u32 (n * (BSIZE / 512)) = n * 2.
Proof. intros H. apply u32_small. unfold BSIZE. change (1024 / 512) with 2. lia. Qed.

(** What the device does for the request [r]. *)
Record served (d d' : disk) (r : rq) (ok : bool) : Prop := {
  sv_desc : desc d' = desc d; sv_free : free d' = free d; sv_ops : ops d' = ops d; sv_info : info_b d' = info_b d;
  sv_aidx : avail_idx d' = avail_idx d; sv_aring : avail_ring d' = avail_ring d; sv_uidx : used_idx d' = used_idx d;
  sv_didx : dev_idx d' = u16 (dev_idx d + 1); sv_uring : used_ring d' = <[dev_idx d mod NUM := q_0 r]> (used_ring d);
  sv_status : info_status d' = <[q_0 r := if ok then 0 else 1]> (info_status d);
  sv_bdisk : bdisk d' = bdisk d; sv_blockno : blockno d' = blockno d;
  sv_data : ∀ b, bdata d' b = if decide (ok = true ∧ q_w r = false ∧ b = q_b r) then blk_of d (q_b r) else bdata d b;
  sv_store : ∀ n, block_at (store d') n = if decide (ok = true ∧ q_w r = true ∧ n = blockno d (q_b r)) then bdata d (q_b r) else block_at (store d) n;
  sv_slen : ∀ k, length (store d' k) = Z.to_nat SECTOR }.

Lemma serve_effect d r ok : chain_ok d r → 0 ≤ blockno d (q_b r) < 2 ^ 31 → (∀ b, length (bdata d b) = Z.to_nat BSIZE) →
  (∀ k, length (store d k) = Z.to_nat SECTOR) → ∃ d', serve (q_0 r) ok d = Some d' ∧ served d d' r ok.
Proof.
  intros Hc Hn Hb Hst. unfold serve. rewrite (chain_found d r Hc), sector_of by done. cbn [type sector].
  change (Z.to_nat (BSIZE / SECTOR)) with 2%nat. eexists. split; [reflexivity|]. destruct ok, (q_w r) eqn:Ew; cbn [negb T_OUT T_IN Z.eqb Pos.eqb].
  all: constructor; try reflexivity; try done; cbn [bdata store set_store set_bdata set_info_status set_used_ring set_dev_idx].
  - intros b. by rewrite decide_False by (intros (_ & ? & _); congruence).
  - intros n. rewrite (block_at_put _ _ _ _ (Hb _)). case_decide as E; case_decide as E'; intuition congruence.
  - intros k. by apply put_len.
  - intros b. fn_simpl; [by rewrite decide_True|by rewrite decide_False by (intros (_ & _ & ?); congruence)].
  - intros n. by rewrite decide_False by (intros (_ & ? & _); congruence).
Qed.

Lemma serve_step s R pend usedq h ok d' : inv s R pend usedq → h ∈ taken s → serve h ok (dk s) = Some d' →
  inv (mk_sys d' (last_avail s) (without h (taken s)) (thr s) (want s) (<[h := ok]> (said s))) R pend (usedq ++ [h]) ∧
  ∃ r, r ∈ R ∧ q_0 r = h ∧ served (dk s) d' r ok.
Proof.
  intros Hinv Hh Hs. pose proof (inv_small _ _ _ _ Hinv) as Hsmall. pose proof Hinv as [].
  destruct (i_qR0 h) as (r & Hr & <-); [set_solver|].
  destruct (serve_effect (dk s) r ok) as (d2 & E & Hsv); [by apply i_chain0|eapply i_blk0, inv_buf; done|done|done|].
  rewrite E in Hs. injection Hs as ->. split; [|by exists r]. destruct Hsv.
  apply list_elem_of_split in Hh as (t1 & t2 & Et).
  assert (Hnd : NoDup (t1 ++ q_0 r :: t2)) by (rewrite <- Et; by apply NoDup_app in i_q0 as (_ & _ & (? & _ & _)%NoDup_app)).
  rewrite Et, without_split by done. rewrite Et in *.
  assert (Hp : pend ++ (t1 ++ t2) ++ usedq ++ [q_0 r] ≡ₚ pend ++ (t1 ++ q_0 r :: t2) ++ usedq).
  { apply Permutation_app_head. rewrite (app_assoc _ usedq), <- Permutation_cons_append. rewrite <- !app_assoc. simpl. by rewrite <- Permutation_middle. }
  assert (Hq : ∀ x, x ∈ pend ++ (t1 ++ t2) ++ usedq ++ [q_0 r] ↔ x ∈ pend ++ (t1 ++ q_0 r :: t2) ++ usedq) by (intros x; by rewrite Hp).
  assert (Hnew : q_0 r ∉ pend ++ (t1 ++ t2) ++ usedq).
  { assert (Hc : q_0 r :: (pend ++ (t1 ++ t2) ++ usedq) ≡ₚ pend ++ (t1 ++ q_0 r :: t2) ++ usedq).
    { rewrite <- !app_assoc. simpl. rewrite (app_assoc pend t1), (app_assoc pend t1). apply Permutation_middle. }
    pose proof i_q0 as H. rewrite <- Hc in H. by apply NoDup_cons in H as [? _]. }
  assert (Hother : ∀ r', r' ∈ R → r' ≠ r → bdata d' (q_b r') = bdata (dk s) (q_b r') ∧ blk_of d' (q_b r') = blk_of (dk s) (q_b r')).
  { intros r' Hr' Hne. destruct (inv_bufs _ _ _ _ Hinv r' r) as [H1 H2]; [done..|]. unfold blk_of.
    rewrite sv_data0, sv_store0, sv_blockno0, !decide_False by naive_solver. done. }
  assert (Hbef : before_ok (dk s) (want s (q_t r)) (q_b r) (q_w r)) by (apply i_before0; [done|set_solver]).
  constructor; simpl; try done.
  - by rewrite sv_free0.
  - intros r' Hr'. destruct (i_chain0 r' Hr'). constructor; congruence.
  - by rewrite Hp.
  - intros x Hx. by apply i_qR0, Hq.
  - by rewrite sv_aring0, sv_aidx0.
  - rewrite sv_uring0, sv_uidx0, sv_didx0. apply ring_push; [done|]. rewrite !length_app in Hsmall. lia.
  - intros r' Hr'. rewrite sv_bdisk0, Hq. by apply i_bdisk0.
  - by rewrite sv_blockno0.
  - by rewrite sv_blockno0.
  - intros b. rewrite sv_data0. destruct (decide _); [by apply block_len|done].
  - intros t b w Ht. destruct (i_excl0 t (q_t r) b (q_b r)) as [H1 H2]; [by rewrite Ht|by eapply inv_buf| |].
    { intros ->. pose proof (inv_buf _ _ _ _ Hinv r Hr) as H. destruct r; simpl in *. apply i_thr0 in Hr. congruence. }
    specialize (i_need0 t b w Ht). unfold before_ok, blk_of in *. rewrite sv_data0, sv_store0, sv_blockno0, !decide_False by (intros (_ & _ & ?); congruence). done.
  - intros r' Hr' Hx. assert (r' ≠ r) as Hne.
    { intros ->. apply Hnew. rewrite app_assoc. apply elem_of_app. by left. }
    destruct (Hother r' Hr' Hne) as [H1 H2]. unfold before_ok. rewrite H1, H2. apply i_before0; [done|set_solver].
  - intros r' Hr' Hx. rewrite sv_status0. destruct (decide (r' = r)) as [->|Hne]; [by rewrite !fn_lookup_insert|].
    assert (q_0 r ≠ q_0 r') as Hh by (intros E'; by destruct Hne; eapply inv_heads). rewrite !fn_lookup_insert_ne by done.
    apply i_said0; [done|]. apply elem_of_app in Hx as [?|Hx]; [done|]. apply list_elem_of_singleton in Hx. congruence.
  - intros r' Hr' Hx Hst. destruct (decide (r' = r)) as [->|Hne].
    + rewrite sv_status0, fn_lookup_insert in Hst. destruct ok; [|done]. unfold after_ok, before_ok, blk_of in *. rewrite sv_data0, sv_store0, sv_blockno0.
      destruct (q_w r); [rewrite decide_False, decide_True by naive_solver|rewrite decide_True, decide_False by naive_solver]; done.
    + destruct (Hother r' Hr' Hne) as [H1 H2]. unfold after_ok. rewrite H1, H2. apply i_served0; [done| |].
      * apply elem_of_app in Hx as [?|Hx]; [done|]. apply list_elem_of_singleton in Hx. by destruct Hne; eapply inv_heads.
      * rewrite sv_status0, fn_lookup_insert_ne in Hst; [done|]. intros E'. by destruct Hne; eapply inv_heads.
  - intros r' Hr' Hx. rewrite Hq in Hx. destruct (decide (r' = r)) as [->|Hne]; [destruct Hx; rewrite !elem_of_app, elem_of_cons; tauto|].
    destruct (Hother r' Hr' Hne) as [H1 H2]. unfold after_ok. rewrite H1, H2. by apply i_done0.
Qed.

(** ** The steps of the driver *)

(** The interrupt handler finds the request at the front of the used ring, and panics
    only if the device reported an error for it. *)
Lemma intr_effect s R pend h usedq : inv s R pend (h :: usedq) → ∃ r, r ∈ R ∧ q_0 r = h ∧
  intr_one (dk s) = (if info_status (dk s) h =? 0
    then Ret (tt, set_used_idx (u16 (used_idx (dk s) + 1)) (set_bdisk (<[q_b r := false]> (bdisk (dk s))) (dk s)))
    else Panic "virtio_disk_intr status").
Proof.
  intros []. destruct (i_qR0 h) as (r & Hr & <-); [rewrite !elem_of_app, elem_of_cons; tauto|]. exists r. split; [done|]. split; [done|].
  apply vring_pop in i_used0 as [Eh _]. unfold intr_one, mbind, M_bind, gets, id. rewrite Eh. destruct (info_status (dk s) (q_0 r) =? 0); [|done].
  cbn [negb]. by rewrite (c_b _ _ (i_chain0 r Hr)).
Qed.

Lemma intr_step s R pend usedq d' : inv s R pend usedq → used_idx (dk s) ≠ dev_idx (dk s) → intr_one (dk s) = Ret (tt, d') →
  ∃ usedq', inv (mk_sys d' (last_avail s) (taken s) (thr s) (want s) (said s)) R pend usedq'.
Proof.
  intros Hinv Hne Hi. destruct usedq as [|h usedq]; [by destruct (ring_nonempty _ _ _ _ (i_used _ _ _ _ Hinv) Hne)|].
  destruct (intr_effect _ _ _ _ _ Hinv) as (r & Hr & <- & E). rewrite E in Hi. destruct (Z.eqb_spec (info_status (dk s) (q_0 r)) 0) as [Est|]; [|done].
  injection Hi as <-. exists usedq. pose proof Hinv as [].
  assert (Hnew : q_0 r ∉ pend ++ taken s ++ usedq).
  { pose proof i_q0 as H. rewrite (app_assoc pend), <- Permutation_middle, <- app_assoc in H. by apply NoDup_cons in H as [? _]. }
  assert (Hq : ∀ x, x ∈ pend ++ taken s ++ q_0 r :: usedq ↔ x = q_0 r ∨ x ∈ pend ++ taken s ++ usedq) by (intros x; rewrite !elem_of_app, elem_of_cons; tauto).
  constructor; simpl; try done.
  - intros r' Hr'. by destruct (i_chain0 r' Hr').
  - rewrite (app_assoc pend), <- Permutation_middle, <- app_assoc in i_q0. by apply NoDup_cons in i_q0 as [_ ?].
  - intros x Hx. apply i_qR0, Hq. by right.
  - by apply vring_pop in i_used0 as [_ ?].
  - intros r' Hr'. destruct (decide (r' = r)) as [->|Hner]; [by rewrite fn_lookup_insert|].
    rewrite fn_lookup_insert_ne by (apply not_eq_sym; by apply (inv_bufs _ _ _ _ Hinv)). rewrite i_bdisk0, Hq by done. split; [|by right].
    intros [E'|]; [|done]. by destruct Hner; eapply inv_heads.
  - intros r' Hr' Hx. apply i_said0; [done|by right].
  - intros r' Hr' Hx. apply i_served0; [done|by right].
  - intros r' Hr' Hx. destruct (decide (r' = r)) as [->|Hner]; [by apply i_served0; [|left|]|]. apply i_done0; [done|]. rewrite Hq. intros [E'|]; [|done].
    by destruct Hner; eapply inv_heads.
Qed.

(** A call starts; the owner of a buffer changes it. *)
Lemma call_step s R pend usedq t b w : inv s R pend usedq → thr s t = Idle → unused s b (blockno (dk s) b) → 0 ≤ blockno (dk s) b < 2 ^ 31 →
  inv (mk_sys (dk s) (last_avail s) (taken s) (<[t := NeedDesc b w]> (thr s))
    (<[t := if w : bool then bdata (dk s) b else block_at (store (dk s)) (blockno (dk s) b)]> (want s)) (said s)) R pend usedq.
Proof.
  intros Hinv Ht Hun Hb. pose proof Hinv as [].
  assert (Hrt : ∀ r, r ∈ R → q_t r ≠ t).
  { intros r Hr E. pose proof (inv_buf _ _ _ _ Hinv r Hr) as H. by rewrite E, Ht in H. }
  assert (Hpc : ∀ t' b', pc_buf (<[t := NeedDesc b w]> (thr s) t') = Some b' → (t' = t ∧ b' = b) ∨ (t' ≠ t ∧ pc_buf (thr s t') = Some b')).
  { intros t' b' H. destruct (decide (t' = t)) as [->|]; [rewrite fn_lookup_insert in H; left; by injection H|]. rewrite fn_lookup_insert_ne in H by done. by right. }
  constructor; simpl; try done.
  - intros t' b' w' i0 i1 i2. rewrite <- i_thr0. fn_simpl; [|done]. rewrite Ht. done.
  - intros t1 t2 b1 b2 [[-> ->]|[H1 H1']]%Hpc [[-> ->]|[H2 H2']]%Hpc Hne; [done| | |by eapply i_excl0].
    + destruct (Hun t2 b2 H2'). by split; apply not_eq_sym.
    + by destruct (Hun t1 b1 H1').
  - intros t1 b1 [[-> ->]|[H1 H1']]%Hpc; [done|by eapply i_blk0].
  - intros t1 b1 w1. destruct (decide (t1 = t)) as [->|]; [rewrite !fn_lookup_insert|rewrite !fn_lookup_insert_ne by done; by apply i_need0].
    intros [= -> ->]. by destruct w1.
  - intros r Hr Hx. rewrite fn_lookup_insert_ne by (apply not_eq_sym; by apply Hrt). by apply i_before0.
  - intros r Hr Hx Hst. rewrite fn_lookup_insert_ne by (apply not_eq_sym; by apply Hrt). by apply i_served0.
  - intros r Hr Hx. rewrite fn_lookup_insert_ne by (apply not_eq_sym; by apply Hrt). by apply i_done0.
Qed.

Lemma client_step s R pend usedq b n d : inv s R pend usedq → unused s b n → length d = Z.to_nat BSIZE → 0 ≤ n < 2 ^ 31 →
  inv (mk_sys (set_blockno (<[b := n]> (blockno (dk s))) (set_bdata (<[b := d]> (bdata (dk s))) (dk s)))
    (last_avail s) (taken s) (thr s) (want s) (said s)) R pend usedq.
Proof.
  intros Hinv Hun Hd Hn. pose proof Hinv as [].
  assert (Hbusy : ∀ t b', pc_buf (thr s t) = Some b' → <[b := n]> (blockno (dk s)) b' = blockno (dk s) b' ∧ <[b := d]> (bdata (dk s)) b' = bdata (dk s) b').
  { intros t b' Hb'. destruct (Hun t b' Hb'). by rewrite !fn_lookup_insert_ne. }
  assert (HR : ∀ r, r ∈ R → <[b := n]> (blockno (dk s)) (q_b r) = blockno (dk s) (q_b r) ∧ <[b := d]> (bdata (dk s)) (q_b r) = bdata (dk s) (q_b r)).
  { intros r Hr. eapply Hbusy. by eapply inv_buf. }
  constructor; simpl; try done.
  - intros r Hr. destruct (i_chain0 r Hr). constructor; try done. simpl. by rewrite (proj1 (HR r Hr)).
  - intros t t' b1 b2 H1 H2 Hne. rewrite (proj1 (Hbusy _ _ H1)), (proj1 (Hbusy _ _ H2)). by eapply i_excl0.
  - intros t b1 H1. rewrite (proj1 (Hbusy _ _ H1)). by eapply i_blk0.
  - intros b'. by fn_simpl.
  - intros t b1 w H1. assert (H2 : pc_buf (thr s t) = Some b1) by (by rewrite H1). destruct (Hbusy _ _ H2) as [E1 E2].
    unfold before_ok, blk_of. simpl. rewrite E1, E2. by apply i_need0.
  - intros r Hr Hx. destruct (HR r Hr) as [E1 E2]. unfold before_ok, blk_of. simpl. rewrite E1, E2. by apply i_before0.
  - intros r Hr Hx Hst. destruct (HR r Hr) as [E1 E2]. unfold after_ok, blk_of. simpl. rewrite E1, E2. by apply i_served0.
  - intros r Hr Hx. destruct (HR r Hr) as [E1 E2]. unfold after_ok, blk_of. simpl. rewrite E1, E2. by apply i_done0.
Qed.

(** [rw_begin] without enough descriptors. *)
Lemma begin_none s R pend usedq t b w d' : inv s R pend usedq → thr s t = NeedDesc b w → same_used (dk s) d' →
  inv (mk_sys d' (last_avail s) (taken s) (<[t := NeedDesc b w]> (thr s)) (want s) (said s)) R pend usedq.
Proof.
  intros Hinv Ht (f & g & -> & Hf & Hg). pose proof Hinv as [].
  assert (Hthr : ∀ t', <[t := NeedDesc b w]> (thr s) t' = thr s t') by (intros t'; fn_simpl; congruence).
  constructor; simpl; try done.
  - intros. by rewrite Hthr.
  - intros i. by rewrite Hf.
  - intros r Hr. assert (Hi : ∀ i, i ∈ idxs r → g i = desc (dk s) i).
    { intros i Hi. apply Hg. apply not_true_iff_false. rewrite i_free0. intros [_ []]. apply elem_all_idx. by exists r. }
    destruct (i_chain0 r Hr). constructor; try done; simpl; by rewrite Hi by set_solver.
  - intros t1 t2 b1 b2. rewrite !Hthr. by apply i_excl0.
  - intros t1 b1. rewrite Hthr. by apply i_blk0.
  - intros t1 b1 w1. rewrite Hthr. by apply i_need0.
Qed.

(** What [rw_begin] does when it has them. *)
Record begun (d d' : disk) (b : Z) (w : bool) (i0 i1 i2 : Z) : Prop := {
  bg_desc : desc d' = <[i2 := mk_desc (AStatus i0) 1 F_WRITE 0]> (<[i1 := mk_desc (AData b) BSIZE (Z.lor (if w then 0 else F_WRITE) F_NEXT) i2]>
    (<[i0 := mk_desc (AReq i0) 16 F_NEXT i1]> (desc d)));
  bg_free : free d' = <[i2 := false]> (<[i1 := false]> (<[i0 := false]> (free d)));
  bg_ops : ops d' = <[i0 := mk_req (if w then T_OUT else T_IN) 0 (u32 (blockno d b * (BSIZE / 512)))]> (ops d);
  bg_info : info_b d' = <[i0 := Some b]> (info_b d); bg_status : info_status d' = <[i0 := 0xff]> (info_status d);
  bg_aring : avail_ring d' = <[avail_idx d mod NUM := i0]> (avail_ring d); bg_aidx : avail_idx d' = u16 (avail_idx d + 1);
  bg_bdisk : bdisk d' = <[b := true]> (bdisk d);
  bg_rest : used_idx d' = used_idx d ∧ dev_idx d' = dev_idx d ∧ used_ring d' = used_ring d ∧ bdata d' = bdata d ∧ blockno d' = blockno d ∧ store d' = store d }.

Lemma wp_rw_begin b w d : wp (rw_begin b w) (λ r d', match r with
    | Some (i0, i1, i2) => NoDup [i0; i1; i2] ∧ (∀ i, i ∈ [i0; i1; i2] → 0 ≤ i < NUM ∧ free d i = true) ∧ begun d d' b w i0 i1 i2
    | None => same_used d d' ∧ ∃ i, 0 ≤ i < NUM ∧ free d i = false end) d.
Proof.
  unfold rw_begin. apply wp_bind, wp_alloc3.
  - intros i0 i1 i2 Hnd Hfr. split_and!; [done|done|]. by constructor.
  - intros d' Hs Hex. by apply wp_ret.
Qed.

Section begin_some.
Context (s : sys) (R : list rq) (pend usedq : list Z) (Hinv : inv s R pend usedq).
Context (t b : Z) (w : bool) (i0 i1 i2 : Z) (d' : disk) (Ht : thr s t = NeedDesc b w).
Context (Hnd : NoDup [i0; i1; i2]) (Hfr : ∀ i, i ∈ [i0; i1; i2] → 0 ≤ i < NUM ∧ free (dk s) i = true).
Context (Hbg : begun (dk s) d' b w i0 i1 i2).
Notation q := (mk_rq t b w i0 i1 i2).

Lemma bs_fresh i : i ∈ idxs q → i ∉ all_idx R.
Proof. intros Hi. apply (i_free _ _ _ _ Hinv), Hfr, Hi. Qed.

Lemma bs_old r i : r ∈ R → i ∈ idxs r → i ≠ i0 ∧ i ≠ i1 ∧ i ≠ i2.
Proof.
  intros Hr Hi. assert (i ∉ idxs q) as H; [|set_solver]. intros Hq. apply (bs_fresh i Hq), elem_all_idx. by exists r.
Qed.

Lemma bs_heads r : r ∈ R → q_0 r ≠ i0.
Proof. intros Hr. apply (bs_old r (q_0 r) Hr). constructor. Qed.

Lemma bs_i0 : i0 ∉ pend ++ taken s ++ usedq.
Proof. intros Hx. destruct (i_qR _ _ _ _ Hinv _ Hx) as (r & Hr & E). by destruct (bs_heads r Hr). Qed.

Lemma bs_tids r : r ∈ R → q_t r ≠ t.
Proof. destruct r as [t' b' w' j0 j1 j2]. simpl. intros Hr ->. apply (i_thr _ _ _ _ Hinv) in Hr. congruence. Qed.

Lemma bs_bufs r : r ∈ R → q_b r ≠ b.
Proof. intros Hr. apply (i_excl _ _ _ _ Hinv (q_t r) t); [by eapply inv_buf|by rewrite Ht|by apply bs_tids]. Qed.

Lemma bs_distinct : i0 ≠ i1 ∧ i0 ≠ i2 ∧ i1 ≠ i2.
Proof. apply NoDup_cons in Hnd as [Hn0 [Hn1 _]%NoDup_cons]. set_solver. Qed.

Lemma bs_pc t' : pc_buf (<[t := InFlight b w (i0, i1, i2)]> (thr s) t') = pc_buf (thr s t').
Proof. fn_simpl; [by rewrite Ht|done]. Qed.

Lemma bs_thr t' b' w' j0 j1 j2 :
  <[t := InFlight b w (i0, i1, i2)]> (thr s) t' = InFlight b' w' (j0, j1, j2) ↔ mk_rq t' b' w' j0 j1 j2 ∈ q :: R.
Proof.
  rewrite elem_of_cons. destruct (decide (t' = t)) as [->|Hne].
  - rewrite fn_lookup_insert. split; [intros [= -> -> -> -> ->]; by left|]. intros [[= -> -> -> -> ->]|Hr]; [done|]. by destruct (bs_tids _ Hr).
  - rewrite fn_lookup_insert_ne by done. rewrite (i_thr _ _ _ _ Hinv). split; [by right|]. intros [[= ]|Hr]; congruence.
Qed.

Lemma bs_nodup : NoDup (all_idx (q :: R)).
Proof.
  change (all_idx (q :: R)) with (idxs q ++ all_idx R). apply NoDup_app.
  split; [exact Hnd|]. split; [apply bs_fresh|]. apply (i_nodup _ _ _ _ Hinv).
Qed.

Lemma bs_free i : free d' i = true ↔ 0 ≤ i < NUM ∧ i ∉ all_idx (q :: R).
Proof.
  change (all_idx (q :: R)) with (idxs q ++ all_idx R). rewrite (bg_free _ _ _ _ _ _ _ Hbg), elem_of_app.
  destruct (decide (i ∈ idxs q)) as [Hi|Hi].
  - split; [|tauto]. unfold idxs in Hi. simpl in Hi. intros Hf. exfalso. revert Hf. fn_simpl; [done..|set_solver].
  - rewrite !fn_lookup_insert_ne by set_solver. rewrite (i_free _ _ _ _ Hinv). tauto.
Qed.

Lemma bs_chain r : r ∈ q :: R → chain_ok d' r.
Proof.
  destruct bs_distinct as (H01 & H02 & H12). destruct Hbg as [Edesc _ Eops Einfo _ _ _ _ (_ & _ & _ & _ & Eblk & _)].
  intros [->|Hr]%elem_of_cons.
  - constructor; simpl; rewrite ?Edesc, ?Eops, ?Einfo, ?Eblk; fn_simpl; congruence.
  - destruct (i_chain _ _ _ _ Hinv r Hr). pose proof (bs_old r) as Ho.
    destruct (Ho (q_0 r) Hr ltac:(constructor)) as (? & ? & ?), (Ho (q_1 r) Hr ltac:(do 2 constructor)) as (? & ? & ?),
      (Ho (q_2 r) Hr ltac:(do 3 constructor)) as (? & ? & ?).
    constructor; rewrite ?Edesc, ?Eops, ?Einfo, ?Eblk, ?fn_lookup_insert_ne by done; done.
Qed.

Lemma bs_q x : x ∈ (pend ++ [i0]) ++ taken s ++ usedq ↔ x = i0 ∨ x ∈ pend ++ taken s ++ usedq.
Proof. rewrite !elem_of_app, list_elem_of_singleton. tauto. Qed.

Lemma bs_qnodup : NoDup ((pend ++ [i0]) ++ taken s ++ usedq).
Proof. rewrite <- app_assoc. simpl. rewrite <- Permutation_middle. apply NoDup_cons. split; [apply bs_i0|apply (i_q _ _ _ _ Hinv)]. Qed.

(** A predicate of requests that depends only on what is as it was. *)
Lemma bs_data : bdata d' = bdata (dk s) ∧ (∀ b, blk_of d' b = blk_of (dk s) b).
Proof. destruct Hbg as [_ _ _ _ _ _ _ _ (_ & _ & _ & Ed & Eb & Es)]. split; [done|]. intros b'. unfold blk_of. by rewrite Eb, Es. Qed.

Lemma begin_some : inv (mk_sys d' (last_avail s) (taken s) (<[t := InFlight b w (i0, i1, i2)]> (thr s)) (want s) (said s)) (q :: R) (pend ++ [i0]) usedq.
Proof.
  pose proof (inv_small _ _ _ _ Hinv) as Hsmall. pose proof bs_chain as Hchain. pose proof bs_i0 as Hi0. destruct bs_data as [Ed Eb]. pose proof Hinv as [].
  destruct Hbg as [_ _ _ _ Est Earing Eaidx Ebd (Euidx & Edidx & Euring & _ & Eblk & Estore)].
  constructor; simpl; rewrite ?Ed, ?Eblk, ?Estore, ?Euidx, ?Edidx, ?Euring; try done.
  - apply bs_thr.
  - apply bs_nodup.
  - intros i Hi. change (i ∈ idxs q ++ all_idx R) in Hi. apply elem_of_app in Hi as [Hi|Hi]; [by apply Hfr|by apply i_range0].
  - apply bs_free.
  - apply bs_qnodup.
  - intros x [->|Hx]%bs_q; [exists q; split; [by left|done]|]. destruct (i_qR0 x Hx) as (r & Hr & E). exists r. split; [by right|done].
  - rewrite Earing, Eaidx. apply ring_push; [done|]. rewrite !length_app in Hsmall. lia.
  - intros r Hr. rewrite bs_q, Ebd. apply elem_of_cons in Hr as [->|Hr]; simpl; [rewrite fn_lookup_insert; tauto|].
    pose proof (bs_bufs r Hr). pose proof (bs_heads r Hr). rewrite fn_lookup_insert_ne by done. rewrite i_bdisk0 by done. tauto.
  - intros t1 t2 b1 b2. rewrite !bs_pc. by apply i_excl0.
  - intros t1 b1. rewrite bs_pc. by apply i_blk0.
  - intros t1 b1 w1. destruct (decide (t1 = t)) as [->|]; [by rewrite fn_lookup_insert|]. rewrite fn_lookup_insert_ne by done.
    unfold before_ok. rewrite Ed, Eb. apply i_need0.
  - intros r Hr Hx. unfold before_ok. rewrite Ed, Eb. apply elem_of_cons in Hr as [->|Hr]; [by apply i_need0|]. apply i_before0; [done|].
    pose proof (bs_heads r Hr). rewrite !elem_of_app, list_elem_of_singleton in *. tauto.
  - intros r Hr Hx. apply elem_of_cons in Hr as [->|Hr].
    + destruct Hi0. rewrite !elem_of_app. simpl in Hx. tauto.
    + rewrite Est, fn_lookup_insert_ne by (apply not_eq_sym; by apply bs_heads). by apply i_said0.
  - intros r Hr Hx Hs. unfold after_ok. rewrite Ed, Eb. apply elem_of_cons in Hr as [->|Hr].
    + destruct Hi0. rewrite !elem_of_app. simpl in Hx. tauto.
    + apply i_served0; [done|done|]. rewrite Est, fn_lookup_insert_ne in Hs; [done|]. apply not_eq_sym. by apply bs_heads.
  - intros r Hr Hx. unfold after_ok. rewrite Ed, Eb. rewrite bs_q in Hx. apply elem_of_cons in Hr as [->|Hr]; [simpl in Hx; tauto|].
    apply i_done0; tauto.
Qed.
End begin_some.

(** ** The end of a call *)

Definition ended (d : disk) (r : rq) : disk :=
  zap (q_2 r) (zap (q_1 r) (zap (q_0 r) (set_info_b (<[q_0 r := None]> (info_b d)) d))).

Lemma rw_end_ended d r : chain_ok d r → NoDup (idxs r) → (∀ i, i ∈ idxs r → i < NUM ∧ free d i = false) → bdisk d (q_b r) = false →
  wp (rw_end (q_b r) (q_0 r)) (λ _ d', d' = ended d r) d.
Proof.
  intros [H0 H1 H2 _ _] Hnd Hfr Hbd. apply NoDup_cons in Hnd as [Hn0 [Hn1 _]%NoDup_cons].
  assert (q_0 r ≠ q_1 r ∧ q_0 r ≠ q_2 r ∧ q_1 r ≠ q_2 r) as (H01 & H02 & H12) by set_solver.
  destruct (Hfr (q_0 r) ltac:(constructor)), (Hfr (q_1 r) ltac:(do 2 constructor)), (Hfr (q_2 r) ltac:(do 3 constructor)).
  unfold rw_end. apply wp_bind, wp_gets. rewrite Hbd. apply wp_bind, wp_modify. change (S (Z.to_nat NUM)) with 9%nat. cbn [free_chain].
  apply wp_bind, wp_gets. simpl desc. rewrite H0. apply wp_bind, wp_free_desc; [done|done|]. cbn [flags next F_NEXT Z.land Pos.land Z.eqb negb].
  apply wp_bind, wp_gets. simpl desc. rewrite fn_lookup_insert_ne by done. rewrite H1.
  apply wp_bind, wp_free_desc; [done|simpl; by rewrite fn_lookup_insert_ne|]. cbn [flags next].
  assert (negb (Z.land (Z.lor (if q_w r then 0 else F_WRITE) F_NEXT) F_NEXT =? 0) = true) as -> by (by destruct (q_w r)).
  apply wp_bind, wp_gets. simpl desc. rewrite !fn_lookup_insert_ne by done. rewrite H2.
  apply wp_bind, wp_free_desc; [done|simpl; by rewrite !fn_lookup_insert_ne|]. done.
Qed.

Section end_call.
Context (s : sys) (pend usedq : list Z) (r : rq) (l1 l2 : list rq) (Hinv : inv s (l1 ++ r :: l2) pend usedq).
Context (Hdone : q_0 r ∉ pend ++ taken s ++ usedq).

Lemma ec_perm : all_idx (l1 ++ r :: l2) ≡ₚ idxs r ++ all_idx (l1 ++ l2).
Proof. unfold all_idx. rewrite !bind_app. cbn [mbind list_bind]. rewrite !app_assoc. apply Permutation_app_tail. apply Permutation_app_comm. Qed.

Lemma ec_nodup : NoDup (idxs r) ∧ (∀ i, i ∈ idxs r → i ∉ all_idx (l1 ++ l2)) ∧ NoDup (all_idx (l1 ++ l2)).
Proof. apply NoDup_app. rewrite <- ec_perm. apply (i_nodup _ _ _ _ Hinv). Qed.

Lemma ec_mem r' : r' ∈ l1 ++ r :: l2 ↔ r' = r ∨ r' ∈ l1 ++ l2.
Proof. rewrite !elem_of_app, elem_of_cons. tauto. Qed.

Lemma ec_r : r ∈ l1 ++ r :: l2.
Proof. apply ec_mem. by left. Qed.

Lemma ec_not r' : r' ∈ l1 ++ l2 → r' ≠ r.
Proof. intros Hr' ->. destruct ec_nodup as (_ & H & _). apply (H (q_0 r)); [constructor|]. apply elem_all_idx. exists r. split; [done|constructor]. Qed.

Lemma ec_old r' i : r' ∈ l1 ++ l2 → i ∈ idxs r' → i ≠ q_0 r ∧ i ≠ q_1 r ∧ i ≠ q_2 r.
Proof.
  intros Hr' Hi. assert (i ∉ idxs r) as H; [|unfold idxs in H; set_solver]. intros Hq. destruct ec_nodup as (_ & Hd & _).
  apply (Hd i Hq), elem_all_idx. by exists r'.
Qed.

Lemma ec_free i : free (ended (dk s) r) i = true ↔ 0 ≤ i < NUM ∧ i ∉ all_idx (l1 ++ l2).
Proof.
  destruct ec_nodup as (_ & Hd & _). pose proof (i_free _ _ _ _ Hinv i) as Hf. pose proof (i_range _ _ _ _ Hinv i) as Hr.
  rewrite ec_perm, elem_of_app in Hf, Hr. simpl. destruct (decide (i ∈ idxs r)) as [Hi|Hi].
  - specialize (Hd i Hi). specialize (Hr (or_introl Hi)). split; [done|]. intros _. unfold idxs in Hi. fn_simpl; [done..|]. set_solver.
  - rewrite !fn_lookup_insert_ne by (unfold idxs in Hi; set_solver). rewrite Hf. tauto.
Qed.

Lemma ec_chain r' : r' ∈ l1 ++ l2 → chain_ok (ended (dk s) r) r'.
Proof.
  intros Hr'. destruct (i_chain _ _ _ _ Hinv r'); [apply ec_mem; by right|]. pose proof (ec_old r') as Ho.
  destruct (Ho (q_0 r') Hr' ltac:(constructor)) as (? & ? & ?), (Ho (q_1 r') Hr' ltac:(do 2 constructor)) as (? & ? & ?),
    (Ho (q_2 r') Hr' ltac:(do 3 constructor)) as (? & ? & ?).
  constructor; simpl; rewrite ?fn_lookup_insert_ne by done; done.
Qed.

Lemma ec_thr t b w i0 i1 i2 : <[q_t r := Idle]> (thr s) t = InFlight b w (i0, i1, i2) ↔ mk_rq t b w i0 i1 i2 ∈ l1 ++ l2.
Proof.
  destruct (decide (t = q_t r)) as [->|Hne].
  - rewrite fn_lookup_insert. split; [done|]. intros Hr'. exfalso. apply (ec_not _ Hr').
    apply (inv_tids _ _ _ _ Hinv); [apply ec_mem; by right|apply ec_r|done].
  - rewrite fn_lookup_insert_ne by done. rewrite (i_thr _ _ _ _ Hinv), ec_mem. split; [|by right]. intros [E|]; [|done]. by rewrite <- E in Hne.
Qed.

Lemma ec_pc t b : pc_buf (<[q_t r := Idle]> (thr s) t) = Some b → pc_buf (thr s t) = Some b.
Proof. fn_simpl; done. Qed.

Lemma end_step : inv (mk_sys (ended (dk s) r) (last_avail s) (taken s) (<[q_t r := Idle]> (thr s)) (want s) (said s)) (l1 ++ l2) pend usedq.
Proof.
  pose proof ec_chain as Hchain. pose proof ec_free as Hfree. pose proof (λ r' H, proj2 (ec_mem r') (or_intror H)) as Hin. pose proof Hinv as [].
  constructor; simpl; try done.
  - apply ec_thr.
  - apply ec_nodup.
  - intros i Hi. apply i_range0. rewrite ec_perm, elem_of_app. by right.
  - intros x Hx. destruct (i_qR0 x Hx) as (r' & [->|Hr']%ec_mem & <-); [done|]. by exists r'.
  - intros r' Hr'. apply i_bdisk0, Hin, Hr'.
  - intros t t' b b' H1%ec_pc H2%ec_pc. by apply i_excl0.
  - intros t b H%ec_pc. by apply (i_blk0 t).
  - intros t b w. fn_simpl; [done|]. apply i_need0.
  - intros r' Hr'. apply i_before0, Hin, Hr'.
  - intros r' Hr'. apply i_said0, Hin, Hr'.
  - intros r' Hr'. apply i_served0, Hin, Hr'.
  - intros r' Hr'. apply i_done0, Hin, Hr'.
Qed.
End end_call.

(** ** All runs *)

Lemma wp_run {S A} (m : M S A) Q s a s' : wp m Q s → m s = Ret (a, s') → Q a s'.
Proof. unfold wp. intros H E. by rewrite E in H. Qed.

(** A request of the invariant whose buffer is released can end. *)
Lemma end_run s R pend usedq r : inv s R pend usedq → r ∈ R → bdisk (dk s) (q_b r) = false →
  wp (rw_end (q_b r) (q_0 r)) (λ _ d', d' = ended (dk s) r) (dk s).
Proof.
  intros Hinv Hr Hbd. apply list_elem_of_split in Hr as (l1 & l2 & ->). pose proof (ec_r r l1 l2) as Hr.
  apply rw_end_ended; [by eapply i_chain|by eapply ec_nodup| |done]. intros i Hi.
  assert (i ∈ all_idx (l1 ++ r :: l2)) as Hall by (apply elem_all_idx; by exists r). split; [by apply (i_range _ _ _ _ Hinv i Hall)|].
  apply not_true_iff_false. rewrite (i_free _ _ _ _ Hinv). tauto.
Qed.

Lemma virtio_step_inv s R pend usedq s' : inv s R pend usedq → step s s' → ∃ R' pend' usedq', inv s' R' pend' usedq'.
Proof.
  intros Hinv Hstep. destruct Hstep as [s b n d Hun Hd Hn|s t b w Ht Hun Hb|s t b w r d' Ht Hr|s t b w i0 i1 i2 d' Ht Hr|s d' Hne Hi|s Hne|s h ok d' Hh Hs].
  - do 3 eexists. by apply client_step.
  - do 3 eexists. by apply call_step.
  - pose proof (wp_run _ _ _ _ _ (wp_rw_begin b w (dk s)) Hr) as H. destruct r as [[[i0 i1] i2]|].
    + destruct H as (Hnd & Hfr & Hbg). do 3 eexists. by apply begin_some.
    + destruct H as [Hsame _]. do 3 eexists. by apply begin_none.
  - apply (i_thr _ _ _ _ Hinv) in Ht. set (q := mk_rq t b w i0 i1 i2) in *. destruct (bdisk (dk s) b) eqn:Hbd.
    { exfalso. revert Hr. unfold rw_end, mbind, M_bind, gets. by rewrite Hbd. }
    pose proof (wp_run _ _ _ _ _ (end_run _ _ _ _ q Hinv Ht Hbd) Hr) as ->. apply list_elem_of_split in Ht as (l1 & l2 & ->).
    do 3 eexists. apply (end_step s pend usedq q l1 l2 Hinv). intros Hx. apply (i_bdisk _ _ _ _ Hinv q (ec_r q l1 l2)) in Hx. simpl in Hx. congruence.
  - destruct (intr_step _ _ _ _ _ Hinv Hne Hi) as (usedq' & H). by do 3 eexists.
  - destruct (take_step _ _ _ _ Hinv Hne) as (pend' & H). by do 3 eexists.
  - do 3 eexists. by eapply serve_step.
Qed.

Lemma reachable_inv s : reachable s → ∃ R pend usedq, inv s R pend usedq.
Proof.
  intros (s0 & (rd & pg & d0 & ws & Hu0 & Hinit & Hla & Htk & Hidle & Hb & Hst) & Hrun).
  assert (H0 : ∃ R pend usedq, inv s0 R pend usedq).
  { exists [], [], []. unfold virtio_disk_init in Hinit. destruct (init_regs rd pg) as [ws'| |]; [|done|done]. injection Hinit as _ Ed.
    rewrite <- Ed in *. constructor; rewrite <- ?Ed, ?Hla, ?Htk; try done; simpl in *; rewrite ?Hu0; try done.
    all: try apply NoDup_nil_2; try (intros ? Hx; by apply elem_of_nil in Hx); try (intros *; rewrite Hidle; done).
    - intros. rewrite Hidle. split; [done|]. intros Hx. by apply elem_of_nil in Hx.
    - intros i. rewrite andb_true_iff, Z.leb_le, Z.ltb_lt. split; [|tauto]. split; [done|apply not_elem_of_nil]. }
  clear -H0 Hrun. induction Hrun as [s|s1 s2 s3 Hstep _ IH]; [done|]. apply IH. destruct H0 as (R & pend & usedq & Hinv). by eapply virtio_step_inv.
Qed.

(** Only the device changes the disk, and only for a request to write. *)
Lemma step_store s R pend usedq s' n : inv s R pend usedq → step s s' → block_at (store (dk s')) n ≠ block_at (store (dk s)) n →
  ∃ t b idx, thr s t = InFlight b true idx ∧ blockno (dk s) b = n ∧ block_at (store (dk s')) n = want s t.
Proof.
  intros Hinv Hstep Hne. destruct Hstep as [s b n' d Hun Hd Hn|s t b w Ht Hun Hb|s t b w r d' Ht Hr|s t b w i0 i1 i2 d' Ht Hr|s d' Hne' Hi|s Hne'|s h ok d' Hh Hs]; simpl in *; try done.
  - pose proof (wp_run _ _ _ _ _ (wp_rw_begin b w (dk s)) Hr) as H. destruct Hne. destruct r as [[[i0 i1] i2]|].
    + destruct H as (_ & _ & [_ _ _ _ _ _ _ _ (_ & _ & _ & _ & _ & E)]). by rewrite E.
    + by destruct H as [(f & g & -> & _) _].
  - apply (i_thr _ _ _ _ Hinv) in Ht. destruct (bdisk (dk s) b) eqn:Hbd.
    { exfalso. revert Hr. unfold rw_end, mbind, M_bind, gets. by rewrite Hbd. }
    by pose proof (wp_run _ _ _ _ _ (end_run _ _ _ _ _ Hinv Ht Hbd) Hr) as ->.
  - destruct usedq as [|h usedq]; [by destruct (ring_nonempty _ _ _ _ (i_used _ _ _ _ Hinv) Hne')|].
    destruct (intr_effect _ _ _ _ _ Hinv) as (r & _ & _ & E). rewrite E in Hi. destruct (_ =? 0); [|done]. by injection Hi as <-.
  - destruct (serve_step _ _ _ _ _ _ _ Hinv Hh Hs) as (_ & r & Hr & <- & Hsv). rewrite (sv_store _ _ _ _ Hsv) in *. destruct (decide _) as [(_ & Hw & ->)|]; [|done].
    pose proof (i_before _ _ _ _ Hinv r Hr ltac:(rewrite elem_of_app; by right)) as Hbef. unfold before_ok in Hbef. rewrite Hw in Hbef.
    exists (q_t r), (q_b r), (q_0 r, q_1 r, q_2 r). split_and!; [|done|done]. destruct r as [t b w i0 i1 i2]. simpl in *. rewrite <- Hw. by apply (i_thr _ _ _ _ Hinv).
Qed.

(** [C9] The disk driver.  In every run, of any number of threads that read and write
    blocks at once (distinct blocks with numbers below 2^31, as the buffer cache does), with the device serving what it is given in any order and at any
    time: when virtio_disk_rw is released from its wait, its buffer and its block both
    hold what they should, the data of the buffer at the call of a write, the contents
    of the block at the call of a read; and the disk changes only where a write is
    under way, and to the data of that write. *)
Theorem virtio_rw_correct s : reachable s →
  (∀ t b w idx, thr s t = InFlight b w idx → bdisk (dk s) b = false →
    bdata (dk s) b = want s t ∧ block_at (store (dk s)) (blockno (dk s) b) = want s t) ∧
  (∀ s' n, step s s' → block_at (store (dk s')) n ≠ block_at (store (dk s)) n →
    ∃ t b idx, thr s t = InFlight b true idx ∧ blockno (dk s) b = n ∧ block_at (store (dk s')) n = want s t).
Proof.
  intros (R & pend & usedq & Hinv)%reachable_inv. split; [|intros s' n; by eapply step_store].
  intros t b w [[i0 i1] i2] Ht Hbd. apply (i_thr _ _ _ _ Hinv) in Ht. apply (i_done _ _ _ _ Hinv _ Ht).
  rewrite <- (i_bdisk _ _ _ _ Hinv _ Ht). simpl. by rewrite Hbd.
Qed.

(** [C33] The driver neither panics nor waits for ever.  In every run, a thread that
    wants descriptors gets three, or some other request has them; a request that has
    not been served waits for a step that can be made, of the device or of the
    interrupt handler; a released call frees its three descriptors without a panic;
    and the interrupt handler, at an entry of the used ring, panics exactly if the device
    reported an error for that request, and otherwise goes on. *)
Theorem virtio_progress s : reachable s →
  (∀ t b w, thr s t = NeedDesc b w → ∃ r d', rw_begin b w (dk s) = Ret (r, d') ∧
    (r = None → ∃ t' b' w' idx, thr s t' = InFlight b' w' idx)) ∧
  (∀ t b w i0 i1 i2, thr s t = InFlight b w (i0, i1, i2) →
    if bdisk (dk s) b then last_avail s ≠ avail_idx (dk s) ∨ (i0 ∈ taken s ∧ ∃ d', serve i0 true (dk s) = Some d') ∨ used_idx (dk s) ≠ dev_idx (dk s)
    else ∃ d', rw_end b i0 (dk s) = Ret (tt, d')) ∧
  (used_idx (dk s) ≠ dev_idx (dk s) → if said s (used_ring (dk s) (used_idx (dk s) mod NUM))
    then ∃ d', intr_one (dk s) = Ret (tt, d') else intr_one (dk s) = Panic "virtio_disk_intr status").
Proof.
  intros (R & pend & usedq & Hinv)%reachable_inv. split_and!.
  - intros t b w _. destruct (wp_inv _ _ _ (wp_rw_begin b w (dk s))) as (r & d' & E & H). exists r, d'. split; [done|]. intros ->.
    destruct H as [_ (i & Hi & Hf)]. apply not_true_iff_false in Hf. rewrite (i_free _ _ _ _ Hinv) in Hf.
    destruct (decide (i ∈ all_idx R)) as [([t' b' w' j0 j1 j2] & Hr & _)%elem_all_idx|]; [|tauto]. apply (i_thr _ _ _ _ Hinv) in Hr. by do 4 eexists.
  - intros t b w i0 i1 i2 Ht. pose proof (inv_small _ _ _ _ Hinv) as Hsmall. rewrite !length_app in Hsmall.
    apply (i_thr _ _ _ _ Hinv) in Ht. destruct (bdisk (dk s) b) eqn:Hbd.
    2:{ destruct (wp_inv _ _ _ (end_run _ _ _ _ _ Hinv Ht Hbd)) as ([] & d' & E & _). by exists d'. }
    apply (i_bdisk _ _ _ _ Hinv _ Ht) in Hbd. simpl in Hbd. rewrite !elem_of_app in Hbd. destruct Hbd as [Hp|[Htk|Hu]].
    + left. destruct pend as [|h pend]; [by apply elem_of_nil in Hp|]. eapply ring_open; [apply (i_avail _ _ _ _ Hinv)|simpl in *; lia].
    + right; left. split; [done|]. destruct (serve_effect (dk s) _ true (i_chain _ _ _ _ Hinv _ Ht)) as (d' & E & _); [| | |by exists d'].
      * eapply (i_blk _ _ _ _ Hinv). by eapply inv_buf.
      * apply (i_blen _ _ _ _ Hinv).
      * apply (i_slen _ _ _ _ Hinv).
    + right; right. destruct usedq as [|h usedq]; [by apply elem_of_nil in Hu|]. eapply ring_open; [apply (i_used _ _ _ _ Hinv)|simpl in *; lia].
  - intros Hne. destruct usedq as [|h usedq]; [by destruct (ring_nonempty _ _ _ _ (i_used _ _ _ _ Hinv) Hne)|].
    destruct (intr_effect _ _ _ _ _ Hinv) as (r & Hr & Er & E). destruct (vring_pop _ _ _ _ _ (i_used _ _ _ _ Hinv)) as [Eh _].
    rewrite Eh, E, <- Er, (i_said _ _ _ _ Hinv r Hr) by (rewrite Er; constructor). destruct (said s (q_0 r)); [by eexists|done].
Qed.

(** ** Types *)

(** A request in flight: its three descriptors are in range, taken, different, and
    linked into the chain the device expects, and the sector is not cut to 32 bits. *)
Record typed_request (d : disk) (b : Z) (w : bool) (i0 i1 i2 : Z) : Prop := {
  tr_taken : ∀ i, i ∈ [i0; i1; i2] → 0 ≤ i < NUM ∧ free d i = false;
  tr_nodup : NoDup [i0; i1; i2];
  tr_desc : desc d i0 = mk_desc (AReq i0) 16 F_NEXT i1 ∧
    desc d i1 = mk_desc (AData b) BSIZE (if w then F_NEXT else Z.lor F_WRITE F_NEXT) i2 ∧ desc d i2 = mk_desc (AStatus i0) 1 F_WRITE 0;
  tr_op : ops d i0 = mk_req (if w then T_OUT else T_IN) 0 (2 * blockno d b) ∧ 2 * blockno d b < 2 ^ 32;
  tr_len : length (bdata d b) = Z.to_nat BSIZE }.

(** A ring: its 16-bit counters are at most two entries apart, and the entries between
    them are the first descriptors of requests in flight. *)
Definition typed_ring (s : sys) (ring : Z → Z) (lo hi : Z) : Prop :=
  0 ≤ lo < 2 ^ 16 ∧ 0 ≤ hi < 2 ^ 16 ∧ u16 (hi - lo) ≤ 2 ∧
  ∀ k, 0 ≤ k < u16 (hi - lo) → ∃ t b w i1 i2, thr s t = InFlight b w (ring ((lo + k) mod NUM), i1, i2).

Lemma typed_ring_of s R pend usedq ring lo hi l : inv s R pend usedq → ring_is ring lo hi l → (length l ≤ 2)%nat →
  (∀ h, h ∈ l → h ∈ pend ++ taken s ++ usedq) → typed_ring s ring lo hi.
Proof.
  intros Hinv (Hlo & -> & Hl) Hlen Hin. assert (E : u16 (u16 (lo + Z.of_nat (length l)) - lo) = Z.of_nat (length l)) by (unfold u16; zlia).
  split; [done|]. split; [apply u16_range|]. rewrite E. split; [lia|]. intros k Hk.
  destruct (lookup_lt_is_Some_2 l (Z.to_nat k) ltac:(lia)) as [h Hh]. pose proof (Hl _ _ Hh) as Eh. rewrite Z2Nat.id in Eh by lia. rewrite Eh.
  destruct (i_qR _ _ _ _ Hinv h) as ([t b w i0 i1 i2] & Hr & <-); [by eapply Hin, list_elem_of_lookup_2|]. exists t, b, w, i1, i2. by apply (i_thr _ _ _ _ Hinv).
Qed.

Lemma typed_request_of s R pend usedq r : inv s R pend usedq → r ∈ R → typed_request (dk s) (q_b r) (q_w r) (q_0 r) (q_1 r) (q_2 r).
Proof.
  intros Hinv Hr. destruct (i_chain _ _ _ _ Hinv r Hr) as [E0 E1 E2 Eop _].
  assert (Hb : 0 ≤ blockno (dk s) (q_b r) < 2 ^ 31) by (eapply (i_blk _ _ _ _ Hinv); by eapply inv_buf). split.
  - intros i Hi. assert (Ha : i ∈ all_idx R) by (apply elem_all_idx; by exists r). split; [by apply (i_range _ _ _ _ Hinv)|].
    apply not_true_iff_false. rewrite (i_free _ _ _ _ Hinv). tauto.
  - apply list_elem_of_split in Hr as (R1 & R2 & ER). pose proof (i_nodup _ _ _ _ Hinv) as Hn. rewrite ER in Hn. unfold all_idx in Hn.
    rewrite bind_app, bind_cons in Hn. apply NoDup_app in Hn as (_ & _ & Hn). by apply NoDup_app in Hn as (Hn & _ & _).
  - rewrite E1. by destruct (q_w r).
  - rewrite Eop. change (BSIZE / 512) with 2. split; [|lia]. f_equal. unfold u32. zlia.
  - apply (i_blen _ _ _ _ Hinv).
Qed.

(** [C32] The shared data structures of the driver and the device keep their types.  In
    every run the requests in flight are chains of three descriptors of their own, all
    array indices in range, with the lengths exact and the sector number, computed in 32
    bits, exact for the block numbers below 2^31 of the clients; the indices
    in both rings are those of requests in flight; the counters of a ring, which wrap
    around at 16 bits, are never more than two apart, so no entry is overwritten before
    it is read. *)
Theorem virtio_well_typed s : reachable s →
  (∀ t b w i0 i1 i2, thr s t = InFlight b w (i0, i1, i2) → typed_request (dk s) b w i0 i1 i2) ∧
  (∀ t b w i0 i1 i2 t' b' w' j0 j1 j2, thr s t = InFlight b w (i0, i1, i2) → thr s t' = InFlight b' w' (j0, j1, j2) → t ≠ t' → [i0; i1; i2] ## [j0; j1; j2]) ∧
  typed_ring s (avail_ring (dk s)) (last_avail s) (avail_idx (dk s)) ∧
  typed_ring s (used_ring (dk s)) (used_idx (dk s)) (dev_idx (dk s)).
Proof.
  intros (R & pend & usedq & Hinv)%reachable_inv. pose proof (inv_small _ _ _ _ Hinv) as Hs. rewrite !length_app in Hs. split_and!.
  - intros t b w i0 i1 i2 Hr%(i_thr _ _ _ _ Hinv). exact (typed_request_of _ _ _ _ _ Hinv Hr).
  - intros t b w i0 i1 i2 t' b' w' j0 j1 j2 Hr%(i_thr _ _ _ _ Hinv) Hr'%(i_thr _ _ _ _ Hinv) Hne i Hi Hi'.
    pose proof (all_idx_inj R _ _ i (i_nodup _ _ _ _ Hinv) Hr Hr' Hi Hi'). congruence.
  - eapply typed_ring_of; [exact Hinv|apply (i_avail _ _ _ _ Hinv)|lia|]. intros h Hh. rewrite !elem_of_app. by left.
  - eapply typed_ring_of; [exact Hinv|apply (i_used _ _ _ _ Hinv)|lia|]. intros h Hh. rewrite !elem_of_app. by right; right.
Qed.

(** ** A run *)

Definition demo_rd (r : mmio) : Z :=
  match r with
  | MAGIC_VALUE => 0x74726976 | VERSION | DEVICE_ID => 2 | VENDOR_ID => 0x554d4551 | STATUS => 11 | QUEUE_NUM_MAX => 1024 | _ => 0
  end.
Definition demo_disk : disk :=
  mk_disk (λ _, mk_desc ANull 0 0 0) (λ _, false) (λ _, mk_req 0 0 0) (λ _, None) (λ _, 0) 0 (λ _, 0) 0 0 (λ _, 0)
    (λ _, false) (λ b, replicate 1024 b) (λ b, b) (λ _, replicate 512 0).
Definition demo_start : sys :=
  mk_sys (match virtio_disk_init demo_rd (Some 0x87f00000, Some 0x87f01000, Some 0x87f02000) demo_disk with Ret (_, d) => d | _ => demo_disk end)
    0 [] (λ _, Idle) (λ _, []) (λ _, false).
Definition run_m {A} (m : M disk A) (d : disk) : disk := match m d with Ret (_, d') => d' | _ => d end.

(** Thread 1 writes buffer 7 to block 7. *)
Definition demo_call : sys :=
  mk_sys (dk demo_start) 0 [] (<[1 := NeedDesc 7 true]> (thr demo_start)) (<[1 := bdata (dk demo_start) 7]> (want demo_start)) (said demo_start).
Definition demo_d1 : disk := run_m (rw_begin 7 true) (dk demo_call).
Definition demo_sent : sys :=
  mk_sys demo_d1 0 [] (<[1 := InFlight 7 true (0, 1, 2)]> (thr demo_call)) (want demo_call) (said demo_call).
Definition demo_taken : sys :=
  mk_sys (dk demo_sent) (u16 (last_avail demo_sent + 1)) (taken demo_sent ++ [avail_ring (dk demo_sent) (last_avail demo_sent mod NUM)])
    (thr demo_sent) (want demo_sent) (said demo_sent).
Definition demo_d2 : disk := default demo_disk (serve 0 true demo_d1).
Definition demo_served : sys := mk_sys demo_d2 (last_avail demo_taken) (without 0 (taken demo_taken)) (thr demo_taken) (want demo_taken) (<[0 := true]> (said demo_taken)).
Definition demo_d3 : disk := run_m intr_one demo_d2.
Definition demo_done : sys := mk_sys demo_d3 (last_avail demo_served) (taken demo_served) (thr demo_served) (want demo_served) (said demo_served).

Lemma demo_started : started demo_start.
Proof.
  exists demo_rd, (Some 0x87f00000, Some 0x87f01000, Some 0x87f02000), demo_disk. eexists. split; [reflexivity|]. split; [reflexivity|].
  split_and!; [done|done|done| |done]. intros b. exact (length_replicate 1024 b).
Qed.
Lemma demo_s1 : step demo_start demo_call.
Proof. apply (S_call demo_start 1 7 true); [done|intros t b'; done|done]. Qed.
Lemma demo_e2 : rw_begin 7 true (dk demo_call) = Ret (Some (0, 1, 2), demo_d1).
Proof. vm_compute. reflexivity. Qed.
Lemma demo_s2 : step demo_call demo_sent.
Proof. exact (S_begin demo_call 1 7 true (Some (0, 1, 2)) demo_d1 eq_refl demo_e2). Qed.
Lemma demo_e3 : last_avail demo_sent ≠ avail_idx (dk demo_sent).
Proof. vm_compute. discriminate. Qed.
Lemma demo_s3 : step demo_sent demo_taken.
Proof. exact (S_take demo_sent demo_e3). Qed.
Lemma demo_e4 : 0 ∈ taken demo_taken ∧ serve 0 true (dk demo_taken) = Some demo_d2.
Proof. split; [|vm_compute; reflexivity]. apply (bool_decide_unpack _). vm_compute. exact I. Qed.
Lemma demo_s4 : step demo_taken demo_served.
Proof. exact (S_serve demo_taken 0 true demo_d2 (proj1 demo_e4) (proj2 demo_e4)). Qed.
Lemma demo_e5 : used_idx (dk demo_served) ≠ dev_idx (dk demo_served) ∧ intr_one (dk demo_served) = Ret (tt, demo_d3).
Proof. split; [vm_compute; discriminate|vm_compute; reflexivity]. Qed.
Lemma demo_s5 : step demo_served demo_done.
Proof. exact (S_intr demo_served demo_d3 (proj1 demo_e5) (proj2 demo_e5)). Qed.

Lemma demo_reachable : reachable demo_served ∧ reachable demo_done.
Proof.
  assert (rtc step demo_start demo_served) as Hrun.
  { eapply rtc_l; [exact demo_s1|]. eapply rtc_l; [exact demo_s2|]. eapply rtc_l; [exact demo_s3|]. apply rtc_once. exact demo_s4. }
  split; exists demo_start; (split; [exact demo_started|]); [exact Hrun|]. eapply rtc_r; [exact Hrun|exact demo_s5].
Qed.

Lemma virtio_rw_correct_witness : reachable demo_done ∧ block_at (store (dk demo_done)) 7 = replicate 1024 7.
Proof.
  split; [exact (proj2 demo_reachable)|]. destruct (virtio_rw_correct demo_done (proj2 demo_reachable)) as [H _].
  destruct (H 1 7 true (0, 1, 2)) as [_ E]; [vm_compute; reflexivity|vm_compute; reflexivity|].
  transitivity (want demo_done 1); [exact E|vm_compute; reflexivity].
Defined.

Lemma virtio_progress_witness : reachable demo_served ∧ ∃ d', intr_one (dk demo_served) = Ret (tt, d').
Proof.
  split; [exact (proj1 demo_reachable)|]. assert (H1 : used_idx (dk demo_served) ≠ dev_idx (dk demo_served)) by (vm_compute; discriminate).
  pose proof (proj2 (proj2 (virtio_progress demo_served (proj1 demo_reachable))) H1) as H2.
  assert (E : said demo_served (used_ring (dk demo_served) (used_idx (dk demo_served) mod NUM)) = true) by (vm_compute; reflexivity).
  rewrite E in H2. exact H2.
Defined.

Lemma virtio_well_typed_witness : reachable demo_served ∧ typed_request (dk demo_served) 7 true 0 1 2 ∧
  ∃ t b w i1 i2, thr demo_served t = InFlight b w (used_ring (dk demo_served) ((used_idx (dk demo_served) + 0) mod NUM), i1, i2).
Proof.
  split; [exact (proj1 demo_reachable)|]. destruct (virtio_well_typed demo_served (proj1 demo_reachable)) as (H1 & _ & _ & H2). split.
  - apply (H1 1). vm_compute. reflexivity.
  - destruct H2 as (_ & _ & _ & H2). apply H2. vm_compute. split; [discriminate|reflexivity].
Defined.

End VirtioInv.
