(* ===== verification/Boot.v ===== *)
(** * kernel/entry.S, start.c, main.c, plic.c: from reset to the scheduler

    Each hart enters in machine mode, gets a stack, prepares the control registers and
    returns into main in supervisor mode.  Hart 0 initialises the kernel; the others
    wait for it, turn on paging and interrupts for themselves, and follow it into the
    scheduler.  The initialisation routines are those of the other files. *)

From S2P Require Import Prelude Mem Bytes CString Spinlock Riscv Kalloc Vm ListH Sleeplock Bio Log Journal Fs Pipe Kernel Proc File Fork Printf Console Tty Virtio Asm Trap.
Import Riscv Kernel.

Module Boot.

(** ** Control registers *)

Inductive csr :=
  | mhartid | mstatus | mepc | sie | mie | medeleg | mideleg | stvec | stimecmp | menvcfg | pmpcfg0 | pmpaddr0 | satp | mcounteren | time.
#[export] Instance csr_eq_dec : EqDecision csr.
Proof. solve_decision. Defined.

Inductive mode := MachineMode | SupervisorMode | UserMode.

Record hart := mk_hart { csrs : csr → Z; sp : Z; tp : Z; priv : mode; pc : Z }.

Definition r_csr (c : csr) (h : hart) : Z := csrs h c.
Definition w_csr (c : csr) (x : Z) (h : hart) : hart := mk_hart (<[c := x]> (csrs h)) (sp h) (tp h) (priv h) (pc h).
Definition w_sp (x : Z) (h : hart) : hart := mk_hart (csrs h) x (tp h) (priv h) (pc h).
Definition w_tp (x : Z) (h : hart) : hart := mk_hart (csrs h) (sp h) x (priv h) (pc h).

Notation MSTATUS_MPP_MASK := (Z.shiftl 3 11).
Notation MSTATUS_MPP_S := (Z.shiftl 1 11).
(** SIE_SEIE, SIE_STIE, SIE_SSIE *)
Notation SIE_BITS := [Z.shiftl 1 9; Z.shiftl 1 5; Z.shiftl 1 1].
Notation MIE_STIE := (Z.shiftl 1 5).

(** The mode in the MPP field. *)
Definition mpp (x : Z) : mode :=
  let f := Z.land (Z.shiftr x 11) 3 in if f =? 3 then MachineMode else if f =? 1 then SupervisorMode else UserMode.

(** [mret]: to the mode in MPP and the address in mepc; MIE becomes MPIE, MPIE 1 and
    MPP user mode. *)
Definition do_mret (h : hart) : hart :=
  let x := r_csr mstatus h in
  let y := Z.ldiff (Asm.set_bit (Z.testbit x 7) (Z.shiftl 1 3) (Z.lor x (Z.shiftl 1 7))) MSTATUS_MPP_MASK in
  let h := w_csr mstatus y h in mk_hart (csrs h) (sp h) (tp h) (mpp x) (r_csr mepc h).

(** A string as its bytes. *)
Definition text (s : string) : list Z := map (λ c, Z.of_N (Ascii.N_of_ascii c)) (String.list_ascii_of_string s).
Notation NL := 10.

(** ** entry.S and start.c *)

#[local] Existing Instance Bio.bio_cache.

Section boot.
Context `{KernelImage} `{KernelObjects} `{File.Devices (@kern Bio.bst)}.
(** Addresses the linker gives. *)
Context (stack0 main_addr kernelvec_addr : Z).
(** What the registers of the disk answer. *)
Context (rd : Virtio.mmio → Z).

(** [_entry]: [sp] is the upper end of the hart's part of [stack0]. *)
Definition entry (h : hart) : hart :=
  let a0 := 1024 * 4 in
  let a1 := u64 (r_csr mhartid h + 1) in
  w_sp (u64 (stack0 + u64 (a0 * a1))) h.

Definition timerinit (h : hart) : hart :=
  let h := w_csr mie (Z.lor (r_csr mie h) MIE_STIE) h in
  let h := w_csr menvcfg (Z.lor (r_csr menvcfg h) (Z.shiftl 1 63)) h in
  let h := w_csr mcounteren (Z.lor (r_csr mcounteren h) 2) h in
  w_csr stimecmp (u64 (r_csr time h + 1000000)) h.

Definition start (h : hart) : hart :=
  let x := r_csr mstatus h in
  let x := Z.ldiff x MSTATUS_MPP_MASK in
  let x := Z.lor x MSTATUS_MPP_S in
  let h := w_csr mstatus x h in
  let h := w_csr mepc main_addr h in
  let h := w_csr satp 0 h in
  let h := w_csr medeleg 0xffff h in
  let h := w_csr mideleg 0xffff h in
  let h := w_csr sie (foldl Z.lor (r_csr sie h) SIE_BITS) h in
  let h := w_csr pmpaddr0 0x3fffffffffffff h in
  let h := w_csr pmpcfg0 0xf h in
  let h := timerinit h in
  let id := s32 (r_csr mhartid h) in
  let h := w_tp (u64 id) h in
  do_mret h.

(** ** The state main works on *)

(** The kernel, its page table, the disk driver, the device registers written, the
    characters printed, the table of devices, and the flag of main. *)
Record sys := mk_sys {
  kn : @kern Bio.bst; kernel_pagetable : Z; vd : Virtio.disk; io : list (Z * Z); out : list Z; devsw : Z → bool; started : bool }.
Definition set_kn (x : @kern Bio.bst) (s : sys) : sys := mk_sys x (kernel_pagetable s) (vd s) (io s) (out s) (devsw s) (started s).
Definition set_kpt (x : Z) (s : sys) : sys := mk_sys (kn s) x (vd s) (io s) (out s) (devsw s) (started s).
Definition set_vd (x : Virtio.disk) (s : sys) : sys := mk_sys (kn s) (kernel_pagetable s) x (io s) (out s) (devsw s) (started s).
Definition add_io (l : list (Z * Z)) (s : sys) : sys := mk_sys (kn s) (kernel_pagetable s) (vd s) (io s ++ l) (out s) (devsw s) (started s).
Definition add_out (l : list Z) (s : sys) : sys := mk_sys (kn s) (kernel_pagetable s) (vd s) (io s) (out s ++ l) (devsw s) (started s).
Definition set_devsw (x : Z → bool) (s : sys) : sys := mk_sys (kn s) (kernel_pagetable s) (vd s) (io s) (out s) x (started s).
Definition set_started (x : bool) (s : sys) : sys := mk_sys (kn s) (kernel_pagetable s) (vd s) (io s) (out s) (devsw s) x.

Notation B := (M (hart * sys)).
Definition onh (f : hart → hart) : B unit := modify (λ s, (f s.1, s.2)).
Definition ons (f : sys → sys) : B unit := modify (λ s, (s.1, f s.2)).
Definition onkern {A} (m : M (@kern Bio.bst) A) : B A := λ s,
  match m (kn s.2) with
  | Ret (a, k) => Ret (a, (s.1, set_kn k s.2))
  | Panic msg => Panic msg
  | Block => Block
  end.
Definition onbuf {A} (m : M Bio.bst A) : B A := onkern (onfs (onlog (Log.onc m))).

Definition cpuid : B Z := gets (λ s, s32 (tp s.1)).

(** printf; a number that does not fit its buffer would be a fault. *)
Definition printf (fmt : list Z) (args : list Printf.arg) : B unit :=
  match Printf.kprintf fmt args with Some l => ons (add_out l) | None => block end.

(** ** The steps of main *)

Definition consoleinit : B unit :=
  d ← gets (λ s, devsw s.2);
  let '(w, d') := Tty.consoleinit d in
  ons (add_io w);; ons (set_devsw d').

(** printfinit initialises a lock. *)
Definition printfinit : B unit := mret tt.

(** debug.h: [debug] with the mode debug.c starts in; the first system call comes after
    boot. *)
Notation MP2_DEFAULT_DEBUG_MODE := 1.
Definition debug (fmt : list Z) (args : list Printf.arg) : B unit :=
  if MP2_DEFAULT_DEBUG_MODE =? 0 then mret tt else printf fmt args.

(** [check] of mp2_checker.h; [struct slab] is empty. *)
Definition check : B unit := debug (text "[MP2] Slab size: %lu" ++ [NL]) [Printf.AWord 0].

(** file.c: [fileinit], with its message. *)
Definition fileinit : B unit := debug (text "[FILE] fileinit" ++ [NL]) [];; onkern File.fileinit.

Definition kvminit : B unit := pt ← onkern (onk Vm.kvmmake); ons (set_kpt pt).
Definition kvminithart : B unit := pt ← gets (λ s, kernel_pagetable s.2); onh (w_csr satp (Trap.MAKE_SATP pt)).

(** trapinit initialises a lock. *)
Definition trapinit : B unit := mret tt.
Definition trapinithart : B unit := onh (w_csr stvec kernelvec_addr).

Definition plicinit : B unit := ons (add_io [(PLIC + UART0_IRQ * 4, 1)]);; ons (add_io [(PLIC + VIRTIO0_IRQ * 4, 1)]).
Definition plicinithart : B unit :=
  hart ← cpuid;
  ons (add_io [(PLIC_SENABLE hart, Z.lor (Z.shiftl 1 UART0_IRQ) (Z.shiftl 1 VIRTIO0_IRQ))]);;
  ons (add_io [(PLIC_SPRIORITY hart, 0)]).

(** [plic_claim], with what the registers answer, and [plic_complete]. *)
Definition plic_claim (reg : Z → Z) : B Z := hart ← cpuid; mret (s32 (reg (PLIC_SCLAIM hart))).
Definition plic_complete (irq : Z) : B unit := hart ← cpuid; ons (add_io [(PLIC_SCLAIM hart, u32 irq)]).

Definition page (p : Z) : option Z := if p =? 0 then None else Some p.

(** [virtio_disk_init], with the pages it takes. *)
Definition virtio_disk_init : B unit :=
  d ← onkern (onk Kalloc.kalloc);
  a ← onkern (onk Kalloc.kalloc);
  u ← onkern (onk Kalloc.kalloc);
  v ← gets (λ s, vd s.2);
  match Virtio.virtio_disk_init rd (page d, page a, page u) v with
  | Panic msg => panic msg
  | Block => block
  | Ret (w, v') =>
      onkern (onk (modify (Kalloc.set_mem (CString.memset d 0 PGSIZE))));;
      onkern (onk (modify (Kalloc.set_mem (CString.memset a 0 PGSIZE))));;
      onkern (onk (modify (Kalloc.set_mem (CString.memset u 0 PGSIZE))));;
      ons (add_io (map (λ x, (VIRTIO0 + Virtio.mmio_off x.1, x.2)) w));;
      ons (set_vd v')
  end.

(** main, on hart 0 and on the others, up to the call of scheduler. *)
Definition main0 : list (B unit) := [
  consoleinit; printfinit; printf [NL] []; printf (text "xv6 kernel is booting" ++ [NL]) []; printf [NL] []; check;
  onkern (onk Kalloc.kinit); kvminit; kvminithart; onkern Proc.procinit; trapinit; trapinithart; plicinit; plicinithart;
  onbuf Bio.binit; onkern (onfs Fs.iinit); fileinit; virtio_disk_init; onkern Fork.userinit;
  ons (set_started true)].
Definition main_others : list (B unit) := [
  (id ← cpuid; printf (text "hart %d starting" ++ [NL]) [Printf.AWord (u64 id)]); kvminithart; trapinithart; plicinithart].

(** ** All harts *)

Inductive place := Reset | Spinning | Doing (l : list (B unit)) | Scheduler.

Record machine := mk_machine { harts : Z → hart; at_ : Z → place; shared : sys }.

Inductive step (s : machine) : machine → Prop :=
  (* the hart comes out of reset and runs up to the test of cpuid() in main *)
  | S_start h : 0 ≤ h < NCPU → at_ s h = Reset →
      step s (let x := start (entry (harts s h)) in
        mk_machine (<[h := x]> (harts s)) (<[h := if s32 (tp x) =? 0 then Doing main0 else Spinning]> (at_ s)) (shared s))
  (* it sees [started] set *)
  | S_go h : at_ s h = Spinning → started (shared s) = true → step s (mk_machine (harts s) (<[h := Doing main_others]> (at_ s)) (shared s))
  | S_act h m l x sh : at_ s h = Doing (m :: l) → m (harts s h, shared s) = Ret (tt, (x, sh)) →
      step s (mk_machine (<[h := x]> (harts s)) (<[h := Doing l]> (at_ s)) sh)
  | S_scheduler h : at_ s h = Doing [] → step s (mk_machine (harts s) (<[h := Scheduler]> (at_ s)) (shared s)).

End boot.

End Boot.
