(* ===== verification/BootSpec.v ===== *)
(** * Boot: what the initialisation leaves

    userinit and the first process; main on hart 0; and all harts from reset to the
    scheduler. *)

From S2P Require Import Prelude Mem Bytes CString Spinlock Riscv Kalloc Vm VmSpec VmUser VmProc VmKernel ListH Sleeplock Bio Log LogCrash Journal Fs Pipe Kernel Proc File FileRefs ProcInv FsCrash Fork ForkSpec Printf Console Tty Virtio VirtioInv Asm Trap Boot.
Import Riscv Bytes Kernel Proc File Fork Kalloc Vm VmSpec VmUser VmProc VmKernel ForkSpec Boot.

Module BootSpec.

(** ** The first process *)

Section init.
Context `{KernelImage}.

(** Memory is the same in every page of the allocator but those in [ps]. *)
Definition keeps (ps : list Z) (m m' : mem) : Prop := ∀ p b, page_ok p → p ∉ ps → in_page p b → ld8 m' b = ld8 m b.

Lemma keeps_off ps m m' : Forall page_ok ps → same_off ps m m' → keeps ps m m'.
Proof.
  intros Hps Hoff p b Hp Hn Hb. apply Hoff. intros q Hq Hqb. rewrite Forall_forall in Hps.
  assert (p = q) as <-; [|done]. eapply page_disjoint; eauto.
Qed.

Lemma keeps_trans ps m1 m2 m3 : keeps ps m1 m2 → keeps ps m2 m3 → keeps ps m1 m3.
Proof. intros H1 H2 p b Hp Hn Hb. rewrite (H2 p b), (H1 p b); done. Qed.

Lemma keeps_mono ps ps' m m' : ps ⊆ ps' → keeps ps m m' → keeps ps' m m'.
Proof. intros Hs Hk p b Hp Hn Hb. apply (Hk p b); [done|by intros ?%Hs|done]. Qed.

(** A table whose pages are kept, while the free list changes. *)
Lemma as_rep_keeps s s' root nd fl fl' A ps : as_rep s root nd fl A → free_pages s' fl' → fl' ⊆ fl →
  keeps ps (kmem s) (kmem s') → (∀ q, q ∈ pages nd → q ∉ ps) → as_rep s' root nd fl' A.
Proof.
  intros Hrep Hf Hsub Hk Hd. pose proof Hrep as [(Hf0 & Hwf & Hnd) _]. eapply as_rep_frame; [exact Hrep|exact Hf| |].
  - pose proof Hnd as (_ & Hdis & Hn)%NoDup_app. apply NoDup_app. split_and!; [apply Hf|intros q Hq; by apply Hdis, Hsub|done].
  - intros p b Hp Hb. apply (Hk p b); [|by apply Hd|done]. apply elem_of_pages in Hp as (k & Hp). by eapply wf_page.
Qed.

Lemma user_rep_any s root nd fl us hi f : user_rep s root nd fl us hi → keeps [] (kmem s) (f (kmem s)) → user_rep (set_mem f s) root nd fl us hi.
Proof.
  intros (Hrep & Hrest) Hk. split; [|done]. apply as_rep_other; [done|]. intros q b Hq Hb. apply (Hk q b); [|apply not_elem_of_nil|done].
  destruct Hrep as [Hok _]. apply vm_pages_ok in Hok. rewrite Forall_forall in Hok. by apply Hok.
Qed.

(** uvmfirst: one page with the code, mapped at address 0. *)
Definition first_flags : Z := Z.lor (Z.lor (Z.lor PTE_W PTE_R) PTE_X) PTE_U.

Lemma uvmfirst_ok s root nd fl hi src n : user_rep s root nd fl [] hi → (4 ≤ length fl)%nat → 0 ≤ n < PGSIZE → 0 ≤ src → src + n ≤ kend →
  wp (uvmfirst root src n) (λ _ s', ∃ pg nd' fl', user_rep s' root nd' fl' [(pg, first_flags)] hi ∧ pg :: fl' ++ pages nd' ≡ₚ fl ++ pages nd ∧
    page_bytes s' pg = ldbytes (kmem s) src (Z.to_nat n) ++ replicate (Z.to_nat (PGSIZE - n)) 0 ∧ same_off (fl ++ pages nd) (kmem s) (kmem s')) s.
Proof.
  intros Hu Hl Hn Hs0 Hs. unfold uvmfirst. case_if; [lia|]. wp_bind. eapply wp_mono; [by apply user_kalloc|]. intros r s1 HQ.
  destruct fl as [|p fl]; [simpl in Hl; lia|]. destruct HQ as (-> & Hu1 & Hp & Hpn & Hoff1). wp_bind. apply wp_modify.
  assert (Hu2 : user_rep (set_mem (CString.memset p 0 PGSIZE) s1) root nd fl [] hi).
  { eapply user_rep_other; [exact Hu1|exact Hp|exact Hpn|apply same_off_memset]. }
  assert (Hoff2 : same_off [p] (kmem s1) (kmem (set_mem (CString.memset p 0 PGSIZE) s1))) by (unfold set_mem; cbn [kmem]; apply same_off_memset).
  set (s2 := set_mem _ s1) in *. wp_bind. eapply wp_mono; [apply (user_mappages s2 root nd fl [] hi p first_flags); try done|].
  intros r s3 (nd3 & fl3 & [Hp3 Hoff3] & Hsz3 & Hres). pose proof (Permutation_length Hp3) as Hc. rewrite !length_app, !length_pages in Hc. simpl in Hl.
  destruct Hres as [[-> Hu3]|(-> & _ & ->)]; [|simpl in Hc; lia]. apply wp_modify.
  assert (Hpn3 : p ∉ fl3 ++ pages nd3) by (rewrite Hp3; exact Hpn).
  assert (Hm4 : same_off [p] (kmem s3) (CString.memmove p src n (kmem s3))) by (apply same_off_page; intros b Hb; apply CString.memmove_out; unfold PGSIZE in Hn; lia).
  exists p, nd3, fl3. split_and!.
  - eapply user_rep_other; [exact Hu3|exact Hp|exact Hpn3|exact Hm4].
  - simpl. by constructor.
  - pose proof (vm_pages_ok _ _ _ _ (proj1 (proj1 Hu1))) as Hok1. 
    assert (Hsrc : ∀ i, 0 ≤ i < n → ld8 (kmem s3) (src + i) = ld8 (kmem s) (src + i)).
    { intros i Hi. assert (Hno : ∀ q, page_ok q → ¬ in_page q (src + i)) by (intros q (_ & Hq & _) [Hb _]; lia).
      rewrite (Hoff3 (src + i)); [|intros q Hq; apply Hno; rewrite Forall_forall in Hok1; by apply Hok1].
      rewrite (Hoff2 (src + i)); [|intros q ->%list_elem_of_singleton; by apply Hno]. apply Hoff1. intros q ->%list_elem_of_singleton. by apply Hno. }
    assert (Hz : ∀ b, in_page p b → ld8 (kmem s3) b = 0).
    { intros b Hb. rewrite (keeps_off _ _ _ Hok1 Hoff3 p b Hp Hpn Hb). apply (CString.memset_in p 0 PGSIZE). exact Hb. }
    apply list_eq. intros i. unfold page_bytes. destruct (decide (i < Z.to_nat PGSIZE)%nat) as [Hi|Hi].
    + rewrite lookup_ldbytes by done. cbn [kmem set_mem]. destruct (decide (Z.of_nat i < n)) as [Hin|Hin].
      * rewrite CString.memmove_in by lia. rewrite lookup_app_l by (rewrite length_ldbytes; lia). rewrite lookup_ldbytes by lia.
        replace (src + (p + Z.of_nat i - p)) with (src + Z.of_nat i) by lia. rewrite Hsrc by lia. done.
      * rewrite CString.memmove_out by lia. rewrite Hz by (unfold in_page, PGSIZE in *; lia).
        rewrite lookup_app_r by (rewrite length_ldbytes; lia). rewrite length_ldbytes, lookup_replicate_2; [done|unfold PGSIZE in *; lia].
    + rewrite !lookup_ge_None_2; [done|rewrite length_app, length_ldbytes, length_replicate; lia|rewrite length_ldbytes; lia].
  - apply (same_off_trans _ _ (kmem s1)); [|apply (same_off_trans _ _ (kmem s2)); [|apply (same_off_trans _ _ (kmem s3))]].
    + eapply same_off_mono; [|exact Hoff1]. intros q ->%list_elem_of_singleton. by left.
    + eapply same_off_mono; [|exact Hoff2]. intros q ->%list_elem_of_singleton. by left.
    + eapply same_off_mono; [|exact Hoff3]. intros q Hq. by right.
    + eapply same_off_mono; [|exact Hm4]. intros q ->%list_elem_of_singleton. by left.
Qed.

(** ** Bytes stored by the kernel *)

Lemma ld8_stbytes bs a m b : ld8 (stbytes a bs m) b = match bs !! Z.to_nat (b - a) with Some v => if a <=? b then u8 v else ld8 m b | None => ld8 m b end.
Proof.
  unfold stbytes. assert (G : ∀ (l : list Z) i, ld8 (foldr (λ (p : Z * Z) m, st8 (a + p.1) p.2 m) m (zip (seqZ i (Z.of_nat (length l))) l)) b =
    match l !! Z.to_nat (b - a - i) with Some v => if a + i <=? b then u8 v else ld8 m b | None => ld8 m b end).
  { induction l as [|v l IH]; intros i; [by rewrite lookup_nil|]. cbn [length]. rewrite seqZ_cons by lia. replace (Z.pred (Z.of_nat (S (length l)))) with (Z.of_nat (length l)) by lia.
    cbn [zip zip_with foldr fst snd]. rewrite ld8_st8. destruct (Z.eqb_spec (a + i) b) as [<-|Hne].
    - replace (a + i - a - i) with 0 by lia. cbn. rewrite (proj2 (Z.leb_le _ _)) by lia. done.
    - change (zip_with pair (seqZ (Z.succ i) (Z.of_nat (length l))) l) with (zip (seqZ (Z.succ i) (Z.of_nat (length l))) l). rewrite IH.
      destruct (decide (b < a + i)) as [Hlt|Hge].
      + rewrite (proj2 (Z.leb_gt (a + i) b)), (proj2 (Z.leb_gt (a + Z.succ i) b)) by lia. by destruct (_ !! _), (_ !! _).
      + replace (Z.to_nat (b - a - i)) with (S (Z.to_nat (b - a - Z.succ i))) by lia. cbn [lookup list_lookup]. rewrite (proj2 (Z.leb_le (a + i) b)), (proj2 (Z.leb_le (a + Z.succ i) b)) by lia. done. }
  specialize (G bs 0). rewrite Z.sub_0_r, Z.add_0_r in G. exact G.
Qed.

Lemma ldbytes_stbytes bs a m : Forall (λ v, 0 ≤ v < 256) bs → ldbytes (stbytes a bs m) a (length bs) = bs.
Proof.
  intros Hb. apply list_eq. intros i. destruct (decide (i < length bs)%nat) as [Hi|Hi]; [|rewrite !lookup_ge_None_2; [done|lia|rewrite length_ldbytes; lia]].
  rewrite lookup_ldbytes by done. rewrite ld8_stbytes. replace (Z.to_nat (a + Z.of_nat i - a)) with i by lia. destruct (lookup_lt_is_Some_2 bs i Hi) as [v Hv]. rewrite Hv.
  rewrite (proj2 (Z.leb_le _ _)) by lia. f_equal. apply Z.mod_small. rewrite Forall_forall in Hb. by apply Hb, (list_elem_of_lookup_2 _ i).
Qed.

Lemma keeps_stbytes a bs m : a + Z.of_nat (length bs) ≤ kend → keeps [] m (stbytes a bs m).
Proof.
  intros Ha p b (_ & Hp & _) _ [Hb _]. rewrite ld8_stbytes. rewrite lookup_ge_None_2 by lia. done.
Qed.

End init.

(** ** The root directory *)

Section names.
Context {J : Type} `{Journal.Journal J}.

Definition root_inode (x : Fs.inode) : Fs.inode :=
  Fs.mk_inode ROOTDEV Fs.ROOTINO 1 (Fs.lock x) false (Fs.type x) (Fs.major x) (Fs.minor x) (Fs.nlink x) (Fs.isize x) (Fs.addrs x).

Lemma iget_scan_free k : ∀ ip e d i tb, (∀ j, Fs.ref (tb j) = 0) → Fs.iget_scan k ip (Some e) d i tb = inr (Some e).
Proof. induction k as [|k IH]; intros ip e d i tb Htb; [done|]. cbn [Fs.iget_scan]. rewrite Htb. simpl. by apply IH. Qed.

Lemma iget_scan_first k d i tb : (0 < k)%nat → (∀ j, Fs.ref (tb j) = 0) → Fs.iget_scan k 0 None d i tb = inr (Some 0).
Proof. intros Hk Htb. destruct k as [|k]; [lia|]. cbn [Fs.iget_scan]. rewrite Htb. simpl. by apply iget_scan_free. Qed.

Lemma namei_root cw (f : @Fs.fsst J) : Fs.ilk f = false → (∀ i, Fs.ref (Fs.itable f i) = 0) →
  wp (Fs.namei cw [Fs.SLASH]) (λ r f', r = Some 0 ∧ f' = Fs.mk_fsst (Fs.jr f) (Fs.sb f) (<[0 := root_inode (Fs.itable f 0)]> (Fs.itable f)) false (Fs.mypid f)) f.
Proof.
  intros Hlk Href. unfold Fs.namei. apply wp_bind. unfold Fs.namex. apply wp_bind. change (Fs.SLASH =? Fs.SLASH) with true. cbv iota.
  unfold Fs.iget. apply wp_bind, Lock.wp_acquire; [exact Hlk|]. apply wp_bind, wp_gets.
  assert (E : Fs.iget_scan (Z.to_nat NINODE) 0 None ROOTDEV Fs.ROOTINO (Fs.itable f) = inr (Some 0)).
  { apply iget_scan_first; [unfold NINODE; lia|exact Href]. }
  change (Fs.itable (Lock.lk_set true f)) with (Fs.itable f). rewrite E.
  apply wp_bind, wp_modify, wp_bind, Lock.wp_release; [done|]. apply wp_ret. cbn [Fs.namex_loop length]. change (Fs.skipelem [Fs.SLASH]) with (@None (bytes * bytes)). cbv iota.
  apply wp_ret, wp_ret. done.
Qed.

End names.

(** ** userinit *)

Section userinit.
Context {S : Type} `{BC : Bio.BlockCache S} `{KernelImage} `{KernelObjects} `{Devices (@kern S)}.
Notation K := (@kern S).
Implicit Types s : K.

(** The process in entry [np]: its code in page [pg], its trap frame [tf], its table
    with the nodes [nd], and [fl'] the free pages that are left of [fl]. *)
Record first_process (fl : list Z) s0 s (np tf pg : Z) (nd : gmap (list Z) Z) (fl' : list Z) : Prop := {
  fp_slot : ProcInv.in_table np ∧ state (procs s0 np) = UNUSED ∧ initproc s = Some np;
  fp_state : state (procs s np) = RUNNABLE ∧ pid (procs s np) = nextpid s0 ∧ sz (procs s np) = PGSIZE ∧ cwd (procs s np) = Some 0;
  fp_start : context (procs s np) = first_context (procs s np) ∧ kstack (procs s np) = kstack (procs s0 np);
  fp_clean : (∀ fd, ofile (procs s np) fd = None) ∧ parent (procs s np) = None;
  fp_name : take 9 (name (procs s np)) = initcode_name ++ [0];
  fp_others : ∀ q, q ≠ np → procs s q = procs s0 q;
  fp_mem : trapframe (procs s np) = tf ∧ user_rep (kk s) (pagetable (procs s np)) nd fl' [(pg, first_flags)] (proc_hi tf);
  fp_code : page_bytes (kk s) pg = initcode ++ replicate (Z.to_nat PGSIZE - length initcode) 0;
  fp_regs : ld64 (kmem (kk s)) (tf + TF_epc) = 0 ∧ ld64 (kmem (kk s)) (tf + TF_sp) = PGSIZE;
  fp_pages : fl ≡ₚ tf :: pg :: fl' ++ pages nd;
  fp_keeps : keeps fl (kmem (kk s0)) (kmem (kk s));
  fp_root : kfs s = Fs.mk_fsst (Fs.jr (kfs s0)) (Fs.sb (kfs s0)) (<[0 := root_inode (Fs.itable (kfs s0) 0)]> (Fs.itable (kfs s0))) false (Fs.mypid (kfs s0));
  fp_locks : kheld s = [] ∧ cpu_at 0 (kcpu s);
  fp_rest : ftable s = ftable s0 ∧ pipes s = pipes s0 ∧ nextpid s = s32 (nextpid s0 + 1) }.

(** Registers in the trap frame. *)
Lemma regs_stored k root nd fl us hi tf : user_rep k root nd fl us hi → page_ok tf → tf ∉ us.*1 ++ fl ++ pages nd →
  let k' := set_mem (st64 (tf + TF_sp) PGSIZE) (set_mem (st64 (tf + TF_epc) 0) k) in
  user_rep k' root nd fl us hi ∧ same_off [tf] (kmem k) (kmem k') ∧ ld64 (kmem k') (tf + TF_epc) = 0 ∧ ld64 (kmem k') (tf + TF_sp) = PGSIZE.
Proof.
  intros Hu Htf Hn k'. rewrite elem_of_app in Hn.
  assert (Hm : ∀ o v m, 0 ≤ o ≤ 4088 → same_off [tf] m (st64 (tf + o) v m)).
  { intros o v m Ho. apply same_off_page. intros b Hb. apply ld8_st64_ne. lia. }
  split_and!.
  - eapply user_rep_other; [eapply user_rep_other; [exact Hu|done|tauto|]|done|tauto|]; apply Hm; unfold TF_epc, TF_sp; lia.
  - eapply same_off_trans; apply Hm; unfold TF_epc, TF_sp; lia.
  - cbn [kmem set_mem k']. rewrite ld64_st64_ne by (unfold TF_epc, TF_sp; lia). by rewrite ld64_st64_eq.
  - cbn [kmem set_mem k']. by rewrite ld64_st64_eq.
Qed.

Lemma userinit_ok fl s : kheld s = [] → cpu_at 0 (kcpu s) → free_pages (kk s) fl → (12 ≤ length fl)%nat → table_clean (procs s) → ¬ table_full (procs s) →
  Fs.ilk (kfs s) = false → (∀ i, Fs.ref (Fs.itable (kfs s) i) = 0) → 0 ≤ kobj → kobj + Z.of_nat (length initcode) ≤ kend →
  wp userinit (λ _ s', ∃ np tf pg nd fl', first_process fl s s' np tf pg nd fl') s.
Proof.
  intros Hh Hc Hf Hl Hcl Hfull Hilk Href Hk0 Hk. unfold userinit. apply wp_bind. eapply wp_mono; [by eapply (allocproc_ok s fl)|]. intros [np|] s1 Hpost.
  2:{ destruct Hpost as (k & pr & n & c & fl' & -> & _ & _ & _ & _ & _ & [?|?]); [done|lia]. }
  destruct Hpost as (k1 & pr1 & c1 & tf & pt & nd1 & fl1 & -> & Hc1 & Hnp & Hun & Hy & Htf & Hpt & Hu1 & Hp1 & Hoff1 & Hsn).
  pose proof Hy as [Ey Hoth]. pose proof (Hcl np Hnp Hun) as (_ & _ & _ & Hof0 & Hpar0). set (y := newborn (nextpid s) tf pt (procs s np)) in *.
  assert (Hfl : NoDup fl ∧ Forall page_ok fl) by (split; apply Hf). destruct Hfl as [Hnd Hok]. rewrite Hp1 in Hnd, Hok. apply NoDup_cons in Hnd as [Htn Hnd]. apply Forall_cons in Hok as [_ Hok].
  apply Permutation_length in Hp1 as Hlen. simpl in Hlen. rewrite length_app, length_pages in Hlen.
  apply wp_bind, wp_modify, wp_bind, wp_gets. cbn [procs moved set_initproc]. rewrite Ey. change (pagetable y) with pt. apply wp_bind, wp_onk, wp_modify. cbn [kk set_kk moved set_initproc].
  assert (Hu2 : user_rep (set_mem (stbytes kobj initcode) k1) pt nd1 fl1 [] (proc_hi tf)) by (apply user_rep_any; [exact Hu1|by apply keeps_stbytes]).
  set (k2 := set_mem (stbytes kobj initcode) k1) in *. assert (Hk2 : keeps [] (kmem k1) (kmem k2)) by (by apply keeps_stbytes).
  assert (Hsrc : ldbytes (kmem k2) kobj (Z.to_nat (Z.of_nat (length initcode))) = initcode).
  { rewrite Nat2Z.id. apply ldbytes_stbytes. unfold initcode. repeat constructor; lia. }
  apply wp_bind, wp_onk. cbn [kk set_kk]. eapply wp_mono; [eapply (uvmfirst_ok k2 pt nd1 fl1); [exact Hu2|lia|by vm_compute|exact Hk0|exact Hk]|].
  intros [] k3 (pg & nd3 & fl3 & Hu3 & Hp3 & Hpg & Hoff3). rewrite Hsrc in Hpg.
  assert (Htn3 : tf ∉ [(pg, first_flags)].*1 ++ fl3 ++ pages nd3) by (simpl; by rewrite Hp3).
  apply wp_bind, wp_modify, wp_bind. unfold tf_store. apply wp_bind, wp_gets. cbn [procs upd_proc set_kk set_initproc moved]. rewrite fn_lookup_insert, Ey. change (trapframe (set_sz PGSIZE y)) with tf.
  apply wp_onk, wp_modify, wp_bind, wp_bind, wp_gets. cbn [procs upd_proc set_kk set_initproc moved]. rewrite fn_lookup_insert, Ey. change (trapframe (set_sz PGSIZE y)) with tf.
  apply wp_onk, wp_modify. cbn [kk set_kk upd_proc]. destruct (regs_stored k3 pt nd3 fl3 _ _ tf Hu3 Htf Htn3) as (Hu4 & Hoff4 & Hepc & Hsp). set (k4 := set_mem (st64 (tf + TF_sp) PGSIZE) _) in *.
  apply wp_bind, wp_modify, wp_bind, wp_gets, wp_bind, wp_onfs. eapply wp_mono; [by apply namei_root|]. intros r f [-> ->].
  apply wp_bind, wp_modify, wp_bind, wp_modify, (wp_unlock _ [] 0); [done|apply not_elem_of_nil|done|lia|]. intros c5 Hc5.
  set (s9 := set_cpu_held c5 [] _).
  assert (Hz : only np (set_state RUNNABLE (set_cwd (Some 0) (set_name (copy_name initcode_name (name (set_sz PGSIZE y))) (set_sz PGSIZE y)))) (procs s) (procs s9)).
  { exact (only_upd np (set_state RUNNABLE) _ _ _ (only_upd np (set_cwd (Some 0)) _ _ _ (only_upd np (λ y0, set_name (copy_name initcode_name (name y0)) y0) _ _ _ (only_upd np (set_sz PGSIZE) _ _ _ Hy)))). }
  exists np, tf, pg, nd3, fl3. destruct Hz as [Ez Hoz].
  assert (Hkk : kk s9 = k4) by reflexivity.
  assert (Hpok : page_ok pg ∧ pg ≠ tf).
  { assert (Hin : pg ∈ fl1 ++ pages nd1) by (rewrite <- Hp3; by left). split; [rewrite Forall_forall in Hok; by apply Hok|intros ->; by apply Htn]. }
  split; rewrite ?Ez, ?Hkk.
  - by split_and!.
  - by split_and!.
  - by split_and!.
  - split; [exact Hof0|exact Hpar0].
  - reflexivity.
  - intros q Hq. by apply Hoz.
  - split; [done|exact Hu4].
  - rewrite (page_bytes_same_off k3 k4 [tf] pg Hoff4); [|apply Hpok|by constructor|intros ?%list_elem_of_singleton; by apply Hpok].
    rewrite Hpg. reflexivity.
  - by split.
  - rewrite Hp1. constructor. by rewrite Hp3.
  - apply (keeps_trans _ _ (kmem k1)); [apply keeps_off; [apply Hf|exact Hoff1]|].
    apply (keeps_trans _ _ (kmem k2)); [eapply keeps_mono; [|exact Hk2]; apply list_subseteq_nil|].
    apply (keeps_trans _ _ (kmem k3)); [eapply keeps_mono; [|apply keeps_off; [exact Hok|exact Hoff3]]|eapply keeps_mono; [|apply keeps_off; [|exact Hoff4]]].
    + intros q Hq. rewrite Hp1. by right.
    + intros q ->%list_elem_of_singleton. rewrite Hp1. by left.
    + by apply Forall_singleton.
  - reflexivity.
  - by split.
  - by split_and!.
Qed.

End userinit.
(** ** main on hart 0 *)

Section main.
#[local] Existing Instance Bio.bio_cache.
Context `{KernelImage} `{KernelObjects} `{Devices (@kern Bio.bst)}.
Context (stack0 main_addr kernelvec_addr : Z) (rd : Virtio.mmio → Z).
Notation B := (M (hart * sys)).
Notation Bmain0 := (main0 kernelvec_addr rd).

Fixpoint run_list (l : list (B unit)) : B unit := match l with [] => mret tt | m :: l' => m;; run_list l' end.

Notation cache s := (Log.lcache (Fs.jr (kfs (kn s)))).

(** The kernel's data when the machine is switched on: all zero but [nextpid].  Memory
    is arbitrary. *)
Record powered_on (s : sys) : Prop := {
  po_procs : ∀ p, clean (procs (kn s) p);
  po_locks : kheld (kn s) = [] ∧ cpu_at 0 (kcpu (kn s)) ∧ nextpid (kn s) = 1;
  po_inodes : ∀ i, Fs.ref (Fs.itable (kfs (kn s)) i) = 0;
  po_bufs : ∀ i, Bio.dev (Bio.bufs (cache s) i) = 0 ∧ Bio.refcnt (Bio.bufs (cache s) i) = 0;
  po_started : started s = false;
  po_freelist : Kalloc.freelist (kk (kn s)) = 0 }.

(** The disk is there, and answers as the driver asks. *)
Definition disk_answers : Prop :=
  rd Virtio.MAGIC_VALUE = 0x74726976 ∧ rd Virtio.VERSION = 2 ∧ rd Virtio.DEVICE_ID = 2 ∧ rd Virtio.VENDOR_ID = 0x554d4551 ∧
  Z.land (rd Virtio.STATUS) 8 ≠ 0 ∧ rd Virtio.QUEUE_READY = 0 ∧ Virtio.NUM ≤ rd Virtio.QUEUE_NUM_MAX.

(** Room: the text ends below the top of RAM, 181 pages are free, and the object from
    which userinit copies lies in the kernel image. *)
Definition enough_memory : Prop :=
  etext < PHYSTOP ∧ (181 ≤ length all_pages)%nat ∧ 0 ≤ kobj ∧ kobj + Z.of_nat (length initcode) ≤ kend.

(** What hart 0 has made: the stacks [st], the pages [vp] of the disk's rings, the
    nodes [nd] of the kernel's table and [ndi] of the first process [np], its trap frame
    [tf] and code page [pg], and the free pages [fl]. *)
Record booted (s0 s : sys) (st vp : list Z) (nd ndi : gmap (list Z) Z) (np tf pg : Z) (fl : list Z) : Prop := {
  bt_kernel : length st = 64%nat ∧ as_rep (kk (kn s)) (kernel_pagetable s) nd fl (kernel_map st);
  bt_init : initproc (kn s) = Some np ∧ ProcInv.in_table np ∧ state (procs (kn s) np) = RUNNABLE ∧ pid (procs (kn s) np) = 1 ∧
    kstack (procs (kn s) np) = KSTACK np ∧ context (procs (kn s) np) = first_context (procs (kn s) np) ∧ cwd (procs (kn s) np) = Some 0;
  bt_mem : sz (procs (kn s) np) = PGSIZE ∧ trapframe (procs (kn s) np) = tf ∧
    user_rep (kk (kn s)) (pagetable (procs (kn s) np)) ndi fl [(pg, first_flags)] (proc_hi tf);
  bt_code : page_bytes (kk (kn s)) pg = initcode ++ replicate (Z.to_nat PGSIZE - length initcode) 0 ∧
    ld64 (kmem (kk (kn s))) (tf + TF_epc) = 0 ∧ ld64 (kmem (kk (kn s))) (tf + TF_sp) = PGSIZE;
  bt_others : ∀ q, ProcInv.in_table q → q ≠ np → state (procs (kn s) q) = UNUSED ∧ kstack (procs (kn s) q) = KSTACK q ∧ clean (procs (kn s) q);
  bt_pages : tf :: pg :: vp ++ st ++ pages nd ++ pages ndi ++ fl ≡ₚ all_pages;
  bt_cache : Bio.rep ROOTDEV (cache s) (Bio.boot_view (cache s0));
  bt_root : Fs.dev (Fs.itable (kfs (kn s)) 0) = ROOTDEV ∧ Fs.inum (Fs.itable (kfs (kn s)) 0) = Fs.ROOTINO ∧
    (∀ i, Fs.ref (Fs.itable (kfs (kn s)) i) = if i =? 0 then 1 else 0) ∧
    ∀ i, 0 ≤ i < NINODE → Fs.lock (Fs.itable (kfs (kn s)) i) = Sleeplock.mk_sleeplock 0 0;
  bt_disk : ∃ d a u w, vp = [d; a; u] ∧ Virtio.virtio_disk_init rd (Some d, Some a, Some u) (vd s0) = Ret (w, vd s) ∧
    ∀ v, v ∈ vp → page_bytes (kk (kn s)) v = replicate (Z.to_nat PGSIZE) 0;
  bt_locks : kheld (kn s) = [] ∧ cpu_at 0 (kcpu (kn s)) ∧ Fs.ilk (kfs (kn s)) = false;
  bt_console : devsw s Tty.CONSOLE = true }.

Definition ready (s0 s : sys) : Prop := ∃ st vp nd ndi np tf pg fl, booted s0 s st vp nd ndi np tf pg fl.

(** ** Steps on one part of the state *)

Lemma wp_onkern {A} (m : M (@kern Bio.bst) A) h s (Q : A → hart * sys → Prop) : wp m (λ a k, Q a (h, set_kn k s)) (kn s) → wp (onkern m) Q (h, s).
Proof. unfold wp, onkern. cbn [fst snd]. by destruct (m (kn s)) as [[a k]| |]. Qed.

Lemma wp_onh f h s (Q : unit → hart * sys → Prop) : Q tt (f h, s) → wp (onh f) Q (h, s).
Proof. done. Qed.

Lemma wp_ons f h s (Q : unit → hart * sys → Prop) : Q tt (h, f s) → wp (ons f) Q (h, s).
Proof. done. Qed.

(** ** The init routines *)

Lemma procinit_ok (k : @kern Bio.bst) : wp procinit (λ _ k', ∃ pr, k' = mk_kern (kk k) (kfs k) (ftable k) (pipes k) pr (nextpid k) (initproc k) (ticks k) (kcpu k) [] (me k) ∧
  ∀ p, pr p = if (0 <=? p) && (p <? NPROC) then init_one p (procs k p) else procs k p) k.
Proof.
  unfold procinit. apply wp_bind, wp_modify.
  eapply wp_mono; [apply (wp_for_range (λ j k', ∃ pr, k' = mk_kern (kk k) (kfs k) (ftable k) (pipes k) pr (nextpid k) (initproc k) (ticks k) (kcpu k) [] (me k) ∧
    ∀ p, pr p = if (0 <=? p) && (p <? j) then init_one p (procs k p) else procs k p))|].
  - exists (procs k). split; [done|]. intros p. destruct (0 <=? p) eqn:E1, (p <? 0) eqn:E2; bsimpl; try done. lia.
  - intros j k1 Hj (pr & -> & Hpr). apply wp_modify. eexists. split; [reflexivity|]. intros p. cbn [procs].
    destruct (decide (p = j)) as [->|Hne].
    + rewrite fn_lookup_insert, Hpr. rewrite (proj2 (Z.ltb_ge j j)), andb_false_r by lia. rewrite (proj2 (Z.leb_le 0 j)), (proj2 (Z.ltb_lt j (j + 1))) by lia. done.
    + rewrite fn_lookup_insert_ne by done. rewrite Hpr. replace (p <? j + 1) with (p <? j); [done|]. destruct (Z.ltb_spec p j), (Z.ltb_spec p (j + 1)); lia || done.
  - intros [] k1 Hk1. exact Hk1.
Qed.

Lemma iinit_ok (f : @Fs.fsst (@Log.logst Bio.bst)) : wp Fs.iinit (λ _ f', ∃ tb, f' = Fs.mk_fsst (Fs.jr f) (Fs.sb f) tb false (Fs.mypid f) ∧
  ∀ i, tb i = if (0 <=? i) && (i <? NINODE) then Fs.set_ilock (Sleeplock.mk_sleeplock 0 0) (Fs.itable f i) else Fs.itable f i) f.
Proof.
  unfold Fs.iinit. apply wp_bind, wp_modify.
  eapply wp_mono; [apply (wp_for_range (λ j f', ∃ tb, f' = Fs.mk_fsst (Fs.jr f) (Fs.sb f) tb false (Fs.mypid f) ∧
    ∀ i, tb i = if (0 <=? i) && (i <? j) then Fs.set_ilock (Sleeplock.mk_sleeplock 0 0) (Fs.itable f i) else Fs.itable f i))|].
  - exists (Fs.itable f). split; [done|]. intros p. destruct (0 <=? p) eqn:E1, (p <? 0) eqn:E2; bsimpl; try done. lia.
  - intros j f1 Hj (tb & -> & Htb). apply wp_modify. eexists. split; [reflexivity|]. intros p. cbn [Fs.itable].
    destruct (decide (p = j)) as [->|Hne].
    + rewrite fn_lookup_insert, Htb. rewrite (proj2 (Z.ltb_ge j j)), andb_false_r by lia. rewrite (proj2 (Z.leb_le 0 j)), (proj2 (Z.ltb_lt j (j + 1))) by lia. done.
    + rewrite fn_lookup_insert_ne by done. rewrite Htb. replace (p <? j + 1) with (p <? j); [done|]. destruct (Z.ltb_spec p j), (Z.ltb_spec p (j + 1)); lia || done.
  - intros [] k1 Hk1. exact Hk1.
Qed.

Lemma virtio_init_ok d a u v : disk_answers → ∃ w v', Virtio.virtio_disk_init rd (Some d, Some a, Some u) v = Ret (w, v').
Proof.
  intros (E1 & E2 & E3 & E4 & E5 & E6 & E7). unfold Virtio.virtio_disk_init, Virtio.init_regs. rewrite E1, E2, E3, E4, E6. cbn [Z.eqb negb orb].
  change (Virtio.config_bit Virtio.S_FEATURES_OK) with 8. rewrite (proj2 (Z.eqb_neq _ _) E5). unfold Virtio.NUM in *. 
  rewrite (proj2 (Z.eqb_neq (rd Virtio.QUEUE_NUM_MAX) 0)), (proj2 (Z.ltb_ge (rd Virtio.QUEUE_NUM_MAX) 8)) by lia. simpl. by eexists _, _.
Qed.

(** Clearing a page that is neither free nor of the table. *)
Lemma clear_page k root nd fl A p : as_rep k root nd fl A → page_ok p → p ∉ fl ++ pages nd →
  as_rep (set_mem (CString.memset p 0 PGSIZE) k) root nd fl A ∧ page_bytes (set_mem (CString.memset p 0 PGSIZE) k) p = replicate (Z.to_nat PGSIZE) 0 ∧
  ∀ q, page_ok q → q ≠ p → page_bytes (set_mem (CString.memset p 0 PGSIZE) k) q = page_bytes k q.
Proof.
  intros Hrep Hp Hn. pose proof (same_off_memset p 0 (kmem k)) as Hoff. pose proof (Forall_singleton page_ok p) as [_ Hps]. specialize (Hps Hp).
  split_and!; [|apply page_bytes_memset|].
  - apply as_rep_other; [done|]. intros q b Hq Hb. refine (keeps_off [p] _ _ Hps Hoff q b _ _ Hb); [|intros ->%list_elem_of_singleton; by apply Hn].
    destruct Hrep as [Hok _]. apply vm_pages_ok in Hok. rewrite Forall_forall in Hok. by apply Hok.
  - intros q Hq Hne. refine (page_bytes_same_off k (set_mem _ k) [p] q _ Hq Hps _); [unfold set_mem; cbn [kmem]; exact Hoff|by intros ?%list_elem_of_singleton].
Qed.

(** The three pages of the rings, taken and cleared. *)
Lemma rings_ok k root nd fl A h s (Q : unit → hart * sys → Prop) : kk (kn s) = k → as_rep k root nd fl A → (3 ≤ length fl)%nat → disk_answers →
  (∀ d a u fl' k' w v', fl = d :: a :: u :: fl' → as_rep k' root nd fl' A → Virtio.virtio_disk_init rd (Some d, Some a, Some u) (vd s) = Ret (w, v') →
    (∀ v, v ∈ [d; a; u] → page_bytes k' v = replicate (Z.to_nat PGSIZE) 0) →
    Q tt (h, set_vd v' (add_io (map (λ x, (VIRTIO0 + Virtio.mmio_off x.1, x.2)) w) (set_kn (set_kk k' (kn s)) s)))) →
  wp (virtio_disk_init rd) Q (h, s).
Proof.
  intros Ek Hrep Hl Hd HQ. unfold virtio_disk_init. destruct fl as [|d [|a [|u fl]]]; [simpl in Hl; lia..|]. subst k.
  apply wp_bind, wp_onkern, wp_onk. eapply wp_mono; [by apply as_rep_kalloc|]. intros r k1 (-> & Hr1 & Hpd & Hnd & _).
  apply wp_bind, wp_onkern, wp_onk. cbn [kk kn set_kn set_kk]. eapply wp_mono; [by apply as_rep_kalloc|]. intros r k2 (-> & Hr2 & Hpa & Hna & _).
  apply wp_bind, wp_onkern, wp_onk. cbn [kk kn set_kn set_kk]. eapply wp_mono; [by apply as_rep_kalloc|]. intros r k3 (-> & Hr3 & Hpu & Hnu & _).
  apply wp_bind, wp_gets. cbn [snd vd set_kn]. pose proof (page_bounds _ Hpd). pose proof (page_bounds _ Hpa). pose proof (page_bounds _ Hpu).
  unfold page. rewrite (proj2 (Z.eqb_neq d 0)), (proj2 (Z.eqb_neq a 0)), (proj2 (Z.eqb_neq u 0)) by lia.
  destruct (virtio_init_ok d a u (vd s) Hd) as (w & v' & E). rewrite E.
  apply wp_bind, wp_onkern, wp_onk, wp_modify, wp_bind, wp_onkern, wp_onk, wp_modify, wp_bind, wp_onkern, wp_onk, wp_modify, wp_bind, wp_ons, wp_ons.
  cbn [kk kn set_kn set_kk]. change ((a :: u :: fl) ++ pages nd) with (a :: u :: (fl ++ pages nd)) in Hnd. change ((u :: fl) ++ pages nd) with (u :: (fl ++ pages nd)) in Hna.
  apply not_elem_of_cons in Hnd as [Hda [Hdu Hnd]%not_elem_of_cons]. apply not_elem_of_cons in Hna as [Hau Hna].
  destruct (clear_page _ _ _ _ _ d Hr3 Hpd Hnd) as (H1' & Hz1 & _). destruct (clear_page _ _ _ _ _ a H1' Hpa Hna) as (H2' & Hz2 & Hk2). destruct (clear_page _ _ _ _ _ u H2' Hpu Hnu) as (H3' & Hz3 & Hk3).
  remember (CString.memset d 0 PGSIZE) as md eqn:Emd. remember (CString.memset a 0 PGSIZE) as ma eqn:Ema. remember (CString.memset u 0 PGSIZE) as mu eqn:Emu. clear Emd Ema Emu.
  apply (HQ d a u fl (set_mem mu (set_mem ma (set_mem md k3))) w v' eq_refl H3' E). intros v Hv.
  apply elem_of_cons in Hv as [->|Hv]; [rewrite Hk3; [rewrite Hk2; [exact Hz1|exact Hpd|exact Hda]|exact Hpd|exact Hdu]|]. apply elem_of_cons in Hv as [->|Hv]; [rewrite Hk3; [exact Hz2|exact Hpa|exact Hau]|]. apply list_elem_of_singleton in Hv as ->. exact Hz3.
Qed.

Lemma wp_run_cons m l h s (Q : unit → hart * sys → Prop) : wp m (λ _ x, wp (run_list l) Q x) (h, s) → wp (run_list (m :: l)) Q (h, s).
Proof. intros Hw. apply wp_bind. eapply wp_mono; [exact Hw|]. by intros [] x. Qed.

(** The hart after its part of main. *)
Definition hart_up (h0 h : hart) (s : sys) : Prop :=
  h = w_csr stvec kernelvec_addr (w_csr satp (Trap.MAKE_SATP (kernel_pagetable s)) h0) ∧
  (PLIC_SENABLE (s32 (tp h0)), 0x402) ∈ io s ∧ (PLIC_SPRIORITY (s32 (tp h0)), 0) ∈ io s.

Lemma printf_str l h s (Q : unit → hart * sys → Prop) args r : Printf.kprintf l args = Some r → Q tt (h, add_out r s) → wp (printf l args) Q (h, s).
Proof. intros E HQ. unfold printf. rewrite E. exact HQ. Qed.

(** The state before the disk and the first process. *)
Record tables_made (s0 s : sys) (st : list Z) (nd : gmap (list Z) Z) (fl : list Z) : Prop := {
  tm_kernel : length st = 64%nat ∧ as_rep (kk (kn s)) (kernel_pagetable s) nd fl (kernel_map st);
  tm_pages : st ++ fl ++ pages nd ≡ₚ all_pages;
  tm_room : (15 ≤ length fl)%nat;
  tm_procs : ∀ p, clean (procs (kn s) p) ∧ (ProcInv.in_table p → state (procs (kn s) p) = UNUSED ∧ kstack (procs (kn s) p) = KSTACK p);
  tm_locks : kheld (kn s) = [] ∧ cpu_at 0 (kcpu (kn s)) ∧ nextpid (kn s) = 1 ∧ Fs.ilk (kfs (kn s)) = false;
  tm_inodes : ∀ i, Fs.ref (Fs.itable (kfs (kn s)) i) = 0 ∧ (0 ≤ i < NINODE → Fs.lock (Fs.itable (kfs (kn s)) i) = Sleeplock.mk_sleeplock 0 0);
  tm_cache : Bio.rep ROOTDEV (cache s) (Bio.boot_view (cache s0));
  tm_rest : vd s = vd s0 ∧ devsw s Tty.CONSOLE = true }.

Lemma pages_split {A} (x y d a u : A) (st pn pi fl : list A) :
  x :: y :: [d; a; u] ++ st ++ pn ++ pi ++ fl ≡ₚ st ++ (d :: a :: u :: x :: y :: fl ++ pi) ++ pn.
Proof.
  change (x :: y :: [d; a; u] ++ st ++ pn ++ pi ++ fl) with ([x; y] ++ [d; a; u] ++ st ++ pn ++ pi ++ fl).
  change (d :: a :: u :: x :: y :: fl ++ pi) with ([d; a; u] ++ [x; y] ++ fl ++ pi).
  rewrite (Permutation_app_swap_app [x; y]), (Permutation_app_swap_app [x; y] st), (Permutation_app_swap_app [d; a; u] st), <- !app_assoc.
  do 3 apply Permutation_app_head. rewrite (Permutation_app_comm pn), <- !app_assoc. rewrite (app_assoc pi fl), (app_assoc fl pi). apply Permutation_app_tail, Permutation_app_comm.
Qed.

Lemma main0_tail h h0 s0 s st nd fl : tables_made s0 s st nd fl → disk_answers → enough_memory → hart_up h0 h s →
  wp (run_list [virtio_disk_init rd; onkern userinit; ons (set_started true)]) (λ _ x, ready s0 x.2 ∧ started x.2 = true ∧ hart_up h0 x.1 x.2) (h, s).
Proof.
  intros Ht Hd (Het & Hroom & Hk0 & Hk1) Hup. destruct (tm_kernel _ _ _ _ _ Ht) as [Hst Hrep], (tm_locks _ _ _ _ _ Ht) as (Hh & Hc & Hn1 & Hilk), (tm_rest _ _ _ _ _ Ht) as [Evd Hdv].
  pose proof (tm_room _ _ _ _ _ Ht) as Hlen. pose proof (tm_procs _ _ _ _ _ Ht) as Hpr. pose proof (tm_inodes _ _ _ _ _ Ht) as Hin.
  apply wp_run_cons. eapply rings_ok; [reflexivity|exact Hrep|lia|exact Hd|]. intros d a u fl' k' w v' -> Hrep' Ev Hz. simpl in Hlen.
  apply wp_run_cons, wp_onkern. cbn [kn set_vd add_io set_kn].
  assert (Hvp : NoDup (d :: a :: u :: fl' ++ pages nd)) by (destruct Hrep as [(_ & _ & Hn) _]; exact Hn).
  eapply wp_mono; [apply (userinit_ok fl'); cbn [kheld kcpu kk procs kfs set_kk]; [done|done|apply Hrep'|lia| | |done|apply Hin|done|done]|].
  { intros p Hp _. apply Hpr. }
  { intros Hfull. apply (Hfull 0); [vm_compute; split; [discriminate|reflexivity]|]. apply (Hpr 0). vm_compute. split; [discriminate|reflexivity]. }
  intros [] k5 (np & tf & pg & ndi & fl5 & Hfp). apply wp_run_cons, wp_ons, wp_ret. cbn [fst snd]. split; [|split; [done|]].
  2:{ destruct Hup as (Eh & Hi1 & Hi2). cbn [io set_started set_kn set_vd add_io]. split_and!; [exact Eh|apply elem_of_app; by left|apply elem_of_app; by left]. }
  exists st, [d; a; u], nd, ndi, np, tf, pg, fl5. destruct Hfp as [(Hs1 & Hs2 & Hs3) (Hs4 & Hs5 & Hs6 & Hs7) [Hcx Hks] _ _ Hoth [Htf Hu] Hcode Hregs Hpg Hkp Hroot [Hl1 Hl2] _]. cbn [kheld kcpu kk procs kfs set_kk nextpid] in *.
  pose proof Hrep' as [(_ & _ & Hnd')%id _]. apply NoDup_app in Hnd' as (_ & Hdis & _).
  split; cbn [kn set_started set_kn set_vd add_io kernel_pagetable vd devsw].
  - split; [done|]. eapply as_rep_keeps; [exact Hrep'|apply Hu| |exact Hkp|by intros q Hq Hf; apply (Hdis q)]. intros q Hq. rewrite Hpg. do 2 right. rewrite elem_of_app. by left.
  - split_and!; [exact Hs3|exact Hs1|exact Hs4|rewrite Hs5; exact Hn1|rewrite Hks; by apply Hpr|exact Hcx|exact Hs7].
  - split_and!; done.
  - split; done.
  - intros q Hq Hne. rewrite Hoth by done. destruct (Hpr q) as [Hcl Hq']. destruct (Hq' Hq) as [? ?]. split_and!; [assumption|assumption|exact Hcl].
  - rewrite <- (tm_pages _ _ _ _ _ Ht), Hpg. apply pages_split.
  - rewrite Hroot. apply (tm_cache _ _ _ _ _ Ht).
  - rewrite Hroot. cbn [Fs.itable Fs.jr]. split_and!; [by rewrite fn_lookup_insert|by rewrite fn_lookup_insert| |].
    + intros i. destruct (Z.eqb_spec i 0) as [->|Hne]; [by rewrite fn_lookup_insert|]. rewrite fn_lookup_insert_ne by done. apply Hin.
    + intros i Hi. destruct (decide (i = 0)) as [->|Hne]; [rewrite fn_lookup_insert; by apply Hin|]. rewrite fn_lookup_insert_ne by done. by apply Hin.
  - exists d, a, u, w. split; [done|]. rewrite <- Evd. split; [exact Ev|]. intros v Hv. rewrite <- (Hz v Hv). apply page_bytes_ext. intros b Hb.
    apply (Hkp v b); [| |exact Hb].
    + destruct Hrep as [Hok _]. apply vm_pages_ok in Hok. rewrite Forall_forall in Hok. apply Hok. rewrite elem_of_app. left. change (d :: a :: u :: fl') with ([d; a; u] ++ fl'). rewrite elem_of_app. by left.
    + intros Hf. change (d :: a :: u :: fl' ++ pages nd) with ([d; a; u] ++ fl' ++ pages nd) in Hvp. apply NoDup_app in Hvp as (_ & Hdv2 & _). apply (Hdv2 v Hv). rewrite elem_of_app. by left.
  - rewrite Hroot. split; [exact Hl1|split; [exact Hl2|reflexivity]].
  - exact Hdv.
Qed.

Lemma main0_ok h s0 : powered_on s0 → disk_answers → enough_memory →
  wp (run_list Bmain0) (λ _ x, ready s0 x.2 ∧ started x.2 = true ∧ hart_up h x.1 x.2) (h, s0).
Proof.
  intros Hon Hd (Het & Hroom & Hk0 & Hk1). unfold main0.
  apply wp_run_cons, wp_bind, wp_gets. cbn [Tty.consoleinit]. apply wp_bind, wp_ons, wp_ons. apply wp_run_cons, wp_ret.
  do 3 (apply wp_run_cons; eapply printf_str; [reflexivity|]). apply wp_run_cons. eapply printf_str; [reflexivity|].
  set (s1 := add_out _ _). assert (E1 : kn s1 = kn s0) by reflexivity. assert (E1v : vd s1 = vd s0) by reflexivity.
  assert (E1d : devsw s1 Tty.CONSOLE = true) by (cbn [devsw s1 add_out set_devsw]; by rewrite fn_lookup_insert). clearbody s1.
  (* memory and the kernel's table *)
  apply wp_run_cons. apply wp_onkern, wp_onk. eapply wp_mono; [apply kinit_spec; cbn [kn set_kn kk]; rewrite ?E1; apply Hon|]. intros [] k1 [Hf1 _].
  apply wp_run_cons. apply wp_bind, wp_onkern, wp_onk. cbn [kn set_kn kk set_kk]. eapply wp_mono; [apply (kvmmake_spec Het _ _ Hf1); rewrite length_rev; lia|].
  intros kpt k2 (st & nd & fl2 & Hst & Hrep2 & Hp2 & Hl2 & _). apply wp_ons. apply wp_run_cons, wp_bind, wp_gets, wp_onh. cbn [snd kernel_pagetable set_kpt].
  (* the tables *)
  apply wp_run_cons, wp_onkern. eapply wp_mono; [apply procinit_ok|]. cbn [kn set_kn set_kpt kk kfs ftable pipes procs nextpid initproc ticks kcpu me set_kk]. intros [] k3 (pr & -> & Hpr).
  apply wp_run_cons, wp_ret. apply wp_run_cons, wp_onh. apply wp_run_cons, wp_bind, wp_ons, wp_ons. apply wp_run_cons, wp_bind, wp_gets, wp_bind, wp_ons, wp_ons.
  apply wp_run_cons, wp_onkern, wp_onfs, FsCrash.wp_onlog, LogCrash.wp_onc. eapply wp_mono; [apply (Bio.binit_rep ROOTDEV); [done|]; cbn; rewrite E1; apply Hon|]. intros [] c1 Hc1.
  apply wp_run_cons, wp_onkern, wp_onfs. eapply wp_mono; [apply iinit_ok|]. intros [] f1 (tb & -> & Htb).
  apply wp_run_cons, wp_bind. eapply printf_str; [reflexivity|]. apply wp_onkern, wp_modify.
  set (s2 := set_kn _ _). assert (Hup : hart_up h (w_csr stvec kernelvec_addr (w_csr satp (Trap.MAKE_SATP kpt) h)) s2).
  { split; [reflexivity|]. cbn. rewrite !elem_of_app, !list_elem_of_singleton. tauto. }
  assert (Ht : tables_made s0 s2 st nd fl2).
  { split; cbn.
    - split; [exact Hst|exact Hrep2].
    - rewrite Hp2. symmetry. apply Permutation_rev.
    - rewrite length_rev in Hl2. lia.
    - intros p. rewrite Hpr, E1. split; [destruct (_ && _); apply Hon|]. intros [Hp1 Hp3]. rewrite (proj2 (Z.leb_le 0 p)), (proj2 (Z.ltb_lt p NPROC)) by done. done.
    - rewrite E1. split_and!; [done|apply Hon|apply Hon|done].
    - intros i. rewrite Htb. cbn. rewrite E1. split; [destruct (_ && _); apply (po_inodes _ Hon)|]. intros [Hi1 Hi2]. rewrite (proj2 (Z.leb_le 0 i)), (proj2 (Z.ltb_lt i NINODE)) by done. done.
    - rewrite <- E1. exact Hc1.
    - done. }
  clearbody s2. by eapply main0_tail.
Qed.

(** ** From reset to main *)

(** A hart in main: in supervisor mode, on its own stack, with paging off and all traps
    and interrupts delegated. *)
Record in_main (id : Z) (h : hart) : Prop := {
  im_mode : priv h = SupervisorMode ∧ pc h = main_addr;
  im_stack : sp h = stack0 + 4096 * (id + 1);
  im_tp : tp h = id;
  im_traps : r_csr satp h = 0 ∧ r_csr medeleg h = 0xffff ∧ r_csr mideleg h = 0xffff;
  im_sie : ∀ b, b ∈ [1; 5; 9] → Z.testbit (r_csr sie h) b = true;
  im_pmp : r_csr pmpaddr0 h = 0x3fffffffffffff ∧ r_csr pmpcfg0 h = 0xf }.

Lemma mpp_supervisor x : mpp (Z.lor (Z.ldiff x MSTATUS_MPP_MASK) MSTATUS_MPP_S) = SupervisorMode.
Proof.
  unfold mpp. assert (E : Z.land (Z.shiftr (Z.lor (Z.ldiff x MSTATUS_MPP_MASK) MSTATUS_MPP_S) 11) 3 = 1); [|by rewrite E].
  apply Z.bits_inj'. intros n Hn. rewrite Z.land_spec, Z.shiftr_spec, Z.lor_spec, Z.ldiff_spec by done.
  destruct (decide (n = 0)) as [->|Hn0]; [simpl; by rewrite orb_true_r|]. destruct (decide (n = 1)) as [->|Hn1]; [simpl; by rewrite andb_false_r|].
  assert (Hl : Z.testbit 3 n = false ∧ Z.testbit 1 n = false) by (split; apply Z.bits_above_log2; simpl; lia). destruct Hl as [-> ->]. by rewrite andb_false_r.
Qed.

Lemma start_entry id h : 0 ≤ id < NCPU → r_csr mhartid h = id → 0 ≤ stack0 → stack0 + 4096 * NCPU < 2 ^ 64 → in_main id (start main_addr (entry stack0 h)).
Proof.
  intros Hid Eh Hs0 Hs1. unfold NCPU in *.
  assert (Ht : tp (start main_addr (entry stack0 h)) = u64 (s32 (r_csr mhartid h))) by reflexivity.
  assert (Hs : sp (start main_addr (entry stack0 h)) = u64 (stack0 + u64 (1024 * 4 * u64 (r_csr mhartid h + 1)))) by reflexivity.
  assert (Hm : priv (start main_addr (entry stack0 h)) = mpp (Z.lor (Z.ldiff (r_csr mstatus h) MSTATUS_MPP_MASK) MSTATUS_MPP_S)) by reflexivity.
  assert (He : r_csr sie (start main_addr (entry stack0 h)) = Z.lor (Z.lor (Z.lor (r_csr sie h) (Z.shiftl 1 9)) (Z.shiftl 1 5)) (Z.shiftl 1 1)) by reflexivity.
  rewrite Eh in Ht, Hs. split.
  - split; [by rewrite Hm, mpp_supervisor|reflexivity].
  - rewrite Hs, (u64_small (id + 1)), (u64_small (1024 * 4 * (id + 1))), u64_small by lia. lia.
  - rewrite Ht, s32_small, u64_small by lia. done.
  - done.
  - intros b Hb. rewrite He, !Z.lor_spec. apply elem_of_cons in Hb as [->|Hb]; [by rewrite orb_true_r|]. apply elem_of_cons in Hb as [->|Hb]; [by rewrite !orb_true_r|].
    apply list_elem_of_singleton in Hb as ->. by rewrite !orb_true_r.
  - done.
Qed.

(** ** All harts *)

(** Steps that leave [started] alone. *)
Definition quiet {A} (m : B A) : Prop := ∀ x a x', m x = Ret (a, x') → started x'.2 = started x.2.

Lemma quiet_bind {A C} (m : B A) (f : A → B C) : quiet m → (∀ a, quiet (f a)) → quiet (m ≫= f).
Proof. intros Hm Hf x c x' E. unfold mbind, M_bind in E. destruct (m x) as [[a x1]| |] eqn:E1; [|done|done]. rewrite (Hf _ _ _ _ E). by eapply Hm. Qed.
Lemma quiet_ret {A} (a : A) : quiet (mret a).
Proof. by intros x b x' [= _ <-]. Qed.
Lemma quiet_gets {A} (f : hart * sys → A) : quiet (gets f).
Proof. by intros x b x' [= _ <-]. Qed.
Lemma quiet_onh f : quiet (onh f).
Proof. intros x b x' E. unfold onh, modify in E. by injection E as _ <-. Qed.
Lemma quiet_ons f : (∀ s, started (f s) = started s) → quiet (ons f).
Proof. intros Hf x b x' E. unfold ons, modify in E. injection E as _ <-. apply Hf. Qed.
Lemma quiet_onkern {A} (m : M (@kern Bio.bst) A) : quiet (onkern m).
Proof. intros x a x' E. unfold onkern in E. destruct (m (kn x.2)) as [[b k]| |]; [|done|done]. by injection E as _ <-. Qed.
Lemma quiet_printf l args : quiet (printf l args).
Proof. unfold printf. destruct (Printf.kprintf l args); [by apply quiet_ons|by intros x]. Qed.

Lemma main0_quiet : Forall quiet (removelast Bmain0).
Proof.
  unfold main0. cbn [removelast]. unfold onbuf.
  repeat (apply Forall_cons; split); try apply Forall_nil_2; try apply quiet_printf; try apply quiet_onkern; try apply quiet_ret; try apply quiet_onh.
  - apply quiet_bind; [apply quiet_gets|]. intros d. cbn [Tty.consoleinit]. apply quiet_bind; [by apply quiet_ons|]. intros _. by apply quiet_ons.
  - apply quiet_bind; [apply quiet_onkern|]. intros pt. by apply quiet_ons.
  - apply quiet_bind; [apply quiet_gets|]. intros pt. apply quiet_onh.
  - apply quiet_bind; [by apply quiet_ons|]. intros _. by apply quiet_ons.
  - apply quiet_bind; [apply quiet_gets|]. intros pt. apply quiet_bind; [by apply quiet_ons|]. intros _. by apply quiet_ons.
  - apply quiet_bind; [apply quiet_printf|]. intros _. apply quiet_onkern.
  - unfold virtio_disk_init. do 3 (apply quiet_bind; [apply quiet_onkern|]; intros ?). apply quiet_bind; [apply quiet_gets|]. intros v.
    destruct (Virtio.virtio_disk_init _ _ v) as [[w v']| |]; [|by intros x|by intros x]. do 3 (apply quiet_bind; [apply quiet_onkern|]; intros _).
    apply quiet_bind; [by apply quiet_ons|]. intros _. by apply quiet_ons.
Qed.

(** What the other harts change of the shared state: device registers and output. *)
Definition extends (s s' : sys) : Prop :=
  kn s' = kn s ∧ kernel_pagetable s' = kernel_pagetable s ∧ vd s' = vd s ∧ devsw s' = devsw s ∧ started s' = started s ∧ io s ⊆ io s'.

Lemma ready_extends s0 s s' : extends s s' → ready s0 s → ready s0 s'.
Proof.
  intros (E1 & E2 & E3 & E4 & _) (st & vp & nd & ndi & np & tf & pg & fl & []). exists st, vp, nd, ndi, np, tf, pg, fl. split; rewrite ?E1, ?E2, ?E3, ?E4; assumption.
Qed.

Lemma up_extends h0 h s s' : extends s s' → hart_up h0 h s → hart_up h0 h s'.
Proof. intros (_ & E & _ & _ & _ & Hio) (Eh & H1' & H2'). split_and!; [by rewrite E|by apply Hio|by apply Hio]. Qed.

(** How far one of the other harts is. *)
Definition progress (h0 : hart) (l : list (B unit)) (h : hart) (s : sys) : Prop :=
  l = main_others kernelvec_addr ∧ h = h0 ∨
  l = drop 1 (main_others kernelvec_addr) ∧ h = h0 ∨
  l = drop 2 (main_others kernelvec_addr) ∧ h = w_csr satp (Trap.MAKE_SATP (kernel_pagetable s)) h0 ∨
  l = drop 3 (main_others kernelvec_addr) ∧ h = w_csr stvec kernelvec_addr (w_csr satp (Trap.MAKE_SATP (kernel_pagetable s)) h0) ∨
  l = [] ∧ hart_up h0 h s.

Lemma progress_extends h0 l h s s' : extends s s' → progress h0 l h s → progress h0 l h s'.
Proof.
  intros He. pose proof He as (_ & E & _). unfold progress. rewrite E.
  intros [?|[?|[?|[?|[? ?]]]]]; [by left|by right; left|by right; right; left|by do 3 right; left|do 4 right; split; [done|by eapply up_extends]].
Qed.

Lemma hart_message id : 0 ≤ id < NCPU → is_Some (Printf.kprintf (text "hart %d starting" ++ [NL]) [Printf.AWord (u64 id)]).
Proof.
  intros Hid. unfold NCPU in Hid. assert (Hc : id ∈ [0; 1; 2; 3; 4; 5; 6; 7]) by (rewrite !elem_of_cons; lia).
  repeat (apply elem_of_cons in Hc as [->|Hc]; [by eexists|]). by apply elem_of_nil in Hc.
Qed.

(** A step of one of the other harts succeeds. *)
Lemma others_step id h0 m l h s : 0 ≤ id < NCPU → tp h0 = id → progress h0 (m :: l) h s →
  wp m (λ _ x, extends s x.2 ∧ progress h0 l x.1 x.2) (h, s).
Proof.
  intros Hid Htp Hp. assert (Ht : s32 id = id) by (apply s32_small; unfold NCPU in Hid; lia).
  assert (Hi : ∀ (x y : B unit) k k', x :: k = y :: k' → x = y ∧ k = k') by (intros x y k k' E; split; [exact (f_equal (hd x) E)|exact (f_equal tail E)]).
  destruct Hp as [[El ->]|[[El ->]|[[El ->]|[[El ->]|[El _]]]]]; [unfold main_others in El; cbn [drop] in El; apply Hi in El as [-> ->]..|discriminate El].
  - apply wp_bind, wp_gets. cbn [fst]. rewrite Htp, Ht. destruct (hart_message id Hid) as [r Er]. unfold printf. rewrite Er. apply wp_ons. cbn [fst snd].
    split; [by split_and!|]. right. by left.
  - apply wp_bind, wp_gets, wp_onh. cbn [fst snd]. split; [by split_and!|]. right. right. by left.
  - apply wp_onh. cbn [fst snd]. split; [by split_and!|]. do 3 right. by left.
  - apply wp_bind, wp_gets, wp_bind, wp_ons, wp_ons. cbn [fst snd]. split.
    + split_and!; try done. cbn [io add_io]. intros x Hx. rewrite !elem_of_app. auto.
    + do 4 right. split; [done|]. split; [done|]. cbn [io add_io]. change (tp (w_csr stvec _ _)) with (tp h0). rewrite !elem_of_app, !list_elem_of_singleton. tauto.
Qed.

(** ** The invariant *)

Notation Bstep := (step stack0 main_addr kernelvec_addr rd).

(** Hart 0: it has nothing done, works through main, or is finished. *)
Definition inv0 (s0 : sys) (p : place) (h : hart) (s : sys) : Prop :=
  match p with
  | Reset => s = s0 ∧ r_csr mhartid h = 0
  | Spinning => False
  | Doing [] | Scheduler => started s = true ∧ ready s0 s ∧ ∃ h0, in_main 0 h0 ∧ hart_up h0 h s
  | Doing l => started s = false ∧ (∃ pre, Bmain0 = pre ++ l) ∧
      ∃ h0, in_main 0 h0 ∧ wp (run_list l) (λ _ x, ready s0 x.2 ∧ started x.2 = true ∧ hart_up h0 x.1 x.2) (h, s)
  end.

(** Another hart. *)
Definition inv1 (id : Z) (p : place) (h : hart) (s : sys) : Prop :=
  match p with
  | Reset => 0 ≤ id < NCPU → r_csr mhartid h = id
  | Spinning => 0 ≤ id < NCPU ∧ in_main id h
  | Doing l => 0 ≤ id < NCPU ∧ started s = true ∧ ∃ h0, in_main id h0 ∧ progress h0 l h s
  | Scheduler => 0 ≤ id < NCPU ∧ started s = true ∧ ∃ h0, in_main id h0 ∧ hart_up h0 h s
  end.

Definition binv (s0 : sys) (m : machine) : Prop :=
  inv0 s0 (at_ m 0) (harts m 0) (shared m) ∧ ∀ id, id ≠ 0 → inv1 id (at_ m id) (harts m id) (shared m).

Lemma inv0_extends s0 p h s s' : started s0 = false → started s = true → extends s s' → inv0 s0 p h s → inv0 s0 p h s'.
Proof.
  intros H0' Hs He. pose proof He as (_ & _ & _ & _ & Es & _). assert (Hf : started s = true ∧ ready s0 s ∧ (∃ h0, in_main 0 h0 ∧ hart_up h0 h s) →
    started s' = true ∧ ready s0 s' ∧ ∃ h0, in_main 0 h0 ∧ hart_up h0 h s').
  { intros (_ & Hr & h0 & Hm & Hu). split_and!; [by rewrite Es|by eapply ready_extends|exists h0; split; [done|by eapply up_extends]]. }
  destruct p as [| |[|op l]|]; cbn [inv0]; [|done|exact Hf| |exact Hf].
  - intros [-> _]. congruence.
  - intros [E _]. congruence.
Qed.

Lemma inv1_extends id p h s s' : extends s s' → inv1 id p h s → inv1 id p h s'.
Proof.
  intros He. pose proof He as (_ & _ & _ & _ & Es & _). destruct p as [| |l|]; cbn [inv1]; [done|done| |].
  - intros (Hid & Hs & h0 & Hm & Hp). split; [exact Hid|]. split; [by rewrite Es|]. exists h0. split; [done|by eapply progress_extends].
  - intros (Hid & Hs & h0 & Hm & Hp). split; [exact Hid|]. split; [by rewrite Es|]. exists h0. split; [done|by eapply up_extends].
Qed.

Lemma inv1_waiting id p h s s' : started s = false → inv1 id p h s → inv1 id p h s'.
Proof. intros Hs. destruct p as [| |l|]; cbn [inv1]; [done|done|intros (_ & E & _); congruence|intros (_ & E & _); congruence]. Qed.

(** Hart 0 makes a step of main. *)
Lemma inv0_step s0 op l h s : inv0 s0 (Doing (op :: l)) h s → started s = false ∧ wp op (λ _ x, inv0 s0 (Doing l) x.1 x.2) (h, s).
Proof.
  intros (Hs & (pre & Epre) & h0 & Hm & Hw). split; [done|]. cbn [run_list] in Hw. unfold wp in Hw. unfold mbind, M_bind in Hw. unfold wp.
  destruct (op (h, s)) as [[[] [h' s']]| |] eqn:E; [|done|done]. cbn [fst snd]. destruct l as [|op' l].
  - destruct Hw as (Hr & Hs' & Hu). cbn [fst snd] in *. split_and!; [done|done|by exists h0].
  - split_and!.
    + assert (Hq : quiet op).
      { pose proof main0_quiet as Hq. rewrite Epre, removelast_app in Hq by done. apply Forall_app in Hq as [_ Hq]. cbn [removelast] in Hq. by apply Forall_cons in Hq as [Hq _]. }
      specialize (Hq _ _ _ E). cbn [snd] in Hq. by rewrite Hq.
    + exists (pre ++ [op]). by rewrite <- app_assoc.
    + exists h0. split; [done|]. exact Hw.
Qed.


Context (Hd : disk_answers) (Hmem : enough_memory) (Hst0 : 0 ≤ stack0) (Hst1 : stack0 + 4096 * NCPU < 2 ^ 64).

Lemma binv_step s0 m m' : powered_on s0 → binv s0 m → Bstep m m' → binv s0 m'.
Proof.
  intros Hon [Hz Ho] Hstep. destruct Hstep as [id Hid Hat|id Hat Hs|id op l x sh Hat Hop|id Hat].
  - destruct (decide (id = 0)) as [->|Hne].
    + rewrite Hat in Hz. destruct Hz as [Es Em]. pose proof (start_entry 0 (harts m 0) Hid Em Hst0 Hst1) as Hm.
      split; cbv zeta; cbn [at_ harts shared].
      * rewrite !fn_lookup_insert, (im_tp _ _ Hm). change (s32 0 =? 0) with true. cbv iota. rewrite Es. split; [apply Hon|]. split; [by exists []|].
        eexists. split; [exact Hm|]. by apply main0_ok.
      * intros i Hi. rewrite !fn_lookup_insert_ne by done. by apply Ho.
    + pose proof (Ho id Hne) as Hi. rewrite Hat in Hi. pose proof (start_entry id (harts m id) Hid (Hi Hid) Hst0 Hst1) as Hm.
      split; cbv zeta; cbn [at_ harts shared]; [by rewrite !fn_lookup_insert_ne|]. intros i Hni. destruct (decide (i = id)) as [->|Hne'].
      * rewrite !fn_lookup_insert, (im_tp _ _ Hm), s32_small by (unfold NCPU in Hid; lia). rewrite (proj2 (Z.eqb_neq id 0)) by done. done.
      * rewrite !fn_lookup_insert_ne by done. by apply Ho.
  - destruct (decide (id = 0)) as [->|Hne]; [by rewrite Hat in Hz|]. pose proof (Ho id Hne) as Hi. rewrite Hat in Hi. destruct Hi as [Hid Hm].
    split; cbn [at_ harts shared]; [by rewrite fn_lookup_insert_ne|]. intros i Hni. destruct (decide (i = id)) as [->|Hne'].
    + rewrite fn_lookup_insert. split; [done|]. split; [done|]. eexists. split; [exact Hm|]. by left.
    + rewrite fn_lookup_insert_ne by done. by apply Ho.
  - destruct (decide (id = 0)) as [->|Hne].
    + rewrite Hat in Hz. destruct (inv0_step _ _ _ _ _ Hz) as [Hs Hw]. unfold wp in Hw. rewrite Hop in Hw. cbn [fst snd] in Hw.
      split; cbn [at_ harts shared]; [by rewrite !fn_lookup_insert|]. intros i Hi. rewrite !fn_lookup_insert_ne by done. eapply inv1_waiting; [exact Hs|by apply Ho].
    + pose proof (Ho id Hne) as Hi. rewrite Hat in Hi. destruct Hi as (Hid & Hs & h0 & Hm & Hp).
      pose proof (others_step id h0 op l _ _ Hid (im_tp _ _ Hm) Hp) as Hw. unfold wp in Hw. rewrite Hop in Hw. cbn [fst snd] in Hw. destruct Hw as [He Hp'].
      split; cbn [at_ harts shared]; [rewrite !fn_lookup_insert_ne by done; eapply inv0_extends; [apply Hon|exact Hs|exact He|exact Hz]|].
      intros i Hni. destruct (decide (i = id)) as [->|Hne'].
      * rewrite !fn_lookup_insert. split; [done|]. split; [by rewrite (proj1 (proj2 (proj2 (proj2 (proj2 He)))))|]. by exists h0.
      * rewrite !fn_lookup_insert_ne by done. eapply inv1_extends; [exact He|by apply Ho].
  - destruct (decide (id = 0)) as [->|Hne].
    + rewrite Hat in Hz. split; cbn [at_ harts shared]; [by rewrite fn_lookup_insert|]. intros i Hi. rewrite fn_lookup_insert_ne by done. by apply Ho.
    + pose proof (Ho id Hne) as Hi. rewrite Hat in Hi. destruct Hi as (Hid & Hs & h0 & Hm & Hp).
      split; cbn [at_ harts shared]; [by rewrite fn_lookup_insert_ne|]. intros i Hni. destruct (decide (i = id)) as [->|Hne']; [|rewrite fn_lookup_insert_ne by done; by apply Ho].
      rewrite fn_lookup_insert. split; [done|]. split; [done|]. exists h0. split; [done|]. by destruct Hp as [[E _]|[[E _]|[[E _]|[[E _]|[_ Hu]]]]].
Qed.

(** ** How long it takes *)

Definition weight (p : place) : Z := match p with Reset => 23 | Spinning => 6 | Doing l => 1 + Z.of_nat (length l) | Scheduler => 0 end.
Definition steps_left (at' : Z → place) : Z :=
  weight (at' 0) + weight (at' 1) + weight (at' 2) + weight (at' 3) + weight (at' 4) + weight (at' 5) + weight (at' 6) + weight (at' 7).

Lemma weight_pos p : 0 ≤ weight p.
Proof. destruct p; simpl; lia. Qed.

Lemma steps_left_upd at' id p : 0 ≤ id < NCPU → weight p < weight (at' id) → steps_left (<[id := p]> at') < steps_left at'.
Proof.
  intros Hid Hw. unfold NCPU in Hid. unfold steps_left. assert (Hc : id = 0 ∨ id = 1 ∨ id = 2 ∨ id = 3 ∨ id = 4 ∨ id = 5 ∨ id = 6 ∨ id = 7) by lia.
  destruct Hc as [->|[->|[->|[->|[->|[->|[->| -> ]]]]]]]; rewrite fn_lookup_insert, !fn_lookup_insert_ne by done; lia.
Qed.

Lemma step_shortens s0 m m' : binv s0 m → Bstep m m' → steps_left (at_ m') < steps_left (at_ m).
Proof.
  intros [Hz Ho] Hstep. assert (Hid : ∀ id, at_ m id ≠ Reset → 0 ≤ id < NCPU).
  { intros id Hr. destruct (decide (id = 0)) as [->|Hne]; [by vm_compute|]. specialize (Ho id Hne). destruct (at_ m id); [done|apply Ho..]. }
  destruct Hstep as [id Hi Hat|id Hat Hs|id op l x sh Hat Hop|id Hat]; cbv zeta; cbn [at_]; apply steps_left_upd; try (apply Hid; by rewrite Hat); try done; rewrite Hat; cbn [weight].
  - destruct (_ =? _); cbn [weight]; [vm_compute; reflexivity|lia].
  - vm_compute. reflexivity.
  - simpl length. lia.
  - simpl. lia.
Qed.

(** Once the flag is set, the kernel is ready. *)
Lemma started_ready s0 m : powered_on s0 → binv s0 m → started (shared m) = true → ready s0 (shared m).
Proof.
  intros Hon [Hz _] Hs. pose proof (po_started _ Hon) as Hf. destruct (at_ m 0) as [| |[|op l]|]; cbn [inv0] in Hz; [|done|apply Hz| |apply Hz].
  - destruct Hz as [Ez _]. congruence.
  - destruct Hz as [Ez _]. congruence.
Qed.

(** A hart in the scheduler: supervisor mode, its own stack, the kernel's page table and
    trap vector, and its interrupts enabled. *)
Record running (id : Z) (h : hart) (s : sys) : Prop := {
  rn_mode : priv h = SupervisorMode;
  rn_stack : sp h = stack0 + 4096 * (id + 1);
  rn_tp : tp h = id;
  rn_paging : r_csr satp h = Trap.MAKE_SATP (kernel_pagetable s);
  rn_traps : r_csr stvec h = kernelvec_addr ∧ r_csr medeleg h = 0xffff ∧ r_csr mideleg h = 0xffff;
  rn_sie : ∀ b, b ∈ [1; 5; 9] → Z.testbit (r_csr sie h) b = true;
  rn_plic : (PLIC_SENABLE id, 0x402) ∈ io s ∧ (PLIC_SPRIORITY id, 0) ∈ io s }.

Lemma up_running id h0 h s : 0 ≤ id < NCPU → in_main id h0 → hart_up h0 h s → running id h s.
Proof.
  intros Hid [[Hmode _] Hsp Htp (_ & Hme & Hmi) Hsie _] (-> & H1' & H2'). rewrite Htp, s32_small in H1', H2' by (unfold NCPU in Hid; lia). split; try done; by split_and!.
Qed.

(** The machine at reset: each hart knows its number, and the kernel's data is [s0]. *)
Definition at_reset (s0 : sys) (m : machine) : Prop :=
  shared m = s0 ∧ ∀ id, at_ m id = Reset ∧ (0 ≤ id < NCPU → r_csr mhartid (harts m id) = id).

Lemma binv_reset s0 m : at_reset s0 m → binv s0 m.
Proof.
  intros [Es Hm]. split.
  - destruct (Hm 0) as [-> Hh]. split; [done|]. by apply Hh.
  - intros id Hne. destruct (Hm id) as [-> Hh]. exact Hh.
Qed.

Lemma binv_reachable s0 m m' : powered_on s0 → rtc Bstep m m' → binv s0 m → binv s0 m'.
Proof. intros Hon. induction 1 as [|m m1 m' Hs _ IH]; [done|]. intros Hb. apply IH. by eapply binv_step. Qed.

Lemma steps_bounded s0 n m m' : powered_on s0 → nsteps Bstep n m m' → binv s0 m → steps_left (at_ m') + Z.of_nat n ≤ steps_left (at_ m).
Proof.
  intros Hon. induction 1 as [m|n m m1 m' Hs _ IH]; intros Hb; [lia|]. pose proof (step_shortens _ _ _ Hb Hs). specialize (IH (binv_step _ _ _ Hon Hb Hs)). lia.
Qed.

(** In a reachable state a hart can go on, unless it waits for hart 0 or is done. *)
Lemma binv_goes_on s0 m id : binv s0 m → 0 ≤ id < NCPU → at_ m id = Scheduler ∨ at_ m id = Spinning ∧ started (shared m) = false ∨ ∃ m', Bstep m m'.
Proof.
  intros [Hz Ho] Hid. destruct (at_ m id) as [| |[|op l]|] eqn:Hat; [| | | |by left].
  - right. right. eexists. by apply (S_start _ _ _ _ m id).
  - destruct (started (shared m)) eqn:Es; [|by right; left]. right. right. eexists. by apply (S_go _ _ _ _ m id).
  - right. right. eexists. by apply (S_scheduler _ _ _ _ m id).
  - right. right. destruct (decide (id = 0)) as [->|Hne].
    + rewrite Hat in Hz. destruct (inv0_step _ _ _ _ _ Hz) as [_ Hw]. destruct (wp_inv _ _ _ Hw) as ([] & [x sh] & E & _). eexists. by apply (S_act _ _ _ _ m 0 op l x sh).
    + pose proof (Ho id Hne) as Hi. rewrite Hat in Hi. destruct Hi as (_ & _ & h0 & Hm & Hp).
      destruct (wp_inv _ _ _ (others_step id h0 op l _ _ Hid (im_tp _ _ Hm) Hp)) as ([] & [x sh] & E & _). eexists. by apply (S_act _ _ _ _ m id op l x sh).
Qed.

(** So there is a run to the end. *)
Lemma some_step s0 m (l : list Z) : binv s0 m → (∀ id, id ∈ l → 0 ≤ id < NCPU) →
  (∀ id, id ∈ l → at_ m id = Scheduler ∨ at_ m id = Spinning ∧ started (shared m) = false) ∨ ∃ m', Bstep m m'.
Proof.
  intros Hb. induction l as [|i l IH]; intros Hl; [left; by intros id ?%elem_of_nil|].
  destruct IH as [IH|]; [intros id Hid; apply Hl; by right| |by right].
  destruct (binv_goes_on s0 m i Hb ltac:(apply Hl; by left)) as [Hi|[Hi|]]; [| |by right]; left; intros id [->|Hid]%elem_of_cons; auto.
Qed.

Lemma boot_completes s0 m : powered_on s0 → binv s0 m → ∃ n m', nsteps Bstep n m m' ∧ ∀ id, 0 ≤ id < NCPU → at_ m' id = Scheduler.
Proof.
  intros Hon. remember (Z.to_nat (steps_left (at_ m))) as k eqn:Ek. revert m Ek. induction (lt_wf k) as [k _ IH]. intros m -> Hb.
  destruct (some_step s0 m (seqZ 0 NCPU) Hb ltac:(intros id; rewrite elem_of_seqZ; lia)) as [Hall|[m1 Hs]].
  - exists 0%nat, m. split; [constructor|]. assert (H0' : at_ m 0 = Scheduler).
    { destruct (Hall 0 ltac:(rewrite elem_of_seqZ; by vm_compute)) as [|[E _]]; [done|]. destruct Hb as [Hz _]. by rewrite E in Hz. }
    intros id Hid. destruct (Hall id ltac:(rewrite elem_of_seqZ; lia)) as [|[_ E]]; [done|]. destruct Hb as [Hz _]. rewrite H0' in Hz. destruct Hz as [Es _]. congruence.
  - pose proof (step_shortens _ _ _ Hb Hs) as Hlt. assert (Hp : 0 ≤ steps_left (at_ m1)) by (unfold steps_left; repeat apply Z.add_nonneg_nonneg; apply weight_pos).
    destruct (IH (Z.to_nat (steps_left (at_ m1))) ltac:(lia) m1 eq_refl (binv_step _ _ _ Hon Hb Hs)) as (n & m' & Hn & Hm'). exists (S n), m'. split; [by econstructor|done].
Qed.

End main.

(** ** The theorem *)

(** [C6] Boot, with all harts at once, in any order of their steps.  A hart that has
    reached the scheduler runs in supervisor mode on its own part of [stack0], with the
    kernel's page table and trap vector and its interrupts enabled, and by then the
    kernel is initialised: the kernel's table maps devices and RAM at their addresses
    and the stacks below the trampoline, every page is accounted for, the first process
    is runnable with initcode in its memory, the other entries are unused, the buffer
    cache is the disk, the disk's rings are set up.  The harts never panic, take at most
    184 steps in all, and do not stop before every one of them is in the scheduler. *)
Theorem boot_harts `{KernelImage} `{KernelObjects} `{Devices (@kern Bio.bst)} stack0 main_addr kernelvec_addr rd s0 m0 m n :
  disk_answers rd → enough_memory → 0 ≤ stack0 → stack0 + 4096 * NCPU < 2 ^ 64 → powered_on s0 → at_reset s0 m0 →
  nsteps (step stack0 main_addr kernelvec_addr rd) n m0 m →
  (∀ id, 0 ≤ id < NCPU → at_ m id = Scheduler → ready rd s0 (shared m) ∧ running stack0 kernelvec_addr id (harts m id) (shared m)) ∧
  (n ≤ 184)%nat ∧
  ((∀ m', ¬ step stack0 main_addr kernelvec_addr rd m m') → ∀ id, 0 ≤ id < NCPU → at_ m id = Scheduler).
Proof.
  intros Hd Hmem Hs0 Hs1 Hon Hr Hn. pose proof (binv_reset stack0 main_addr kernelvec_addr rd s0 m0 Hr) as Hb0.
  pose proof (binv_reachable stack0 main_addr kernelvec_addr rd Hd Hmem Hs0 Hs1 s0 m0 m Hon (rtc_nsteps_2 n m0 m Hn) Hb0) as Hinv.
  split; [|split].
  - intros id Hid Hat. pose proof Hinv as [Hz Ho]. destruct (decide (id = 0)) as [->|Hne].
    + rewrite Hat in Hz. destruct Hz as (_ & Hrd & h0 & Hm & Hu). split; [exact Hrd|by eapply up_running].
    + pose proof (Ho id Hne) as Hi. rewrite Hat in Hi. destruct Hi as (_ & Hs & h0 & Hm & Hu). split; [by eapply started_ready|by eapply up_running].
  - pose proof (steps_bounded stack0 main_addr kernelvec_addr rd Hd Hmem Hs0 Hs1 s0 n m0 m Hon Hn Hb0) as Hle. destruct Hr as [_ Hat].
    assert (E : steps_left (at_ m0) = 184) by (unfold steps_left; rewrite !(proj1 (Hat _)); reflexivity). assert (Hp : 0 ≤ steps_left (at_ m)) by (unfold steps_left; repeat apply Z.add_nonneg_nonneg; apply weight_pos). lia.
  - intros Hstuck id Hid. assert (Hgo : ∀ i, 0 ≤ i < NCPU → at_ m i = Scheduler ∨ at_ m i = Spinning ∧ started (shared m) = false).
    { intros i Hi. destruct (binv_goes_on stack0 main_addr kernelvec_addr rd s0 m i Hinv Hi) as [|[|[m' Hm']]]; [by left|by right|by destruct (Hstuck m')]. }
    destruct (Hgo id Hid) as [|[_ Es]]; [done|]. exfalso. destruct Hinv as [Hz _]. destruct (Hgo 0 ltac:(by vm_compute)) as [E|[E _]]; rewrite E in Hz; [destruct Hz as [Es' _]; congruence|done].
Qed.

(** A machine with 200 free pages and a disk. *)
Module Demo.

Definition image : KernelImage.
Proof.
  refine (@Build_KernelImage (PHYSTOP - 200 * PGSIZE) (KERNBASE + 8192) (KERNBASE + 4096) _ _ _ _ _ _ _ _); vm_compute; first [done|reflexivity].
Defined.
#[local] Existing Instance image.
Definition objects : KernelObjects := {| kobj := KERNBASE + 12288; forkret_addr := KERNBASE + 4200 |}.
#[local] Existing Instance objects.
Definition devices : Devices (@kern Bio.bst) := {| dev_read := λ _, None; dev_write := λ _, None |}.
#[local] Existing Instance devices.

Definition kern0 : @kern Bio.bst :=
  mk_kern (mk_kst ∅ 0 false)
    (Fs.mk_fsst (Log.mk_logst Bio.zero_bst false 0 0 0 false 0 0 []) (Fs.mk_sb 0 0 0 0 0 0 0 0)
       (λ _, Fs.mk_inode 0 0 0 (Sleeplock.mk_sleeplock 0 0) false 0 0 0 0 0 []) false 0)
    (λ _, FileRefs.no_file) (λ _, Pipe.pipe_init (λ _, 0)) (λ _, FileRefs.no_proc) 1 None 0 (Spinlock.mk_cpu 0 false false) [] 0.
Definition sys0 : sys := mk_sys kern0 0 VirtioInv.demo_disk [] [] (λ _, false) false.
Definition machine0 : machine := mk_machine (λ id, mk_hart (λ c, match c with mhartid => id | _ => 0 end) 0 0 MachineMode KERNBASE) (λ _, Reset) sys0.

Lemma boot_harts_witness : ∃ n m, nsteps (step 0x80010000 0x80000100 0x80000200 VirtioInv.demo_rd) n machine0 m ∧
  ∀ id, 0 ≤ id < NCPU → ready VirtioInv.demo_rd sys0 (shared m) ∧ running 0x80010000 0x80000200 id (harts m id) (shared m).
Proof.
  assert (Hd : disk_answers VirtioInv.demo_rd) by (vm_compute; repeat split; discriminate).
  assert (Hmem : enough_memory) by (split_and!; [vm_compute; reflexivity| |vm_compute; discriminate|vm_compute; discriminate]; apply Nat.leb_le; vm_compute; reflexivity).
  assert (Hon : powered_on sys0) by (split; [done|done|done|done|done|done]).
  assert (Hr : at_reset sys0 machine0) by done.
  destruct (boot_completes 0x80010000 0x80000100 0x80000200 VirtioInv.demo_rd Hd Hmem ltac:(done) ltac:(done) sys0 machine0 Hon (binv_reset _ _ _ _ _ _ Hr)) as (n & m & Hn & Hall).
  exists n, m. split; [exact Hn|]. intros id Hid.
  exact (proj1 (boot_harts 0x80010000 0x80000100 0x80000200 VirtioInv.demo_rd sys0 machine0 m n Hd Hmem ltac:(done) ltac:(done) Hon Hr Hn) id Hid (Hall id Hid)).
Defined.

End Demo.

End BootSpec.
