(* ===== verification/User.v ===== *)
(** * user/ulib.c, wc.c, cat.c, tee.c and the generator of grind.c

    What a call of read returns is an argument: the pieces it delivers in turn, and its
    last result, 0 at the end of the file or negative for an error.  Strings are their
    bytes up to the nul. *)

From Stdlib Require Import Znumtheory.
From S2P Require Import Prelude Mem Bytes CString.

Import Bytes.

Module User.

Notation NL := 10.
Notation CR := 13.

(** ** ulib.c *)

Fixpoint strcmp (p q : list Z) : Z :=
  match p, q with
  | c :: p', d :: q' => if c =? d then strcmp p' q' else c - d
  | _, _ => hd 0 p - hd 0 q
  end.

(** The offset of the byte. *)
Fixpoint strchr (s : list Z) (c : Z) : option Z :=
  match s with
  | [] => None
  | x :: s' => if x =? c then Some 0 else (λ i, i + 1) <$> strchr s' c
  end.

Definition memmove (vdst vsrc n : Z) (m : mem) : mem :=
  if vdst <? vsrc then CString.copy_up vdst vsrc (Z.to_nat n) m
  else CString.copy_down (vdst + n) (vsrc + n) (Z.to_nat n) m.

(** The loop of [gets] at [buf[i]]: the bytes stored, and what is left of the input. *)
Fixpoint gets_loop (room : nat) (inp : list Z) : list Z * list Z :=
  match room, inp with
  | S room', c :: inp' =>
      if (c =? NL) || (c =? CR) then ([c], inp')
      else let '(l, rest) := gets_loop room' inp' in (c :: l, rest)
  | _, _ => ([], inp)
  end.

(** The bytes stored include the nul. *)
Definition gets (max : Z) (inp : list Z) : list Z * list Z :=
  let '(l, rest) := gets_loop (Z.to_nat (max - 1)) inp in (l ++ [0], rest).

(** ** Filters *)

Record counts := mk_counts { cl : Z; cw : Z; cc : Z; inword : bool }.

Definition wc_byte (s : counts) (b : Z) : counts :=
  let c := s32 (cc s + 1) in
  let l := if b =? NL then s32 (cl s + 1) else cl s in
  match strchr [32; CR; 9; NL; 11] b with
  | Some _ => mk_counts l (cw s) c false
  | None => if inword s then mk_counts l (cw s) c true else mk_counts l (s32 (cw s + 1)) c true
  end.

(** [wc]: the three numbers printed, or the read error. *)
Definition wc (reads : list bytes) (last : Z) : option (Z * Z * Z) :=
  let s := foldl (foldl wc_byte) (mk_counts 0 0 0 false) reads in
  if last <? 0 then None else Some (cl s, cw s, cc s).

Inductive end_ := Returned | WriteError | ReadError.

(** [cat]: what [write] takes of the [k]-th piece is an argument, at most its length. *)
Fixpoint cat (takes : nat → bytes → Z) (k : nat) (reads : list bytes) (last : Z) : bytes * end_ :=
  match reads with
  | [] => ([], if last <? 0 then ReadError else Returned)
  | buf :: reads' =>
      let n := takes k buf in
      let out := take (Z.to_nat n) buf in
      if negb (n =? Z.of_nat (length buf)) then (out, WriteError)
      else let '(o, e) := cat takes (S k) reads' last in (out ++ o, e)
  end.

(** tee ignores what the two writes return. *)
Fixpoint tee (takes1 takes2 : nat → bytes → Z) (k : nat) (reads : list bytes) : bytes * bytes :=
  match reads with
  | [] => ([], [])
  | buf :: reads' =>
      let '(o1, o2) := tee takes1 takes2 (S k) reads' in
      (take (Z.to_nat (takes1 k buf)) buf ++ o1, take (Z.to_nat (takes2 k buf)) buf ++ o2)
  end.

(** ** grind.c *)

(** The new state, which is also the result. *)
Definition do_rand (ctx : Z) : Z :=
  let x := ctx mod 0x7ffffffe + 1 in
  let hi := Z.quot x 127773 in
  let lo := Z.rem x 127773 in
  let x := 16807 * lo - 2836 * hi in
  let x := if x <? 0 then x + 0x7fffffff else x in
  x - 1.

(** ** Strings *)

(** strcmp is 0 for equal strings, and negative when the first comes first. *)
Fixpoint before (p q : list Z) : bool :=
  match p, q with
  | [], _ :: _ => true
  | c :: p', d :: q' => (c <? d) || (c =? d) && before p' q'
  | _, [] => false
  end.

Lemma strcmp_order p q : Forall (λ c, 0 < c < 256) p → Forall (λ c, 0 < c < 256) q →
  (strcmp p q = 0 ↔ p = q) ∧ (strcmp p q < 0 ↔ before p q = true).
Proof.
  revert q. induction p as [|c p IH]; intros [|d q] Hp Hq; cbn [strcmp before hd].
  - split; [done|]. split; [lia|done].
  - inversion_clear Hq. split; split; try done; lia.
  - inversion_clear Hp. split; split; try done; lia.
  - inversion_clear Hp. inversion_clear Hq. destruct (c =? d) eqn:E; bsimpl.
    + subst. destruct (IH q) as [Hz Hn]; [done|done|]. rewrite Z.ltb_irrefl. cbn [orb andb]. split; [|done]. rewrite Hz. split; [by intros ->|by intros [=]].
    + cbn [andb]. rewrite orb_false_r, Z.ltb_lt. split; [split; [lia|]|lia]. by intros [= ? _].
Qed.

Lemma strchr_first s c : match strchr s c with
  | Some i => 0 ≤ i ∧ s !! Z.to_nat i = Some c ∧ c ∉ take (Z.to_nat i) s
  | None => c ∉ s
  end.
Proof.
  induction s as [|x s IH]; cbn [strchr]; [apply not_elem_of_nil|]. destruct (x =? c) eqn:E; bsimpl.
  - subst. split_and!; [done|done|apply not_elem_of_nil].
  - destruct (strchr s c) as [i|]; cbn; [|apply not_elem_of_cons; split; congruence].
    destruct IH as (Hi & Hl & Hn). rewrite Z2Nat.inj_add by lia. change (Z.to_nat 1) with 1%nat. rewrite Nat.add_1_r. split; [lia|]. split; [exact Hl|].
    apply not_elem_of_cons. split; [congruence|exact Hn].
Qed.

(** The library's memmove and the kernel's copy the same bytes, overlapping or not. *)
Lemma memmove_agrees dst src n m a : 0 ≤ n → ld8 (memmove dst src n m) a = ld8 (CString.memmove dst src n m) a.
Proof.
  intros Hn. rewrite CString.memmove_at by done. unfold memmove. destruct (dst <? src) eqn:E; bsimpl.
  - rewrite CString.copy_up_spec, !Z2Nat.id by lia. done.
  - rewrite CString.copy_down_spec, !Z2Nat.id by lia. replace (dst + n - n) with dst by lia. case_if; f_equal; lia.
Qed.

(** gets stores a line, or what fits, and leaves the rest of the input. *)
Definition line_end (c : Z) : Prop := c = NL ∨ c = CR.

Lemma gets_loop_line room inp : let '(l, rest) := gets_loop room inp in
  inp = l ++ rest ∧ (length l ≤ room)%nat ∧ Forall (λ c, ¬ line_end c) (removelast l) ∧
  (length l = room ∨ rest = [] ∨ ∃ c, last l = Some c ∧ line_end c).
Proof.
  revert inp. induction room as [|room IH]; intros [|c inp]; cbn [gets_loop]; try (split_and!; [done|simpl; lia|constructor|tauto]).
  destruct ((c =? NL) || (c =? CR)) eqn:E; bsimpl.
  - split_and!; [done|simpl; lia|constructor|]. right; right. exists c. split; [done|]. unfold line_end. lia.
  - specialize (IH inp). destruct (gets_loop room inp) as [l rest]. destruct IH as (-> & Hl & Hf & Hend). split; [done|]. split; [simpl; lia|]. split.
    + destruct l as [|d l]; [constructor|]. apply Forall_cons. split; [unfold line_end; lia|exact Hf].
    + destruct Hend as [Hr|[Hr|(d & Hd & Hr)]]; [left; simpl; lia|by right; left|]. right; right. exists d. split; [|done]. by destruct l.
Qed.

Lemma gets_bounded max inp : 1 ≤ max → Z.of_nat (length (gets max inp).1) ≤ max.
Proof.
  intros Hm. unfold gets. pose proof (gets_loop_line (Z.to_nat (max - 1)) inp) as H. destruct (gets_loop _ inp) as [l rest]. destruct H as (_ & H & _).
  cbn. rewrite length_app. simpl. lia.
Qed.

(** ** Filters *)

Definition space (b : Z) : bool := bool_decide (b ∈ [32; CR; 9; NL; 11]).

(** The pieces between spaces; the words are those that are not empty. *)
Fixpoint pieces (cur text : bytes) : list bytes :=
  match text with
  | [] => [cur]
  | b :: text' => if space b then cur :: pieces [] text' else pieces (cur ++ [b]) text'
  end.
Definition words (cur text : bytes) : Z := Z.of_nat (length (filter (λ w, w ≠ []) (pieces cur text))).
Definition newlines (text : bytes) : Z := Z.of_nat (length (filter (λ b, b = NL) text)).

Lemma strchr_space b : strchr [32; CR; 9; NL; 11] b = None ↔ space b = false.
Proof.
  unfold space. rewrite bool_decide_eq_false. pose proof (strchr_first [32; CR; 9; NL; 11] b) as H.
  destruct (strchr _ b) as [i|]; [|done]. destruct H as (_ & H & _). split; [done|]. intros []. by eapply list_elem_of_lookup_2.
Qed.

Lemma newlines_cons b text : newlines (b :: text) = (if b =? NL then 1 else 0) + newlines text.
Proof.
  unfold newlines. destruct (b =? NL) eqn:E; bsimpl; [rewrite filter_cons_True by done|rewrite filter_cons_False by done]; simpl; lia.
Qed.

Lemma wc_bytes text : ∀ s cur, inword s = negb (bool_decide (cur = [])) →
  0 ≤ cl s → 0 ≤ cw s → 0 ≤ cc s → cl s + Z.of_nat (length text) < 2 ^ 31 → cw s + Z.of_nat (length text) < 2 ^ 31 → cc s + Z.of_nat (length text) < 2 ^ 31 →
  let s' := foldl wc_byte s text in
  cl s' = cl s + newlines text ∧ cc s' = cc s + Z.of_nat (length text) ∧ cw s' + (if inword s then 1 else 0) = cw s + words cur text.
Proof.
  induction text as [|b text IH]; intros s cur Hin Hl Hw Hc Hl' Hw' Hc'; cbn [foldl length pieces] in *.
  - unfold words. cbn [pieces]. rewrite Hin. unfold newlines. simpl. case_bool_decide as E; [rewrite filter_cons_False by tauto|rewrite filter_cons_True by done]; simpl; lia.
  - rewrite newlines_cons. assert (E1 : cl (wc_byte s b) = cl s + if b =? NL then 1 else 0).
    { unfold wc_byte. destruct (strchr _ b), (inword s); cbn [cl]; destruct (b =? NL); try rewrite s32_small by lia; lia. }
    assert (E2 : cc (wc_byte s b) = cc s + 1) by (unfold wc_byte; destruct (strchr _ b), (inword s); cbn [cc]; apply s32_small; lia).
    assert (E3 : inword (wc_byte s b) = negb (space b) ∧ cw (wc_byte s b) = cw s + if negb (space b) && negb (inword s) then 1 else 0).
    { pose proof (strchr_space b) as Hs. unfold wc_byte. destruct (strchr _ b), (space b); cbn [inword cw negb andb]; try (destruct Hs as [H1 H2]; (discriminate (H1 eq_refl) || discriminate (H2 eq_refl))); [split; [done|lia]|].
      destruct (inword s); cbn [inword cw negb]; (split; [done|]); [lia|apply s32_small; lia]. }
    destruct E3 as [E3 E4]. set (cur' := if space b then [] else cur ++ [b]).
    destruct (IH (wc_byte s b) cur') as (A1 & A2 & A3); try (destruct (b =? NL), (negb (space b) && negb (inword s)); lia).
    { rewrite E3. subst cur'. destruct (space b); [done|]. by destruct cur. }
    rewrite A1, A2, E1, E2. split_and!; [lia|lia|]. rewrite E3, E4 in A3. unfold words in A3 |- *. cbn [pieces]. subst cur'. rewrite Hin in A3 |- *.
    destruct (space b); cbn [negb andb] in A3; [|case_bool_decide; simpl in *; lia].
    case_bool_decide as E; [rewrite filter_cons_False by tauto|rewrite filter_cons_True by done]; cbn [negb length] in *; lia.
Qed.

Lemma foldl_concat {A S} (f : S → A → S) (ls : list (list A)) s : foldl (foldl f) s ls = foldl f s (concat ls).
Proof. revert s. induction ls as [|l ls IH]; intros s; cbn [foldl concat]; [done|]. by rewrite foldl_app, IH. Qed.

(** wc prints the numbers of newlines, words and bytes of the text, however the reads
    cut it; cat and tee copy it, and cat stops at the first short write, with what was
    written a prefix of the text. *)
Theorem filters_correct reads last takes1 takes2 : Z.of_nat (length (concat reads)) < 2 ^ 31 →
  wc reads last = (if last <? 0 then None else Some (newlines (concat reads), words [] (concat reads), Z.of_nat (length (concat reads)))) ∧
  (let '(o, e) := cat takes1 0 reads last in
   o `prefix_of` concat reads ∧ (e ≠ WriteError → o = concat reads ∧ e = if last <? 0 then ReadError else Returned)) ∧
  ((∀ k b, takes1 k b = Z.of_nat (length b)) → (∀ k b, takes2 k b = Z.of_nat (length b)) → tee takes1 takes2 0 reads = (concat reads, concat reads)).
Proof.
  intros Hlen. split; [|split].
  - unfold wc. rewrite foldl_concat. destruct (wc_bytes (concat reads) (mk_counts 0 0 0 false) []) as (E1 & E2 & E3); try done.
    cbn [cl cw cc inword] in *. rewrite E1, E2. destruct (last <? 0); [done|].
    replace (cw _) with (words [] (concat reads)) by lia. done.
  - clear Hlen. generalize 0%nat. induction reads as [|r reads IH]; intros k; cbn [cat concat]; [done|].
    destruct (takes1 k r =? Z.of_nat (length r)) eqn:E; cbn [negb]; bsimpl.
    + specialize (IH (S k)). destruct (cat takes1 (S k) reads last) as [o e]. destruct IH as [H1 H2]. rewrite E, Nat2Z.id, firstn_all. split; [by apply prefix_app|].
      intros He. by destruct (H2 He) as [-> ->].
    + split; [|done]. exists (drop (Z.to_nat (takes1 k r)) r ++ concat reads). by rewrite app_assoc, take_drop.
  - clear Hlen. intros H1 H2. generalize 0%nat. induction reads as [|r reads IH]; intros k; cbn [tee concat]; [done|].
    by rewrite IH, H1, H2, Nat2Z.id, firstn_all.
Qed.

(** ** The generator *)

(** do_rand is x -> 7^5 x mod (2^31 - 1) on [1, 2^31 - 2], shifted by one. *)
Lemma do_rand_lehmer ctx : 0 ≤ ctx → do_rand ctx = (16807 * (ctx mod 0x7ffffffe + 1)) mod 0x7fffffff - 1 ∧ 0 ≤ do_rand ctx ≤ 0x7ffffffd.
Proof.
  intros Hc. unfold do_rand. cbv zeta. pose proof (Z.mod_pos_bound ctx 0x7ffffffe ltac:(done)) as Hx. set (x := ctx mod 0x7ffffffe + 1) in *. assert (1 ≤ x ≤ 0x7ffffffe) as Hx' by (subst x; lia). clearbody x. clear Hx.
  rewrite Z.quot_div_nonneg, Z.rem_mod_nonneg by lia. pose proof (Z.div_mod x 127773 ltac:(done)) as Ed. pose proof (Z.mod_pos_bound x 127773 ltac:(done)) as Hlo.
  assert (Hhi : 0 ≤ x / 127773 ≤ 16807) by (split; [apply Z.div_pos; lia|apply Z.lt_succ_r, Z.div_lt_upper_bound; lia]).
  set (hi := x / 127773) in *. set (lo := x mod 127773) in *. set (y := 16807 * lo - 2836 * hi).
  assert (Ey : (16807 * x) mod 0x7fffffff = if y <? 0 then y + 0x7fffffff else y).
  { symmetry. destruct (y <? 0) eqn:E; bsimpl; [apply (Z.mod_unique_pos _ _ (hi - 1))|apply (Z.mod_unique_pos _ _ hi)]; subst y; lia. }
  rewrite <- Ey. split; [done|]. pose proof (Z.mod_pos_bound (16807 * x) 0x7fffffff ltac:(done)) as Hb. assert (Hne : (16807 * x) mod 0x7fffffff ≠ 0); [|lia].
  intros H0. apply Z.mod_divide in H0; [|done]. apply Z.gauss in H0; [|done]. apply Z.divide_pos_le in H0; lia.
Qed.

End User.
