(* ===== verification/Umalloc.v ===== *)
(** * user/umalloc.c: malloc and free

    The free list of Kernighan and Ritchie: a ring of blocks in the order of their
    addresses, which starts and ends at the static header [base].  Pointers are byte
    addresses; [p + k] on headers is [p + 16 * k].  The memory is the headers it
    holds; what a program stores in its own blocks may overwrite any of those inside
    its blocks.

    [sbrk] is the system call: the size of the process and whether the kernel finds
    pages for a new size ([can_grow]). *)

From S2P Require Import Prelude.
From stdpp Require Import sorting.
#[local] Open Scope Z_scope.

Module Umalloc.

(** [union header] *)
Record header := mk_header { ptr : Z; size : Z }.
Definition HSIZE : Z := 16.

Record heap := mk_heap { hp : Z → header; freep : Z; brk : Z }.

Definition set_freep (p : Z) (s : heap) : heap := mk_heap (hp s) p (brk s).
Definition set_brk (b : Z) (s : heap) : heap := mk_heap (hp s) (freep s) b.
Definition set_ptr (p v : Z) (s : heap) : heap := mk_heap (<[p := mk_header v (size (hp s p))]> (hp s)) (freep s) (brk s).
Definition set_size (p v : Z) (s : heap) : heap := mk_heap (<[p := mk_header (ptr (hp s p)) v]> (hp s)) (freep s) (brk s).

Section code.
Context (base : Z) (can_grow : Z → bool).

(** sys_sbrk and growproc, on the size of the process; -1 if there are no pages.
    Shrinking compares sizes as uvmdealloc does. *)
Definition sbrk (n : Z) : M heap Z :=
  addr ← gets brk;
  if 0 <? n then
    if can_grow (addr + n) then modify (set_brk (addr + n));; mret addr else mret (-1)
  else if n <? 0 then
    modify (set_brk (if addr <=? u64 (addr + n) then addr else u64 (addr + n)));; mret addr
  else mret addr.

(** The search of [free] for the block before [bp]. *)
Fixpoint free_find (fuel : nat) (bp p : Z) : M heap Z :=
  match fuel with
  | O => Prelude.block
  | S fuel' =>
      h ← gets (λ s, hp s p);
      if (p <? bp) && (bp <? ptr h) then mret p
      else if (ptr h <=? p) && ((p <? bp) || (bp <? ptr h)) then mret p
      else free_find fuel' bp (ptr h)
  end.

(** At most one block for each header that fits below the break. *)
Definition ring_fuel (s : heap) : nat := Z.to_nat (brk s / HSIZE + 2).

(** Linking [q] behind [p]: merged with it if they touch.  The code has this twice,
    for the block freed and its successor, and for its predecessor and the block. *)
Definition link (p q : Z) : M heap unit :=
  n ← gets (λ s, size (hp s p));
  if p + HSIZE * n =? q then
    h ← gets (λ s, hp s q);
    modify (set_size p (u32 (n + size h)));;
    modify (set_ptr p (ptr h))
  else modify (set_ptr p q).

Definition free (ap : Z) : M heap unit :=
  let bp := ap - HSIZE in
  fuel ← gets ring_fuel;
  p0 ← gets freep;
  p ← free_find fuel bp p0;
  q ← gets (λ s, ptr (hp s p));
  link bp q;;
  link p bp;;
  modify (set_freep p).

(** [sbrk] takes an int. *)
Definition morecore (nu : Z) : M heap Z :=
  let nu := if nu <? 4096 then 4096 else nu in
  p ← sbrk (s32 (nu * HSIZE));
  if p =? -1 then mret 0
  else
    modify (set_size p nu);;
    free (p + HSIZE);;
    gets freep.

(** Taking [nunits] from the block at [p], behind [prevp] in the ring: the whole block,
    or its end. *)
Definition carve (nunits prevp p : Z) : M heap Z :=
  h ← gets (λ s, hp s p);
  p' ← (if size h =? nunits then modify (set_ptr prevp (ptr h));; mret p
        else
          let n := u32 (size h - nunits) in
          modify (set_size p n);;
          modify (set_size (p + HSIZE * n) nunits);;
          mret (p + HSIZE * n));
  modify (set_freep prevp);;
  mret (p' + HSIZE).

Fixpoint malloc_loop (fuel : nat) (nunits prevp p : Z) : M heap Z :=
  match fuel with
  | O => Prelude.block
  | S fuel' =>
      h ← gets (λ s, hp s p);
      if nunits <=? size h then carve nunits prevp p
      else
        f ← gets freep;
        if p =? f then
          p ← morecore nunits;
          if p =? 0 then mret 0
          else
            q ← gets (λ s, ptr (hp s p));
            malloc_loop fuel' nunits p q
        else malloc_loop fuel' nunits p (ptr h)
  end.

Definition units_for (nbytes : Z) : Z := u32 ((nbytes + HSIZE - 1) / HSIZE + 1).

Definition malloc (nbytes : Z) : M heap Z :=
  let nunits := units_for nbytes in
  f ← gets freep;
  when (f =? 0) (modify (set_freep base);; modify (set_ptr base base);; modify (set_size base 0));;
  prevp ← gets freep;
  p ← gets (λ s, ptr (hp s prevp));
  fuel ← gets (λ s, 2 * ring_fuel s + 4)%nat;
  malloc_loop fuel nunits prevp p.

End code.

(** ** Blocks *)

Notation block_t := (Z * Z)%type.

(** The units a block is made of. *)
Definition units (b : block_t) : list Z := (λ i, b.1 + HSIZE * i) <$> seqZ 0 b.2.
Definition space (l : list block_t) : list Z := l ≫= units.

Lemma units_app a n m : 0 ≤ n → 0 ≤ m → units (a, n + m) = units (a, n) ++ units (a + HSIZE * n, m).
Proof.
  intros Hn Hm. unfold units. simpl. rewrite seqZ_app by lia. rewrite fmap_app. f_equal.
  rewrite Z.add_0_l. rewrite <- (Z.add_0_r n) at 1. rewrite <- fmap_add_seqZ, <- list_fmap_compose. apply list_fmap_ext.
  intros _ i _. simpl. lia.
Qed.

Lemma elem_of_units u b : u ∈ units b ↔ ∃ i, 0 ≤ i < b.2 ∧ u = b.1 + HSIZE * i.
Proof.
  unfold units. rewrite list_elem_of_fmap. split; intros (i & H1 & H2).
  - exists i. apply elem_of_seqZ in H2. split; [lia|done].
  - exists i. split; [done|]. apply elem_of_seqZ. lia.
Qed.

Lemma space_cons b l : space (b :: l) = units b ++ space l.
Proof. done. Qed.
Lemma space_app l l' : space (l ++ l') = space l ++ space l'.
Proof. apply bind_app. Qed.

(** ** The ring *)

(** The address of the first block, or [e] if there is none. *)
Definition first (l : list block_t) (e : Z) : Z := match l with [] => e | b :: _ => b.1 end.

(** The blocks are linked in this order, the last to [e]. *)
Fixpoint chain (m : Z → header) (l : list block_t) (e : Z) : Prop :=
  match l with
  | [] => True
  | b :: l' => m b.1 = mk_header (first l' e) b.2 ∧ chain m l' e
  end.

Lemma heap_chain_app m l l' e : chain m (l ++ l') e ↔ chain m l (first l' e) ∧ chain m l' e.
Proof.
  induction l as [|b l IH]; simpl; [tauto|]. rewrite IH. destruct l; simpl; tauto.
Qed.

Lemma chain_ext m m' l e : chain m l e → (∀ b, b ∈ l → m' b.1 = m b.1) → chain m' l e.
Proof.
  induction l as [|b l IH]; intros Hc He; [done|]. destruct Hc as [Hb Hc]. split; [rewrite He by set_solver; done|].
  apply IH; [done|set_solver].
Qed.

Lemma chain_lookup m l e j b : chain m l e → l !! j = Some b → m b.1 = mk_header (default e (fst <$> l !! S j)) b.2.
Proof.
  revert j. induction l as [|b' l IH]; intros j Hc Hj; [done|]. destruct Hc as [Hb Hc]. destruct j as [|j].
  - injection Hj as <-. rewrite Hb. by destruct l.
  - by rewrite (IH j Hc Hj).
Qed.

(** ** The invariant *)

(** A gap between them: neighbours that touch have been merged. *)
Definition before (x y : block_t) : Prop := x.1 + HSIZE * x.2 < y.1.

(** All sizes fit an unsigned int. *)
Definition MEMMAX : Z := 2 ^ 35.

Section inv.
Context (B LO : Z) (HB : 0 < B) (HLO : B + HSIZE ≤ LO).

(** The free blocks [fl] and the blocks [al] of the program share the memory from
    [LO] to the break. *)
Record rep (s : heap) (fl al : list block_t) : Prop := {
  rp_chain : chain (hp s) ((B, 0) :: fl) B;
  rp_sort : StronglySorted before ((B, 0) :: fl);
  rp_own : NoDup (space fl ++ space al);
  rp_in : ∀ u, u ∈ space fl ++ space al → LO ≤ u < brk s ∧ u mod HSIZE = 0;
  rp_pos : ∀ b, b ∈ fl ++ al → 0 < b.2;
  rp_size : ∀ b, b ∈ al → size (hp s b.1) = b.2;
  rp_free : ∃ j b, ((B, 0) :: fl) !! j = Some b ∧ freep s = b.1;
  rp_brk : LO ≤ brk s ≤ MEMMAX ∧ brk s mod HSIZE = 0 }.

Lemma elem_of_space u l : u ∈ space l ↔ ∃ b, b ∈ l ∧ u ∈ units b.
Proof. unfold space. rewrite list_elem_of_bind. naive_solver. Qed.

Lemma unit_0 a n : 0 < n → a ∈ units (a, n).
Proof. intros. apply elem_of_units. exists 0. simpl. lia. Qed.

(** Blocks without a common unit do not overlap. *)
Lemma apart_units b b' : b.1 mod HSIZE = 0 → b'.1 mod HSIZE = 0 → 0 < b.2 → 0 < b'.2 →
  (∀ u, u ∈ units b → u ∈ units b' → False) → b.1 + HSIZE * b.2 ≤ b'.1 ∨ b'.1 + HSIZE * b'.2 ≤ b.1.
Proof.
  intros Ha Ha' Hp Hp' Hno. destruct (decide (b.1 + HSIZE * b.2 ≤ b'.1 ∨ b'.1 + HSIZE * b'.2 ≤ b.1)) as [|Hov]; [done|exfalso].
  set (u := Z.max b.1 b'.1). unfold HSIZE in *. apply (Hno u); apply elem_of_units.
  - exists ((u - b.1) / 16). unfold u, HSIZE. revert Ha Ha' Hov. Z.to_euclidean_division_equations. lia.
  - exists ((u - b'.1) / 16). unfold u, HSIZE. revert Ha Ha' Hov. Z.to_euclidean_division_equations. lia.
Qed.

Lemma space_disjoint l i j b b' u : NoDup (space l) → l !! i = Some b → l !! j = Some b' → i ≠ j → u ∈ units b → u ∈ units b' → False.
Proof.
  revert i j. induction l as [|c l IH]; intros i j Hnd Hi Hj Hij Hu Hu'; [done|]. rewrite space_cons in Hnd.
  apply NoDup_app in Hnd as (_ & Hd & Hnd). destruct i as [|i], j as [|j]; [done| | |by eapply (IH i j); auto].
  - injection Hi as ->. apply (Hd u Hu), elem_of_space. exists b'. split; [by eapply list_elem_of_lookup_2|done].
  - injection Hj as ->. apply (Hd u Hu'), elem_of_space. exists b. split; [by eapply list_elem_of_lookup_2|done].
Qed.

Section facts.
Context (s : heap) (fl al : list block_t) (Hs : rep s fl al).

Lemma rep_start b : b ∈ fl ++ al → b.1 ∈ space fl ++ space al.
Proof.
  intros Hb. rewrite <- space_app. apply elem_of_space. exists b. split; [done|]. destruct b as [a n].
  apply unit_0. by apply (rp_pos _ _ _ Hs (a, n)).
Qed.

Lemma rep_bounds b : b ∈ fl ++ al → LO ≤ b.1 ∧ b.1 mod HSIZE = 0 ∧ b.1 + HSIZE * b.2 ≤ brk s ∧ 0 < b.2.
Proof.
  intros Hb. pose proof (rp_pos _ _ _ Hs b Hb) as Hp. destruct (rp_in _ _ _ Hs _ (rep_start b Hb)) as [H1 H2].
  destruct (rp_in _ _ _ Hs (b.1 + HSIZE * (b.2 - 1))) as [H3 H4].
  { rewrite <- space_app. apply elem_of_space. exists b. split; [done|]. apply elem_of_units. exists (b.2 - 1). lia. }
  destruct (rp_brk _ _ _ Hs) as [_ H5]. unfold HSIZE in *.
  split_and!; try lia. revert H2 H3 H4 H5. Z.to_euclidean_division_equations. lia.
Qed.

(** Two blocks of different owners do not overlap. *)
Lemma rep_apart b b' : b ∈ fl → b' ∈ al → b.1 + HSIZE * b.2 ≤ b'.1 ∨ b'.1 + HSIZE * b'.2 ≤ b.1.
Proof.
  intros Hb Hb'. destruct (rep_bounds b) as (_ & Ha & _ & Hp); [set_solver|].
  destruct (rep_bounds b') as (_ & Ha' & _ & Hp'); [set_solver|].
  apply apart_units; try done. intros u Hu Hu'. pose proof (rp_own _ _ _ Hs) as (_ & Hnd & _)%NoDup_app.
  apply (Hnd u); apply elem_of_space; eauto.
Qed.

Lemma rep_length : (length fl ≤ Z.to_nat (brk s / HSIZE))%nat.
Proof.
  transitivity (length (space fl)).
  - pose proof (λ b H, rp_pos _ _ _ Hs b (proj2 (elem_of_app fl al b) (or_introl H))) as Hp. clear Hs.
    induction fl as [|b l IH]; [done|]. rewrite space_cons, length_app. simpl.
    pose proof (Hp b ltac:(set_solver)). unfold units. rewrite length_fmap, length_seqZ.
    specialize (IH ltac:(set_solver)). lia.
  - assert (length ((λ i, HSIZE * i) <$> seqZ 0 (brk s / HSIZE)) = Z.to_nat (brk s / HSIZE)) as <-
      by (by rewrite length_fmap, length_seqZ).
    apply submseteq_length, NoDup_submseteq; [by pose proof (rp_own _ _ _ Hs) as [??]%NoDup_app|].
    intros u Hu. destruct (rp_in _ _ _ Hs u) as [H1 H2]; [set_solver|]. apply list_elem_of_fmap.
    exists (u / HSIZE). destruct (rp_brk _ _ _ Hs) as [H3 H4]. unfold HSIZE in *. split; [|apply elem_of_seqZ];
    revert H1 H2 H3 H4; Z.to_euclidean_division_equations; lia.
Qed.

End facts.

(** *** The search of free *)

Lemma split_at bp c l : StronglySorted before (c :: l) → (∀ b, b ∈ c :: l → 0 ≤ b.2) → c.1 < bp → (∀ b, b ∈ l → b.1 ≠ bp) →
  ∃ l1 b l2, c :: l = l1 ++ b :: l2 ∧ b.1 < bp ∧ ∀ x, x ∈ l2 → bp < x.1.
Proof.
  revert c. induction l as [|d l IH]; intros c Hs Hp Hc Hne; [by exists [], c, []; set_solver|].
  apply StronglySorted_inv in Hs as [Hs Hf]. destruct (decide (d.1 < bp)) as [Hd|Hd].
  - destruct (IH d Hs ltac:(set_solver) Hd ltac:(set_solver)) as (l1 & b & l2 & E & H1 & H2). exists (c :: l1), b, l2.
    by rewrite E.
  - exists [], c, (d :: l). split; [done|]. split; [done|]. pose proof (Hne d ltac:(set_solver)).
    intros x [->|Hx]%elem_of_cons; [lia|]. apply StronglySorted_inv in Hs as [_ Hf'].
    pose proof (proj1 (Forall_forall _ _) Hf' x Hx) as Hb. unfold before, HSIZE in Hb. pose proof (Hp d ltac:(set_solver)). lia.
Qed.

Lemma sorted_lookup l i j b b' : StronglySorted before l → (∀ b, b ∈ l → 0 ≤ b.2) →
  l !! i = Some b → l !! j = Some b' → (i < j)%nat → b.1 < b'.1.
Proof.
  intros Hs Hp Hi Hj Hij. revert i j Hi Hj Hij. induction Hs as [|c l Hs IH Hf]; intros i j Hi Hj Hij; [done|].
  destruct j as [|j]; [lia|]. change (l !! j = Some b') in Hj. destruct i as [|i]; [|apply (IH ltac:(set_solver) i j); [done|done|lia]].
  injection Hi as <-. pose proof (proj1 (Forall_forall _ _) Hf b' (list_elem_of_lookup_2 _ _ _ Hj)) as Hb.
  pose proof (Hp c ltac:(set_solver)). unfold before, HSIZE in Hb. lia.
Qed.

(** The steps from the [j]-th block of a ring of [n] to the [k]-th. *)
Definition steps (n j k : nat) : nat := if (j <=? k)%nat then k - j else n - j + k.

Lemma free_find_ok (s : heap) bl bp k b fuel j c : chain (hp s) bl B → StronglySorted before bl → (∀ b, b ∈ bl → 0 ≤ b.2) →
  fst <$> bl !! 0%nat = Some B → B < bp → (∀ b, b ∈ bl → b.1 ≠ bp) →
  bl !! k = Some b → b.1 < bp → (∀ i x, bl !! i = Some x → (k < i)%nat → bp < x.1) →
  bl !! j = Some c → (steps (length bl) j k < fuel)%nat →
  wp (free_find fuel bp c.1) (λ p s', p = b.1 ∧ s' = s) s.
Proof.
  intros Hc Hs Hp H0 HBp Hne Hk Hb Hafter. revert j c. induction fuel as [|fuel IH]; intros j c Hj Hf; [lia|].
  cbn [free_find]. apply wp_bind, wp_gets. rewrite (chain_lookup _ _ _ _ _ Hc Hj). cbn [ptr].
  pose proof (lookup_lt_Some _ _ _ Hj). pose proof (lookup_lt_Some _ _ _ Hk).
  pose proof (Hne c (list_elem_of_lookup_2 _ _ _ Hj)) as Hcne.
  assert (Hcmp : c.1 < bp ↔ (j ≤ k)%nat).
  { split; intros Hx; [|destruct (decide (j = k)) as [->|]; [simplify_eq; lia|]; pose proof (sorted_lookup _ j k _ _ Hs Hp Hj Hk ltac:(lia)); lia].
    destruct (decide (j ≤ k)%nat); [done|]. specialize (Hafter j c Hj ltac:(lia)). lia. }
  destruct (bl !! S j) as [d|] eqn:Ed; simpl.
  - pose proof (lookup_lt_Some _ _ _ Ed). pose proof (sorted_lookup _ j (S j) _ _ Hs Hp Hj Ed ltac:(lia)) as Hcd.
    pose proof (Hne d (list_elem_of_lookup_2 _ _ _ Ed)) as Hdne.
    rewrite (proj2 (Z.leb_gt _ _)) by lia. simpl. destruct (decide (j = k)) as [->|Hjk].
    + assert (b = c) as -> by congruence. specialize (Hafter _ _ Ed ltac:(lia)).
      rewrite (proj2 (Z.ltb_lt _ _)), (proj2 (Z.ltb_lt _ _)) by lia. by apply wp_ret.
    + replace ((c.1 <? bp) && (bp <? d.1)) with false.
      * apply (IH (S j) d Ed). revert Hf. unfold steps. destruct (Nat.leb_spec j k), (Nat.leb_spec (S j) k); lia.
      * symmetry. apply andb_false_iff. destruct (Nat.ltb_spec j k); [right|left]; apply Z.ltb_ge; [|lia].
        destruct (decide (S j = k)) as [<-|]; [simplify_eq; lia|]. pose proof (sorted_lookup _ (S j) k _ _ Hs Hp Ed Hk ltac:(lia)). lia.
  - apply lookup_ge_None in Ed. assert (length bl = S j) as Hlen by lia.
    rewrite (proj2 (Z.ltb_ge bp B)) by lia. rewrite andb_false_r, orb_false_r.
    assert (B ≤ c.1) as HBc.
    { destruct (bl !! 0%nat) as [b0|] eqn:E0; [|done]. injection H0 as H0. destruct (decide (j = 0%nat)) as [->|]; [simplify_eq; lia|].
      pose proof (sorted_lookup _ 0 j _ _ Hs Hp E0 Hj ltac:(lia)). lia. }
    rewrite (proj2 (Z.leb_le _ _)) by lia. simpl. destruct (Z.ltb_spec c.1 bp) as [Hlt|Hge].
    + apply wp_ret. assert (j = k) as -> by lia. by simplify_eq.
    + destruct (bl !! 0%nat) as [b0|] eqn:E0; [|done]. injection H0 as <-. apply (IH 0%nat b0 E0).
      revert Hf. unfold steps. destruct (Nat.leb_spec j k), (Nat.leb_spec 0 k); lia.
Qed.

(** *** Linking *)

Definition join (b : block_t) (l : list block_t) : list block_t :=
  match l with
  | c :: l' => if b.1 + HSIZE * b.2 =? c.1 then (b.1, b.2 + c.2) :: l' else b :: l
  | [] => [b]
  end.

Lemma space_join b l : 0 ≤ b.2 → (∀ c, c ∈ l → 0 ≤ c.2) → space (join b l) = units b ++ space l.
Proof.
  intros Hb Hl. destruct l as [|[q m] l], b as [a n]; [done|]. cbn [join fst snd]. destruct (Z.eqb_spec (a + HSIZE * n) q) as [<-|]; [|done].
  rewrite !space_cons. pose proof (Hl _ (list_elem_of_here _ _)) as Hm. simpl in *. rewrite units_app by lia. by rewrite <- app_assoc.
Qed.

Lemma length_join b l : (length (join b l) ≤ S (length l))%nat.
Proof. destruct l; simpl; [done|]. case_match; simpl; lia. Qed.

Lemma join_ge b l : (∀ c, c ∈ l → b.1 ≤ c.1) → ∀ c, c ∈ join b l → b.1 ≤ c.1.
Proof.
  intros Hl c. destruct l as [|d l]; simpl; [intros ->%list_elem_of_singleton; lia|].
  case_match; intros [->|Hc]%elem_of_cons; simpl; try lia; apply Hl; set_solver.
Qed.

Lemma join_pos b l : 0 ≤ b.2 → (∀ c, c ∈ l → 0 < c.2) → ∀ c, c ∈ join b l → c = b ∨ 0 < c.2.
Proof.
  intros Hb Hl c. destruct l as [|d l]; simpl; [intros ->%list_elem_of_singleton; by left|].
  case_match; intros [->|Hc]%elem_of_cons; [right| |by left|]; simpl; try (right; apply Hl; set_solver).
  pose proof (Hl d ltac:(set_solver)). lia.
Qed.

Lemma join_sorted b l : StronglySorted before l → (∀ c, c ∈ l → 0 < c.2) → (∀ c, c ∈ l → b.1 + HSIZE * b.2 ≤ c.1) →
  StronglySorted before (join b l).
Proof.
  intros Hs Hp Hl. destruct l as [|c l]; [by repeat constructor|]. cbn [join].
  pose proof Hs as Hs'. apply StronglySorted_inv in Hs' as [Hs' Hf]. pose proof (proj1 (Forall_forall _ _) Hf) as Hf'.
  pose proof (Hp c ltac:(set_solver)). unfold before, HSIZE in *. destruct (Z.eqb_spec (b.1 + 16 * b.2) c.1) as [E|E].
  - constructor; [done|]. apply Forall_forall. intros x Hx. specialize (Hf' x Hx). simpl. lia.
  - constructor; [done|]. apply Forall_forall. intros x [->|Hx]%elem_of_cons; pose proof (Hl c ltac:(set_solver)); [lia|].
    specialize (Hf' x Hx). simpl in Hf'. lia.
Qed.

(** What [link] leaves. *)
Definition linked (m : Z → header) (a q : Z) : Z → header :=
  let n := size (m a) in
  if a + HSIZE * n =? q then <[a := mk_header (ptr (m q)) (n + size (m q))]> m else <[a := mk_header q n]> m.

Lemma wp_link a q s (Q : unit → heap → Prop) : 0 ≤ size (hp s a) + size (hp s q) < 2 ^ 32 →
  (∀ s', (∀ x, hp s' x = linked (hp s) a q x) → freep s' = freep s → brk s' = brk s → Q tt s') → wp (link a q) Q s.
Proof.
  intros Hu HQ. unfold link, linked in *. apply wp_bind, wp_gets. destruct (_ =? q).
  - apply wp_bind, wp_gets, wp_bind, wp_modify, wp_modify. rewrite u32_small by lia. apply HQ; [|done..].
    intros x. cbn. rewrite fn_lookup_insert. destruct (decide (x = a)) as [->|]; [by rewrite !fn_lookup_insert|].
    by rewrite !fn_lookup_insert_ne.
  - apply wp_modify. by apply HQ.
Qed.

Lemma linked_ne m a q x : x ≠ a → linked m a q x = m x.
Proof. intros Hx. unfold linked. case_match; by rewrite fn_lookup_insert_ne. Qed.

Lemma heap_linked_ok m b l e : chain m l e → (∀ c, c ∈ l → c.1 ≠ b.1) → size (m b.1) = b.2 →
  (l = [] → b.1 + HSIZE * b.2 ≠ e) → chain (linked m b.1 (first l e)) (join b l) e.
Proof.
  intros Hc Hne Hb He. assert (Hl : chain (linked m b.1 (first l e)) l e).
  { apply (chain_ext m); [done|]. intros c Hc'. apply linked_ne, Hne, Hc'. }
  unfold linked in *. rewrite Hb in *. destruct l as [|c l]; cbn [join first] in *.
  - rewrite (proj2 (Z.eqb_neq _ _)) by auto. cbn. by rewrite fn_lookup_insert; destruct b.
  - destruct (_ =? c.1) eqn:E; cbn; rewrite fn_lookup_insert.
    + split; [by rewrite (proj1 Hc)|]. apply Hl.
    + split; [by destruct b|]. apply Hl.
Qed.

(** *** free *)

Lemma space_base fl : space ((B, 0) :: fl) = space fl.
Proof. done. Qed.

(** Where a freed block goes: the predecessor [b], the blocks before and after it. *)
Lemma free_place s fl al bp n : rep s fl ((bp, n) :: al) → ∃ l1 b l2, (B, 0) :: fl = l1 ++ b :: l2 ∧
  b.1 + HSIZE * b.2 ≤ bp ∧ b.1 < bp ∧ (∀ x, x ∈ l2 → bp + HSIZE * n ≤ x.1 ∧ bp < x.1) ∧
  (b = (B, 0) ∧ l1 = [] ∨ b ∈ fl ∧ ∃ l1', l1 = (B, 0) :: l1').
Proof.
  intros Hs. destruct (rep_bounds _ _ _ Hs (bp, n)) as (H1 & H2 & H3 & H4); [set_solver|]. simpl in *.
  assert (Hap : ∀ x, x ∈ fl → x.1 + HSIZE * x.2 ≤ bp ∨ bp + HSIZE * n ≤ x.1).
  { intros x Hx. apply (rep_apart _ _ _ Hs x (bp, n)); set_solver. }
  assert (Hpos : ∀ x, x ∈ fl → 0 < x.2) by (intros x Hx; apply (rp_pos _ _ _ Hs); set_solver). unfold HSIZE in *.
  destruct (split_at bp (B, 0) fl (rp_sort _ _ _ Hs)) as (l1 & b & l2 & E & Hlt & Hgt).
  - intros x [->|Hx]%elem_of_cons; [done|]. specialize (Hpos x Hx). lia.
  - simpl. lia.
  - intros x Hx. specialize (Hap x Hx). specialize (Hpos x Hx). lia.
  - assert (Hl2 : ∀ x, x ∈ l2 → x ∈ fl) by (intros x Hx; destruct l1; injection E as _ ->; set_solver).
    exists l1, b, l2. split; [done|]. destruct l1 as [|c l1]; injection E as <- ->; simpl in *.
    + split_and!; [lia|done| |by left]. intros x Hx. specialize (Hgt x Hx). specialize (Hap x Hx). specialize (Hpos x Hx). lia.
    + pose proof (Hap b ltac:(set_solver)). pose proof (Hpos b ltac:(set_solver)). split_and!; [lia|done| |].
      * intros x Hx. specialize (Hgt x Hx). specialize (Hap x (Hl2 x Hx)). specialize (Hpos x (Hl2 x Hx)). lia.
      * right. split; [set_solver|by eexists].
Qed.

(** The list after it, and that it is in order. *)
Lemma free_list s fl al bp n l1 b l2 : rep s fl ((bp, n) :: al) → (B, 0) :: fl = l1 ++ b :: l2 →
  b.1 + HSIZE * b.2 ≤ bp → b.1 < bp → (∀ x, x ∈ l2 → bp + HSIZE * n ≤ x.1 ∧ bp < x.1) →
  (b = (B, 0) ∧ l1 = [] ∨ b ∈ fl ∧ ∃ l1', l1 = (B, 0) :: l1') →
  let bl' := l1 ++ join b (join (bp, n) l2) in
  StronglySorted before bl' ∧ ∃ fl', bl' = (B, 0) :: fl' ∧ space fl' ≡ₚ units (bp, n) ++ space fl ∧
    (length fl' ≤ S (length fl))%nat ∧ ∀ x, x ∈ fl' → 0 < x.2.
Proof.
  intros Hs E Hle Hlt Hl2 Hb bl'. pose proof (rp_sort _ _ _ Hs) as Hso. rewrite E in Hso.
  assert (Hn : 0 < n) by (apply (rp_pos _ _ _ Hs (bp, n)); set_solver).
  assert (Hpos : ∀ x, x ∈ fl → 0 < x.2) by (intros x Hx; apply (rp_pos _ _ _ Hs); set_solver).
  assert (Hin : ∀ x, x ∈ l2 → x ∈ fl) by (intros x Hx; destruct l1; injection E as _ ->; set_solver).
  assert (Hb0 : 0 ≤ b.2) by (destruct Hb as [[-> _]|[Hb _]]; [done|specialize (Hpos b Hb); lia]).
  assert (Hso2 : StronglySorted before (join (bp, n) l2)).
  { apply join_sorted; [|by auto|intros c Hc; apply Hl2; done].
    apply StronglySorted_app_1_r in Hso. by apply StronglySorted_inv in Hso as [? _]. }
  assert (Hp2 : ∀ c, c ∈ join (bp, n) l2 → 0 < c.2).
  { intros c Hc. destruct (join_pos (bp, n) l2 ltac:(simpl; lia) ltac:(auto) c Hc) as [->|]; simpl; lia. }
  assert (Hg2 : ∀ c, c ∈ join (bp, n) l2 → bp ≤ c.1) by (apply (join_ge (bp, n)); intros c Hc; apply Hl2 in Hc; simpl; lia).
  assert (Hso3 : StronglySorted before (join b (join (bp, n) l2))).
  { apply join_sorted; [done|done|]. intros c Hc. specialize (Hg2 c Hc). lia. }
  split.
  - apply StronglySorted_app. split_and!; [|by eapply StronglySorted_app_1_l|done]. intros x y Hx Hy.
    pose proof (StronglySorted_app_1_elem_of _ _ _ x b Hso Hx ltac:(set_solver)) as Hxb.
    pose proof (join_ge b _ ltac:(intros c Hc; specialize (Hg2 c Hc); lia) y Hy). unfold before in *. lia.
  - assert (Esp : space bl' ≡ₚ units (bp, n) ++ space fl).
    { rewrite <- (space_base fl), E. unfold bl'. rewrite !space_app, space_cons.
      rewrite space_join by (done || (intros c Hc; specialize (Hp2 c Hc); lia)).
      rewrite space_join by (simpl; lia || (intros c Hc; specialize (Hpos c (Hin c Hc)); lia)). solve_Permutation. }
    assert (Hlen : (length bl' ≤ S (S (length fl)))%nat).
    { pose proof (f_equal length E) as Hl. unfold bl'. rewrite length_app in *. simpl in Hl.
      pose proof (length_join b (join (bp, n) l2)). pose proof (length_join (bp, n) l2). lia. }
    destruct Hb as [[-> ->]|[Hb (l1' & ->)]].
    + exists (join (bp, n) l2). assert (bl' = (B, 0) :: join (bp, n) l2) as Ebl; [|rewrite Ebl in Esp, Hlen; simpl in Hlen; split_and!; [done|done|lia|done]].
      unfold bl'. simpl. destruct (join (bp, n) l2) as [|c l]; [done|]. simpl.
      specialize (Hg2 c ltac:(set_solver)). simpl in Hlt. rewrite (proj2 (Z.eqb_neq _ _)) by (unfold HSIZE; lia). done.
    + exists (l1' ++ join b (join (bp, n) l2)). split; [done|]. split; [done|]. split; [unfold bl' in Hlen; simpl in Hlen; lia|]. intros x [Hx|Hx]%elem_of_app.
      * apply Hpos. injection E as ->. set_solver.
      * destruct (join_pos b _ Hb0 Hp2 x Hx) as [->|]; [by apply Hpos|done].
Qed.

(** The ring after the two links, whatever the blocks before the predecessor. *)
Lemma free_chain m l1 b bp n l2 : chain m (l1 ++ b :: l2) B → NoDup (l1 ++ b :: l2).*1 → bp ∉ (l1 ++ b :: l2).*1 →
  size (m bp) = n → B < bp → 0 ≤ n → b.1 + HSIZE * b.2 ≤ bp → b.1 < bp →
  let m' := linked m bp (first l2 B) in
  chain (linked m' b.1 bp) (l1 ++ join b (join (bp, n) l2)) B.
Proof.
  intros Hc Hnd Hbp Hn HBp Hn0 Hle Hlt m'. apply heap_chain_app in Hc as [Hc1 [Hb Hc2]].
  rewrite fmap_app, fmap_cons in Hnd, Hbp. apply NoDup_app in Hnd as (_ & Hd1 & Hd2). apply NoDup_cons in Hd2 as [Hd2 _].
  assert (Hj : chain m' (join (bp, n) l2) B).
  { apply (heap_linked_ok m (bp, n) l2 B); [done| |done|simpl; unfold HSIZE; lia]. intros c Hc' E. apply Hbp.
    simpl in E. rewrite <- E. rewrite elem_of_app, elem_of_cons. do 2 right. by apply list_elem_of_fmap_2. }
  assert (Hfst : first (join (bp, n) l2) B = bp) by (destruct l2; simpl; [done|by case_match]).
  assert (Hne : ∀ c, c ∈ join (bp, n) l2 → c.1 ≠ b.1).
  { intros c. destruct l2 as [|d l2]; simpl; [intros ->%list_elem_of_singleton; simpl; lia|].
    case_match; intros [->|Hc']%elem_of_cons; simpl; try lia; intros E; apply Hd2; rewrite <- E; apply list_elem_of_fmap_2; set_solver. }
  assert (Hb' : m' b.1 = mk_header (first l2 B) b.2) by (unfold m'; rewrite linked_ne by lia; exact Hb).
  apply heap_chain_app. split.
  - apply (chain_ext m).
    + assert (first (join b (join (bp, n) l2)) B = b.1) as ->; [|exact Hc1].
      destruct (join (bp, n) l2); simpl; [done|by case_match].
    + intros c Hc'. assert (c.1 ∈ l1.*1) as Hc1' by (by apply list_elem_of_fmap_2). unfold m'.
      rewrite linked_ne, linked_ne; [done| |]; intros E; rewrite E in Hc1'; [by apply Hbp, elem_of_app; left|].
      apply (Hd1 _ Hc1'), elem_of_cons. by left.
  - rewrite <- Hfst at 1. apply heap_linked_ok; [done|done|by rewrite Hb'|].
    intros E. by rewrite E in Hfst; simpl in Hfst; lia.
Qed.

Lemma join_head b l : 0 ≤ b.2 → (∀ c, c ∈ l → 0 ≤ c.2) → ∃ m l', join b l = (b.1, m) :: l' ∧ b.2 ≤ m ∧
  (m = b.2 ∧ l' = l ∨ ∃ c, head l = Some c ∧ m = b.2 + c.2).
Proof.
  intros Hb Hl. destruct l as [|c l]; cbn [join]; [exists b.2, []; destruct b; simpl; eauto using Z.le_refl|].
  pose proof (Hl c ltac:(set_solver)). case_match; [exists (b.2 + c.2), l|exists b.2, (c :: l)]; destruct b; simpl; (split; [done|split; [lia|]]); eauto.
Qed.

Lemma rep_nodup s fl al : rep s fl al → NoDup ((B, 0) :: fl).*1.
Proof.
  intros Hs. pose proof (rp_sort _ _ _ Hs) as Hso. assert (Hp : ∀ b, b ∈ (B, 0) :: fl → 0 ≤ b.2).
  { intros b [->|Hb]%elem_of_cons; [done|]. pose proof (rp_pos _ _ _ Hs b ltac:(set_solver)). lia. }
  apply NoDup_alt. intros i j x Hi Hj. apply list_lookup_fmap_Some in Hi as (b & -> & Hi), Hj as (b' & E & Hj).
  destruct (Nat.lt_trichotomy i j) as [Hlt|[|Hlt]]; [|done|].
  - pose proof (sorted_lookup _ _ _ _ _ Hso Hp Hi Hj Hlt). lia.
  - pose proof (sorted_lookup _ _ _ _ _ Hso Hp Hj Hi Hlt). lia.
Qed.

Lemma rep_foreign s fl al b : rep s fl al → b ∈ al → b.1 ∉ ((B, 0) :: fl).*1.
Proof.
  intros Hs Hb. destruct (rep_bounds _ _ _ Hs b) as (H1 & _ & _ & H4); [set_solver|]. unfold HSIZE in *.
  rewrite fmap_cons. intros [E|Hin]%elem_of_cons; [simpl in E; lia|]. apply list_elem_of_fmap in Hin as (c & E & Hc).
  destruct (rep_bounds _ _ _ Hs c) as (_ & _ & _ & H5); [set_solver|]. destruct (rep_apart _ _ _ Hs c b Hc Hb); unfold HSIZE in *; lia.
Qed.

(** The size of any header of the ring or of the program. *)
Lemma rep_size_le s fl al b : rep s fl al → b ∈ (B, 0) :: fl ++ al → b.1 + HSIZE * b.2 ≤ MEMMAX ∧ 0 ≤ b.2.
Proof.
  intros Hs [->|Hb]%elem_of_cons; destruct (rp_brk _ _ _ Hs) as [H1 _]; unfold HSIZE in *; [simpl; lia|].
  destruct (rep_bounds _ _ _ Hs b Hb) as (_ & _ & H2 & H3). unfold HSIZE in *. lia.
Qed.

(** The ring has a fitting block at the [j]-th place or right behind it. *)
Definition fits_at (bl : list block_t) (n : Z) (j : nat) : Prop :=
  ∃ b, bl !! j = Some b ∧ (n ≤ b.2 ∨ ∃ c, bl !! S j = Some c ∧ n ≤ c.2).

(** The place of a block to be freed, and what is known there. *)
Record place (s : heap) (fl al : list block_t) (bp n : Z) (l1 : list block_t) (b : block_t) (l2 : list block_t) : Prop := {
  pl_rep : rep s fl ((bp, n) :: al);
  pl_list : (B, 0) :: fl = l1 ++ b :: l2;
  pl_le : b.1 + HSIZE * b.2 ≤ bp;
  pl_lt : b.1 < bp;
  pl_after : ∀ x, x ∈ l2 → bp + HSIZE * n ≤ x.1 ∧ bp < x.1;
  pl_pred : b = (B, 0) ∧ l1 = [] ∨ b ∈ fl ∧ ∃ l1', l1 = (B, 0) :: l1' }.

Section place.
Context (s : heap) (fl al : list block_t) (bp n : Z) (l1 : list block_t) (b : block_t) (l2 : list block_t).
Context (Hpl : place s fl al bp n l1 b l2).

Lemma pl_index : ((B, 0) :: fl) !! length l1 = Some b.
Proof. rewrite (pl_list _ _ _ _ _ _ _ _ Hpl). by apply list_lookup_middle. Qed.

Lemma pl_next : ptr (hp s b.1) = first l2 B.
Proof.
  rewrite (chain_lookup _ _ _ _ _ (rp_chain _ _ _ (pl_rep _ _ _ _ _ _ _ _ Hpl)) pl_index). cbn [ptr].
  rewrite (pl_list _ _ _ _ _ _ _ _ Hpl), lookup_app_r by lia. replace (S (length l1) - length l1)%nat with 1%nat by lia. by destruct l2.
Qed.

Lemma pl_bp : bp ∉ ((B, 0) :: fl).*1 ∧ LO ≤ bp ∧ bp + HSIZE * n ≤ MEMMAX ∧ 0 < n ∧ size (hp s bp) = n.
Proof.
  pose proof (pl_rep _ _ _ _ _ _ _ _ Hpl) as Hs. destruct (rep_bounds _ _ _ Hs (bp, n)) as (H1 & _ & H2 & H3); [set_solver|].
  pose proof (rp_brk _ _ _ Hs) as [? _]. simpl in *. split_and!; try lia.
  - apply (rep_foreign _ _ _ (bp, n) Hs). set_solver.
  - apply (rp_size _ _ _ Hs (bp, n)). set_solver.
Qed.

Lemma pl_blocks c : c ∈ b :: l2 → 0 ≤ c.2 ∧ c.1 + HSIZE * c.2 ≤ MEMMAX.
Proof.
  intros Hc. destruct (rep_size_le _ _ _ c (pl_rep _ _ _ _ _ _ _ _ Hpl)); [|done].
  rewrite app_comm_cons, (pl_list _ _ _ _ _ _ _ _ Hpl). set_solver.
Qed.

Lemma free_search : wp (free_find (ring_fuel s) bp (freep s)) (λ p s', p = b.1 ∧ s' = s) s.
Proof.
  pose proof (pl_rep _ _ _ _ _ _ _ _ Hpl) as Hs. destruct pl_bp as (Hbp & HLObp & _). pose proof pl_index as Hk.
  destruct (rp_free _ _ _ Hs) as (j & c & Hj & ->).
  apply (free_find_ok s ((B, 0) :: fl) bp (length l1) b _ j c); try done; try apply Hs; try apply Hpl.
  - intros x Hx. apply (rep_size_le _ _ _ x Hs). set_solver.
  - unfold HSIZE in *. lia.
  - intros x Hx Ex. apply Hbp. rewrite <- Ex. by apply list_elem_of_fmap_2.
  - intros i x Hi Hlt'. apply (pl_after _ _ _ _ _ _ _ _ Hpl). rewrite (pl_list _ _ _ _ _ _ _ _ Hpl), lookup_app_r in Hi by lia.
    destruct (i - length l1)%nat eqn:Ei; [lia|]. by eapply list_elem_of_lookup_2.
  - pose proof (rep_length _ _ _ Hs). pose proof (lookup_lt_Some _ _ _ Hj). pose proof (lookup_lt_Some _ _ _ Hk). simpl length in *.
    assert (0 ≤ brk s / HSIZE) by (apply Z.div_pos; [destruct (rp_brk _ _ _ Hs)|]; unfold HSIZE in *; lia).
    unfold steps, ring_fuel. destruct (Nat.leb_spec j (length l1)); lia.
Qed.

(** The block as it is linked to its successors. *)
Lemma pl_joined : ∃ n' r, join (bp, n) l2 = (bp, n') :: r ∧ n ≤ n' ∧ bp + HSIZE * n' ≤ MEMMAX ∧ (∀ c, c ∈ r → 0 ≤ c.2) ∧
  n' = size (linked (hp s) bp (first l2 B) bp) ∧ 0 ≤ n + size (hp s (first l2 B)) < 2 ^ 32.
Proof.
  destruct pl_bp as (_ & HLObp & Hbpe & Hn & Hsz). pose proof pl_blocks as Hbl. pose proof (pl_after _ _ _ _ _ _ _ _ Hpl) as Haf.
  pose proof (rp_chain _ _ _ (pl_rep _ _ _ _ _ _ _ _ Hpl)) as Hch. pose proof (proj1 Hch) as HchB. simpl fst in HchB.
  rewrite (pl_list _ _ _ _ _ _ _ _ Hpl) in Hch. apply heap_chain_app in Hch as [_ [_ Hch]]. unfold linked. rewrite Hsz.
  destruct l2 as [|c l2']; cbn [first join fst snd] in *.
  - exists n, []. rewrite (proj2 (Z.eqb_neq _ _)) by (unfold HSIZE in *; lia). rewrite fn_lookup_insert, HchB. cbn [size].
    unfold HSIZE, MEMMAX in *. split_and!; try done; try lia. set_solver.
  - destruct (Hbl c) as [H1 H2]; [set_solver|]. destruct (Haf c) as [H3 H4]; [set_solver|]. rewrite (proj1 Hch). cbn [size ptr].
    unfold HSIZE, MEMMAX in *. destruct (Z.eqb_spec (bp + 16 * n) c.1); rewrite fn_lookup_insert; cbn [size];
    eexists _, _; (split; [done|]); split_and!; try lia; intros x Hx; apply Hbl; set_solver.
Qed.

Lemma linked_ext m m' a q : (∀ x, m x = m' x) → ∀ x, linked m a q x = linked m' a q x.
Proof.
  intros Hm x. unfold linked. rewrite !Hm. case_match; destruct (decide (x = a)) as [->|];
    rewrite ?fn_lookup_insert, ?fn_lookup_insert_ne by done; done || apply Hm.
Qed.

(** The two links. *)
Lemma free_links (Q : unit → heap → Prop) :
  (∀ s', (∀ x, hp s' x = linked (linked (hp s) bp (first l2 B)) b.1 bp x) → brk s' = brk s → Q tt s') →
  wp (link bp (first l2 B)) (λ _ s1, wp (link b.1 bp) Q s1) s.
Proof.
  intros HQ. destruct pl_bp as (_ & _ & _ & Hn & Hsz). destruct pl_joined as (n' & r & _ & Hnn & Hn' & _ & En' & Hu).
  pose proof (pl_lt _ _ _ _ _ _ _ _ Hpl) as Hlt. pose proof (pl_le _ _ _ _ _ _ _ _ Hpl) as Hle.
  destruct (pl_blocks b) as [Hb0 Hbm]; [set_solver|].
  assert (HbB : B ≤ b.1) by (destruct (pl_pred _ _ _ _ _ _ _ _ Hpl) as [[-> _]|[Hb _]]; [done|];
    destruct (rep_bounds _ _ _ (pl_rep _ _ _ _ _ _ _ _ Hpl) b) as [? _]; [set_solver|]; unfold HSIZE in *; lia).
  apply wp_link; [by rewrite Hsz|]. intros s1 Hs1 _ Hb1. apply wp_link.
  - rewrite !Hs1, <- En', linked_ne by lia.
    rewrite (chain_lookup _ _ _ _ _ (rp_chain _ _ _ (pl_rep _ _ _ _ _ _ _ _ Hpl)) pl_index). cbn [size].
    unfold HSIZE, MEMMAX in *. lia.
  - intros s2 Hs2 _ Hb2. apply HQ; [|congruence]. intros x. rewrite Hs2. by apply linked_ext.
Qed.

(** The ring that results; the predecessor, where [freep] is left, or the block
    behind it has room for [n] units. *)
Lemma free_result s' : (∀ x, hp s' x = linked (linked (hp s) bp (first l2 B)) b.1 bp x) → brk s' = brk s → freep s' = b.1 →
  ∃ fl' j c, rep s' fl' al ∧ space fl' ≡ₚ units (bp, n) ++ space fl ∧ brk s' = brk s ∧
    (length fl' ≤ S (length fl))%nat ∧ ((B, 0) :: fl') !! j = Some c ∧ freep s' = c.1 ∧ fits_at ((B, 0) :: fl') n j.
Proof.
  intros Hhp Hbrk Hfp. destruct Hpl as [Hs E Hle Hlt Haf Hpr]. destruct pl_bp as (Hbp & HLObp & _ & Hn & Hsz).
  destruct (free_list _ _ _ _ _ _ _ _ Hs E Hle Hlt Haf Hpr) as (Hso & fl' & E' & Hsp & Hlen & Hpos).
  destruct pl_joined as (n' & r & Ej & Hnn & _ & Hr & _). destruct (pl_blocks b) as [Hb0 _]; [set_solver|].
  destruct (join_head b (join (bp, n) l2) Hb0) as (m & r' & Ejb & Hmb & Hm).
  { rewrite Ej. intros c [->|Hc]%elem_of_cons; [simpl; lia|by apply Hr]. }
  assert (Hown : space fl' ++ space al ≡ₚ space fl ++ space ((bp, n) :: al)) by (rewrite Hsp, space_cons; solve_Permutation).
  exists fl', (length l1), (b.1, m). rewrite <- E' in *. rewrite Ejb.
  assert (Hj : (l1 ++ (b.1, m) :: r') !! length l1 = Some (b.1, m)) by (by apply list_lookup_middle). split_and!; try done.
  - split.
    + rewrite <- E'. apply (chain_ext (linked (linked (hp s) bp (first l2 B)) b.1 bp)); [|intros; apply Hhp].
      apply free_chain; rewrite <- ?E; try done; [apply Hs|by eapply rep_nodup| |]; unfold HSIZE in *; lia.
    + by rewrite <- E'.
    + rewrite Hown. apply Hs.
    + intros u Hu. rewrite Hbrk. rewrite Hown in Hu. by apply Hs.
    + intros c [Hc|Hc]%elem_of_app; [by apply Hpos|]. apply (rp_pos _ _ _ Hs). set_solver.
    + intros c Hc. pose proof (rep_foreign _ _ _ c Hs ltac:(set_solver)) as Hf. rewrite Hhp.
      assert (c.1 ≠ bp) as Hcb.
      { intros Ec. pose proof (rp_own _ _ _ Hs) as [_ [_ Hnd]]%NoDup_app. rewrite space_cons in Hnd.
        apply NoDup_app in Hnd as (_ & Hnd & _). apply (Hnd bp); [by apply unit_0|]. apply elem_of_space. exists c.
        split; [done|]. destruct c as [a k]. simpl in Ec. subst. apply unit_0. apply (rp_pos _ _ _ Hs (bp, k)). set_solver. }
      rewrite linked_ne, linked_ne; [apply (rp_size _ _ _ Hs); set_solver|done|].
      intros Ec. apply Hf. rewrite Ec. apply list_elem_of_fmap_2. rewrite E. set_solver.
    + exists (length l1), (b.1, m). by rewrite <- E', Ejb.
    + rewrite Hbrk. apply Hs.
  - exists (b.1, m). split; [done|]. simpl. destruct Hm as [[-> ->]|(c & Hh & ->)].
    + right. exists (bp, n'). rewrite lookup_app_r by lia. replace (S (length l1) - length l1)%nat with 1%nat by lia. by rewrite Ej.
    + left. rewrite Ej in Hh. injection Hh as <-. simpl. lia.
Qed.

End place.

Lemma heap_free_ok s fl al bp n : rep s fl ((bp, n) :: al) →
  wp (free (bp + HSIZE)) (λ _ s', ∃ fl' j c, rep s' fl' al ∧ space fl' ≡ₚ units (bp, n) ++ space fl ∧ brk s' = brk s ∧
    (length fl' ≤ S (length fl))%nat ∧ ((B, 0) :: fl') !! j = Some c ∧ freep s' = c.1 ∧ fits_at ((B, 0) :: fl') n j) s.
Proof.
  intros Hs. destruct (free_place _ _ _ _ _ Hs) as (l1 & b & l2 & E & Hle & Hlt & Hl2 & Hb).
  assert (Hpl : place s fl al bp n l1 b l2) by (by split). unfold free. replace (bp + HSIZE - HSIZE) with bp by lia.
  apply wp_bind, wp_gets, wp_bind, wp_gets, wp_bind. eapply wp_mono; [by eapply free_search|].
  intros p s1 [-> ->]. apply wp_bind, wp_gets. rewrite (pl_next _ _ _ _ _ _ _ _ Hpl).
  apply wp_bind. eapply (wp_mono _ (λ _ s1, wp (link b.1 bp) (λ _ s2,
    (∀ x, hp s2 x = linked (linked (hp s) bp (first l2 B)) b.1 bp x) ∧ brk s2 = brk s) s1)); [by eapply free_links|].
  intros [] s1 H. apply wp_bind. eapply wp_mono; [exact H|]. intros [] s2 [Hhp Hbrk]. apply wp_modify.
  by eapply (free_result _ _ _ _ _ _ _ _ Hpl).
Qed.

(** *** malloc *)

(** The next place in a ring of [n]. *)
Definition after (n j : nat) : nat := if (S j <? n)%nat then S j else 0%nat.

Lemma steps_after n j k : (j < n)%nat → (k < n)%nat → j ≠ k → (steps n (after n j) k < steps n j k)%nat.
Proof.
  intros Hj Hk Hne. unfold steps, after.
  destruct (Nat.ltb_spec (S j) n), (Nat.leb_spec j k); try (destruct (Nat.leb_spec (S j) k)); try (destruct (Nat.leb_spec 0 k)); lia.
Qed.

Lemma steps_le n j k : (j < n)%nat → (k < n)%nat → (steps n j k < n)%nat.
Proof. intros. unfold steps. destruct (Nat.leb_spec j k); lia. Qed.

Lemma ring_next s fl al j b : rep s fl al → ((B, 0) :: fl) !! j = Some b →
  ∃ c, ((B, 0) :: fl) !! after (length ((B, 0) :: fl)) j = Some c ∧ hp s b.1 = mk_header c.1 b.2.
Proof.
  intros Hs Hj. rewrite (chain_lookup _ _ _ _ _ (rp_chain _ _ _ Hs) Hj). unfold after.
  destruct (Nat.ltb_spec (S j) (length ((B, 0) :: fl))) as [Hlt|Hge].
  - destruct (lookup_lt_is_Some_2 _ _ Hlt) as [c Hc]. exists c. by rewrite Hc.
  - exists (B, 0). split; [done|]. by rewrite (lookup_ge_None_2 _ _ Hge).
Qed.

(** What malloc leaves: nothing changed for the program, or one more block. *)
Definition taken (nunits : Z) (al : list block_t) (r : Z) (s' : heap) : Prop :=
  (r = 0 ∧ ∃ fl', rep s' fl' al) ∨ ∃ a fl', r = a + HSIZE ∧ rep s' fl' ((a, nunits) :: al).

(** The lists around a block that is taken from the ring. *)
Lemma carve_lists fl l1 a c l2 d : (B, 0) :: fl = l1 ++ a :: c :: l2 →
  ∃ fl', (B, 0) :: fl' = l1 ++ a :: d ++ l2 ∧ space fl' ++ units c ≡ₚ space fl ++ space d ∧ c ∈ fl ∧
    ∀ x, x ∈ fl' → x ∈ fl ∨ x ∈ d.
Proof.
  intros E. assert (Hfl : ∃ fl', (B, 0) :: fl' = l1 ++ a :: d ++ l2).
  { destruct l1; injection E as <- _; simpl; by eexists. }
  destruct Hfl as (fl' & E'). exists fl'. split; [done|].
  rewrite <- (space_base fl), <- (space_base fl'), E, E'. split; [|split].
  - rewrite !space_app, !space_cons, !space_app. solve_Permutation.
  - destruct l1; injection E as _ ->; set_solver.
  - intros x Hx. destruct l1; injection E as _ ->; injection E' as -> || injection E' as _ ->; set_solver.
Qed.

Section carve.
Context (s : heap) (fl al : list block_t) (l1 : list block_t) (a c : block_t) (l2 : list block_t) (n : Z).
Context (Hs : rep s fl al) (E : (B, 0) :: fl = l1 ++ a :: c :: l2) (Hn : 0 < n).

Lemma carve_order : ∀ x, x ∈ l1 ++ a :: l2 → x.1 < c.1 ∨ c.1 + HSIZE * c.2 < x.1.
Proof.
  pose proof (rp_sort _ _ _ Hs) as Hso. rewrite E in Hso.
  assert (Hp : ∀ x, x ∈ l1 ++ a :: c :: l2 → 0 ≤ x.2).
  { rewrite <- E. intros x Hx. apply (rep_size_le _ _ _ x Hs). set_solver. }
  intros x Hx. apply elem_of_app in Hx as [Hx|[->|Hx]%elem_of_cons].
  - left. pose proof (StronglySorted_app_1_elem_of _ _ _ x c Hso Hx ltac:(set_solver)) as Hb. specialize (Hp x ltac:(set_solver)).
    unfold before, HSIZE in *. lia.
  - left. apply StronglySorted_app_1_r, StronglySorted_inv in Hso as [_ Hf]. specialize (Hp a ltac:(set_solver)).
    pose proof (proj1 (Forall_forall _ _) Hf c ltac:(set_solver)) as Hb. unfold before, HSIZE in *. lia.
  - right. apply StronglySorted_app_1_r, StronglySorted_inv in Hso as [Hso _]. apply StronglySorted_inv in Hso as [_ Hf].
    apply (proj1 (Forall_forall _ _) Hf x Hx).
Qed.

Lemma carve_sorted d : (∀ x, x ∈ d → c.1 ≤ x.1 ∧ x.1 + HSIZE * x.2 ≤ c.1 + HSIZE * c.2) → StronglySorted before d →
  StronglySorted before (l1 ++ a :: d ++ l2).
Proof.
  intros Hd Hsd. pose proof (rp_sort _ _ _ Hs) as Hso. rewrite E in Hso.
  change (l1 ++ a :: c :: l2) with (l1 ++ [a] ++ [c] ++ l2) in Hso. change (l1 ++ a :: d ++ l2) with (l1 ++ [a] ++ d ++ l2).
  rewrite app_assoc in *. apply StronglySorted_app in Hso as (H1 & H2 & [H3 [_ H4]]%StronglySorted_app).
  apply StronglySorted_app. split_and!; [|done|].
  - intros x y Hx [Hy|Hy]%elem_of_app; [|apply H1; set_solver]. pose proof (H1 x c Hx ltac:(set_solver)) as Hb. destruct (Hd y Hy).
    unfold before, HSIZE in *. lia.
  - apply StronglySorted_app. split_and!; [|done|done]. intros x y Hx Hy. pose proof (H3 c y ltac:(set_solver) Hy) as Hb.
    destruct (Hd x Hx). unfold before, HSIZE in *. lia.
Qed.

(** Taking [n] units: the ring keeps [d] of the block, the program gets them at [p]. *)
Lemma carve_rep p d s' : c ∈ fl → units c ≡ₚ space d ++ units (p, n) → p ∈ units c →
  (∀ x, x ∈ d → 0 < x.2 ∧ c.1 ≤ x.1 ∧ x.1 + HSIZE * x.2 ≤ c.1 + HSIZE * c.2) → StronglySorted before d →
  chain (hp s') (l1 ++ a :: d ++ l2) B → size (hp s' p) = n →
  (∀ x, x ∈ al → size (hp s' x.1) = size (hp s x.1)) → brk s' = brk s → freep s' = a.1 →
  ∃ fl', rep s' fl' ((p, n) :: al).
Proof.
  intros Hcf Hu Hp Hd Hsd Hch Hsz Hal Hbrk Hfp. destruct (carve_lists fl l1 a c l2 d E) as (fl' & E' & Hsp & _ & Hin).
  assert (Hown : space fl' ++ space ((p, n) :: al) ≡ₚ space fl ++ space al).
  { rewrite space_cons. rewrite Hu in Hsp. rewrite app_assoc.
    enough (space fl' ++ units (p, n) ≡ₚ space fl) as -> by done.
    apply (Permutation_app_inv_l (space d)). rewrite <- (Permutation_app_comm (space fl)). rewrite <- Hsp. solve_Permutation. }
  exists fl'. split; rewrite ?E', ?Hown; try done.
  - apply carve_sorted; [|done]. intros x Hx. by apply Hd.
  - apply Hs.
  - intros u Hu'. rewrite Hown in Hu'. rewrite Hbrk. by apply Hs.
  - intros x [Hx|[->|Hx]%elem_of_cons]%elem_of_app; [|done|apply (rp_pos _ _ _ Hs); set_solver].
    destruct (Hin x Hx) as [Hx'|Hx']; [apply (rp_pos _ _ _ Hs); set_solver|by apply Hd].
  - intros x [->|Hx]%elem_of_cons; [done|]. rewrite Hal by done. by apply Hs.
  - exists (length l1), a. split; [by apply list_lookup_middle|done].
  - rewrite Hbrk. apply Hs.
Qed.

Lemma carve_chain : chain (hp s) l1 a.1 ∧ hp s a.1 = mk_header c.1 a.2 ∧ hp s c.1 = mk_header (first l2 B) c.2 ∧ chain (hp s) l2 B.
Proof. pose proof (rp_chain _ _ _ Hs) as Hch. rewrite E in Hch. apply heap_chain_app in Hch as (? & ? & ? & ?). done. Qed.

Lemma carve_apart x : x ∈ al → x.1 ≠ a.1 ∧ ¬ (c.1 ≤ x.1 < c.1 + HSIZE * c.2).
Proof.
  intros Hx. assert (Hcf : c ∈ fl) by (destruct l1; injection E as _ ->; set_solver). split.
  - intros Ex. apply (rep_foreign _ _ _ x Hs Hx). rewrite Ex, E. apply list_elem_of_fmap_2. set_solver.
  - destruct (rep_bounds _ _ _ Hs x) as (_ & _ & _ & ?); [set_solver|]. destruct (rep_apart _ _ _ Hs c x Hcf Hx); unfold HSIZE in *; lia.
Qed.

Lemma carve_in : c ∈ fl ∧ a.1 < c.1 ∧ c.1 + HSIZE * c.2 ≤ MEMMAX ∧ LO ≤ c.1.
Proof.
  assert (Hcf : c ∈ fl) by (destruct l1; injection E as _ ->; set_solver).
  destruct (rep_size_le _ _ _ c Hs) as [? _]; [set_solver|]. destruct (rep_bounds _ _ _ Hs c) as (? & _); [set_solver|].
  split_and!; [done| |done|done]. pose proof (rp_sort _ _ _ Hs) as Hso. rewrite E in Hso.
  apply StronglySorted_app_1_r, StronglySorted_inv in Hso as [_ Hf]. pose proof (proj1 (Forall_forall _ _) Hf c ltac:(set_solver)) as Hb.
  destruct (rep_size_le _ _ _ a Hs) as [_ ?]; [rewrite app_comm_cons, E; set_solver|]. unfold before, HSIZE in *. lia.
Qed.

(** The rest of the ring does not see changes of [a] and inside [c]. *)
Lemma carve_keep m' : (∀ x, x ≠ a.1 → ¬ (c.1 ≤ x < c.1 + HSIZE * c.2) → m' x = hp s x) → chain m' l1 a.1 ∧ chain m' l2 B.
Proof.
  intros Hm. destruct carve_chain as (Hc1 & _ & _ & Hc2). pose proof (rep_nodup _ _ _ Hs) as Hnd. rewrite E, fmap_app, !fmap_cons in Hnd.
  apply NoDup_app in Hnd as (_ & Hd1 & Hd2). apply NoDup_cons in Hd2 as [Hd2 _].
  destruct carve_in as (Hcf & _). pose proof (rp_pos _ _ _ Hs c ltac:(set_solver)) as Hcp.
  split; (eapply chain_ext; [eassumption|]); intros x Hx; apply Hm.
  - intros Ex. apply (Hd1 x.1); [by apply list_elem_of_fmap_2|]. rewrite Ex. set_solver.
  - destruct (carve_order x ltac:(set_solver)); unfold HSIZE in *; lia.
  - intros Ex. apply Hd2. rewrite <- Ex. apply elem_of_cons. right. by apply list_elem_of_fmap_2.
  - destruct (carve_order x ltac:(set_solver)); unfold HSIZE in *; lia.
Qed.

Lemma carve_exact s' : c.2 = n → hp s' = <[a.1 := mk_header (first l2 B) (size (hp s a.1))]> (hp s) → brk s' = brk s → freep s' = a.1 →
  ∃ fl', rep s' fl' ((c.1, n) :: al).
Proof.
  intros En Hhp Hbrk Hfp. destruct carve_chain as (_ & Ha & Hc & _). destruct carve_in as (Hcf & Hca & _).
  destruct (carve_keep (hp s')) as [H1 H2].
  { intros x Hx _. rewrite Hhp, fn_lookup_insert_ne; [done|congruence]. }
  apply (carve_rep c.1 []); try done.
  - destruct c; simpl in *; by subst.
  - destruct c; apply unit_0; simpl in *; lia.
  - set_solver.
  - constructor.
  - apply heap_chain_app. split; [exact H1|]. split; [|exact H2]. by rewrite Hhp, fn_lookup_insert, Ha.
  - rewrite Hhp, fn_lookup_insert_ne by lia. by rewrite Hc.
  - intros x Hx. rewrite Hhp, fn_lookup_insert_ne; [done|]. symmetry. by apply carve_apart.
Qed.

Lemma carve_split s' : n < c.2 → let p := c.1 + HSIZE * (c.2 - n) in
  hp s' = <[p := mk_header (ptr (hp s p)) n]> (<[c.1 := mk_header (first l2 B) (c.2 - n)]> (hp s)) →
  brk s' = brk s → freep s' = a.1 → ∃ fl', rep s' fl' ((p, n) :: al).
Proof.
  intros Hlt p Hhp Hbrk Hfp. destruct carve_chain as (_ & Ha & Hc & _). destruct carve_in as (Hcf & Hca & _).
  assert (Hp : c.1 < p < c.1 + HSIZE * c.2) by (unfold p, HSIZE; lia).
  assert (Hhp' : ∀ x, x ≠ p → x ≠ c.1 → hp s' x = hp s x) by (intros; by rewrite Hhp, !fn_lookup_insert_ne by done).
  destruct (carve_keep (hp s')) as [H1 H2]; [intros x Hx Hx'; apply Hhp'; lia|].
  assert (Hs'c : hp s' c.1 = mk_header (first l2 B) (c.2 - n)) by (rewrite Hhp, fn_lookup_insert_ne, fn_lookup_insert by lia; done).
  apply (carve_rep p [(c.1, c.2 - n)]); try done.
  - rewrite space_cons, app_nil_r. destruct c as [c0 m]. simpl in *. replace m with (m - n + n) at 1 by lia. by rewrite units_app by lia.
  - apply elem_of_units. exists (c.2 - n). unfold p. lia.
  - intros x ->%list_elem_of_singleton. simpl. unfold HSIZE. lia.
  - repeat constructor.
  - apply heap_chain_app. split; [exact H1|]. split; [by rewrite Hhp', Ha by lia|]. by split.
  - by rewrite Hhp, fn_lookup_insert.
  - intros x Hx. destruct (carve_apart x Hx). rewrite Hhp'; [done|lia|unfold HSIZE in *; lia].
Qed.

Lemma carve_ok (Q : Z → heap → Prop) : n ≤ c.2 → (∀ r s', taken n al r s' → Q r s') → wp (carve n a.1 c.1) Q s.
Proof.
  intros Hle HQ. destruct carve_chain as (_ & Ha & Hc & _). destruct carve_in as (_ & Hca & Hcm & HcLO).
  unfold carve. apply wp_bind, wp_gets. rewrite Hc. cbn [size ptr].
  destruct (Z.eqb_spec c.2 n) as [En|En]; apply wp_bind.
  - apply wp_bind, wp_modify, wp_ret, wp_bind, wp_modify, wp_ret, HQ. right. exists c.1.
    destruct (carve_exact (set_freep a.1 (set_ptr a.1 (first l2 B) s)) En) as (fl' & ?); [done..|]. by exists fl'.
  - rewrite u32_small by (unfold HSIZE, MEMMAX in *; lia).
    apply wp_bind, wp_modify, wp_bind, wp_modify, wp_ret, wp_bind, wp_modify, wp_ret, HQ. right.
    exists (c.1 + HSIZE * (c.2 - n)). set (s' := set_freep _ _). destruct (carve_split s') as (fl' & ?); [lia| |done..|by exists fl'].
    unfold s', set_freep, set_size. cbn [hp]. rewrite Hc. cbn [ptr]. rewrite fn_lookup_insert_ne by (unfold HSIZE; lia). done.
Qed.

End carve.

(** *** Growing and searching *)

Section grow.
Context (can_grow : Z → bool) (Hgrow : ∀ sz, can_grow sz = true → sz ≤ MEMMAX).

(** Memory from the kernel, as a block of the program. *)
Lemma rep_grow s fl al nu : rep s fl al → 0 < nu → brk s + HSIZE * nu ≤ MEMMAX →
  rep (set_size (brk s) nu (set_brk (brk s + nu * HSIZE) s)) fl ((brk s, nu) :: al).
Proof.
  intros Hs Hnu Hmax. pose proof (rp_brk _ _ _ Hs) as [Hb Hb16]. unfold HSIZE in *.
  assert (Hnew : ∀ u, u ∈ units (brk s, nu) → brk s ≤ u < brk s + nu * 16 ∧ u mod 16 = 0).
  { intros u (i & Hi & ->)%elem_of_units. unfold HSIZE. simpl in *. split; [lia|]. rewrite Z.mul_comm, Z_mod_plus_full. done. }
  assert (Hne : ∀ b, b ∈ (B, 0) :: fl ++ al → b.1 ≠ brk s).
  { intros b [->|Hb']%elem_of_cons; [simpl; lia|]. destruct (rep_bounds _ _ _ Hs b Hb') as (_ & _ & ? & ?). unfold HSIZE in *. lia. }
  split; cbn [hp brk freep set_size set_brk].
  - apply (chain_ext (hp s)); [apply Hs|]. intros b Hb'. rewrite fn_lookup_insert_ne; [done|]. specialize (Hne b). set_solver.
  - apply Hs.
  - rewrite space_cons. assert (Ep : space fl ++ units (brk s, nu) ++ space al ≡ₚ units (brk s, nu) ++ (space fl ++ space al)) by solve_Permutation.
    rewrite Ep. apply NoDup_app. split_and!; [| |apply Hs].
    + unfold units. apply NoDup_fmap_2_strong; [|apply NoDup_seqZ]. intros x y _ _. simpl. unfold HSIZE. lia.
    + intros u Hu Hu'. destruct (Hnew u Hu). destruct (rp_in _ _ _ Hs u Hu'). lia.
  - intros u. rewrite space_cons, !elem_of_app. unfold HSIZE. intros [Hu|[Hu|Hu]].
    + destruct (rp_in _ _ _ Hs u) as [? ?]; [set_solver|]. unfold HSIZE in *. lia.
    + destruct (Hnew u Hu). lia.
    + destruct (rp_in _ _ _ Hs u) as [? ?]; [set_solver|]. unfold HSIZE in *. lia.
  - intros b Hb'. apply elem_of_app in Hb' as [?|[->|?]%elem_of_cons]; [|done|]; apply (rp_pos _ _ _ Hs); set_solver.
  - intros b [->|Hb']%elem_of_cons; [by rewrite fn_lookup_insert|]. rewrite fn_lookup_insert_ne; [by apply Hs|].
    specialize (Hne b). set_solver.
  - apply Hs.
  - unfold HSIZE. split; [lia|]. by rewrite Z_mod_plus_full.
Qed.

Lemma morecore_ok s fl al nu : rep s fl al → 0 < nu < 2 ^ 27 →
  wp (morecore can_grow nu) (λ p s', (p = 0 ∧ s' = s) ∨ ∃ fl' j c, rep s' fl' al ∧ (length fl' ≤ S (length fl))%nat ∧
    ((B, 0) :: fl') !! j = Some c ∧ freep s' = c.1 ∧ p = c.1 ∧ fits_at ((B, 0) :: fl') nu j) s.
Proof.
  intros Hs Hnu. pose proof (rp_brk _ _ _ Hs) as [Hb _]. unfold morecore.
  set (nu' := if nu <? 4096 then 4096 else nu). assert (Hnu' : 0 < nu' < 2 ^ 27 ∧ nu ≤ nu') by (unfold nu'; destruct (Z.ltb_spec nu 4096); lia).
  rewrite s32_small by (unfold HSIZE; lia). apply wp_bind. unfold sbrk. apply wp_bind, wp_gets.
  rewrite (proj2 (Z.ltb_lt _ _)) by (unfold HSIZE; lia). destruct (can_grow _) eqn:Eg.
  - apply wp_bind, wp_modify, wp_ret. rewrite (proj2 (Z.eqb_neq _ _)) by (unfold HSIZE in *; lia).
    apply wp_bind, wp_modify, wp_bind. apply Hgrow in Eg.
    eapply wp_mono; [apply (heap_free_ok _ fl al (brk s) nu'); apply rep_grow; [done|lia|unfold HSIZE in *; lia]|].
    intros [] s' (fl' & j & c & Hr & _ & _ & Hlen & Hj & Hf & Hfit). apply wp_gets. right. exists fl', j, c. split_and!; try done.
    destruct Hfit as (b & Hb' & Hfit). exists b. split; [done|]. destruct Hfit as [|(d & ? & ?)]; [left; lia|right; exists d; split; [done|lia]].
  - apply wp_ret. rewrite Z.eqb_refl. apply wp_ret. by left.
Qed.

(** A fitting block at the [j]-th place, behind the [i]-th. *)
Lemma carve_at s fl al i j a c n : rep s fl al → 0 < n → ((B, 0) :: fl) !! i = Some a → ((B, 0) :: fl) !! j = Some c →
  after (length ((B, 0%Z) :: fl)) i = j → n ≤ c.2 → wp (carve n a.1 c.1) (taken n al) s.
Proof.
  intros Hs Hn Hi Hj Hij Hle. assert (j = S i) as ->.
  { revert Hij. unfold after. destruct (Nat.ltb_spec (S i) (length ((B, 0%Z) :: fl))); intros <-; [done|]. injection Hj as <-. simpl in Hle. lia. }
  eapply (carve_ok s fl al (take i ((B, 0) :: fl)) a c (drop (S (S i)) ((B, 0) :: fl))); try done.
  rewrite <- (drop_S _ _ _ Hj), <- (drop_S _ _ _ Hi). by rewrite take_drop.
Qed.

(** The search after the heap has grown: a fitting block is at [g], and [freep] is
    not met before it. *)
Lemma scan_found fuel s fl al n f g i j a c : rep s fl al → 0 < n → (∃ b, ((B, 0) :: fl) !! f = Some b ∧ freep s = b.1) →
  (∃ d, ((B, 0) :: fl) !! g = Some d ∧ n ≤ d.2) → (g = f ∨ j = g) →
  ((B, 0) :: fl) !! i = Some a → ((B, 0) :: fl) !! j = Some c → after (length ((B, 0%Z) :: fl)) i = j →
  (steps (length ((B, 0%Z) :: fl)) j g < fuel)%nat →
  wp (malloc_loop can_grow fuel n a.1 c.1) (taken n al) s.
Proof.
  intros Hs Hn (b & Hf & Ef) (d & Hg & Hd). revert i j a c. induction fuel as [|fuel IH]; intros i j a c Hgf Hi Hj Hij Hfu; [lia|].
  cbn [malloc_loop]. apply wp_bind, wp_gets. destruct (ring_next _ _ _ _ _ Hs Hj) as (e & He & ->). cbn [size ptr].
  destruct (Z.leb_spec n c.2) as [Hle|Hgt]; [by eapply carve_at|]. assert (j ≠ g) as Hjg by (intros ->; simplify_eq; lia).
  destruct Hgf as [->|]; [|done]. apply wp_bind, wp_gets. rewrite Ef. rewrite (proj2 (Z.eqb_neq _ _)).
  - eapply IH; [by left|exact Hj|exact He|done|].
    pose proof (steps_after _ _ _ (lookup_lt_Some _ _ _ Hj) (lookup_lt_Some _ _ _ Hf) Hjg). lia.
  - intros Eb. apply Hjg. pose proof (rep_nodup _ _ _ Hs) as Hnd. eapply (NoDup_lookup _ _ _ b.1 Hnd).
    + rewrite list_lookup_fmap, Hj. simpl. by f_equal.
    + by rewrite list_lookup_fmap, Hf.
Qed.

(** The search from the start. *)
Lemma scan_ok fuel s fl al n f i j a c : rep s fl al → 0 < n < 2 ^ 27 → (∃ b, ((B, 0) :: fl) !! f = Some b ∧ freep s = b.1) →
  ((B, 0) :: fl) !! i = Some a → ((B, 0) :: fl) !! j = Some c → after (length ((B, 0%Z) :: fl)) i = j →
  (steps (length ((B, 0%Z) :: fl)) j f + length fl + 3 < fuel)%nat →
  wp (malloc_loop can_grow fuel n a.1 c.1) (taken n al) s.
Proof.
  intros Hs Hn (b & Hf & Ef). revert i j a c. induction fuel as [|fuel IH]; intros i j a c Hi Hj Hij Hfu; [lia|].
  cbn [malloc_loop]. apply wp_bind, wp_gets. destruct (ring_next _ _ _ _ _ Hs Hj) as (e & He & ->). cbn [size ptr].
  destruct (Z.leb_spec n c.2) as [Hle|Hgt]; [by eapply carve_at; [done|lia|..]|]. apply wp_bind, wp_gets. rewrite Ef.
  pose proof (rep_nodup _ _ _ Hs) as Hnd. destruct (Z.eqb_spec c.1 b.1) as [Eb|Eb].
  - apply wp_bind. eapply wp_mono; [by apply morecore_ok|]. intros p s' [[-> ->]|(fl' & k & d & Hs' & Hlen & Hk & Efp & -> & Hfit)].
    { rewrite Z.eqb_refl. apply wp_ret. left. split; [done|]. by exists fl. }
    rewrite (proj2 (Z.eqb_neq _ _)).
    2:{ apply list_elem_of_lookup_2 in Hk. apply elem_of_cons in Hk as [->|Hk]; [simpl; lia|].
        destruct (rep_bounds _ _ _ Hs' d) as [? _]; [set_solver|]. unfold HSIZE in *. lia. }
    apply wp_bind, wp_gets. destruct (ring_next _ _ _ _ _ Hs' Hk) as (d' & Hd' & ->). cbn [ptr].
    destruct Hfit as (x & Hx & Hfit). rewrite Hk in Hx. injection Hx as <-. pose proof (lookup_lt_Some _ _ _ Hk) as Hkl. pose proof (lookup_lt_Some _ _ _ Hd') as Hdl.
    destruct Hfit as [Hfit|(y & Hy & Hfit)].
    + eapply (scan_found fuel s' fl' al n k k k); try done; [lia|by exists d|by exists d|by left|].
      pose proof (steps_le _ _ _ Hdl Hkl). simpl length in *. lia.
    + pose proof (lookup_lt_Some _ _ _ Hy) as Hyl. assert (after (length ((B, 0%Z) :: fl')) k = S k) as Ea.
      { unfold after. destruct (Nat.ltb_spec (S k) (length ((B, 0%Z) :: fl'))); [done|lia]. }
      eapply (scan_found fuel s' fl' al n k (S k) k); try done; [lia|by exists d|by exists y|by right|].
      rewrite Ea. unfold steps. rewrite Nat.leb_refl. lia.
  - assert (j ≠ f) as Hjf by (intros ->; simplify_eq). eapply IH; [exact Hj|exact He|done|].
    pose proof (steps_after _ _ _ (lookup_lt_Some _ _ _ Hj) (lookup_lt_Some _ _ _ Hf) Hjf). lia.
Qed.

(** Before the first call. *)
Definition fresh (s : heap) : Prop := freep s = 0 ∧ LO ≤ brk s ≤ MEMMAX ∧ brk s mod HSIZE = 0.

Definition ready (s : heap) (fl al : list block_t) : Prop := rep s fl al ∨ fresh s ∧ fl = [] ∧ al = [].

Lemma rep_ring_fuel s fl al : rep s fl al → (length fl + 2 ≤ ring_fuel s)%nat.
Proof.
  intros Hs. pose proof (rep_length _ _ _ Hs). pose proof (rp_brk _ _ _ Hs) as [? _].
  assert (0 ≤ brk s / HSIZE) by (apply Z.div_pos; unfold HSIZE in *; lia). unfold ring_fuel. lia.
Qed.

Lemma malloc_rep s fl al nbytes : rep s fl al → 0 ≤ nbytes ≤ 2 ^ 30 →
  wp (malloc B can_grow nbytes) (taken (units_for nbytes) al) s.
Proof.
  intros Hs Hnb. assert (Hn : 0 < units_for nbytes < 2 ^ 27).
  { unfold units_for. rewrite u32_small; unfold HSIZE; Z.to_euclidean_division_equations; lia. }
  destruct (rp_free _ _ _ Hs) as (f & b & Hf & Ef). destruct (ring_next _ _ _ _ _ Hs Hf) as (c & Hc & Hh).
  assert (b.1 ≠ 0) as Hb0.
  { pose proof (list_elem_of_lookup_2 _ _ _ Hf) as [->|Hb]%elem_of_cons; [simpl; lia|].
    destruct (rep_bounds _ _ _ Hs b) as [? _]; [set_solver|]. unfold HSIZE in *. lia. }
  unfold malloc. apply wp_bind, wp_gets, wp_bind, wp_when; rewrite Ef; [by intros ?%Z.eqb_eq|intros _].
  apply wp_bind, wp_gets, wp_bind, wp_gets, wp_bind, wp_gets. rewrite Ef, Hh. cbn [ptr].
  eapply (scan_ok _ s fl al _ f f); try done; [by exists b|].
  pose proof (rep_ring_fuel _ _ _ Hs). pose proof (steps_le _ _ _ (lookup_lt_Some _ _ _ Hc) (lookup_lt_Some _ _ _ Hf)).
  simpl length in *. lia.
Qed.

(** The first call sets up the ring. *)
Definition started (s : heap) : heap := set_size B 0 (set_ptr B B (set_freep B s)).

Lemma malloc_fresh nbytes s : freep s = 0 → malloc B can_grow nbytes s = malloc B can_grow nbytes (started s).
Proof.
  intros Hf. unfold malloc, gets, mbind, M_bind. cbn. rewrite Hf. simpl. destruct (Z.eqb_spec B 0); [lia|]. done.
Qed.

Lemma started_rep s : fresh s → rep (started s) [] [].
Proof.
  intros (_ & Hb & Hb16). split; simpl; try done; try (by intros ? ?%not_elem_of_nil).
  - by rewrite !fn_lookup_insert.
  - repeat constructor.
  - constructor.
  - by exists 0%nat, (B, 0).
Qed.

Lemma malloc_ready s fl al nbytes : ready s fl al → 0 ≤ nbytes ≤ 2 ^ 30 →
  wp (malloc B can_grow nbytes) (taken (units_for nbytes) al) s.
Proof.
  intros [Hs|(Hf & -> & ->)] Hn; [by eapply malloc_rep|]. unfold wp. rewrite malloc_fresh by apply Hf.
  apply (malloc_rep (started s) []); [by apply started_rep|done].
Qed.

Lemma rep_perm s fl al al' : al ≡ₚ al' → rep s fl al → rep s fl al'.
Proof.
  intros Hp [H1 H2 H3 H4 H5 H6 H7 H8]. assert (Hsp : space al ≡ₚ space al') by (unfold space; by rewrite Hp).
  split; try done; [by rewrite <- Hsp|..]; intros x Hx.
  - apply H4. by rewrite Hsp.
  - apply H5. by rewrite Hp.
  - apply H6. by rewrite Hp.
Qed.

(** *** A program that uses the heap *)

(** It allocates, frees the [i]-th of its blocks, or stores anything into its blocks. *)
Inductive cop := CMalloc (nbytes : Z) | CFree (i : nat) | CStore (g : Z → header).

Definition cop_ok (o : cop) : Prop := match o with CMalloc n => 0 ≤ n ≤ 2 ^ 30 | _ => True end.

Definition store (g : Z → header) (live : list (Z * Z)) (s : heap) : heap :=
  mk_heap (λ x, if bool_decide (Exists (λ b, b.1 ≤ x < b.1 + b.2) live) then g x else hp s x) (freep s) (brk s).

Definition cstep (o : cop) (live : list (Z * Z)) : M heap (list (Z * Z)) :=
  match o with
  | CMalloc n => r ← malloc B can_grow n; mret (if r =? 0 then live else (r, n) :: live)
  | CFree i =>
      match live !! i with
      | Some b => free b.1;; mret (delete i live)
      | None => mret live
      end
  | CStore g => modify (store g live);; mret live
  end.
Fixpoint crun (os : list cop) (live : list (Z * Z)) : M heap (list (Z * Z)) :=
  match os with
  | [] => mret live
  | o :: os' => live' ← cstep o live; crun os' live'
  end.

(** The program's view of a block of the heap. *)
Definition client (b : Z * Z) (c : block_t) : Prop := b.1 = c.1 + HSIZE ∧ c.2 = units_for b.2 ∧ 0 ≤ b.2 ≤ 2 ^ 30.

Lemma client_bounds b c : client b c → c.1 < b.1 ∧ b.1 + b.2 ≤ c.1 + HSIZE * c.2.
Proof.
  intros (H1 & H2 & H3). rewrite H2. unfold units_for, HSIZE in *. rewrite u32_small; Z.to_euclidean_division_equations; lia.
Qed.

Lemma store_rep g live s fl al : rep s fl al → Forall2 client live al → rep (store g live s) fl al.
Proof.
  intros Hs Hl. assert (Hkeep : ∀ b, b ∈ (B, 0) :: fl ++ al → hp (store g live s) b.1 = hp s b.1).
  { intros b Hb. simpl. rewrite bool_decide_eq_false_2; [done|]. rewrite Exists_exists. intros (d & Hd & Hx).
    apply list_elem_of_lookup_1 in Hd as (i & Hi). destruct (Forall2_lookup_l _ _ _ _ _ Hl Hi) as (c & Hc & Hdc).
    pose proof (client_bounds _ _ Hdc) as [? ?]. pose proof (list_elem_of_lookup_2 _ _ _ Hc) as Hca.
    destruct (rep_bounds _ _ _ Hs c) as (? & ? & ? & ?); [set_solver|].
    apply elem_of_cons in Hb as [->|Hb]; [unfold HSIZE in *; simpl in *; lia|]. destruct (rep_bounds _ _ _ Hs b Hb) as (? & ? & ? & ?).
    apply elem_of_app in Hb as [Hb|Hb]; [destruct (rep_apart _ _ _ Hs b c Hb Hca); unfold HSIZE in *; lia|].
    apply list_elem_of_lookup_1 in Hb as (j & Hj). destruct (decide (i = j)) as [<-|Hij]; [simplify_eq; lia|].
    destruct (apart_units b c); try done; try (unfold HSIZE in *; lia). intros u Hu Hu'. pose proof (rp_own _ _ _ Hs) as (_ & _ & Hnd)%NoDup_app.
    by eapply (space_disjoint al j i). }
  destruct Hs as [H1 H2 H3 H4 H5 H6 H7 H8]. split; try done.
  - apply (chain_ext (hp s)); [done|]. intros b Hb. apply Hkeep. set_solver.
  - intros b Hb. rewrite Hkeep by set_solver. by apply H6.
Qed.

Definition cinv (live : list (Z * Z)) (s : heap) : Prop := ∃ fl al, ready s fl al ∧ Forall2 client live al.

Lemma cstep_ok o live s : cop_ok o → cinv live s → wp (cstep o live) cinv s.
Proof.
  intros Ho (fl & al & Hr & Hl). destruct o as [n|i|g]; simpl.
  - apply wp_bind. eapply wp_mono; [by eapply malloc_ready|]. intros r s' [[-> (fl' & Hs')]|(a & fl' & -> & Hs')]; apply wp_ret.
    + rewrite Z.eqb_refl. exists fl', al. split; [by left|done].
    + destruct (rep_bounds _ _ _ Hs' (a, units_for n)) as [? _]; [set_solver|]. simpl in *.
      rewrite (proj2 (Z.eqb_neq _ _)) by (unfold HSIZE in *; lia). exists fl', ((a, units_for n) :: al). split; [by left|].
      constructor; [by split|done].
  - destruct (live !! i) as [b|] eqn:Hi; [|by apply wp_ret; exists fl, al]. destruct (Forall2_lookup_l _ _ _ _ _ Hl Hi) as ([a k] & Hc & Hbc).
    destruct Hr as [Hs|(_ & _ & ->)]; [|done]. destruct Hbc as (-> & _). apply wp_bind. simpl.
    eapply wp_mono; [apply (heap_free_ok _ fl (delete i al) a k)|].
    + eapply rep_perm; [|done]. by apply delete_Permutation.
    + intros [] s' (fl' & _ & _ & Hs' & _). apply wp_ret. exists fl', (delete i al). split; [by left|]. by apply Forall2_delete.
  - apply wp_bind, wp_modify, wp_ret. exists fl, al. split; [|done]. destruct Hr as [Hs|(Hf & -> & ->)]; [left; by apply store_rep|right; done].
Qed.

Lemma crun_ok os live s : Forall cop_ok os → cinv live s → wp (crun os live) cinv s.
Proof.
  intros Hos. revert live s. induction Hos as [|o os Ho _ IH]; intros live s Hi; [by apply wp_ret|].
  simpl. apply wp_bind. eapply wp_mono; [by apply cstep_ok|]. intros live' s' Hi'. by apply IH.
Qed.

(** [C28] malloc and free are safe: a program that allocates at most 2^30 bytes a call,
    frees its blocks and stores what it likes into them, in any order, never makes a
    call fail to return; and the blocks it holds are then aligned, within the memory
    got from the kernel, and do not overlap one another (nor the headers of the
    allocator, which such a store could otherwise destroy).  The bound on a request
    keeps the number of bytes that morecore asks sbrk for within an int; the kernel is assumed to
    refuse a break beyond 2^35, so that the size of a block in units fits an unsigned
    int, and to give the program a break that is a multiple of 16 at first. *)
Theorem malloc_safe os hp0 brk0 : Forall cop_ok os → LO ≤ brk0 ≤ MEMMAX → brk0 mod HSIZE = 0 →
  wp (crun os []) (λ live s,
    (∀ b, b ∈ live → b.1 mod HSIZE = 0 ∧ LO + HSIZE ≤ b.1 ∧ b.1 + b.2 ≤ brk s) ∧
    ∀ i j b b', live !! i = Some b → live !! j = Some b' → i ≠ j → b.1 + b.2 ≤ b'.1 ∨ b'.1 + b'.2 ≤ b.1)
    (mk_heap hp0 0 brk0).
Proof.
  intros Hos Hb Hb16. eapply wp_mono; [apply crun_ok; [done|]|].
  { exists [], []. split; [|constructor]. right. done. }
  intros live s (fl & al & Hr & Hl). destruct Hr as [Hs|(_ & _ & ->)]; [|apply Forall2_nil_inv_r in Hl as ->; split; [set_solver|done]].
  split.
  - intros b (i & Hi)%list_elem_of_lookup_1. destruct (Forall2_lookup_l _ _ _ _ _ Hl Hi) as (c & Hc & Hbc).
    pose proof (client_bounds _ _ Hbc) as [_ ?]. destruct Hbc as (Eb & _).
    destruct (rep_bounds _ _ _ Hs c) as (? & ? & ? & ?); [apply list_elem_of_lookup_2 in Hc; set_solver|].
    split_and!; [|lia|lia]. rewrite Eb. rewrite <- (Z.mul_1_l HSIZE) at 1. by rewrite Z_mod_plus_full.
  - intros i j b b' Hi Hj Hij. destruct (Forall2_lookup_l _ _ _ _ _ Hl Hi) as (c & Hc & Hbc). destruct (Forall2_lookup_l _ _ _ _ _ Hl Hj) as (c' & Hc' & Hbc').
    pose proof (client_bounds _ _ Hbc). pose proof (client_bounds _ _ Hbc').
    destruct (rep_bounds _ _ _ Hs c) as (_ & ? & _ & ?); [apply list_elem_of_lookup_2 in Hc; set_solver|].
    destruct (rep_bounds _ _ _ Hs c') as (_ & ? & _ & ?); [apply list_elem_of_lookup_2 in Hc'; set_solver|].
    destruct (apart_units c c'); try done; [|lia|lia]. intros u Hu Hu'. pose proof (rp_own _ _ _ Hs) as (_ & _ & Hnd)%NoDup_app.
    by eapply (space_disjoint al i j).
Qed.

End grow.

(** Freeing into an empty ring. *)
Lemma free_alone s bp n : freep s = B → hp s B = mk_header B 0 → size (hp s bp) = n → LO ≤ bp → 0 ≤ n < 2 ^ 32 → 0 ≤ brk s →
  wp (free (bp + HSIZE)) (λ _ s', freep s' = B ∧ brk s' = brk s ∧ hp s' B = mk_header bp 0 ∧ hp s' bp = mk_header B n) s.
Proof.
  intros Hf HhB Hn Hbp Hn32 Hbrk. unfold HSIZE in HLO. unfold free. replace (bp + HSIZE - HSIZE) with bp by lia.
  apply wp_bind, wp_gets, wp_bind, wp_gets, wp_bind. rewrite Hf.
  assert (wp (free_find (ring_fuel s) bp B) (λ p s', p = B ∧ s' = s) s) as Hfind.
  { unfold ring_fuel. pose proof (Z.div_pos (brk s) HSIZE Hbrk ltac:(done)). destruct (Z.to_nat _) as [|fuel] eqn:Ef; [lia|]. cbn [free_find]. apply wp_bind, wp_gets. rewrite HhB. cbn [ptr].
    rewrite (proj2 (Z.ltb_ge bp B)), andb_false_r, (proj2 (Z.leb_le B B)), (proj2 (Z.ltb_lt B bp)) by lia. by apply wp_ret. }
  eapply wp_mono; [exact Hfind|]. intros p s1 [-> ->]. apply wp_bind, wp_gets. rewrite HhB. cbn [ptr].
  apply wp_bind, wp_link; [rewrite HhB, Hn; simpl; lia|]. intros s1 Hs1 Hf1 Hb1.
  assert (Hs1' : ∀ x, hp s1 x = <[bp := mk_header B n]> (hp s) x).
  { intros x. rewrite Hs1. unfold linked. rewrite Hn, (proj2 (Z.eqb_neq _ _)) by (unfold HSIZE; lia). done. }
  assert (Hs1B : hp s1 B = mk_header B 0) by (rewrite Hs1', fn_lookup_insert_ne by lia; done).
  assert (Hs1bp : hp s1 bp = mk_header B n) by (by rewrite Hs1', fn_lookup_insert).
  apply wp_bind, wp_link; [rewrite Hs1B, Hs1bp; simpl; lia|]. intros s2 Hs2 Hf2 Hb2. apply wp_modify. cbn [freep brk hp set_freep].
  rewrite !Hs2. unfold linked. rewrite Hs1B. cbn [size]. rewrite (proj2 (Z.eqb_neq _ _)) by (unfold HSIZE; lia).
  rewrite fn_lookup_insert, fn_lookup_insert_ne by lia. split_and!; try done. congruence.
Qed.

(** [C39] The largest request is granted without memory: the size morecore passes to
    sbrk is cut to an int, so malloc(0xffffffff) on a fresh heap grows the process by
    one header, and returns a pointer to the very end of it. *)
Theorem malloc_overflow can_grow s : freep s = 0 → LO ≤ brk s → can_grow (brk s + HSIZE) = true →
  wp (malloc B can_grow (2 ^ 32 - 1)) (λ r s', r = brk s + HSIZE ∧ brk s' = brk s + HSIZE) s.
Proof.
  intros Hf Hb Hg. unfold wp. rewrite malloc_fresh by done. fold (wp (malloc B can_grow (2 ^ 32 - 1)) (λ r s', r = brk s + HSIZE ∧ brk s' = brk s + HSIZE) (started s)).
  unfold malloc. change (units_for (2 ^ 32 - 1)) with (2 ^ 28 + 1). apply wp_bind, wp_gets, wp_bind, wp_when; [intros ?%Z.eqb_eq; simpl in *; lia|intros _].
  apply wp_bind, wp_gets, wp_bind, wp_gets, wp_bind, wp_gets. cbn [freep started set_size set_ptr set_freep hp]. rewrite !fn_lookup_insert. cbn [ptr].
  set (s0 := started s). assert (HB0 : hp s0 B = mk_header B 0) by (simpl; by rewrite !fn_lookup_insert).
  replace (2 * ring_fuel _ + 4)%nat with (S (S (2 * ring_fuel s0 + 2))) by (unfold s0, started; lia).
  cbn [malloc_loop]. apply wp_bind, wp_gets. rewrite HB0. cbn [size ptr]. rewrite (proj2 (Z.leb_gt (2 ^ 28 + 1) 0)) by lia.
  apply wp_bind, wp_gets. cbn [freep s0 started set_size set_ptr set_freep]. rewrite Z.eqb_refl.
  unfold morecore. rewrite (proj2 (Z.ltb_ge (2 ^ 28 + 1) 4096)) by lia. change (s32 ((2 ^ 28 + 1) * HSIZE)) with HSIZE.
  apply wp_bind, wp_bind. unfold sbrk. apply wp_bind, wp_gets. change (0 <? HSIZE) with true. cbv iota. change (brk s0) with (brk s). rewrite Hg.
  apply wp_bind, wp_modify, wp_ret. rewrite (proj2 (Z.eqb_neq (brk s) (-1))) by (unfold HSIZE in *; lia).
  apply wp_bind, wp_modify, wp_bind. set (s1 := set_size _ _ _).
  eapply wp_mono; [apply (free_alone s1 (brk s) (2 ^ 28 + 1))|]; [done| | |done|lia|simpl; unfold HSIZE in *; lia|].
  { simpl. rewrite fn_lookup_insert_ne by (unfold HSIZE in *; lia). exact HB0. }
  { simpl. by rewrite fn_lookup_insert. }
  intros [] s2 (Hf2 & Hb2 & HB2 & Hp2). apply wp_gets. rewrite Hf2, (proj2 (Z.eqb_neq B 0)) by lia.
  apply wp_bind, wp_gets. rewrite HB2. cbn [ptr]. apply wp_bind, wp_gets. rewrite Hp2. cbn [size]. rewrite Z.leb_refl.
  unfold carve. apply wp_bind, wp_gets. rewrite Hp2. cbn [size ptr]. rewrite Z.eqb_refl.
  apply wp_bind, wp_bind, wp_modify, wp_ret, wp_bind, wp_modify, wp_ret. split; [done|]. simpl. rewrite Hb2. done.
Qed.

End inv.

(** ** Witnesses *)

Definition demo_grow (sz : Z) : bool := sz <=? 2 ^ 27.

Lemma malloc_safe_witness :
  wp (crun 4096 demo_grow [CMalloc 10; CMalloc 100; CFree 1; CStore (λ _, mk_header 7 7); CMalloc 3] [])
    (λ live s, ∀ i j b b', live !! i = Some b → live !! j = Some b' → i ≠ j → b.1 + b.2 ≤ b'.1 ∨ b'.1 + b'.2 ≤ b.1)
    (mk_heap (λ _, mk_header 0 0) 0 8192).
Proof.
  eapply wp_mono; [apply (malloc_safe 4096 8192 ltac:(done) ltac:(vm_compute; discriminate) demo_grow)|].
  - intros sz Hsz%Z.leb_le. unfold MEMMAX. lia.
  - repeat constructor; discriminate.
  - unfold MEMMAX. lia.
  - reflexivity.
  - intros live s [_ H]. exact H.
Defined.

Lemma malloc_overflow_witness :
  wp (malloc 4096 demo_grow (2 ^ 32 - 1)) (λ r s', r = 8208 ∧ brk s' = 8208) (mk_heap (λ _, mk_header 0 0) 0 8192).
Proof.
  apply (malloc_overflow 4096 8192 ltac:(done) ltac:(vm_compute; discriminate) demo_grow (mk_heap (λ _, mk_header 0 0) 0 8192)); [reflexivity|discriminate|reflexivity].
Defined.

End Umalloc.
