(* ===== verification/Sh.v ===== *)
(** * user/sh.c: the command parser

    Pointers into the command line are offsets; [*s] at the end is the nul.  The
    parser moves one pointer, [*ps], which is the state of the monad; [panic] of the
    shell is [Panic].  A word is the pair of the pointers [q] and [eq]; the strings
    are cut out of the line by [nulterminate] after the parse.

    [parseredirs] wraps its argument while [parseexec] goes on to store words into
    the command inside; here it returns the redirections, innermost first, and they
    are put around the command when it is complete. *)

From S2P Require Import Prelude Riscv.

Module Sh.

Notation str := (list Z).
Notation word := (nat * nat)%type.

Definition MAXARGS : nat := 10.

(** The kinds of redirection: [mode] and [fd] of [redircmd]. *)
Inductive rkind := RIn | ROut | RAppend.
#[export] Instance rkind_eq : EqDecision rkind.
Proof. solve_decision. Defined.
Definition rmode (k : rkind) : Z :=
  match k with
  | RIn => Riscv.O_RDONLY
  | ROut => Z.lor (Z.lor Riscv.O_WRONLY Riscv.O_CREATE) Riscv.O_TRUNC
  | RAppend => Z.lor Riscv.O_WRONLY Riscv.O_CREATE
  end.
Definition rfd (k : rkind) : Z := match k with RIn => 0 | _ => 1 end.

(** [struct cmd], with words of type [W]: pointers, or the strings they stand for. *)
Inductive cmd (W : Type) :=
  | EXEC (argv : list W)
  | REDIR (c : cmd W) (file : W) (mode fd : Z)
  | PIPE (left_ right_ : cmd W)
  | LIST (left_ right_ : cmd W)
  | BACK (c : cmd W).
Arguments EXEC {W} _.
Arguments REDIR {W} _ _ _ _.
Arguments PIPE {W} _ _.
Arguments LIST {W} _ _.
Arguments BACK {W} _.

Definition whitespace : str := [32; 9; 13; 10; 11].
Definition symbols : str := [60; 124; 62; 38; 59; 40; 41].
Definition is_ws (c : Z) : bool := bool_decide (c ∈ whitespace).
Definition is_sym (c : Z) : bool := bool_decide (c ∈ symbols).
Definition is_word (c : Z) : bool := negb (is_ws c) && negb (is_sym c).

Definition LT : Z := 60.
Definition GT : Z := 62.
Definition BAR : Z := 124.
Definition AMP : Z := 38.
Definition SEMI : Z := 59.
Definition LPAR : Z := 40.
Definition RPAR : Z := 41.
Definition PLUS : Z := 43.
Definition TOK_A : Z := 97.

(** How many characters at the front satisfy [P]. *)
Fixpoint count_while (P : Z → bool) (l : str) : nat :=
  match l with
  | c :: l' => if P c then S (count_while P l') else O
  | [] => O
  end.

Section parse.
Context (buf : str).

Definition at_ (s : nat) : Z := nth s buf 0.

(** [while(s < es && strchr(whitespace, *s)) s++;] *)
Definition skip_ws (s : nat) : nat := s + count_while is_ws (drop s buf).

(** [gettoken]: the token, [q] and [eq]. *)
Definition token_end (s : nat) : Z * nat :=
  let c := at_ s in
  if c =? 0 then (c, s)
  else if bool_decide (c ∈ [BAR; LPAR; RPAR; SEMI; AMP; LT]) then (c, S s)
  else if c =? GT then if at_ (S s) =? GT then (PLUS, S (S s)) else (c, S s)
  else (TOK_A, s + count_while is_word (drop s buf))%nat.
Definition gettoken : M nat (Z * nat * nat) := λ ps,
  let q := skip_ws ps in
  let '(ret, eq) := token_end q in
  Ret ((ret, q, eq), skip_ws eq).

Definition peek (toks : str) : M nat bool := λ ps,
  let s := skip_ws ps in
  Ret (negb (at_ s =? 0) && bool_decide (at_ s ∈ toks), s).

Notation redir := (word * rkind)%type.
Definition wrap {W} (c : cmd W) (rs : list (W * rkind)) : cmd W :=
  foldl (λ c r, REDIR c r.1 (rmode r.2) (rfd r.2)) c rs.

(** [switch(tok)] *)
Definition redir_kind (tok : Z) : rkind := if tok =? LT then RIn else if tok =? GT then ROut else RAppend.

Fixpoint parseredirs (fuel : nat) : M nat (list redir) :=
  match fuel with
  | O => Prelude.block
  | S fuel' =>
      more ← peek [LT; GT];
      if more : bool then
        t ← gettoken;
        u ← gettoken;
        if negb (u.1.1 =? TOK_A) then panic "missing file for redirection"
        else rs ← parseredirs fuel'; mret (((u.1.2, u.2), redir_kind t.1.1) :: rs)
      else mret []
  end.

(** Enough for a loop that takes a character at each turn. *)
Definition loop_fuel : nat := S (length buf).

(** The loop of [parseexec] over the words. *)
Fixpoint parseargs (fuel : nat) (argc : nat) : M nat (list word * list redir) :=
  match fuel with
  | O => Prelude.block
  | S fuel' =>
      stop ← peek [BAR; RPAR; AMP; SEMI];
      if stop : bool then mret ([], [])
      else
        t ← gettoken;
        if t.1.1 =? 0 then mret ([], [])
        else if negb (t.1.1 =? TOK_A) then panic "syntax"
        else if (MAXARGS <=? S argc)%nat then panic "too many args"
        else
          rs ← parseredirs loop_fuel;
          r ← parseargs fuel' (S argc);
          mret ((t.1.2, t.2) :: r.1, rs ++ r.2)
  end.

(** [while(peek(ps, es, "&")) ...] *)
Fixpoint parseback (fuel : nat) (c : cmd word) : M nat (cmd word) :=
  match fuel with
  | O => Prelude.block
  | S fuel' =>
      b ← peek [AMP];
      if b : bool then gettoken;; parseback fuel' (BACK c) else mret c
  end.

Fixpoint parseline (fuel : nat) : M nat (cmd word) :=
  match fuel with
  | O => Prelude.block
  | S fuel' =>
      c ← parsepipe fuel';
      c ← parseback loop_fuel c;
      b ← peek [SEMI];
      if b : bool then gettoken;; r ← parseline fuel'; mret (LIST c r) else mret c
  end
with parsepipe (fuel : nat) : M nat (cmd word) :=
  match fuel with
  | O => Prelude.block
  | S fuel' =>
      c ← parseexec fuel';
      b ← peek [BAR];
      if b : bool then gettoken;; r ← parsepipe fuel'; mret (PIPE c r) else mret c
  end
with parseexec (fuel : nat) : M nat (cmd word) :=
  match fuel with
  | O => Prelude.block
  | S fuel' =>
      b ← peek [LPAR];
      if b : bool then parseblock fuel'
      else
        rs ← parseredirs loop_fuel;
        r ← parseargs loop_fuel 0;
        mret (wrap (EXEC r.1) (rs ++ r.2))
  end
with parseblock (fuel : nat) : M nat (cmd word) :=
  match fuel with
  | O => Prelude.block
  | S fuel' =>
      b ← peek [LPAR];
      if negb b then panic "parseblock"
      else
        gettoken;;
        c ← parseline fuel';
        b ← peek [RPAR];
        if negb b then panic "syntax - missing )"
        else gettoken;; rs ← parseredirs loop_fuel; mret (wrap c rs)
  end.

(** Four calls at most before a character is taken. *)
Definition parse_fuel : nat := 4 * S (length buf).

(** [parsecmd] without its last call, of [nulterminate]. *)
Definition parsecmd : outcome (cmd word) :=
  match (c ← parseline parse_fuel; peek [];; mret c) 0%nat with
  | Ret (c, s) => if bool_decide (s = length buf) then Ret c else Panic "syntax"
  | Panic m => Panic m
  | Block => Block
  end.

End parse.

(** [nulterminate]: the line after it. *)
Fixpoint nulterminate (c : cmd word) (line : str) : str :=
  match c with
  | EXEC argv => foldl (λ line w, <[w.2 := 0]> line) line argv
  | REDIR c file _ _ => <[file.2 := 0]> (nulterminate c line)
  | PIPE l r | LIST l r => nulterminate r (nulterminate l line)
  | BACK c => nulterminate c line
  end.

(** ** The parser ends, and its words are words *)

(** It returns with [Q], or reports an error; it does not run out of fuel. *)
Definition safe {A} (m : M nat A) (Q : A → nat → Prop) (s : nat) : Prop :=
  match m s with Ret (a, s') => Q a s' | Panic _ => True | Block => False end.

#[local] Arguments safe : simpl never.

Lemma safe_ret {A} (a : A) (Q : A → nat → Prop) s : Q a s → safe (mret a) Q s.
Proof. done. Qed.
Lemma safe_bind {A B} (m : M nat A) (k : A → M nat B) Q s : safe m (λ a s', safe (k a) Q s') s → safe (m ≫= k) Q s.
Proof. unfold safe, mbind, M_bind. by destruct (m s) as [[a s']| |]. Qed.
Lemma safe_mono {A} (m : M nat A) (Q Q' : A → nat → Prop) s : safe m Q s → (∀ a s', Q a s' → Q' a s') → safe m Q' s.
Proof. unfold safe. destruct (m s) as [[a s']| |]; auto. Qed.
Lemma safe_panic {A} msg (Q : A → nat → Prop) s : safe (panic msg) Q s.
Proof. done. Qed.

Fixpoint words {W} (c : cmd W) : list W :=
  match c with
  | EXEC argv => argv
  | REDIR c file _ _ => words c ++ [file]
  | PIPE l r | LIST l r => words l ++ words r
  | BACK c => words c
  end.

Lemma count_while_le P l : (count_while P l ≤ length l)%nat.
Proof. induction l as [|c l IH]; simpl; [done|]. case_match; lia. Qed.

Lemma count_while_in P l k c : (k < count_while P l)%nat → l !! k = Some c → P c = true.
Proof.
  revert k. induction l as [|d l IH]; intros k Hk Hc; simpl in *; [lia|]. destruct (P d) eqn:E; [|lia].
  destruct k as [|k]; [by injection Hc as <-|]. apply (IH k); [lia|done].
Qed.

Lemma count_while_end P l c : l !! count_while P l = Some c → P c = false.
Proof.
  induction l as [|d l IH]; intros Hc; simpl in *; [done|]. destruct (P d) eqn:E; [by apply IH|]. by injection Hc as <-.
Qed.

Section safety.
Context (buf : str) (Hbuf : 0 ∉ buf).
Notation L := (length buf).

Record word_ok (w : word) : Prop := {
  wo_range : (w.1 < w.2 ≤ L)%nat;
  wo_in : ∀ k, (w.1 ≤ k < w.2)%nat → is_word (at_ buf k) = true;
  wo_end : w.2 = L ∨ is_word (at_ buf w.2) = false }.

Lemma at_lookup k : (k < L)%nat → buf !! k = Some (at_ buf k) ∧ at_ buf k ≠ 0.
Proof.
  intros Hk. destruct (lookup_lt_is_Some_2 buf k Hk) as [c Hc]. unfold at_. rewrite (nth_lookup_Some _ _ _ _ Hc). split; [done|].
  intros ->. apply Hbuf. by eapply list_elem_of_lookup_2.
Qed.

Lemma at_end k : (L ≤ k)%nat → at_ buf k = 0.
Proof. intros Hk. unfold at_. by apply nth_overflow. Qed.

Lemma span_ok P s : (s ≤ L)%nat → let e := (s + count_while P (drop s buf))%nat in
  (s ≤ e ≤ L)%nat ∧ (∀ k, (s ≤ k < e)%nat → P (at_ buf k) = true) ∧ (e = L ∨ P (at_ buf e) = false).
Proof.
  intros Hs e. pose proof (count_while_le P (drop s buf)) as Hle. rewrite length_drop in Hle. split_and!; [lia|lia| |].
  - intros k Hk. destruct (at_lookup k) as [Hc _]; [lia|]. apply (count_while_in P (drop s buf) (k - s)); [lia|].
    rewrite lookup_drop. by replace (s + (k - s))%nat with k by lia.
  - destruct (decide (e = L)) as [|Hne]; [by left|right]. destruct (at_lookup e) as [Hc _]; [lia|].
    eapply (count_while_end P (drop s buf)). rewrite lookup_drop. exact Hc.
Qed.

Lemma skip_ws_ok s : (s ≤ L)%nat → (s ≤ skip_ws buf s ≤ L)%nat ∧ (skip_ws buf s = L ∨ is_ws (at_ buf (skip_ws buf s)) = false).
Proof. intros Hs. destruct (span_ok is_ws s Hs) as (H1 & _ & H2). done. Qed.

Lemma skip_ws_id s : is_ws (at_ buf s) = false → skip_ws buf s = s.
Proof.
  intros Hs. unfold skip_ws. destruct (drop s buf) as [|c l] eqn:E; simpl; [lia|].
  assert (at_ buf s = c) as Hc.
  { unfold at_. apply nth_lookup_Some. rewrite <- (Nat.add_0_r s), <- lookup_drop, E. done. }
  rewrite <- Hc, Hs. lia.
Qed.

Lemma token_ok q : (q ≤ L)%nat → is_ws (at_ buf q) = false → let '(t, e) := token_end buf q in
  (q ≤ e ≤ L)%nat ∧ (at_ buf q ≠ 0 → t ≠ 0 ∧ (q < e)%nat) ∧ (at_ buf q = 0 → t = 0) ∧ (t = TOK_A → word_ok (q, e)).
Proof.
  intros Hq Hws. unfold token_end. destruct (Z.eqb_spec (at_ buf q) 0) as [E0|E0].
  { rewrite E0. split_and!; done || lia. }
  assert (q < L)%nat by (destruct (decide (q < L)%nat); [done|]; rewrite at_end in E0 by lia; done).
  case_bool_decide as Esym.
  { split_and!; try (done || lia). intros Ea. rewrite Ea in Esym.
    by repeat (apply elem_of_cons in Esym as [?|Esym]; [done|]); apply elem_of_nil in Esym. }
  destruct (Z.eqb_spec (at_ buf q) GT) as [EG|EG].
  { destruct (Z.eqb_spec (at_ buf (S q)) GT) as [EG'|].
    - assert (S q < L)%nat by (destruct (decide (S q < L)%nat); [done|]; rewrite at_end in EG' by lia; done).
      split_and!; try (done || lia); intros; (split; [done|lia]).
    - rewrite EG. split_and!; try (done || lia); intros; (split; [done|lia]). }
  destruct (span_ok is_word q Hq) as (H1 & H2 & H3). cbv zeta in *.
  assert (is_word (at_ buf q) = true) as Hw.
  { unfold is_word, is_sym. rewrite Hws. simpl. rewrite bool_decide_eq_false_2; [done|]. unfold symbols. intros Hin.
    repeat (apply elem_of_cons in Hin as [Hin|Hin]; [rewrite Hin in *; try done; apply Esym; set_solver|]). by apply elem_of_nil in Hin. }
  assert (q < q + count_while is_word (drop q buf))%nat.
  { destruct H3 as [H3|H3]; [lia|]. destruct (decide (count_while is_word (drop q buf) = 0%nat)) as [Ec|]; [|lia].
    rewrite Ec, Nat.add_0_r in H3. congruence. }
  split_and!; try (done || lia). intros _. split; simpl; [lia|done|done].
Qed.

Lemma gettoken_safe s (Q : Z * nat * nat → nat → Prop) : (s ≤ L)%nat →
  (∀ t q e s', (s ≤ s' ≤ L)%nat → (at_ buf (skip_ws buf s) ≠ 0 → t ≠ 0) → (t ≠ 0 → (s < s')%nat) → (t = TOK_A → word_ok (q, e)) →
    Q (t, q, e) s') → safe (gettoken buf) Q s.
Proof.
  intros Hs HQ. unfold safe, gettoken. destruct (skip_ws_ok s Hs) as [Hq Hws].
  assert (is_ws (at_ buf (skip_ws buf s)) = false) as Hws' by (destruct Hws as [E|]; [by rewrite at_end by lia|done]).
  pose proof (token_ok (skip_ws buf s) ltac:(lia) Hws') as Ht. destruct (token_end buf (skip_ws buf s)) as [t e].
  destruct Ht as (He & Hne & Hz & Hw). destruct (skip_ws_ok e ltac:(lia)) as [He' _]. apply HQ; [lia| |intros Ht; apply Hne in Ht || idtac|done].
  - intros H. by apply Hne.
  - destruct (decide (at_ buf (skip_ws buf s) = 0)) as [E|E]; [by rewrite Hz in Ht|]. destruct (Hne E). lia.
Qed.

Lemma peek_safe toks s (Q : bool → nat → Prop) : (s ≤ L)%nat →
  (∀ b s', (s ≤ s' ≤ L)%nat → (b = true → (s' < L)%nat ∧ at_ buf s' ∈ toks ∧ at_ buf (skip_ws buf s') ≠ 0) → Q b s') →
  safe (peek buf toks) Q s.
Proof.
  intros Hs HQ. unfold safe, peek. destruct (skip_ws_ok s Hs) as [Hq Hws]. apply HQ; [lia|].
  intros [H0 Hin%bool_decide_eq_true]%andb_prop. apply negb_true_iff, Z.eqb_neq in H0.
  assert (skip_ws buf s < L)%nat by (destruct (decide (skip_ws buf s < L)%nat); [done|]; rewrite at_end in H0 by lia; done).
  split_and!; try done. rewrite skip_ws_id; [done|]. destruct Hws; [lia|done].
Qed.

Definition redirs_ok (rs : list (word * rkind)) : Prop := Forall word_ok rs.*1.

Lemma parseredirs_safe fuel s : (s ≤ L)%nat → (L - s < fuel)%nat →
  safe (parseredirs buf fuel) (λ rs s', (s ≤ s' ≤ L)%nat ∧ redirs_ok rs) s.
Proof.
  revert s. induction fuel as [|fuel IH]; intros s Hs Hf; [lia|]. cbn [parseredirs]. apply safe_bind, peek_safe; [done|].
  intros [] s1 Hs1 Hb; [|apply safe_ret; split; [lia|constructor]]. destruct (Hb eq_refl) as (_ & _ & Hne).
  apply safe_bind, gettoken_safe; [lia|]. intros t q e s2 Hs2 Ht Hlt _. specialize (Hlt (Ht Hne)).
  apply safe_bind, gettoken_safe; [lia|]. intros t' q' e' s3 Hs3 _ _ Hw. simpl.
  destruct (Z.eqb_spec t' TOK_A) as [->|]; [|apply safe_panic]. simpl. apply safe_bind.
  eapply safe_mono; [apply IH; lia|]. intros rs s4 [Hs4 Hrs]. apply safe_ret. split; [lia|]. constructor; [by apply Hw|done].
Qed.

Lemma parseargs_safe fuel argc s : (s ≤ L)%nat → (L - s < fuel)%nat →
  safe (parseargs buf fuel argc) (λ r s', (s ≤ s' ≤ L)%nat ∧ Forall word_ok r.1 ∧ redirs_ok r.2 ∧ (argc + length r.1 < MAXARGS ∨ r.1 = [])%nat) s.
Proof.
  revert argc s. induction fuel as [|fuel IH]; intros argc s Hs Hf; [lia|]. cbn [parseargs]. apply safe_bind, peek_safe; [done|].
  intros [] s1 Hs1 _; [apply safe_ret; split_and!; [lia|lia|constructor|constructor|by right]|].
  apply safe_bind, gettoken_safe; [lia|]. intros t q e s2 Hs2 _ Hlt Hw. cbn [fst snd].
  destruct (Z.eqb_spec t 0) as [->|Ht]; [apply safe_ret; split_and!; [lia|lia|constructor|constructor|by right]|]. specialize (Hlt Ht).
  destruct (Z.eqb_spec t TOK_A) as [->|]; [|apply safe_panic]. cbn [negb].
  destruct (Nat.leb_spec MAXARGS (S argc)); [apply safe_panic|].
  apply safe_bind. eapply safe_mono; [apply parseredirs_safe; [lia|unfold loop_fuel; lia]|]. intros rs s3 [Hs3 Hrs].
  apply safe_bind. eapply safe_mono; [apply IH; lia|]. intros [ws rs'] s4 (Hs4 & Hws & Hrs' & Hn). apply safe_ret. simpl in *.
  split_and!; [lia|lia|constructor; [by apply Hw|done]| |].
  - unfold redirs_ok. rewrite fmap_app. by apply Forall_app.
  - left. destruct Hn as [| ->]; simpl; lia.
Qed.

Lemma parseback_safe fuel c s : (s ≤ L)%nat → (L - s < fuel)%nat →
  safe (parseback buf fuel c) (λ c' s', (s ≤ s' ≤ L)%nat ∧ words c' = words c) s.
Proof.
  revert c s. induction fuel as [|fuel IH]; intros c s Hs Hf; [lia|]. cbn [parseback]. apply safe_bind, peek_safe; [done|].
  intros [] s1 Hs1 Hb; [|apply safe_ret; split; [lia|done]]. destruct (Hb eq_refl) as (_ & _ & Hne).
  apply safe_bind, gettoken_safe; [lia|]. intros t q e s2 Hs2 Ht Hlt _. specialize (Hlt (Ht Hne)).
  eapply safe_mono; [apply (IH (BACK c)); lia|]. intros c' s3 [Hs3 Hc]. split; [lia|done].
Qed.

Lemma words_wrap {W} (c : cmd W) rs : words (wrap c rs) = words c ++ rs.*1.
Proof.
  revert c. induction rs as [|r rs IH]; intros c; simpl; [by rewrite app_nil_r|]. unfold wrap in *. simpl. rewrite IH. simpl.
  by rewrite <- app_assoc.
Qed.

(** The four functions together; each turn round the grammar takes a character. *)
Definition goes (m : nat → M nat (cmd word)) (k fuel : nat) : Prop := ∀ s, (s ≤ L)%nat → (4 * (L - s) + k ≤ fuel)%nat →
  safe (m fuel) (λ c s', (s ≤ s' ≤ L)%nat ∧ Forall word_ok (words c)) s.

Lemma parse_safe fuel : goes (parseline buf) 3 fuel ∧ goes (parsepipe buf) 2 fuel ∧ goes (parseexec buf) 1 fuel ∧
  (∀ s, (s ≤ L)%nat → (4 * (L - s) ≤ fuel)%nat → (s < L)%nat → safe (parseblock buf fuel) (λ c s', (s ≤ s' ≤ L)%nat ∧ Forall word_ok (words c)) s).
Proof.
  induction fuel as [|fuel (IHl & IHp & IHe & IHb)]; [split_and!; intros s Hs Hf; [lia..|]; intros; lia|].
  split_and!; intros s Hs Hf.
  - cbn [parseline]. apply safe_bind. eapply safe_mono; [apply IHp; lia|]. intros c s1 [Hs1 Hc].
    apply safe_bind. eapply safe_mono; [apply parseback_safe; [lia|unfold loop_fuel; lia]|]. intros c' s2 [Hs2 Ec].
    apply safe_bind, peek_safe; [lia|]. intros [] s3 Hs3 Hb; [|apply safe_ret; split; [lia|by rewrite Ec]].
    destruct (Hb eq_refl) as (_ & _ & Hne). apply safe_bind, gettoken_safe; [lia|]. intros t q e s4 Hs4 Ht Hlt _. specialize (Hlt (Ht Hne)).
    apply safe_bind. eapply safe_mono; [apply IHl; lia|]. intros r s5 [Hs5 Hr]. apply safe_ret. split; [lia|]. simpl. rewrite Ec. by apply Forall_app.
  - cbn [parsepipe]. apply safe_bind. eapply safe_mono; [apply IHe; lia|]. intros c s1 [Hs1 Hc].
    apply safe_bind, peek_safe; [lia|]. intros [] s3 Hs3 Hb; [|apply safe_ret; split; [lia|done]].
    destruct (Hb eq_refl) as (_ & _ & Hne). apply safe_bind, gettoken_safe; [lia|]. intros t q e s4 Hs4 Ht Hlt _. specialize (Hlt (Ht Hne)).
    apply safe_bind. eapply safe_mono; [apply IHp; lia|]. intros r s5 [Hs5 Hr]. apply safe_ret. split; [lia|]. simpl. by apply Forall_app.
  - cbn [parseexec]. apply safe_bind, peek_safe; [lia|]. intros [] s1 Hs1 Hb.
    + destruct (Hb eq_refl) as (Hlt & _). eapply safe_mono; [apply IHb; lia|]. intros c s2 [? ?]. split; [lia|done].
    + apply safe_bind. eapply safe_mono; [apply parseredirs_safe; [lia|unfold loop_fuel; lia]|]. intros rs s2 [Hs2 Hrs].
      apply safe_bind. eapply safe_mono; [apply parseargs_safe; [lia|unfold loop_fuel; lia]|]. intros r s3 (Hs3 & Hw & Hrs' & _).
      apply safe_ret. split; [lia|]. rewrite words_wrap, fmap_app. simpl. rewrite !Forall_app. done.
  - intros HsL. cbn [parseblock]. apply safe_bind, peek_safe; [lia|]. intros [] s1 Hs1 Hb; [|apply safe_panic]. cbn [negb].
    destruct (Hb eq_refl) as (_ & _ & Hne). apply safe_bind, gettoken_safe; [lia|]. intros t q e s2 Hs2 Ht Hlt _. specialize (Hlt (Ht Hne)).
    apply safe_bind. eapply safe_mono; [apply IHl; lia|]. intros c s3 [Hs3 Hc].
    apply safe_bind, peek_safe; [lia|]. intros [] s4 Hs4 _; [|apply safe_panic]. cbn [negb]. apply safe_bind, gettoken_safe; [lia|]. intros t' q' e' s5 Hs5 _ _ _.
    apply safe_bind. eapply safe_mono; [apply parseredirs_safe; [lia|unfold loop_fuel; lia]|]. intros rs s6 [Hs6 Hrs].
    apply safe_ret. split; [lia|]. rewrite words_wrap. by apply Forall_app.
Qed.

(** ** Cutting the strings out *)

(** The string at a pointer, and the part of the line between two. *)
Definition nonzero (c : Z) : bool := negb (c =? 0).
Definition cstring (line : str) (q : nat) : str := take (count_while nonzero (drop q line)) (drop q line).
Definition slice (w : word) : str := take (w.2 - w.1) (drop w.1 buf).

Definition zeros (ws : list word) (line : str) : str := foldl (λ line w, <[w.2 := 0]> line) line ws.

Lemma nulterminate_zeros c line : nulterminate c line = zeros (words c) line.
Proof.
  revert line. induction c as [argv|c IH file mode fd|l IHl r IHr|l IHl r IHr|c IH]; intros line; simpl; [done| | | |done].
  - unfold zeros. rewrite foldl_app. simpl. by rewrite IH.
  - unfold zeros. by rewrite foldl_app, IHr, IHl.
  - unfold zeros. by rewrite foldl_app, IHr, IHl.
Qed.

Lemma zeros_lookup ws line k c : line !! k = Some c → zeros ws line !! k = Some (if bool_decide (k ∈ ws.*2) then 0 else c).
Proof.
  revert line c. induction ws as [|w ws IH]; intros line c Hk; [exact Hk|].
  change (zeros (w :: ws) line) with (zeros ws (<[w.2 := 0]> line)). destruct (decide (w.2 = k)) as [<-|Hne].
  - rewrite (IH _ 0) by (apply list_lookup_insert_eq; by eapply lookup_lt_Some).
    rewrite (bool_decide_eq_true_2 (w.2 ∈ (w :: ws).*2)) by set_solver. by case_bool_decide.
  - rewrite (IH _ c) by (by rewrite list_lookup_insert_ne). f_equal. rewrite (bool_decide_ext (k ∈ ws.*2) (k ∈ (w :: ws).*2)); [done|set_solver].
Qed.

Lemma count_while_app P l c r : Forall (λ x, P x = true) l → P c = false → count_while P (l ++ c :: r) = length l.
Proof. intros Hl Hc. induction Hl as [|x l Hx _ IH]; simpl; [by rewrite Hc|]. by rewrite Hx, IH. Qed.

Lemma cstring_word ws w : Forall word_ok ws → w ∈ ws → cstring (zeros ws (buf ++ [0])) w.1 = slice w.
Proof.
  intros Hws Hin. pose proof (proj1 (Forall_forall _ _) Hws) as Hall. destruct (Hall w Hin) as [Hr Hw _].
  set (line := zeros ws (buf ++ [0])).
  assert (Hend : line !! w.2 = Some 0).
  { destruct (lookup_lt_is_Some_2 (buf ++ [0]) w.2) as [c Hc]; [rewrite length_app; simpl; lia|]. unfold line. rewrite (zeros_lookup _ _ _ c Hc).
    rewrite bool_decide_eq_true_2; [done|]. by apply list_elem_of_fmap_2. }
  assert (Hkeep : ∀ k, (w.1 ≤ k < w.2)%nat → line !! k = buf !! k).
  { intros k Hk. destruct (at_lookup k) as [Hc _]; [lia|]. rewrite Hc. unfold line. rewrite (zeros_lookup _ _ _ (at_ buf k)) by (by apply lookup_app_l_Some).
    rewrite bool_decide_eq_false_2; [done|]. intros (v & -> & Hv)%list_elem_of_fmap. destruct (Hall v Hv) as [? _ [?|Hv']]; [lia|].
    specialize (Hw v.2 Hk). congruence. }
  assert (Hd : drop w.1 line = slice w ++ 0 :: drop (S w.2) line).
  { rewrite <- (drop_S _ _ _ Hend). rewrite <- (take_drop (w.2 - w.1) (drop w.1 line)), drop_drop. f_equal; [|f_equal; lia].
    apply list_eq. intros i. unfold slice. destruct (decide (i < w.2 - w.1)%nat).
    - rewrite !lookup_take_lt by done. rewrite !lookup_drop. apply Hkeep. lia.
    - by rewrite !lookup_take_ge by lia. }
  unfold cstring. rewrite Hd, count_while_app; [by rewrite take_app_length| |done].
  apply Forall_lookup. intros i c Hi. unfold slice in Hi. apply lookup_take_Some in Hi as [Hi Hlt]. rewrite lookup_drop in Hi.
  destruct (at_lookup (w.1 + i)%nat) as [Hc Hne]; [lia|]. unfold nonzero. apply negb_true_iff, Z.eqb_neq. congruence.
Qed.

Lemma parsecmd_ok : match parsecmd buf with Ret c => Forall word_ok (words c) | Panic _ => True | Block => False end.
Proof.
  unfold parsecmd. pose proof (proj1 (parse_safe (parse_fuel buf))) as Hl. specialize (Hl 0%nat ltac:(lia) ltac:(unfold parse_fuel; lia)).
  assert (safe (c ← parseline buf (parse_fuel buf); peek buf [];; mret c) (λ c _, Forall word_ok (words c)) 0%nat) as Hsafe.
  { apply safe_bind. eapply safe_mono; [exact Hl|]. intros c s [Hs Hc]. apply safe_bind, peek_safe; [lia|]. intros b s' _ _. by apply safe_ret. }
  unfold safe in Hsafe. destruct ((c ← parseline buf (parse_fuel buf); peek buf [];; mret c) 0%nat) as [[c s]| |]; [by case_bool_decide|done|done].
Qed.

End safety.

(** [C29] The shell's parser ends on every line, with a command or with the report of
    a syntax error; and once nulterminate has cut the line up in place, every
    argument and every file name of the command is the word of the line between its
    two pointers, complete and without the characters of another. *)
Theorem sh_parse_words buf : 0 ∉ buf →
  match parsecmd buf with
  | Ret c => ∀ w, w ∈ words c → cstring (nulterminate c (buf ++ [0])) w.1 = slice buf w ∧
      slice buf w ≠ [] ∧ Forall (λ x, is_word x = true) (slice buf w)
  | Panic _ => True
  | Block => False
  end.
Proof.
  intros Hbuf. pose proof (parsecmd_ok buf Hbuf) as H. destruct (parsecmd buf) as [c| |]; [|done|done].
  intros w Hw. rewrite nulterminate_zeros. pose proof (proj1 (Forall_forall _ _) H w Hw) as [Hr Hin _]. split_and!.
  - by apply cstring_word.
  - intros E. apply (f_equal length) in E. unfold slice in E. rewrite length_take, length_drop in E. simpl in E. lia.
  - apply Forall_lookup. intros i x Hi. unfold slice in Hi. apply lookup_take_Some in Hi as [Hi Hlt]. rewrite lookup_drop in Hi.
    destruct (at_lookup buf Hbuf (w.1 + i)%nat) as [Hc _]; [lia|]. rewrite Hc in Hi. injection Hi as <-. apply Hin. lia.
Qed.

(** [ls >f|(wc;b)&] *)
Lemma sh_parse_words_witness : let buf := [108; 115; 32; 62; 102; 124; 40; 119; 99; 59; 98; 41; 38] in
  let c := BACK (PIPE (REDIR (EXEC [(0, 2)%nat]) (4, 5)%nat 0x601 1) (LIST (EXEC [(7, 9)%nat]) (EXEC [(10, 11)%nat]))) in
  parsecmd buf = Ret c ∧ map (cstring (nulterminate c (buf ++ [0])) ∘ fst) (words c) = [[108; 115]; [102]; [119; 99]; [98]] ∧
  (∀ w, w ∈ words c → slice buf w ≠ []).
Proof.
  intros buf c. assert (E : parsecmd buf = Ret c) by (vm_compute; reflexivity). split; [exact E|]. split; [vm_compute; reflexivity|].
  assert (H : 0 ∉ buf) by (apply (bool_decide_unpack _); vm_compute; exact I). pose proof (sh_parse_words buf H) as Hw. rewrite E in Hw. intros w Hin. by apply Hw.
Defined.

End Sh.
