(* ===== verification/ShPrint.v ===== *)
(** * user/sh.c: the parser reads back what a command prints as

    A command is printed as a list of tokens, a space after each, with parentheses
    where the grammar of [parseline], [parsepipe] and [parseexec] needs them, and the
    parser returns that command: its grouping, the order of its redirections and the
    strings of its words. *)

From S2P Require Import Prelude Sh.

Module ShPrint.
Import Sh.
Notation str := (list Z).
Notation word := (nat * nat)%type.

(** ** The printer *)

Inductive token := TWord (w : str) | TSym (c : Z).
Definition tok_text (t : token) : str :=
  match t with TWord w => w | TSym c => if c =? PLUS then [GT; GT] else [c] end.
Definition tok_kind (t : token) : Z := match t with TWord _ => TOK_A | TSym c => c end.
Definition text (ts : list token) : str := mbind (λ t, tok_text t ++ [32]) ts.

Definition kind_of (mode : Z) : rkind :=
  if mode =? rmode RIn then RIn else if mode =? rmode ROut then ROut else RAppend.
Definition rsym (k : rkind) : Z := match k with RIn => LT | ROut => GT | RAppend => PLUS end.
Definition redir_toks (f : str) (k : rkind) : list token := [TSym (rsym k); TWord f].

Definition paren (b : bool) (ts : list token) : list token := if b then TSym LPAR :: ts ++ [TSym RPAR] else ts.

(** Level 0 is a line, 1 a command with its [&], 2 a pipeline, 3 what [parseexec] takes. *)
Fixpoint toks (lev : nat) (c : cmd str) : list token :=
  match c with
  | LIST l r => paren (0 <? lev)%nat (toks 1 l ++ TSym SEMI :: toks 0 r)
  | BACK c => paren (1 <? lev)%nat (toks 1 c ++ [TSym AMP])
  | PIPE l r => paren (2 <? lev)%nat (toks 3 l ++ TSym BAR :: toks 2 r)
  | REDIR c f mode _ => toks 3 c ++ redir_toks f (kind_of mode)
  | EXEC argv => map TWord argv
  end.
Definition show (c : cmd str) : str := text (toks 0 c).

Definition good_word (w : str) : bool := negb (bool_decide (w = [])) && forallb (λ c, is_word c && negb (c =? 0)) w.

(** The commands the shell can hold: words that are words, at most [MAXARGS - 1] of them,
    and the modes and descriptors of the three redirections. *)
Fixpoint wf (c : cmd str) : bool :=
  match c with
  | EXEC argv => (length argv <? MAXARGS)%nat && forallb good_word argv
  | REDIR c f mode fd => wf c && good_word f && (mode =? rmode (kind_of mode)) && (fd =? rfd (kind_of mode))
  | PIPE l r | LIST l r => wf l && wf r
  | BACK c => wf c
  end.

Fixpoint cmd_map {A B} (f : A → B) (c : cmd A) : cmd B :=
  match c with
  | EXEC argv => EXEC (map f argv)
  | REDIR c w mode fd => REDIR (cmd_map f c) (f w) mode fd
  | PIPE l r => PIPE (cmd_map f l) (cmd_map f r)
  | LIST l r => LIST (cmd_map f l) (cmd_map f r)
  | BACK c => BACK (cmd_map f c)
  end.

(** ** Reading tokens *)

Definition syms : str := [BAR; LPAR; RPAR; SEMI; AMP; LT; GT; PLUS].
Definition tok_good (t : token) : bool :=
  match t with TWord w => good_word w | TSym c => bool_decide (c ∈ syms) end.

(** The first character of the text, 0 at its end. *)
Definition first (ts : list token) : Z := nth 0 (text ts) 0.

Lemma good_word_spec w : good_word w = true ↔ w ≠ [] ∧ Forall (λ c, is_word c = true ∧ c ≠ 0) w.
Proof.
  unfold good_word. rewrite andb_true_iff, negb_true_iff, bool_decide_eq_false, forallb_forall, Forall_forall.
  split; intros [H1 H2]; (split; [done|]); intros c Hc.
  - apply list_elem_of_In, H2 in Hc. by rewrite andb_true_iff, negb_true_iff, Z.eqb_neq in Hc.
  - apply list_elem_of_In, H2 in Hc. by rewrite andb_true_iff, negb_true_iff, Z.eqb_neq.
Qed.

Lemma word_not_ws c : is_word c = true → is_ws c = false.
Proof. unfold is_word. by destruct (is_ws c). Qed.
Lemma word_not_sym c : is_word c = true → c ∉ symbols.
Proof. unfold is_word. rewrite andb_true_iff, !negb_true_iff. intros [_ H]. by apply bool_decide_eq_false in H. Qed.

Lemma sym_char c : c ∈ syms → ∃ d l, tok_text (TSym c) = d :: l ∧ is_ws d = false ∧ d ≠ 0 ∧ d ∈ symbols.
Proof.
  intros H. unfold syms in H. repeat (apply elem_of_cons in H as [->|H]; [by do 2 eexists; (split; [reflexivity|]); split_and!; [done|done|apply (bool_decide_unpack _); vm_compute]|]).
  by apply elem_of_nil in H.
Qed.

Lemma first_good t ts : tok_good t = true → is_ws (first (t :: ts)) = false ∧ first (t :: ts) ≠ 0.
Proof.
  destruct t as [w|c]; simpl; intros H.
  - apply good_word_spec in H as [Hne H]. destruct w as [|c w]; [done|]. apply Forall_cons in H as [[Hw H0] _].
    unfold first. simpl. split; [by apply word_not_ws|done].
  - apply bool_decide_eq_true in H. destruct (sym_char c H) as (d & l & E & Hws & H0 & _).
    unfold first, text. cbn [mbind list_bind]. by rewrite E.
Qed.

Lemma first_word w ts : good_word w = true → first (TWord w :: ts) ∉ symbols.
Proof.
  intros H. apply good_word_spec in H as [Hne H]. destruct w as [|c w]; [done|]. apply Forall_cons in H as [[Hw H0] _].
  unfold first. simpl. by apply word_not_sym.
Qed.

Section reading.
Context (buf : str).

(** The parser stands before [ts]. *)
Definition before (s : nat) (ts : list token) : Prop := drop (skip_ws buf s) buf = text ts ∧ forallb tok_good ts = true.

(** Returns with [Q], unless the fuel runs out. *)
Definition reads {A} (m : M nat A) (Q : A → nat → Prop) (s : nat) : Prop :=
  match m s with Ret (a, s') => Q a s' | Panic _ => False | Block => True end.

Lemma reads_ret {A} (a : A) (Q : A → nat → Prop) s : Q a s → reads (mret a) Q s.
Proof. done. Qed.
Lemma reads_block {A} (Q : A → nat → Prop) s : reads Prelude.block Q s.
Proof. done. Qed.
Lemma reads_bind {A B} (m : M nat A) (k : A → M nat B) R Q s :
  reads m R s → (∀ a s', R a s' → reads (k a) Q s') → reads (m ≫= k) Q s.
Proof. unfold reads, mbind, M_bind. intros Hm Hk. destruct (m s) as [[a s']| |]; [by apply Hk|done|done]. Qed.
Lemma reads_mono {A} (m : M nat A) (Q Q' : A → nat → Prop) s : reads m Q s → (∀ a s', Q a s' → Q' a s') → reads m Q' s.
Proof. unfold reads. destruct (m s) as [[a s']| |]; auto. Qed.

#[local] Arguments reads : simpl never.

Lemma at_drop s l : drop s buf = l → at_ buf s = nth 0 l 0.
Proof. intros <-. unfold at_. by rewrite nth_skipn, Nat.add_0_r. Qed.

Lemma text_cons t ts : text (t :: ts) = tok_text t ++ 32 :: text ts.
Proof. unfold text. cbn [mbind list_bind]. by rewrite <- app_assoc. Qed.

Lemma text_no_ws s ts : forallb tok_good ts = true → drop s buf = text ts → skip_ws buf s = s.
Proof.
  intros Hg E. unfold skip_ws. rewrite E. destruct ts as [|t ts]; [simpl; lia|]. apply andb_true_iff in Hg as [Hg _].
  destruct (first_good t ts Hg) as [Hws _]. unfold first in Hws. destruct (text (t :: ts)) as [|c l]; simpl in *; [lia|]. rewrite Hws. lia.
Qed.

(** Past a token and its space. *)
Lemma before_next q t ts : drop q buf = text (t :: ts) → forallb tok_good ts = true →
  before (skip_ws buf (q + length (tok_text t))%nat) ts.
Proof.
  intros E Hg. rewrite text_cons in E. set (e := (q + length (tok_text t))%nat).
  assert (Ee : drop e buf = 32 :: text ts) by (unfold e; by rewrite <- drop_drop, E, drop_app_length).
  assert (E1 : drop (S e) buf = text ts) by (rewrite <- Nat.add_1_r, <- drop_drop, Ee; done).
  assert (Hs : skip_ws buf e = S e).
  { pose proof (text_no_ws (S e) ts Hg E1) as H. unfold skip_ws in *. rewrite Ee. rewrite E1 in H. simpl. lia. }
  split; [|done]. by rewrite Hs, (text_no_ws (S e) ts).
Qed.

Lemma token_end_word q w ts : good_word w = true → drop q buf = text (TWord w :: ts) → token_end buf q = (TOK_A, q + length w)%nat.
Proof.
  intros Hw E. pose proof (first_word w ts Hw) as Hsym. pose proof (first_good (TWord w) ts Hw) as [_ H0].
  unfold token_end. rewrite (at_drop _ _ E). change (nth 0 _ 0) with (first (TWord w :: ts)).
  rewrite (proj2 (Z.eqb_neq _ _) H0), bool_decide_eq_false_2 by (unfold symbols, BAR, LPAR, RPAR, SEMI, AMP, LT in *; set_solver).
  destruct (Z.eqb_spec (first (TWord w :: ts)) GT) as [Eg|_]; [rewrite Eg in Hsym; exfalso; apply Hsym; unfold symbols, GT; set_solver|].
  rewrite E, text_cons, count_while_app; [done| |done]. apply good_word_spec in Hw as [_ Hw]. by eapply Forall_impl; [exact Hw|intros c [? _]].
Qed.

Lemma token_end_sym q c ts : c ∈ syms → drop q buf = text (TSym c :: ts) → token_end buf q = (c, q + length (tok_text (TSym c)))%nat.
Proof.
  intros Hc E. unfold token_end. rewrite (at_drop _ _ E). assert (at_ buf (S q) = nth 1 (text (TSym c :: ts)) 0) as E1.
  { rewrite <- E. unfold at_. rewrite nth_skipn. f_equal. lia. }
  rewrite E1. unfold syms in Hc.
  repeat (apply elem_of_cons in Hc as [->|Hc]; [by cbn; rewrite ?Nat.add_1_r; f_equal; lia|]). by apply elem_of_nil in Hc.
Qed.

Lemma gettoken_reads s t ts : before s (t :: ts) →
  reads (gettoken buf) (λ r s', r.1.1 = tok_kind t ∧ slice buf (r.1.2, r.2) = tok_text t ∧ before s' ts) s.
Proof.
  intros [E Hg]. apply andb_true_iff in Hg as [Ht Hg]. unfold reads, gettoken.
  assert (token_end buf (skip_ws buf s) = (tok_kind t, skip_ws buf s + length (tok_text t))%nat) as ->.
  { destruct t as [w|c]; [by apply (token_end_word _ w ts)|]. apply (token_end_sym _ c ts); [by apply bool_decide_eq_true in Ht|done]. }
  split_and!; [done| |by apply before_next]. unfold slice. simpl.
  rewrite Nat.add_comm, Nat.add_sub, E, text_cons. by rewrite take_app_length.
Qed.

Lemma gettoken_end s : before s [] → reads (gettoken buf) (λ r s', r.1.1 = 0 ∧ before s' []) s.
Proof.
  intros [E _]. unfold reads, gettoken, token_end. rewrite (at_drop _ _ E). simpl. split; [done|].
  split; [|done]. by rewrite !(text_no_ws (skip_ws buf s) []).
Qed.

Lemma peek_reads s F ts : before s ts →
  reads (peek buf F) (λ b s', b = negb (first ts =? 0) && bool_decide (first ts ∈ F) ∧ before s' ts) s.
Proof.
  intros [E Hg]. unfold reads, peek. rewrite (at_drop _ _ E). split; [done|]. split; [|done].
  by rewrite (text_no_ws (skip_ws buf s) ts).
Qed.

(** What [peek] answers. *)
Definition sym_head (c : Z) : Z := if c =? PLUS then GT else c.
Definition peeks (F : str) (ts : list token) : bool :=
  match ts with TSym c :: _ => bool_decide (sym_head c ∈ F) | _ => false end.

Lemma peek_peeks F s ts : forallb is_sym F = true → before s ts →
  reads (peek buf F) (λ b s', b = peeks F ts ∧ before s' ts) s.
Proof.
  intros HF Hb. eapply reads_mono; [by apply peek_reads|]. intros b s' [-> Hb']. split; [|done]. clear s' Hb'. destruct Hb as [_ Hg].
  destruct ts as [|[w|c] ts]; [done| |].
  - apply andb_true_iff in Hg as [Hw _]. rewrite (bool_decide_eq_false_2 (_ ∈ F)); [by destruct (_ =? 0)|].
    intros Hin. apply (first_word w ts Hw). rewrite forallb_forall in HF. apply list_elem_of_In, HF in Hin. by apply bool_decide_eq_true in Hin.
  - apply andb_true_iff in Hg as [Hc _]. destruct (first_good (TSym c) ts Hc) as [_ H0].
    rewrite (proj2 (Z.eqb_neq _ _) H0). unfold first, peeks, sym_head. rewrite text_cons. simpl. by destruct (c =? PLUS).
Qed.

(** What may come next. *)
Definition follow (G : str) (ts : list token) : Prop :=
  match ts with [] => True | TSym c :: _ => c ∈ G | TWord _ :: _ => False end.
Lemma follow_peeks F G ts : forallb (λ c, negb (bool_decide (sym_head c ∈ F))) G = true → follow G ts → peeks F ts = false.
Proof.
  intros H Hf. destruct ts as [|[w|c] ts]; [done|done|]. simpl in Hf. rewrite forallb_forall in H. apply list_elem_of_In, H in Hf.
  by apply negb_true_iff in Hf.
Qed.

Definition rtoks (rs : list (str * rkind)) : list token := mbind (λ r, redir_toks r.1 r.2) rs.
Definition rslice (r : word * rkind) : str * rkind := (slice buf r.1, r.2).

Lemma redir_kind_rsym k : redir_kind (rsym k) = k.
Proof. by destruct k. Qed.
Lemma peeks_redir k ts : peeks [LT; GT] (TSym (rsym k) :: ts) = true.
Proof. by destruct k. Qed.

Lemma parseredirs_reads rs rest fuel s : peeks [LT; GT] rest = false → before s (rtoks rs ++ rest) →
  reads (parseredirs buf fuel) (λ rs' s', map rslice rs' = rs ∧ before s' rest) s.
Proof.
  intros Hrest. revert rs s. induction fuel as [|fuel IH]; intros rs s Hb; [apply reads_block|]. cbn [parseredirs].
  eapply reads_bind; [apply peek_peeks; [done|exact Hb]|]. intros b s1 [-> Hb1]. destruct rs as [|[f k] rs].
  { simpl. rewrite Hrest. by apply reads_ret. }
  change (rtoks ((f, k) :: rs) ++ rest) with (TSym (rsym k) :: TWord f :: (rtoks rs ++ rest)) in *. rewrite peeks_redir.
  eapply reads_bind; [by apply gettoken_reads|]. intros t s2 (Ht & _ & Hb2). eapply reads_bind; [by apply gettoken_reads|].
  intros u s3 (Hu & Hf & Hb3). rewrite Hu. cbn [negb tok_kind Z.eqb TOK_A Pos.eqb]. eapply reads_bind; [by apply IH|].
  intros rs' s4 [<- Hb4]. apply reads_ret. split; [|done]. cbn [map]. unfold rslice at 1. cbn [fst snd].
  rewrite Hf, Ht. cbn [tok_kind tok_text]. by rewrite redir_kind_rsym.
Qed.

(** The words of an [execcmd], with its redirections after the last. *)
Lemma parseargs_reads ws rs rest fuel argc s : follow [RPAR; AMP; SEMI; BAR] rest → (ws = [] → rs = []) →
  (argc + length ws < MAXARGS)%nat → before s (map TWord ws ++ rtoks rs ++ rest) →
  reads (parseargs buf fuel argc) (λ r s', map (slice buf) r.1 = ws ∧ map rslice r.2 = rs ∧ before s' rest) s.
Proof.
  intros Hrest. revert ws rs argc s. induction fuel as [|fuel IH]; intros ws rs argc s Hnil Hlen Hb; [apply reads_block|]. cbn [parseargs].
  eapply reads_bind; [apply peek_peeks; [done|exact Hb]|]. intros b s1 [-> Hb1]. destruct ws as [|w ws].
  { rewrite (Hnil eq_refl) in *. cbn [map app rtoks mbind list_bind] in *. destruct rest as [|[w|c] rest]; [|done|].
    - eapply reads_bind; [by apply gettoken_end|]. intros t s2 [-> Hb2]. by apply reads_ret.
    - replace (peeks _ _) with true; [by apply reads_ret|]. unfold peeks. symmetry. apply bool_decide_eq_true. simpl in Hrest.
      repeat (apply elem_of_cons in Hrest as [->|Hrest]; [by apply (bool_decide_unpack _); vm_compute|]). by apply elem_of_nil in Hrest. }
  cbn [map app length] in *. eapply reads_bind; [by apply gettoken_reads|]. intros t s2 (Ht & Hw & Hb2).
  rewrite Ht. cbn [negb tok_kind Z.eqb TOK_A Pos.eqb]. destruct (Nat.leb_spec MAXARGS (S argc)) as [?|_]; [lia|].
  assert (Hlg : peeks [LT; GT] rest = false) by (by apply (follow_peeks _ [RPAR; AMP; SEMI; BAR])).
  destruct ws as [|w' ws].
  - eapply reads_bind; [by apply (parseredirs_reads rs rest)|]. intros rs' s3 [<- Hb3].
    eapply reads_bind; [by apply (IH [] [] (S argc)); [|simpl in *; lia|]|]. intros r s4 (Er1 & Er2 & Hb4). apply reads_ret.
    apply map_eq_nil in Er1 as ->, Er2 as ->. rewrite app_nil_r. split_and!; [|done|done]. simpl. by rewrite Hw.
  - eapply reads_bind; [apply (parseredirs_reads [] (map TWord (w' :: ws) ++ rtoks rs ++ rest)); [done|exact Hb2]|]. intros rs' s3 [Hrs' Hb3]. apply map_eq_nil in Hrs' as ->.
    eapply reads_bind; [by apply (IH (w' :: ws) rs (S argc)); [|simpl in *; lia|]|]. intros r s4 (Er1 & Er2 & Hb4). apply reads_ret.
    split_and!; [|done|done]. simpl. by rewrite Hw, Er1.
Qed.

Lemma parseback_reads n rest fuel c s : follow [SEMI; RPAR] rest → before s (replicate n (TSym AMP) ++ rest) →
  reads (parseback buf fuel c) (λ c' s', c' = Nat.iter n BACK c ∧ before s' rest) s.
Proof.
  intros Hrest. revert n c s. induction fuel as [|fuel IH]; intros n c s Hb; [apply reads_block|]. cbn [parseback].
  eapply reads_bind; [apply peek_peeks; [done|exact Hb]|]. intros b s1 [-> Hb1]. destruct n as [|n]; simpl in *.
  { rewrite (follow_peeks _ [SEMI; RPAR]) by done. by apply reads_ret. }
  eapply reads_bind; [by apply gettoken_reads|]. intros t s2 (_ & _ & Hb2). eapply reads_mono; [by apply (IH n)|].
  intros c' s' [-> Hb']. split; [|done]. by rewrite <- Nat.iter_succ_r.
Qed.

(** ** Taking a command apart *)

Lemma wrap_app {W} (c : cmd W) rs r : wrap c (rs ++ [r]) = REDIR (wrap c rs) r.1 (rmode r.2) (rfd r.2).
Proof. unfold wrap. by rewrite foldl_app. Qed.
Lemma cmd_map_wrap c rs : cmd_map (slice buf) (wrap c rs) = wrap (cmd_map (slice buf) c) (map rslice rs).
Proof.
  induction rs as [|r rs IH] using rev_ind; [done|]. rewrite map_app. cbn [map]. rewrite !wrap_app. cbn [cmd_map]. by rewrite IH.
Qed.
Lemma cmd_map_backs n c : cmd_map (slice buf) (Nat.iter n BACK c) = Nat.iter n BACK (cmd_map (slice buf) c).
Proof. induction n as [|n IH]; simpl; [done|]. by rewrite IH. Qed.

(** The redirections around a command, and what [parseexec] finds before them. *)
Lemma strip_redirs c : wf c = true → ∃ c0 rs base, c = wrap c0 rs ∧ wf c0 = true ∧ toks 3 c = base ++ rtoks rs ∧
  ((∃ argv, c0 = EXEC argv ∧ base = map TWord argv) ∨ base = TSym LPAR :: toks 0 c0 ++ [TSym RPAR]).
Proof.
  induction c as [argv|c IH f mode fd|l _ r _|l _ r _|c _]; intros Hw.
  2:{ cbn [wf] in Hw. rewrite !andb_true_iff, !Z.eqb_eq in Hw. destruct Hw as [[[Hw Hf] Hm] Hfd].
    destruct (IH Hw) as (c0 & rs & base & -> & Hw0 & E & Hbase). exists c0, (rs ++ [(f, kind_of mode)]), base.
    rewrite wrap_app. cbn [fst snd]. rewrite <- Hm, <- Hfd. split_and!; [done|done| |done].
    unfold rtoks. rewrite bind_app. cbn [toks]. rewrite E. by rewrite <- app_assoc. }
  all: do 2 eexists; eexists; (split_and!; [by rewrite (eq_refl : wrap _ [] = _)|done|by rewrite app_nil_r|]); eauto.
Qed.

Lemma strip_backs c : wf c = true → ∃ c0 n, c = Nat.iter n BACK c0 ∧ wf c0 = true ∧ toks 1 c = toks 2 c0 ++ replicate n (TSym AMP).
Proof.
  induction c as [argv|c IH f mode fd|l _ r _|l _ r _|c IH]; intros Hw.
  5:{ destruct (IH Hw) as (c0 & n & -> & Hw0 & E). exists c0, (S n). split_and!; [done|done|]. cbn [toks paren Nat.ltb Nat.leb].
    by rewrite E, <- app_assoc, <- replicate_cons_app. }
  all: eexists _, 0%nat; (split_and!; [reflexivity|done|by rewrite app_nil_r]).
Qed.

Definition line_reads (f : nat) : Prop := ∀ c rest s, wf c = true → follow [RPAR] rest → before s (toks 0 c ++ rest) →
  reads (parseline buf f) (λ c' s', cmd_map (slice buf) c' = c ∧ before s' rest) s.
Definition pipe_reads (f : nat) : Prop := ∀ c rest s, wf c = true → follow [RPAR; AMP; SEMI] rest → before s (toks 2 c ++ rest) →
  reads (parsepipe buf f) (λ c' s', cmd_map (slice buf) c' = c ∧ before s' rest) s.
Definition exec_reads (f : nat) : Prop := ∀ c rest s, wf c = true → follow [RPAR; AMP; SEMI; BAR] rest → before s (toks 3 c ++ rest) →
  reads (parseexec buf f) (λ c' s', cmd_map (slice buf) c' = c ∧ before s' rest) s.
Definition block_reads (f : nat) : Prop := ∀ c rs rest s, wf c = true → follow [RPAR; AMP; SEMI; BAR] rest →
  before s (TSym LPAR :: toks 0 c ++ TSym RPAR :: rtoks rs ++ rest) →
  reads (parseblock buf f) (λ c' s', cmd_map (slice buf) c' = wrap c rs ∧ before s' rest) s.

Lemma follow_more G G' ts : follow G ts → G ⊆ G' → follow G' ts.
Proof. destruct ts as [|[w|c] ts]; [done|done|]. simpl. set_solver. Qed.

(** A pipeline with its [&], and then the rest of the line. *)
Lemma line_first f c rest s (k : cmd word → M nat (cmd word)) Q : pipe_reads f → wf c = true → follow [SEMI; RPAR] rest →
  before s (toks 1 c ++ rest) → (∀ c' s', cmd_map (slice buf) c' = c → before s' rest → reads (k c') Q s') →
  reads (c ← parsepipe buf f; c ← parseback buf (loop_fuel buf) c; k c) Q s.
Proof.
  intros Hp Hw Hrest Hb Hk. destruct (strip_backs c Hw) as (c0 & n & -> & Hw0 & E). rewrite E, <- app_assoc in Hb.
  eapply reads_bind; [apply (Hp c0 (replicate n (TSym AMP) ++ rest)); [done| |exact Hb]|].
  { destruct n as [|n]; simpl; [|set_solver]. eapply follow_more; [exact Hrest|set_solver]. }
  intros c1 s1 [Hc1 Hb1]. eapply reads_bind; [by apply parseback_reads|]. intros c2 s2 [-> Hb2].
  apply Hk; [|done]. by rewrite cmd_map_backs, Hc1.
Qed.

Lemma line_step f : pipe_reads f → line_reads f → line_reads (S f).
Proof.
  intros Hp Hl c rest s Hw Hrest Hb. cbn [parseline].
  assert (Hdef : toks 0 c = toks 1 c → reads (c ← parsepipe buf f; c ← parseback buf (loop_fuel buf) c; b ← peek buf [SEMI];
      if b : bool then gettoken buf;; r ← parseline buf f; mret (LIST c r) else mret c)
      (λ c' s', cmd_map (slice buf) c' = c ∧ before s' rest) s).
  { intros E. rewrite E in Hb. apply (line_first f c rest); [done|done|eapply follow_more; [exact Hrest|set_solver]|done|]. intros c' s1 Hc Hb1.
    eapply reads_bind; [by apply peek_peeks|]. intros b s2 [-> Hb2]. rewrite (follow_peeks _ [RPAR]) by done. by apply reads_ret. }
  destruct c as [argv|c0 g mode fd|l r|l r|c0]; try (by apply Hdef). clear Hdef.
  cbn [toks paren Nat.ltb Nat.leb] in Hb. rewrite <- app_assoc in Hb. cbn [app] in Hb. apply andb_true_iff in Hw as [Hwl Hwr].
  apply (line_first f l (TSym SEMI :: toks 0 r ++ rest)); [done|done|simpl; set_solver|done|]. intros l' s1 Hl' Hb1.
  eapply reads_bind; [by apply peek_peeks|]. intros b s2 [-> Hb2]. simpl.
  eapply reads_bind; [by apply gettoken_reads|]. intros t s3 (_ & _ & Hb3).
  eapply reads_bind; [by apply (Hl r rest)|]. intros r' s4 [Hr' Hb4]. apply reads_ret. simpl. by rewrite Hl', Hr'.
Qed.

Lemma pipe_step f : exec_reads f → pipe_reads f → pipe_reads (S f).
Proof.
  intros He Hp c rest s Hw Hrest Hb. cbn [parsepipe].
  assert (Hdef : toks 2 c = toks 3 c → reads (c ← parseexec buf f; b ← peek buf [BAR];
      if b : bool then gettoken buf;; r ← parsepipe buf f; mret (PIPE c r) else mret c)
      (λ c' s', cmd_map (slice buf) c' = c ∧ before s' rest) s).
  { intros E. rewrite E in Hb. eapply reads_bind; [apply (He c rest); [done|eapply follow_more; [exact Hrest|set_solver]|done]|]. intros c' s1 [Hc Hb1].
    eapply reads_bind; [by apply peek_peeks|]. intros b s2 [-> Hb2]. rewrite (follow_peeks _ [RPAR; AMP; SEMI]) by done. by apply reads_ret. }
  destruct c as [argv|c0 g mode fd|l r|l r|c0]; try (by apply Hdef). clear Hdef.
  cbn [toks paren Nat.ltb Nat.leb] in Hb. rewrite <- app_assoc in Hb. cbn [app] in Hb. apply andb_true_iff in Hw as [Hwl Hwr].
  eapply reads_bind; [apply (He l (TSym BAR :: toks 2 r ++ rest)); [done|simpl; set_solver|done]|]. intros l' s1 [Hl' Hb1].
  eapply reads_bind; [by apply peek_peeks|]. intros b s2 [-> Hb2]. simpl.
  eapply reads_bind; [by apply gettoken_reads|]. intros t s3 (_ & _ & Hb3).
  eapply reads_bind; [by apply (Hp r rest)|]. intros r' s4 [Hr' Hb4]. apply reads_ret. simpl. by rewrite Hl', Hr'.
Qed.

Lemma block_step f : line_reads f → block_reads (S f).
Proof.
  intros Hl c rs rest s Hw Hrest Hb. cbn [parseblock].
  eapply reads_bind; [by apply peek_peeks|]. intros b s1 [-> Hb1]. cbn [peeks]. rewrite bool_decide_eq_true_2 by (simpl; set_solver).
  cbn [negb]. eapply reads_bind; [by apply gettoken_reads|]. intros t s2 (_ & _ & Hb2).
  eapply reads_bind; [apply (Hl c (TSym RPAR :: rtoks rs ++ rest)); [done|simpl; set_solver|done]|]. intros c' s3 [Hc' Hb3].
  eapply reads_bind; [by apply peek_peeks|]. intros b s4 [-> Hb4]. cbn [peeks]. rewrite bool_decide_eq_true_2 by (simpl; set_solver).
  cbn [negb]. eapply reads_bind; [by apply gettoken_reads|]. intros u s5 (_ & _ & Hb5).
  eapply reads_bind; [apply (parseredirs_reads rs rest); [by apply (follow_peeks _ [RPAR; AMP; SEMI; BAR])|done]|].
  intros rs' s6 [Hrs Hb6]. apply reads_ret. by rewrite cmd_map_wrap, Hc', Hrs.
Qed.

(** No parenthesis before the words and the redirections of a plain command. *)
Lemma peeks_plain argv rs rest : follow [RPAR; AMP; SEMI; BAR] rest → peeks [LPAR] (map TWord argv ++ rtoks rs ++ rest) = false.
Proof.
  intros Hrest. destruct argv as [|w argv]; [|done]. destruct rs as [|[f k] rs]; [|by destruct k]. by apply (follow_peeks _ [RPAR; AMP; SEMI; BAR]).
Qed.

Lemma exec_plain argv rs rest f s : (length argv < MAXARGS)%nat → follow [RPAR; AMP; SEMI; BAR] rest →
  before s (map TWord argv ++ rtoks rs ++ rest) →
  reads (parseexec buf (S f)) (λ c' s', cmd_map (slice buf) c' = wrap (EXEC argv) rs ∧ before s' rest) s.
Proof.
  intros Hlen Hrest Hb. cbn [parseexec]. eapply reads_bind; [apply peek_peeks; [done|exact Hb]|]. intros b s1 [-> Hb1].
  rewrite peeks_plain by done. destruct argv as [|w argv].
  - eapply reads_bind; [apply (parseredirs_reads rs rest); [by apply (follow_peeks _ [RPAR; AMP; SEMI; BAR])|done]|]. intros rs' s2 [Hrs Hb2].
    eapply reads_bind; [by apply (parseargs_reads [] [] rest)|]. intros r s3 (E1 & E2 & Hb3). apply reads_ret.
    apply map_eq_nil in E2 as ->. rewrite app_nil_r, cmd_map_wrap, Hrs. simpl. by rewrite E1.
  - eapply reads_bind; [by apply (parseredirs_reads [] (map TWord (w :: argv) ++ rtoks rs ++ rest))|]. intros rs' s2 [Hrs Hb2].
    apply map_eq_nil in Hrs as ->. eapply reads_bind; [by apply (parseargs_reads (w :: argv) rs rest)|]. intros r s3 (E1 & E2 & Hb3).
    apply reads_ret. cbn [app]. rewrite cmd_map_wrap, E2. cbn [cmd_map]. by rewrite E1.
Qed.

Lemma exec_step f : block_reads f → exec_reads (S f).
Proof.
  intros Hblk c rest s Hw Hrest Hb. destruct (strip_redirs c Hw) as (c0 & rs & base & -> & Hw0 & E & Hbase). rewrite E, <- app_assoc in Hb.
  destruct Hbase as [(argv & -> & ->)| ->].
  - apply exec_plain; [|done|done]. apply andb_true_iff in Hw0 as [Hlen _]. by apply Nat.ltb_lt.
  - cbn [app] in Hb. rewrite <- app_assoc in Hb. cbn [parseexec]. eapply reads_bind; [by apply peek_peeks|]. intros b s1 [-> Hb1].
    cbn [peeks]. rewrite bool_decide_eq_true_2 by (simpl; set_solver). by apply (Hblk c0 rs rest).
Qed.

Lemma all_read f : line_reads f ∧ pipe_reads f ∧ exec_reads f ∧ block_reads f.
Proof.
  induction f as [|f (Hl & Hp & He & Hblk)]; [by split_and!; repeat intros ?; apply reads_block|].
  split_and!; [by apply line_step|by apply pipe_step|by apply exec_step|by apply block_step].
Qed.

End reading.

(** ** The round trip *)

Lemma toks_good c lev : wf c = true → forallb tok_good (toks lev c) = true.
Proof.
  revert lev. assert (Hparen : ∀ b ts, forallb tok_good ts = true → forallb tok_good (paren b ts) = true).
  { intros [] ts H; [|done]. simpl. by rewrite forallb_app, H. }
  induction c as [argv|c IH f mode fd|l IHl r IHr|l IHl r IHr|c IH]; intros lev Hw; cbn [toks wf] in *.
  - apply andb_true_iff in Hw as [_ Hw]. rewrite <- Hw. clear. induction argv as [|w argv IH]; simpl; [done|]. by rewrite IH.
  - rewrite !andb_true_iff in Hw. destruct Hw as [[[Hw Hf] _] _]. rewrite forallb_app, (IH 3%nat Hw). simpl. rewrite Hf. by destruct (kind_of mode).
  - apply andb_true_iff in Hw as [Hl Hr]. apply Hparen. rewrite forallb_app, (IHl 3%nat Hl). simpl. by rewrite IHr.
  - apply andb_true_iff in Hw as [Hl Hr]. apply Hparen. rewrite forallb_app, (IHl 1%nat Hl). simpl. by rewrite IHr.
  - apply Hparen. rewrite forallb_app. by rewrite IH.
Qed.

Lemma text_nonzero ts : forallb tok_good ts = true → 0 ∉ text ts.
Proof.
  induction ts as [|t ts IH]; intros Hg; [apply not_elem_of_nil|]. apply andb_true_iff in Hg as [Ht Hg]. rewrite text_cons.
  apply not_elem_of_app. split; [|apply not_elem_of_cons; split; [done|by apply IH]]. destruct t as [w|c].
  - apply good_word_spec in Ht as [_ Ht]. intros H0. by apply (proj1 (Forall_forall _ _) Ht) in H0 as [_ ?].
  - apply bool_decide_eq_true in Ht. unfold syms in Ht.
    repeat (apply elem_of_cons in Ht as [->|Ht]; [by apply (bool_decide_unpack _); vm_compute|]). by apply elem_of_nil in Ht.
Qed.

Lemma cmd_map_ext {A B} (f g : A → B) c : (∀ w, w ∈ words c → f w = g w) → cmd_map f c = cmd_map g c.
Proof.
  induction c as [argv|c IH w mode fd|l IHl r IHr|l IHl r IHr|c IH]; simpl; intros H.
  - f_equal. apply map_ext_in. intros w Hw. by apply H, list_elem_of_In.
  - rewrite IH, H by set_solver. f_equal; set_solver.
  - rewrite IHl, IHr by set_solver. done.
  - rewrite IHl, IHr by set_solver. done.
  - by rewrite IH.
Qed.

Lemma parsecmd_show t : wf t = true → ∃ c, parsecmd (show t) = Ret c ∧ cmd_map (slice (show t)) c = t.
Proof.
  intros Hw. set (buf := show t). assert (Hg := toks_good t 0 Hw). assert (Hz : 0 ∉ buf) by (by apply text_nonzero).
  assert (Hb0 : before buf 0 (toks 0 t ++ [])).
  { rewrite app_nil_r. split; [|done]. by rewrite (text_no_ws buf 0 (toks 0 t)). }
  pose proof (proj1 (all_read buf (parse_fuel buf)) t [] 0%nat Hw I Hb0) as Hl.
  pose proof (proj1 (parse_safe buf Hz (parse_fuel buf)) 0%nat ltac:(lia) ltac:(unfold parse_fuel; lia)) as Hsafe.
  unfold parsecmd, reads, safe, mbind, M_bind in *. destruct (parseline buf (parse_fuel buf) 0%nat) as [[c s]| |]; [|done|done].
  destruct Hl as [Hc [E _]], Hsafe as [Hs _]. exists c. split; [|done]. simpl. rewrite bool_decide_eq_true_2; [done|].
  destruct (skip_ws_ok buf Hz s) as [Hle _]; [lia|]. apply (f_equal length) in E. rewrite length_drop in E. simpl in E. lia.
Qed.

(** [C26] The parser reads a command back from what it prints as: for every command the
    shell can hold, of any nesting of lists, background jobs, pipelines,
    redirections and argument lists, parsecmd of its text succeeds, and the command
    that is in memory after nulterminate, its words read as C strings of the line,
    is the one that was printed. *)
Theorem sh_roundtrip t : wf t = true →
  ∃ c, parsecmd (show t) = Ret c ∧ cmd_map (λ w, cstring (nulterminate c (show t ++ [0])) w.1) c = t.
Proof.
  intros Hw. destruct (parsecmd_show t Hw) as (c & E & Hc). exists c. split; [done|].
  assert (Hz : 0 ∉ show t) by (by apply text_nonzero, toks_good). pose proof (parsecmd_ok (show t) Hz) as Hok. rewrite E in Hok.
  transitivity (cmd_map (slice (show t)) c); [|done]. apply cmd_map_ext. intros w Hin. rewrite nulterminate_zeros. by apply cstring_word.
Qed.

(** [(a b <c;d>>e&)|f] *)
Lemma sh_roundtrip_witness :
  let t := PIPE (LIST (REDIR (EXEC [[97]; [98]]) [99] 0 0) (BACK (REDIR (EXEC [[100]]) [101] 0x201 1))) (EXEC [[102]]) in
  show t = [40; 32; 97; 32; 98; 32; 60; 32; 99; 32; 59; 32; 100; 32; 62; 62; 32; 101; 32; 38; 32; 41; 32; 124; 32; 102; 32] ∧
  ∃ c, parsecmd (show t) = Ret c ∧ cmd_map (λ w, cstring (nulterminate c (show t ++ [0])) w.1) c = t.
Proof. intros t. split; [reflexivity|]. apply sh_roundtrip. vm_compute. reflexivity. Defined.

End ShPrint.
