(* ===== verification/ShRun.v ===== *)
(** * user/sh.c: running a command

    [runcmd] sets up descriptors with [close], [dup], [pipe] and [open] and relies on
    each of them giving the lowest free descriptor.  Here it runs on the descriptor
    table of a process, and is shown to give every program the standard input and
    output its place in the command says.

    A process is a call of [runcmd]; [fork] runs the child on a copy of the table.
    The trace lists what the processes of a command do, a child before what its
    parent does next.  [fork], [pipe] and [open] take their answer from a sequence of
    answers, so the theorems hold whichever of them fail, in any process. *)

From S2P Require Import Prelude Riscv Sh ShPrint.

Module ShRun.
Import Sh ShPrint.
Notation str := (list Z).

(** ** Descriptor tables *)

(** What a descriptor stands for. *)
Inductive obj := Inherited (n : nat) | Opened (file : str) (mode : Z) | PipeRead (id : nat) | PipeWrite (id : nat).

Notation NOFILE := (Z.to_nat Riscv.NOFILE).
Notation table := (list (option obj)).

(** [fdalloc]: the lowest free descriptor. *)
Fixpoint lowest (t : table) : option nat :=
  match t with
  | [] => None
  | None :: _ => Some 0%nat
  | Some _ :: t => S <$> lowest t
  end.
Definition fdalloc (t : table) (o : obj) : option (nat * table) :=
  match lowest t with Some fd => Some (fd, <[fd := Some o]> t) | None => None end.
Definition fd_get (t : table) (fd : nat) : option obj := mjoin (t !! fd).
Definition close (t : table) (fd : nat) : table := <[fd := None]> t.
Definition dup (t : table) (fd : nat) : table :=
  match fd_get t fd with
  | Some o => match fdalloc t o with Some (_, t') => t' | None => t end
  | None => t
  end.

(** ** The processes of a command *)

(** What a process does in the end: call [exec] on a command, or wait for children. *)
Inductive event := Exec (argv : list str) (fds : table) | Waits (children : nat) (fds : table).

(** [answers] are those of the calls to come; [pipes] have been made. *)
Record world := World { answers : nat → bool; calls : nat; pipes : nat; trace : list event }.

Definition ask : M world bool := λ w, Ret (answers w (calls w), World (answers w) (S (calls w)) (pipes w) (trace w)).
Definition new_pipe : M world nat := λ w, Ret (pipes w, World (answers w) (calls w) (S (pipes w)) (trace w)).
Definition emit (e : event) : M world unit := λ w, Ret (tt, World (answers w) (calls w) (pipes w) (trace w ++ [e])).

Definition open (t : table) (file : str) (mode : Z) : M world (option table) :=
  ok ← ask;
  if ok : bool then mret (snd <$> fdalloc t (Opened file mode)) else mret None.

(** [p[0]], [p[1]] and the table. *)
Definition pipe (t : table) : M world (option (nat * nat * table)) :=
  ok ← ask;
  if ok : bool then
    id ← new_pipe;
    match fdalloc t (PipeRead id) with
    | None => mret None
    | Some (p0, t1) =>
        match fdalloc t1 (PipeWrite id) with
        | None => mret None
        | Some (p1, t2) => mret (Some (p0, p1, t2))
        end
    end
  else mret None.

(** [if(fork1() == 0) child]; then the parent goes on, unless [fork] failed and it exits. *)
Definition fork1 (child parent : M world unit) : M world unit :=
  ok ← ask;
  if ok : bool then child;; parent else mret tt.

Fixpoint runcmd (c : cmd str) (t : table) : M world unit :=
  match c with
  | EXEC argv => match argv with [] => mret tt | _ => emit (Exec argv t) end
  | REDIR c file mode fd =>
      o ← open (close t (Z.to_nat fd)) file mode;
      match o with Some t' => runcmd c t' | None => mret tt end
  | LIST l r => fork1 (runcmd l t) (emit (Waits 1 t);; runcmd r t)
  | PIPE l r =>
      p ← pipe t;
      match p with
      | None => mret tt
      | Some (p0, p1, t1) =>
          fork1 (runcmd l (close (close (dup (close t1 1) p1) p0) p1))
            (fork1 (runcmd r (close (close (dup (close t1 0) p0) p0) p1))
              (emit (Waits 2 (close (close t1 p0) p1))))
      end
  | BACK c => fork1 (runcmd c t) (mret tt)
  end.

(** The child of the shell's main loop: [runcmd(parsecmd(buf))]. *)
Definition strings (buf : str) (c : cmd (nat * nat)) : cmd str :=
  cmd_map (λ w, cstring (nulterminate c (buf ++ [0])) w.1) c.
Definition run_line (buf : str) (t : table) : M world unit :=
  match parsecmd buf with
  | Ret c => runcmd (strings buf c) t
  | _ => mret tt
  end.

(** [while((fd = open("console", O_RDWR)) >= 0){ if(fd >= 3){ close(fd); break; } }] *)
Fixpoint open_three (fuel : nat) (console : obj) (t : table) : option table :=
  match fuel with
  | O => None
  | S fuel' =>
      match fdalloc t console with
      | None => Some t
      | Some (fd, t') => if (3 <=? fd)%nat then Some (close t' fd) else open_three fuel' console t'
      end
  end.

(** ** What a command means *)

(** Standard input, output and error. *)
Record env := Env { std_in : obj; std_out : obj; std_err : obj }.
Definition table_of (e : env) : table := Some (std_in e) :: Some (std_out e) :: Some (std_err e) :: replicate (NOFILE - 3) None.

(** [n] is 0 or 1. *)
Definition redirect (e : env) (n : Z) (o : obj) : env :=
  if n =? 0 then Env o (std_out e) (std_err e) else Env (std_in e) o (std_err e).

(** A command run in an environment: no descriptors, only who reads and writes what. *)
Fixpoint means (c : cmd str) (e : env) : M world unit :=
  match c with
  | EXEC argv => match argv with [] => mret tt | _ => emit (Exec argv (table_of e)) end
  | REDIR c file mode fd => ok ← ask; if ok : bool then means c (redirect e fd (Opened file mode)) else mret tt
  | LIST l r => fork1 (means l e) (emit (Waits 1 (table_of e));; means r e)
  | PIPE l r =>
      ok ← ask;
      if ok : bool then
        id ← new_pipe;
        fork1 (means l (redirect e 1 (PipeWrite id)))
          (fork1 (means r (redirect e 0 (PipeRead id))) (emit (Waits 2 (table_of e))))
      else mret tt
  | BACK c => fork1 (means c e) (mret tt)
  end.

(** The redirections are of descriptors 0 and 1. *)
Fixpoint std_fds {W} (c : cmd W) : Prop :=
  match c with
  | EXEC _ => True
  | REDIR c _ _ fd => (fd = 0 ∨ fd = 1) ∧ std_fds c
  | LIST l r | PIPE l r => std_fds l ∧ std_fds r
  | BACK c => std_fds c
  end.

Lemma fork1_ext (m m' k k' : M world unit) w : (∀ w, m w = m' w) → (∀ w, k w = k' w) → fork1 m k w = fork1 m' k' w.
Proof.
  intros Hm Hk. unfold fork1, mbind, M_bind, ask. destruct (answers w (calls w)); [|done]. rewrite Hm.
  by destruct (m' _) as [[[] w']| |].
Qed.

Lemma run_means c e w : std_fds c → runcmd c (table_of e) w = means c e w.
Proof.
  revert e w. induction c as [argv|c IH file mode fd|l IHl r IHr|l IHl r IHr|c IH]; intros e w Hc; cbn [runcmd means std_fds] in *.
  - done.
  - destruct Hc as [[-> | ->] Hc]; unfold open, mbind, M_bind, ask; destruct (answers w (calls w)); try done; by rewrite <- IH.
  - destruct Hc as [Hl Hr]. unfold pipe, mbind, M_bind, ask, new_pipe. destruct (answers w (calls w)); [|done]. simpl.
    apply fork1_ext; [intros w'; by rewrite <- IHl|]. intros w'. apply fork1_ext; [intros w''; by rewrite <- IHr|done].
  - destruct Hc as [Hl Hr]. apply fork1_ext; [intros w'; by apply IHl|]. intros w'. unfold mbind, M_bind, emit. by apply IHr.
  - apply fork1_ext; [intros w'; by apply IH|done].
Qed.

(** ** The redirections of a parsed command *)

Definition gives {A} (m : M nat A) (P : A → Prop) : Prop := ∀ s, match m s with Ret (a, _) => P a | _ => True end.

Lemma gives_ret {A} (a : A) (P : A → Prop) : P a → gives (mret a) P.
Proof. by intros H s. Qed.
Lemma gives_bind {A B} (m : M nat A) (k : A → M nat B) R P : gives m R → (∀ a, R a → gives (k a) P) → gives (m ≫= k) P.
Proof. intros Hm Hk s. unfold mbind, M_bind. specialize (Hm s). destruct (m s) as [[a s']| |]; [by apply Hk|done|done]. Qed.
Lemma gives_any {A} (m : M nat A) : gives m (λ _, True).
Proof. intros s. by destruct (m s) as [[a s']| |]. Qed.

Lemma std_fds_wrap {W} (c : cmd W) rs : std_fds c → std_fds (wrap c rs).
Proof.
  intros Hc. induction rs as [|[f k] rs IH] using rev_ind; [done|]. rewrite wrap_app. simpl. split; [|done]. destruct k; auto.
Qed.

Lemma std_fds_map {A B} (f : A → B) c : std_fds c → std_fds (cmd_map f c).
Proof. induction c as [argv|c IH file mode fd|l IHl r IHr|l IHl r IHr|c IH]; simpl; intuition. Qed.

Lemma parseback_fds buf fuel c : std_fds c → gives (parseback buf fuel c) std_fds.
Proof.
  revert c. induction fuel as [|fuel IH]; intros c Hc; [done|]. cbn [parseback].
  eapply gives_bind; [apply gives_any|]. intros [] _; [|by apply gives_ret]. eapply gives_bind; [apply gives_any|]. intros _ _. by apply IH.
Qed.

Lemma parse_fds buf fuel : gives (parseline buf fuel) std_fds ∧ gives (parsepipe buf fuel) std_fds ∧
  gives (parseexec buf fuel) std_fds ∧ gives (parseblock buf fuel) std_fds.
Proof.
  induction fuel as [|fuel (IHl & IHp & IHe & IHb)]; [done|]. split_and!.
  - cbn [parseline]. eapply gives_bind; [exact IHp|]. intros c Hc. eapply gives_bind; [by apply parseback_fds|]. intros c' Hc'.
    eapply gives_bind; [apply gives_any|]. intros [] _; [|by apply gives_ret]. eapply gives_bind; [apply gives_any|]. intros _ _.
    eapply gives_bind; [exact IHl|]. intros r Hr. by apply gives_ret.
  - cbn [parsepipe]. eapply gives_bind; [exact IHe|]. intros c Hc.
    eapply gives_bind; [apply gives_any|]. intros [] _; [|by apply gives_ret]. eapply gives_bind; [apply gives_any|]. intros _ _.
    eapply gives_bind; [exact IHp|]. intros r Hr. by apply gives_ret.
  - cbn [parseexec]. eapply gives_bind; [apply gives_any|]. intros [] _; [exact IHb|]. eapply gives_bind; [apply gives_any|]. intros rs _.
    eapply gives_bind; [apply gives_any|]. intros r _. apply gives_ret. by apply std_fds_wrap.
  - cbn [parseblock]. eapply gives_bind; [apply gives_any|]. intros [] _; [|done]. cbn [negb]. eapply gives_bind; [apply gives_any|]. intros _ _.
    eapply gives_bind; [exact IHl|]. intros c Hc. eapply gives_bind; [apply gives_any|]. intros [] _; [|done]. cbn [negb].
    eapply gives_bind; [apply gives_any|]. intros _ _. eapply gives_bind; [apply gives_any|]. intros rs _. apply gives_ret. by apply std_fds_wrap.
Qed.

Lemma parsecmd_fds buf c : parsecmd buf = Ret c → std_fds c.
Proof.
  unfold parsecmd, mbind, M_bind. pose proof (proj1 (parse_fds buf (parse_fuel buf)) 0%nat) as H.
  destruct (parseline buf (parse_fuel buf) 0%nat) as [[c' s]| |]; [|done|done]. simpl. case_bool_decide; [|done]. by intros [= <-].
Qed.

(** ** Pipes reach end of file *)

Definition objs (e : env) : list obj := [std_in e; std_out e; std_err e].
Definition one_end (e : env) : Prop := ∀ id, ¬ (PipeRead id ∈ objs e ∧ PipeWrite id ∈ objs e).
Definition below (n : nat) (e : env) : Prop := ∀ id, PipeRead id ∈ objs e ∨ PipeWrite id ∈ objs e → (id < n)%nat.
Definition event_fds (ev : event) : table := match ev with Exec _ t | Waits _ t => t end.

(** The process has its three descriptors, no more, and never both ends of a pipe. *)
Definition tidy (ev : event) : Prop := ∃ e, event_fds ev = table_of e ∧ one_end e.

Definition adds (w w' : world) : Prop := (pipes w ≤ pipes w')%nat ∧ ∃ evs, trace w' = trace w ++ evs ∧ Forall tidy evs.

Lemma adds_refl w : adds w w.
Proof. split; [done|]. exists []. by rewrite app_nil_r. Qed.
Lemma adds_trans w1 w2 w3 : adds w1 w2 → adds w2 w3 → adds w1 w3.
Proof.
  intros [H1 (e1 & E1 & F1)] [H2 (e2 & E2 & F2)]. split; [lia|]. exists (e1 ++ e2). by rewrite E2, E1, app_assoc, Forall_app.
Qed.

Definition tidy_run (m : M world unit) (n : nat) : Prop := ∀ w, (n ≤ pipes w)%nat → wp m (λ _ w', adds w w') w.

Lemma emit_tidy ev n : tidy ev → tidy_run (emit ev) n.
Proof. intros Ht w _. split; [done|]. exists [ev]. by rewrite Forall_singleton. Qed.
Lemma seq_tidy m k n : tidy_run m n → tidy_run k n → tidy_run (m;; k) n.
Proof.
  intros Hm Hk w Hn. apply wp_bind. eapply wp_mono; [by apply Hm|]. intros [] w1 H1. eapply wp_mono; [apply Hk; destruct H1; lia|].
  intros [] w2 H2. by eapply adds_trans.
Qed.
Lemma ask_tidy (k : bool → M world unit) n : (∀ b, tidy_run (k b) n) → tidy_run (b ← ask; k b) n.
Proof.
  intros Hk w Hn. apply wp_bind. change (wp (k (answers w (calls w))) (λ _ w', adds w w') (World (answers w) (S (calls w)) (pipes w) (trace w))).
  eapply wp_mono; [by apply (Hk _ (World (answers w) (S (calls w)) (pipes w) (trace w)))|]. intros [] w' Ha. exact Ha.
Qed.
Lemma ret_tidy n : tidy_run (mret tt) n.
Proof. intros w _. apply adds_refl. Qed.
Lemma fork1_tidy m k n : tidy_run m n → tidy_run k n → tidy_run (fork1 m k) n.
Proof. intros Hm Hk. apply ask_tidy. intros []; [by apply seq_tidy|apply ret_tidy]. Qed.

Lemma below_redirect e n fd o m : below n e → (n ≤ m)%nat → (∀ id, o = PipeRead id ∨ o = PipeWrite id → (id < m)%nat) → below m (redirect e fd o).
Proof. intros He Hm Ho id. specialize (He id). specialize (Ho id). unfold redirect, objs in *. case_match; set_solver by lia. Qed.

Lemma one_end_redirect e n fd o : one_end e → below n e → (∀ id, o = PipeRead id ∨ o = PipeWrite id → (n ≤ id)%nat) → one_end (redirect e fd o).
Proof.
  intros He Hb Ho id. specialize (He id). specialize (Hb id). specialize (Ho id). unfold redirect, objs in *. 
  case_match; set_solver by lia.
Qed.

Lemma means_tidy c e n : one_end e → below n e → tidy_run (means c e) n.
Proof.
  revert e n. induction c as [argv|c IH file mode fd|l IHl r IHr|l IHl r IHr|c IH]; intros e n He Hb; cbn [means].
  - destruct argv; [apply ret_tidy|]. apply emit_tidy. by exists e.
  - apply ask_tidy. intros []; [|apply ret_tidy]. apply IH; [by eapply one_end_redirect; [..|intros id [?|?]]|].
    by eapply below_redirect; [..|intros id [?|?]].
  - apply ask_tidy. intros []; [|apply ret_tidy]. intros w Hn. apply wp_bind.
    set (w1 := World (answers w) (calls w) (S (pipes w)) (trace w)).
    assert (Hw1 : adds w w1) by (split; [simpl; lia|exists []; by rewrite app_nil_r]).
    assert (Hrun : tidy_run (fork1 (means l (redirect e 1 (PipeWrite (pipes w))))
      (fork1 (means r (redirect e 0 (PipeRead (pipes w)))) (emit (Waits 2 (table_of e))))) (S (pipes w))).
    { apply fork1_tidy; [apply IHl|apply fork1_tidy; [apply IHr|apply emit_tidy; by exists e]].
      1,3: eapply one_end_redirect; [done..|]; intros id [?|?]; simplify_eq; lia.
      all: eapply below_redirect; [done|lia|]; intros id [?|?]; simplify_eq; lia. }
    eapply (wp_mono _ _ _ w1); [by apply Hrun|]. intros [] w2 H2. by eapply adds_trans.
  - apply fork1_tidy; [by apply IHl|]. apply seq_tidy; [|by apply IHr]. apply emit_tidy. by exists e.
  - apply fork1_tidy; [by apply IH|apply ret_tidy].
Qed.

(** [C27] Running a line: whatever the line, and whichever calls of fork, pipe and
    open fail in whichever processes, the processes the shell makes do what the
    command means.  A redirected command has the file for its descriptor, the left
    side of a pipe writes to it and the right side reads from it, and the process in
    between waits with the descriptors it was given.  Every program is started with
    its three descriptors and no other, and no process keeps both ends of a pipe, so
    that a reader is not kept from the end of its file by a forgotten writer. *)
Theorem sh_run_means buf e w : one_end e → below (pipes w) e → 
  match parsecmd buf with
  | Ret c => run_line buf (table_of e) w = means (strings buf c) e w
  | _ => run_line buf (table_of e) w = Ret (tt, w)
  end ∧
  ∃ w' evs, run_line buf (table_of e) w = Ret (tt, w') ∧ trace w' = trace w ++ evs ∧ Forall tidy evs.
Proof.
  intros He Hb. unfold run_line. destruct (parsecmd buf) as [c| |] eqn:E.
  2,3: split; [done|]; exists w, []; by rewrite app_nil_r.
  rewrite run_means by (by eapply std_fds_map, parsecmd_fds). split; [done|].
  destruct (wp_inv _ _ _ (means_tidy (strings buf c) e (pipes w) He Hb w (le_n _))) as ([] & w' & Hrun & _ & evs & Ht & Hevs).
  by exists w', evs.
Qed.

(** [ls >f|wc], with all calls answered and then with the second fork failing. *)
Lemma sh_run_means_witness : let buf := [108; 115; 32; 62; 102; 124; 119; 99] in
  let e := Env (Inherited 0) (Inherited 1) (Inherited 2) in
  (∃ w', run_line buf (table_of e) (World (λ _, true) 0 0 []) = Ret (tt, w') ∧
    trace w' = [Exec [[108; 115]] (table_of (Env (Inherited 0) (Opened [102] 0x601) (Inherited 2)));
                Exec [[119; 99]] (table_of (Env (PipeRead 0) (Inherited 1) (Inherited 2)));
                Waits 2 (table_of e)]) ∧
  ∃ w' evs, run_line buf (table_of e) (World (λ n, (n <? 3)%nat) 0 0 []) = Ret (tt, w') ∧ trace w' = evs ∧ Forall tidy evs.
Proof.
  intros buf e. split.
  - eexists. split; [vm_compute; reflexivity|]. reflexivity.
  - assert (He : one_end e) by (intros id [H _]; unfold objs, e in H; set_solver).
    assert (Hb : below 0 e) by (intros id [H|H]; unfold objs, e in H; set_solver).
    destruct (sh_run_means buf e (World (λ n, (n <? 3)%nat) 0 0 []) He Hb) as [_ (w' & evs & H1 & H2 & H3)].
    exists w', evs. split; [exact H1|]. split; [exact H2|exact H3].
Defined.

(** ** The shell's own descriptors *)

Lemma close_lowest t k o : lowest t = Some k → close (<[k := Some o]> t) k = t.
Proof.
  revert k. induction t as [|[x|] t IH]; intros k Hk; simpl in Hk; [done| |by injection Hk as <-].
  destruct (lowest t) as [j|]; [|done]. injection Hk as <-. unfold close in *. simpl. by rewrite IH.
Qed.

(** The loop of main fills the free ones of the first three and changes no other. *)
Lemma open_three_ok con a b c t k : lowest t = Some k →
  open_three 4 con (a :: b :: c :: t) = Some (Some (default con a) :: Some (default con b) :: Some (default con c) :: t).
Proof.
  intros Hk. pose proof (close_lowest t k con Hk) as Hc. unfold close in Hc.
  assert (He : ∀ f x y z, open_three (S f) con (Some x :: Some y :: Some z :: t) = Some (Some x :: Some y :: Some z :: t)).
  { intros f x y z. cbn [open_three]. unfold fdalloc. cbn [lowest]. rewrite Hk. simpl. unfold close. simpl. do 4 f_equal. exact Hc. }
  destruct a, b, c; apply He.
Qed.

(** [init] opens the console once and duplicates it twice; its child [exec]s the shell. *)
Definition init_fds (con : obj) : option table :=
  match fdalloc (replicate NOFILE None) con with Some (_, t) => Some (dup (dup t 0) 0) | None => None end.
Lemma shell_fds con : (t ← init_fds con; open_three 4 con t) = Some (table_of (Env con con con)).
Proof. done. Qed.

End ShRun.
